(** * grok-art-p: request dispatch, stream decoding and failover

    A shallow embedding of the request-dispatch core of the gateway:

    - [routes/v1/messages.ts]  the Anthropic-compatible endpoint (streaming
      and non-streaming), module [Messages];
    - [grok/imageEdit.ts]      the image-edit stream decoder, in its two
      revisions, modules [ImageEditV1] and [ImageEdit];
    - [routes/imagine.ts]      the [generate], [img2img] and [proxy]
      routes, module [Imagine];
    - [middleware/api-auth.ts] the API-key middleware, module [ApiAuth],
      its first revision, module [ApiAuthV1], and the middleware run on
      the key store, module [Gateway];
    - [grok/models.ts] and [routes/v1/models.ts]  the table of models,
      module [Models];
    - [routes/v1/messages.ts]  the conversion of the request and the
      handler as a whole, module [Convert];
    - [repo/api-keys.ts] and [routes/api-keys.ts]  the key store and its
      routes, modules [ApiKeys] and [ApiKeyRoutes];
    - [routes/imagine.ts]      the [scroll] and [video] routes, modules
      [Scroll] and [Video];
    - [static/js/modules/img2img.js]  the cards of the page, module
      [Page].

    [Orchestrator] describes the failover state machine that the retry
    loops of /v1/messages are proved to compute; [Demo], [Scenario] and
    [Cases] hold a small runtime and the environments of the examples.

    JavaScript strings are modelled by [string]; one character of a
    [string] stands for one code unit of the JavaScript string, so that
    [String.length] is [.length].  Asynchronous generators are modelled by
    what a consumer can observe of them: the finite list of values they
    yield and the way they end ([Gen]).  The credential store and the
    upstream are the environment: a call is run against a script that
    lists, attempt by attempt, what the store and the upstream answered. *)

From Stdlib Require Import String Ascii List ZArith QArith Qround Lia Bool Arith.
From Stdlib Require Import DecimalString Qminmax Relations.
From Stdlib Require Import Permutation.
Import ListNotations.

Close Scope Q_scope.
Local Open Scope nat_scope.
Local Open Scope string_scope.
Local Open Scope list_scope.

(* ================================================================== *)
(** ** JavaScript strings *)

Module Js.

(** [s.startsWith(p)] *)
Definition startsWith (s p : string) : bool := String.prefix p s.

(** [s.includes(sub)] *)
Fixpoint includes (s sub : string) : bool :=
  String.prefix sub s ||
  match s with
  | EmptyString => false
  | String _ s' => includes s' sub
  end.

(** [s.slice(0, n)] for a non-negative [n] *)
Definition slice0 (n : nat) (s : string) : string := String.substring 0 n s.

(** [s.replace(/^\//, "")]: drop one leading slash *)
Definition stripLeadingSlash (s : string) : string :=
  match s with
  | String c s' => if Ascii.eqb c "/" then s' else s
  | EmptyString => s
  end.

(** Template-literal rendering of a non-negative integer. *)
Definition ofNat (n : nat) : string := NilEmpty.string_of_uint (Nat.to_uint n).

(** White space removed by [trim()], within the code units below 256:
    TAB, LF, VT, FF, CR, SPACE and NBSP. *)
Definition isSpace (c : ascii) : bool :=
  let n := nat_of_ascii c in
  ((9 <=? n)%nat && (n <=? 13)%nat) || (n =? 32)%nat || (n =? 160)%nat.

(** [!s.trim()]: the string has nothing but white space. *)
Fixpoint blank (s : string) : bool :=
  match s with
  | EmptyString => true
  | String c s' => isSpace c && blank s'
  end.

(** [s.split(sep)] for a one-character separator, with the last piece
    set apart: the pieces closed by a separator, in order, and the piece
    that follows the last separator. *)
Fixpoint splitOn (sep : ascii) (s : string) : list string * string :=
  match s with
  | EmptyString => ([], EmptyString)
  | String c s' =>
      let '(ls, r) := splitOn sep s' in
      if Ascii.eqb c sep then
        (* a separator closes the (empty) piece that starts here *)
        (EmptyString :: ls, r)
      else
        match ls with
        | [] => ([], String c r)
        | l :: ls' => (String c l :: ls', r)
        end
  end.

(** [s.split(sep)] *)
Definition split (sep : ascii) (s : string) : list string :=
  let '(ls, r) := splitOn sep s in ls ++ [r].

(** [lines = s.split("\n"); rest = lines.pop() || ""] *)
Definition splitLines (s : string) : list string * string := splitOn "010" s.

(** [s.slice(n)] for a non-negative [n] *)
Fixpoint sliceFrom (n : nat) (s : string) : string :=
  match n, s with
  | O, _ => s
  | S n', String _ s' => sliceFrom n' s'
  | S _, EmptyString => EmptyString
  end.

(** The text before the first [sep] and the text after it; [None] when
    [s.indexOf(sep) === -1]. *)
Fixpoint cut (sep : ascii) (s : string) : option (string * string) :=
  match s with
  | EmptyString => None
  | String c s' =>
      if Ascii.eqb c sep then Some (EmptyString, s')
      else match cut sep s' with
           | Some (a, b) => Some (String c a, b)
           | None => None
           end
  end.

(** [s.split(sep)[0]] *)
Definition piece0 (sep : ascii) (s : string) : string :=
  match cut sep s with
  | Some (a, _) => a
  | None => s
  end.

(** [s.split(sep)[1]]; [None] is [undefined] *)
Definition piece1 (sep : ascii) (s : string) : option string :=
  match cut sep s with
  | Some (_, b) => Some (piece0 sep b)
  | None => None
  end.

(** [s.toLowerCase()], on the letters A to Z *)
Definition lowerChar (c : ascii) : ascii :=
  let n := nat_of_ascii c in
  if (65 <=? n)%nat && (n <=? 90)%nat then ascii_of_nat (n + 32) else c.

Fixpoint toLowerCase (s : string) : string :=
  match s with
  | EmptyString => EmptyString
  | String c s' => String (lowerChar c) (toLowerCase s')
  end.

(** The strings of a list, one after the other. *)
Definition joined (ts : list string) : string := fold_right String.append "" ts.

(** Truthiness of an optional string: [undefined] and [""] are falsy. *)
Definition truthyStr (o : option string) : bool :=
  match o with
  | Some (String _ _) => true
  | _ => false
  end.

(** [o || d] on an optional string. *)
Definition orElse (o : option string) (d : string) : string :=
  match o with
  | Some (String c s) => String c s
  | _ => d
  end.

End Js.

(* ================================================================== *)
(** ** JSON values *)

Module Json.

(** A parsed JSON document, or a value handed to [JSON.stringify].  The
    fields of an object are listed in [Object.keys] order. *)
#[warnings="-register-all"] Inductive json : Type :=
| JNull
| JBool (b : bool)
| JNum (q : Q)
| JStr (s : string)
| JArr (items : list json)
| JObj (fields : list (string * json)).

Definition jnat (n : nat) : json := JNum (inject_Z (Z.of_nat n)).
Definition jint (z : Z) : json := JNum (inject_Z z).

Fixpoint assoc (k : string) (fs : list (string * json)) : option json :=
  match fs with
  | [] => None
  | (k', v) :: fs' => if String.eqb k k' then Some v else assoc k fs'
  end.

(** [v[k]] for a property name [k] that no prototype defines; [None] is
    [undefined]. *)
Definition get (k : string) (v : json) : option json :=
  match v with
  | JObj fs => assoc k fs
  | _ => None
  end.

(** [v?.[k]] on a value that may be [undefined]. *)
Definition getOpt (k : string) (o : option json) : option json :=
  match o with
  | Some v => get k v
  | None => None
  end.

(** JavaScript truthiness; [None] is [undefined]. *)
Definition truthy (o : option json) : bool :=
  match o with
  | None | Some JNull => false
  | Some (JBool b) => b
  | Some (JNum q) => negb (Qeq_bool q 0)
  | Some (JStr s) => negb (String.eqb s "")
  | Some (JArr _) | Some (JObj _) => true
  end.

(** [o || 0] *)
Definition orZero (o : option json) : json :=
  match o with
  | Some v => if truthy o then v else jnat 0
  | None => jnat 0
  end.

(** [Object.keys(v)] *)
Definition keys (v : json) : list string :=
  match v with
  | JObj fs => map fst fs
  | JArr items => map Js.ofNat (seq 0 (List.length items))
  | JStr s => map Js.ofNat (seq 0 (String.length s))
  | _ => []
  end.

End Json.

(* ================================================================== *)
(** ** What both routes files share *)

(** Modelled from the spec: the type [TokenRow] of a row of the credential
    store is declared in repo/tokens.ts, which is not among the sources; a
    credential has an id and two opaque session secrets, the fields that
    the routes read. *)
Record TokenRow : Type := { id : string; sso : string; sso_rw : string }.

(** An asynchronous generator, as its consumer sees it: the values it
    yields, then a normal end ([thrown = None]) or a rejection carrying the
    message of the error thrown. *)
Record Gen (U : Type) : Type := MkGen { yields : list U; thrown : option string }.
Arguments MkGen {U} _ _.
Arguments yields {U} _.
Arguments thrown {U} _.

(** One server-sent event: [event: <event>\ndata: <JSON.stringify(data)>\n\n].
    The frame is kept as the two values the wire text interpolates. *)
Record Sse : Type := { event : string; data : Json.json }.

(** What one turn of a retry loop does to the loop. *)
Inductive Flow (S R : Type) : Type :=
| Continue (s : S)      (* next turn of the [while] *)
| Break (s : S)         (* [break]: the code after the loop runs *)
| Return (r : R).       (* [return] from inside the loop *)
Arguments Continue {S R} _.
Arguments Break {S R} _.
Arguments Return {S R} _.

(* ================================================================== *)
(** ** repo/api-keys.ts and middleware/api-auth.ts *)

(** The key information that [validateApiKey] returns. *)
Record ApiKeyInfo : Type :=
  { key_id : string;        (* [id] *)
    key : string;
    name : string;
    enabled : bool;
    rate_limit : Z;
    daily_usage : Z }.

Module ApiAuth.
Import Json.

(** [createErrorResponse(c, status, message, type, code)] *)
Definition createErrorResponse (status : nat) (message type code : string)
  : nat * json :=
  (status,
   JObj [("error", JObj [("message", JStr message); ("type", JStr type);
                         ("code", JStr code)])]).

(** [extractBearerToken(authHeader)] *)
Definition extractBearerToken (authHeader : option string) : option string :=
  if negb (Js.truthyStr authHeader) then None
  else
    match Js.split " " (Js.orElse authHeader "") with
    | [scheme; value] =>
        if negb (String.eqb (Js.toLowerCase scheme) "bearer") then None
        else if Js.truthyStr (Some value) then Some value else None
    | _ => None
    end.

(** [apiAuthMiddleware]: the error response it returns, or the result of
    [next()] run with the key information stored in the context.
    [validateApiKey] is the answer of the key store for each key. *)
Definition apiAuthMiddleware {A : Type} (x_api_key authorization : option string)
    (validateApiKey : string -> option ApiKeyInfo) (next : ApiKeyInfo -> A)
  : (nat * json) + A :=
  let token :=
    if Js.truthyStr x_api_key then x_api_key else extractBearerToken authorization in
  match token with
  | None =>
      inl (createErrorResponse 401
             "Missing or invalid Authorization header. Expected format: Bearer <api_key>"
             "authentication_error" "missing_api_key")
  | Some tok =>
      match validateApiKey tok with
      | None =>
          inl (createErrorResponse 401 "Invalid API key"
                 "authentication_error" "invalid_api_key")
      | Some keyInfo =>
          if negb (enabled keyInfo) then
            inl (createErrorResponse 403 "API key is disabled"
                   "authentication_error" "api_key_disabled")
          else if ((0 <? rate_limit keyInfo) && (rate_limit keyInfo <=? daily_usage keyInfo))%Z
          then
            inl (createErrorResponse 429 "Rate limit exceeded. Please try again later."
                   "rate_limit_error" "rate_limit_exceeded")
          else inr (next keyInfo)
      end
  end.

End ApiAuth.

(* ================================================================== *)
(** ** routes/v1/messages.ts *)

Module Messages.
Import Json.

Definition MAX_RETRIES : nat := 5.

(** Modelled from the spec: the type of the updates of [streamChat] is
    declared in grok/chat.ts, which is not among the sources; an update is
    a normalized event (text delta, completion, error) and has the three
    fields that the route reads, [content] and [message] being optional. *)
Record Update : Type :=
  { type : string; content : option string; message : option string }.

(** One turn of the retry loop, seen from the environment: the store had
    no credential left, or it returned [token] and [streamChat] on that
    credential behaved as [chat]. *)
Inductive Attempt : Type :=
| NoToken
| WithToken (token : TokenRow) (chat : Gen Update).

Record AnthropicRequest : Type :=
  { model : string;
    messages : option (list json);   (* [None]: absent or not an array *)
    system : option string;
    stream : option bool }.

(** *** SSE event builders *)

Definition sseEvent (ev : string) (d : json) : Sse := {| event := ev; data := d |}.

Definition evtMessageStart (msgId mdl : string) : Sse :=
  sseEvent "message_start"
    (JObj [("type", JStr "message_start");
           ("message",
             JObj [("id", JStr msgId);
                   ("type", JStr "message");
                   ("role", JStr "assistant");
                   ("content", JArr []);
                   ("model", JStr mdl);
                   ("stop_reason", JNull);
                   ("stop_sequence", JNull);
                   ("usage", JObj [("input_tokens", jnat 0);
                                   ("output_tokens", jnat 0)])])]).

Definition evtContentBlockStart : Sse :=
  sseEvent "content_block_start"
    (JObj [("type", JStr "content_block_start");
           ("index", jnat 0);
           ("content_block", JObj [("type", JStr "text"); ("text", JStr "")])]).

Definition evtPing : Sse := sseEvent "ping" (JObj [("type", JStr "ping")]).

Definition evtDelta (text : string) : Sse :=
  sseEvent "content_block_delta"
    (JObj [("type", JStr "content_block_delta");
           ("index", jnat 0);
           ("delta", JObj [("type", JStr "text_delta"); ("text", JStr text)])]).

Definition evtContentBlockStop : Sse :=
  sseEvent "content_block_stop"
    (JObj [("type", JStr "content_block_stop"); ("index", jnat 0)]).

Definition evtMessageDelta (outputTokens : nat) : Sse :=
  sseEvent "message_delta"
    (JObj [("type", JStr "message_delta");
           ("delta", JObj [("stop_reason", JStr "end_turn");
                           ("stop_sequence", JNull)]);
           ("usage", JObj [("output_tokens", jnat outputTokens)])]).

Definition evtMessageStop : Sse :=
  sseEvent "message_stop" (JObj [("type", JStr "message_stop")]).

(** [Math.ceil(n / 4)] on a length [n]. *)
Definition ceilQuarter (n : nat) : nat :=
  Z.to_nat (Qceiling (Qmake (Z.of_nat n) 4)).

(** The bracketed marker an error is wrapped in. *)
Definition errorMarker (msg : string) : string :=
  ("[Error: " ++ msg ++ "]")%string.

(** The response of the route and the calls made to
    [incrementApiKeyUsage], by key id. *)
Inductive Response : Type :=
| JsonResponse (status : nat) (body : json)
| EventStream (chunks : list Sse).

Record Outcome : Type := { response : Response; usageCalls : list string }.

Definition errorBody (kind msg : string) : json :=
  JObj [("type", JStr "error");
        ("error", JObj [("type", JStr kind); ("message", JStr msg)])].

(** [if (apiKeyInfo) await incrementApiKeyUsage(c.env.DB, apiKeyInfo.id)],
    reached when [ok]. *)
Definition usageOf (ok : bool) (apiKeyInfo : option ApiKeyInfo) : list string :=
  if ok then
    match apiKeyInfo with
    | Some info => [key_id info]
    | None => []
    end
  else [].

(** The test applied to the message of an error update. *)
Definition retryableUpdate (msg : string) : bool :=
  Js.includes msg "429" || Js.includes msg "rate" || Js.includes msg "401".

(** The test applied to the message of a caught exception. *)
Definition retryableThrow (msg : string) : bool :=
  Js.includes msg "429" || Js.includes msg "rate".

(** *** The streaming branch *)

Module Stream.

Record StreamState : Type :=
  { excludedTokenIds : list string;
    retryCount : nat;
    success : bool;
    charCount : nat;
    pushed : list Sse }.

Definition push (e : Sse) (st : StreamState) : StreamState :=
  {| excludedTokenIds := excludedTokenIds st; retryCount := retryCount st;
     success := success st; charCount := charCount st;
     pushed := pushed st ++ [e] |}.

(** [excludedTokenIds.push(token.id); retryCount++] *)
Definition rotate (tok : TokenRow) (st : StreamState) : StreamState :=
  {| excludedTokenIds := excludedTokenIds st ++ [id tok];
     retryCount := S (retryCount st);
     success := success st; charCount := charCount st; pushed := pushed st |}.

Definition addChars (n : nat) (st : StreamState) : StreamState :=
  {| excludedTokenIds := excludedTokenIds st; retryCount := retryCount st;
     success := success st; charCount := charCount st + n;
     pushed := pushed st |}.

Definition succeed (st : StreamState) : StreamState :=
  {| excludedTokenIds := excludedTokenIds st; retryCount := retryCount st;
     success := true; charCount := charCount st; pushed := pushed st |}.

(** The [for await] over the updates of one credential.  The result says
    whether the loop was left by [break], the value of [tokenDone], and
    the state. *)
Fixpoint forAwait (us : list Update) (tok : TokenRow) (st : StreamState)
  : bool * bool * StreamState :=
  match us with
  | [] => (false, false, st)
  | u :: rest =>
      if String.eqb (type u) "error" then
        let msg := Js.orElse (message u) "" in
        if retryableUpdate msg then (true, false, rotate tok st)
        else (true, true, push (evtDelta (errorMarker msg)) st)
      else
        let st1 :=
          if String.eqb (type u) "token" && Js.truthyStr (content u) then
            let text := Js.orElse (content u) "" in
            push (evtDelta text) (addChars (String.length text) st)
          else st in
        if String.eqb (type u) "done" then (true, true, succeed st1)
        else forAwait rest tok st1
  end.

(** One turn of [while (retryCount < MAX_RETRIES)]. *)
Definition turn (a : Attempt) (st : StreamState)
    : Flow StreamState Empty_set :=
  match a with
  | NoToken =>
      let errMsg :=
        if (0 <? List.length (excludedTokenIds st))%nat
        then "All tokens rate limited" else "No available tokens" in
      Break (push (evtDelta (errorMarker errMsg)) st)
  | WithToken tok chat =>
      let '(broke, tokenDone, st1) := forAwait (yields chat) tok st in
      match (if broke then None else thrown chat) with
      | Some msg =>
          (* catch (e) *)
          if retryableThrow msg then Continue (rotate tok st1)
          else Break (push (evtDelta (errorMarker msg)) st1)
      | None =>
          if success st1 || tokenDone then Break st1 else Continue st1
      end
  end.

(** The retry loop, run against the script of the attempts.  [None]: the
    script ends while the loop is still asking for a credential. *)
Fixpoint loop (script : list Attempt) (st : StreamState)
  : option StreamState :=
  if (retryCount st <? MAX_RETRIES)%nat then
    match script with
    | [] => None
    | a :: script' =>
        match turn a st with
        | Continue st' => loop script' st'
        | Break st' => Some st'
        | Return r => match r with end
        end
    end
  else Some st.

Definition init (msgId rawModel : string) : StreamState :=
  {| excludedTokenIds := []; retryCount := 0; success := false; charCount := 0;
     pushed := [evtMessageStart msgId rawModel; evtContentBlockStart; evtPing] |}.

(** What the stream sends after the loop. *)
Definition close (st : StreamState) : list Sse :=
  pushed st ++
  [evtContentBlockStop; evtMessageDelta (ceilQuarter (charCount st)); evtMessageStop].

Definition streaming (msgId rawModel : string) (apiKeyInfo : option ApiKeyInfo)
    (script : list Attempt) : option Outcome :=
  match loop script (init msgId rawModel) with
  | None => None
  | Some st =>
      Some {| response := EventStream (close st);
              usageCalls := usageOf (success st) apiKeyInfo |}
  end.

End Stream.

(** *** The non-streaming branch *)

Module Plain.

Record State : Type :=
  { excludedTokenIds : list string;
    retryCount : nat;
    fullContent : string;
    success : bool;
    lastError : string }.

(** [excludedTokenIds.push(token.id); retryCount++; lastError = msg] *)
Definition rotate (tok : TokenRow) (msg : string) (st : State) : State :=
  {| excludedTokenIds := excludedTokenIds st ++ [id tok];
     retryCount := S (retryCount st);
     fullContent := fullContent st; success := success st;
     lastError := msg |}.

Definition append (text : string) (st : State) : State :=
  {| excludedTokenIds := excludedTokenIds st; retryCount := retryCount st;
     fullContent := (fullContent st ++ text)%string; success := success st;
     lastError := lastError st |}.

Definition succeed (st : State) : State :=
  {| excludedTokenIds := excludedTokenIds st; retryCount := retryCount st;
     fullContent := fullContent st; success := true;
     lastError := lastError st |}.

Definition overloaded (msg : string) : Response :=
  JsonResponse 529 (errorBody "overloaded_error" msg).

Definition apiError (msg : string) : Response :=
  JsonResponse 500 (errorBody "api_error" msg).

(** How the [for await] over one credential's updates ends. *)
Inductive Inner : Type :=
| Exhausted (st : State)     (* the generator has no more updates *)
| Broken (st : State)        (* [break] *)
| Returned (r : Response).   (* [return Response.json(...)] *)

Fixpoint forAwait (us : list Update) (tok : TokenRow) (st : State) : Inner :=
  match us with
  | [] => Exhausted st
  | u :: rest =>
      if String.eqb (type u) "error" then
        let msg := Js.orElse (message u) "" in
        if retryableUpdate msg then Broken (rotate tok msg st)
        else Returned (apiError msg)
      else
        let st1 :=
          if String.eqb (type u) "token" && Js.truthyStr (content u)
          then append (Js.orElse (content u) "") st else st in
        if String.eqb (type u) "done" then Broken (succeed st1)
        else forAwait rest tok st1
  end.

(** One turn of [while (retryCount < MAX_RETRIES)]. *)
Definition turn (a : Attempt) (st : State) : Flow State Response :=
  match a with
  | NoToken =>
      let msg :=
        if (0 <? List.length (excludedTokenIds st))%nat
        then ("All tokens rate limited (tried "
                ++ Js.ofNat (List.length (excludedTokenIds st)) ++ ")")%string
        else "No available tokens" in
      Return (overloaded msg)
  | WithToken tok chat =>
      match forAwait (yields chat) tok st with
      | Returned r => Return r
      | Broken st1 => if success st1 then Break st1 else Continue st1
      | Exhausted st1 =>
          match thrown chat with
          | Some msg =>
              (* catch (e) *)
              if retryableThrow msg then Continue (rotate tok msg st1)
              else Return (apiError msg)
          | None => if success st1 then Break st1 else Continue st1
          end
      end
  end.

(** The retry loop: the response returned from inside it, or the state
    in which it is left.  [None]: the script ends while the loop is
    still asking for a credential. *)
Fixpoint loop (script : list Attempt) (st : State) : option (Response + State) :=
  if (retryCount st <? MAX_RETRIES)%nat then
    match script with
    | [] => None
    | a :: script' =>
        match turn a st with
        | Continue st' => loop script' st'
        | Break st' => Some (inr st')
        | Return r => Some (inl r)
        end
    end
  else Some (inr st).

Definition init : State :=
  {| excludedTokenIds := []; retryCount := 0; fullContent := "";
     success := false; lastError := "" |}.

Definition messageBody (msgId rawModel text : string) : json :=
  JObj [("id", JStr msgId);
        ("type", JStr "message");
        ("role", JStr "assistant");
        ("content", JArr [JObj [("type", JStr "text"); ("text", JStr text)]]);
        ("model", JStr rawModel);
        ("stop_reason", JStr "end_turn");
        ("stop_sequence", JNull);
        ("usage", JObj [("input_tokens", jnat 0);
                        ("output_tokens", jnat (ceilQuarter (String.length text)))])].

(** The code after the loop. *)
Definition finish (msgId rawModel : string) (apiKeyInfo : option ApiKeyInfo)
    (st : State) : Outcome :=
  if negb (success st) then
    {| response := overloaded (Js.orElse (Some (lastError st)) "Failed after retries");
       usageCalls := [] |}
  else
    {| response := JsonResponse 200 (messageBody msgId rawModel (fullContent st));
       usageCalls := usageOf true apiKeyInfo |}.

Definition nonStreaming (msgId rawModel : string) (apiKeyInfo : option ApiKeyInfo)
    (script : list Attempt) : option Outcome :=
  match loop script init with
  | None => None
  | Some (inl r) => Some {| response := r; usageCalls := [] |}
  | Some (inr st) => Some (finish msgId rawModel apiKeyInfo st)
  end.

End Plain.

(** *** POST /v1/messages *)

Definition invalidRequest (msg : string) : Outcome :=
  {| response := JsonResponse 400 (errorBody "invalid_request_error" msg);
     usageCalls := [] |}.

(** [body] is [None] when the request body is not JSON; [msgId] is the
    identifier drawn for the call. *)
Definition post (body : option AnthropicRequest) (apiKeyInfo : option ApiKeyInfo)
    (msgId : string) (script : list Attempt) : option Outcome :=
  match body with
  | None => Some (invalidRequest "Invalid JSON body")
  | Some req =>
      match messages req with
      | None | Some [] =>
          Some (invalidRequest "messages is required and must be a non-empty array")
      | Some (_ :: _) =>
          match stream req with
          | Some true => Stream.streaming msgId (model req) apiKeyInfo script
          | _ => Plain.nonStreaming msgId (model req) apiKeyInfo script
          end
      end
  end.

End Messages.

(* ================================================================== *)
(** ** The JavaScript runtime *)

(** Built-ins of the language that the code calls and that are not part of
    the repository.  Every statement below holds for any choice of them. *)
Class Runtime : Type :=
  { (** [JSON.parse(s)]; [None] when it throws *)
    JSON_parse : string -> option Json.json;
    (** [JSON.stringify(v)] *)
    JSON_stringify : Json.json -> string;
    (** [encodeURIComponent(s)] *)
    encodeURIComponent : string -> string;
    (** [String(v)], the text a template literal gives for a value;
        [None] is [undefined] *)
    toText : option Json.json -> string;
    (** the number that arithmetic converts a value to; [None] is [NaN] *)
    toNumber : Json.json -> option Q;
    (** [text.match(pattern)] for the image-URL pattern of
        [extractImageUrls] (an http or https URL ending in jpg, jpeg, png,
        gif or webp, global and case-insensitive); the empty list when
        there is no match *)
    matchImageUrls : string -> list string }.

(** The answer of the upstream to one [fetch], as the code reads it. *)
Record Body : Type :=
  { chunks : list string;           (* the decoded text of each [read()] *)
    readError : option string }.    (* a [read()] that rejects after them *)

Inductive FetchOutcome : Type :=
| FetchRejects (msg : string)
| FetchResponse (status : nat) (text : string) (body : option Body).

(** [response.ok] *)
Definition ok (status : nat) : bool := (200 <=? status)%nat && (status <=? 299)%nat.

(** [[...new Set(urls)]]: first occurrences, in order. *)
Fixpoint uniqueFrom (seen : list string) (urls : list string) : list string :=
  match urls with
  | [] => []
  | u :: rest =>
      if existsb (String.eqb u) seen then uniqueFrom seen rest
      else u :: uniqueFrom (seen ++ [u]) rest
  end.

Definition unique (urls : list string) : list string := uniqueFrom [] urls.

(* ================================================================== *)
(** ** grok/imageEdit.ts, first revision (extractImageUrls) *)

Module ImageEditV1.
Import Json.

Inductive ImageEditUpdate : Type :=
| progress (index : json) (progress : json)
| image (url : string) (index : nat)
| error (message : string)
| done.

Definition httpStrings (v : option json) : list string :=
  match v with
  | Some (JArr items) =>
      flat_map (fun u => match u with
                         | JStr s => if Js.startsWith s "http" then [s] else []
                         | _ => []
                         end) items
  | _ => []
  end.

(** The strings under [url] and [imageUrl] of one asset; [None] when the
    property read throws ([null] has no properties). *)
Definition assetUrls (asset : json) : option (list string) :=
  match asset with
  | JNull => None
  | _ =>
      Some ((match get "url" asset with Some (JStr s) => [s] | _ => [] end) ++
            (match get "imageUrl" asset with Some (JStr s) => [s] | _ => [] end))
  end.

Fixpoint assetsUrls (assets : list json) : option (list string) :=
  match assets with
  | [] => Some []
  | a :: rest =>
      match assetUrls a with
      | None => None
      | Some us =>
          match assetsUrls rest with
          | None => None
          | Some vs => Some (us ++ vs)
          end
      end
  end.

Definition textUrls `{Runtime} (modelResponse : json) (field : string) : list string :=
  match get field modelResponse with
  | Some (JStr text) => matchImageUrls text
  | _ => []
  end.

(** [extractImageUrls(modelResponse)]; [None] when it throws. *)
Definition extractImageUrls `{Runtime} (modelResponse : json) : option (list string) :=
  let editUrls := httpStrings (get "generatedImageEditUrls" modelResponse) in
  match (match get "generatedAssets" modelResponse with
         | Some (JArr assets) => assetsUrls assets
         | _ => Some []
         end) with
  | None => None
  | Some assetUrls =>
      let attachments := httpStrings (get "imageAttachments" modelResponse) in
      let texts := flat_map (textUrls modelResponse) ["outputText"; "message"; "text"] in
      Some (unique (editUrls ++ assetUrls ++ attachments ++ texts))
  end.

(** The request body of the chat call. *)
Definition payload (prompt : string) (imageUrls : list string) (imageCount : Q) : json :=
  JObj [("temporary", JBool true);
        ("modelName", JStr "grok-3");
        ("modelMode", JStr "normal");
        ("message", JStr (Js.orElse (Some prompt)
                            "Generate new variations based on this image"));
        ("fileAttachments", JArr []);
        ("imageAttachments", JArr []);
        ("disableSearch", JBool true);
        ("enableImageGeneration", JBool true);
        ("returnImageBytes", JBool false);
        ("returnRawGrokInXaiRequest", JBool false);
        ("enableImageStreaming", JBool true);
        ("imageGenerationCount", JNum imageCount);
        ("forceConcise", JBool false);
        ("toolOverrides", JObj [("imageGen", JBool true)]);
        ("enableSideBySide", JBool false);
        ("sendFinalMetadata", JBool true);
        ("isReasoning", JBool false);
        ("disableTextFollowUps", JBool true);
        ("disableMemory", JBool true);
        ("forceSideBySide", JBool false);
        ("isAsyncChat", JBool false);
        ("disableSelfHarmShortCircuit", JBool false);
        ("responseMetadata",
          JObj [("modelConfigOverride",
            JObj [("modelMap",
              JObj [("imageEditModel", JStr "imagine");
                    ("imageEditModelConfig",
                      JObj [("imageReferences", JArr (map JStr imageUrls))])])])])].

(** The variables of the decode loop and the updates yielded so far. *)
Record Decoder : Type :=
  { buffer : string;
    collectedUrls : list string;
    yielded : list ImageEditUpdate }.

Definition yield (u : ImageEditUpdate) (d : Decoder) : Decoder :=
  {| buffer := buffer d; collectedUrls := collectedUrls d;
     yielded := yielded d ++ [u] |}.

(** [for (const url of urls) if (!collectedUrls.includes(url)) ...] *)
Fixpoint emitNew (urls : list string) (d : Decoder) : Decoder :=
  match urls with
  | [] => d
  | url :: rest =>
      if existsb (String.eqb url) (collectedUrls d) then emitNew rest d
      else
        emitNew rest
          {| buffer := buffer d;
             collectedUrls := collectedUrls d ++ [url];
             yielded := yielded d ++
                          [image url (List.length (collectedUrls d ++ [url]) - 1)] |}
  end.

(** The body of [for (const line of lines)]. *)
Definition processLine `{Runtime} (line : string) (d : Decoder) : Decoder :=
  if Js.blank line then d
  else
    match JSON_parse line with
    | None => d                                   (* catch: skip invalid JSON *)
    | Some data =>
        let resp := getOpt "response" (get "result" data) in
        if negb (truthy resp) then d
        else
          let imgProgress := getOpt "streamingImageGenerationResponse" resp in
          if truthy imgProgress then
            yield (progress (orZero (getOpt "imageIndex" imgProgress))
                            (orZero (getOpt "progress" imgProgress))) d
          else
            let modelResponse := getOpt "modelResponse" resp in
            if truthy modelResponse then
              match modelResponse with
              | Some mr =>
                  match extractImageUrls mr with
                  | Some urls => emitNew urls d
                  | None => d                     (* catch *)
                  end
              | None => d
              end
            else d
    end.

(** One turn of [while (true)] on a chunk that [read()] delivered. *)
Definition feed `{Runtime} (chunk : string) (d : Decoder) : Decoder :=
  let '(lines, rest) := Js.splitLines (buffer d ++ chunk)%string in
  let d' := fold_left (fun acc line => processLine line acc) lines d in
  {| buffer := rest; collectedUrls := collectedUrls d'; yielded := yielded d' |}.

Definition decode `{Runtime} (cs : list string) (d : Decoder) : Decoder :=
  fold_left (fun acc chunk => feed chunk acc) cs d.

Definition start : Decoder := {| buffer := ""; collectedUrls := []; yielded := [] |}.

(** [streamImageEdit(sso, ssoRw, prompt, imageUrls, imageCount)], run on
    the answer [up] of the upstream to its [fetch]: the body it posts and
    the updates it yields. *)
Definition streamImageEdit `{Runtime} (prompt : string) (imageUrls : list string)
    (imageCount : Q) (up : FetchOutcome) : json * Gen ImageEditUpdate :=
  (payload prompt imageUrls imageCount,
   match up with
   | FetchRejects msg => MkGen [error ("Network error: " ++ msg)%string] None
   | FetchResponse status text body =>
       if negb (ok status) then
         if (status =? 429)%nat then MkGen [error "Rate limited (429)"] None
         else MkGen [error ("HTTP " ++ Js.ofNat status ++ ": "
                             ++ Js.slice0 300 text)%string] None
       else
         match body with
         | None => MkGen [error "No response body"] None
         | Some b =>
             let d := decode (chunks b) start in
             match readError b with
             | Some msg => MkGen (yielded d) (Some msg)
             | None =>
                 if (List.length (collectedUrls d) =? 0)%nat
                 then MkGen (yielded d ++ [error "No images generated"]) None
                 else MkGen (yielded d ++ [done]) None
             end
         end
   end).

End ImageEditV1.

(* ================================================================== *)
(** ** grok/imageEdit.ts, current revision (collectImages, debug updates) *)

Module ImageEdit.
Import Json.

Inductive ImageEditUpdate : Type :=
| progress (index : json) (progress : json)
| image (url : string) (index : nat)
| error (message : string)
| done
| debug (message : string).

Definition targetKeys : list string :=
  ["generatedImageUrls"; "imageUrls"; "imageURLs"; "imageEditUris"; "fileUris"].

(** What one item under a target key contributes. *)
Definition itemUrl (item : json) : list string :=
  match item with
  | JStr s =>
      if (0 <? String.length s)%nat then
        if Js.startsWith s "http" then [s]
        else if Js.startsWith s "/" || Js.startsWith s "users/"
             then [("https://assets.grok.com/" ++ Js.stripLeadingSlash s)%string]
             else []
      else []
  | _ => []
  end.

(** [collectImages(obj)] *)
Fixpoint collectImages (obj : json) : list string :=
  match obj with
  | JArr items => flat_map collectImages items
  | JObj fields =>
      unique
        (flat_map
           (fun kv : string * json =>
              let (key, val) := kv in
              match val with
              | JArr items =>
                  if existsb (String.eqb key) targetKeys
                  then flat_map itemUrl items
                  else collectImages val
              | JObj _ => collectImages val
              | _ => []
              end) fields)
  | _ => []
  end.

Definition modelConfigOverride (imageUrls : list string)
    (parentPostId : option string) : json :=
  let imageEditModelConfig :=
    JObj (("imageReferences", JArr (map JStr imageUrls)) ::
          (if Js.truthyStr parentPostId
           then [("parentPostId", JStr (Js.orElse parentPostId ""))] else [])) in
  JObj [("modelMap", JObj [("imageEditModel", JStr "imagine");
                           ("imageEditModelConfig", imageEditModelConfig)]);
        ("imageEditModel", JStr "imagine")].

Definition attachments (fileMetadataId : option string) : json :=
  if Js.truthyStr fileMetadataId
  then JArr [JStr (Js.orElse fileMetadataId "")] else JArr [].

(** The request body of the chat call. *)
Definition payload (prompt : string) (imageUrls : list string) (imageCount : Q)
    (parentPostId fileMetadataId : option string) : json :=
  JObj [("temporary", JBool true);
        ("modelName", JStr "grok-3-image-generation");
        ("modelMode", JNull);
        ("message", JStr (Js.orElse (Some prompt)
                            "Generate new variations based on this image"));
        ("fileAttachments", attachments fileMetadataId);
        ("imageAttachments", attachments fileMetadataId);
        ("disableSearch", JBool false);
        ("enableImageGeneration", JBool true);
        ("returnImageBytes", JBool false);
        ("returnRawGrokInXaiRequest", JBool false);
        ("enableImageStreaming", JBool true);
        ("imageGenerationCount", JNum imageCount);
        ("forceConcise", JBool false);
        ("toolOverrides", JObj [("imageGen", JBool true)]);
        ("enableSideBySide", JBool true);
        ("sendFinalMetadata", JBool true);
        ("isReasoning", JBool false);
        ("disableTextFollowUps", JBool false);
        ("disableMemory", JBool true);
        ("forceSideBySide", JBool false);
        ("isAsyncChat", JBool false);
        ("disableSelfHarmShortCircuit", JBool false);
        ("deviceEnvInfo",
          JObj [("darkModeEnabled", JBool false);
                ("devicePixelRatio", jnat 2);
                ("screenWidth", jnat 2056);
                ("screenHeight", jnat 1329);
                ("viewportWidth", jnat 2056);
                ("viewportHeight", jnat 1083)]);
        ("responseMetadata",
          JObj [("requestModelDetails",
                  JObj [("modelId", JStr "grok-3-image-generation")]);
                ("modelConfigOverride",
                  modelConfigOverride imageUrls parentPostId)])].

(** The variables of the decode loop and the updates yielded so far. *)
Record Decoder : Type :=
  { buffer : string;
    collectedUrls : list string;
    lineCount : nat;
    yielded : list ImageEditUpdate }.

Definition yield (u : ImageEditUpdate) (d : Decoder) : Decoder :=
  {| buffer := buffer d; collectedUrls := collectedUrls d;
     lineCount := lineCount d; yielded := yielded d ++ [u] |}.

(** [collectedUrls.push(url)] *)
Definition collect (url : string) (d : Decoder) : Decoder :=
  {| buffer := buffer d; collectedUrls := collectedUrls d ++ [url];
     lineCount := lineCount d; yielded := yielded d |}.

(** [for (const url of urls) if (!collectedUrls.includes(url)) ...];
    [direct] is set in the second of the two loops, which announces
    each URL with a debug update. *)
Fixpoint emitNew (direct : bool) (urls : list string) (d : Decoder) : Decoder :=
  match urls with
  | [] => d
  | url :: rest =>
      if existsb (String.eqb url) (collectedUrls d) then emitNew direct rest d
      else
        let d1 := collect url d in
        let d2 :=
          if direct
          then yield (debug ("found url in resp (not modelResponse): "
                              ++ Js.slice0 100 url)%string) d1
          else d1 in
        emitNew direct rest
          (yield (image url (List.length (collectedUrls d2) - 1)) d2)
  end.

(** The debug updates on the image fields of [modelResponse]. *)
Definition fieldDebug `{Runtime} (mr : json) (d : Decoder) : Decoder :=
  fold_left
    (fun acc k =>
       match get k mr with
       | None | Some JNull => acc
       | Some v => yield (debug (k ++ ": " ++ Js.slice0 300 (JSON_stringify v))%string) acc
       end)
    ["generatedImageUrls"; "imageEditUris"; "fileUris"; "imageUrls"] d.

(** The part of the loop body that follows [JSON.parse]. *)
Definition processData `{Runtime} (data : json) (d : Decoder) : Decoder :=
  let resp := getOpt "response" (get "result" data) in
  let d :=
    if (lineCount d <=? 3)%nat then
      let ks := match resp with
                | Some r => if truthy resp then String.concat "," (keys r) else "no-resp"
                | None => "no-resp"
                end in
      yield (debug ("line#" ++ Js.ofNat (lineCount d)
                      ++ " resp-keys: [" ++ ks ++ "]")%string) d
    else d in
  match resp with
  | None => d
  | Some r =>
      if negb (truthy resp) then d
      else
        let imgProgress := get "streamingImageGenerationResponse" r in
        if truthy imgProgress then
          yield (progress (orZero (getOpt "imageIndex" imgProgress))
                          (orZero (getOpt "progress" imgProgress))) d
        else
          let modelResponse := get "modelResponse" r in
          let d :=
            match modelResponse with
            | Some mr =>
                if truthy modelResponse then
                  let d1 := fieldDebug mr d in
                  let urls := collectImages mr in
                  let d2 := yield (debug ("collectImages found "
                                ++ Js.ofNat (List.length urls) ++ " urls")%string) d1 in
                  let d3 :=
                    match urls with
                    | u0 :: _ => yield (debug ("first url: " ++ Js.slice0 100 u0)%string) d2
                    | [] => d2
                    end in
                  emitNew false urls d3
                else d
            | None => d
            end in
          emitNew true (collectImages r) d
  end.

(** The body of [for (const line of lines)]. *)
Definition processLine `{Runtime} (line : string) (d : Decoder) : Decoder :=
  if Js.blank line then d
  else
    let d := {| buffer := buffer d; collectedUrls := collectedUrls d;
                lineCount := S (lineCount d); yielded := yielded d |} in
    match JSON_parse line with
    | Some data => processData data d
    | None =>
        (* catch *)
        if (lineCount d <=? 2)%nat
        then yield (debug ("unparseable line#" ++ Js.ofNat (lineCount d) ++ ": "
                            ++ Js.slice0 200 line)%string) d
        else d
    end.

(** One turn of [while (true)] on a chunk that [read()] delivered. *)
Definition feed `{Runtime} (chunk : string) (d : Decoder) : Decoder :=
  let '(lines, rest) := Js.splitLines (buffer d ++ chunk)%string in
  let d' := fold_left (fun acc line => processLine line acc) lines d in
  {| buffer := rest; collectedUrls := collectedUrls d';
     lineCount := lineCount d'; yielded := yielded d' |}.

Definition decode `{Runtime} (cs : list string) (d : Decoder) : Decoder :=
  fold_left (fun acc chunk => feed chunk acc) cs d.

(** The decoder once the response is open: the updates yielded before
    the first [read()] are already in [yielded]. *)
Definition start (before : list ImageEditUpdate) : Decoder :=
  {| buffer := ""; collectedUrls := []; lineCount := 0; yielded := before |}.

(** [streamImageEdit(sso, ssoRw, prompt, imageUrls, imageCount,
    parentPostId, fileMetadataId)], run on the answer [up] of the
    upstream to its [fetch]: the body it posts and the updates it
    yields. *)
Definition streamImageEdit `{Runtime} (prompt : string) (imageUrls : list string)
    (imageCount : Q) (parentPostId fileMetadataId : option string)
    (up : FetchOutcome) : json * Gen ImageEditUpdate :=
  let intro :=
    [debug ("imageRefs: " ++ JSON_stringify (JArr (map JStr imageUrls)))%string;
     debug ("payload.imageAttachments: "
              ++ JSON_stringify (attachments fileMetadataId))%string;
     debug ("payload.modelConfigOverride: "
              ++ JSON_stringify (modelConfigOverride imageUrls parentPostId))%string] in
  (payload prompt imageUrls imageCount parentPostId fileMetadataId,
   match up with
   | FetchRejects msg => MkGen (intro ++ [error ("Network error: " ++ msg)%string]) None
   | FetchResponse status text body =>
       let intro := intro ++ [debug ("Chat API status: " ++ Js.ofNat status)%string] in
       if negb (ok status) then
         let intro := intro ++ [debug ("Chat API error body: "
                                         ++ Js.slice0 500 text)%string] in
         if (status =? 429)%nat then MkGen (intro ++ [error "Rate limited (429)"]) None
         else MkGen (intro ++ [error ("HTTP " ++ Js.ofNat status ++ ": "
                                        ++ Js.slice0 300 text)%string]) None
       else
         match body with
         | None => MkGen (intro ++ [error "No response body"]) None
         | Some b =>
             let d := decode (chunks b) (start intro) in
             match readError b with
             | Some msg => MkGen (yielded d) (Some msg)
             | None =>
                 let d := yield (debug ("stream done. " ++ Js.ofNat (lineCount d)
                                  ++ " lines, " ++ Js.ofNat (List.length (collectedUrls d))
                                  ++ " images")%string) d in
                 if (List.length (collectedUrls d) =? 0)%nat
                 then MkGen (yielded d ++
                               [error ("No images generated (parsed "
                                         ++ Js.ofNat (lineCount d) ++ " lines)")%string]) None
                 else MkGen (yielded d ++ [done]) None
             end
         end
   end).

End ImageEdit.

(* ================================================================== *)
(** ** routes/imagine.ts *)

Module Imagine.
Import Json.

Definition MAX_RETRIES : nat := 5.

(** Modelled from the spec: the type [StreamUpdate] of the updates of
    [generateImages] is declared in grok/imagine.ts, which is not among
    the sources; the variants are the normalized events of the spec
    (Error, MediaFound, Progress, Complete) and the fields are those the
    route reads.  [fields] holds the other properties of the update, which
    the route forwards untouched. *)
Inductive StreamUpdate : Type :=
| error (message : string) (fields : list (string * json))
| image (fields : list (string * json))
| progress (fields : list (string * json))
| done.

(** The update as [JSON.stringify] renders it when it is forwarded. *)
Definition updateJson (u : StreamUpdate) : json :=
  match u with
  | error msg fs => JObj (("type", JStr "error") :: ("message", JStr msg) :: fs)
  | image fs => JObj (("type", JStr "image") :: fs)
  | progress fs => JObj (("type", JStr "progress") :: fs)
  | done => JObj [("type", JStr "done")]
  end.

(** One turn of a retry loop, seen from the environment: what
    [getToken(db, token_id)] and [getRandomToken(db, excludedTokenIds)]
    answer if they are asked, and how the upstream behaves on the
    credential chosen. *)
Record Turn (U : Type) : Type :=
  { pinned : option TokenRow; random : option TokenRow; upstream : U }.
Arguments pinned {U} _.
Arguments random {U} _.
Arguments upstream {U} _.

(** The credential of a turn: the pinned one while [retryCount === 0],
    otherwise, or if there is none, a random one. *)
Definition select {U : Type} (token_id : option string) (retryCount : nat)
    (t : Turn U) : option TokenRow :=
  match (if Js.truthyStr token_id && (retryCount =? 0)%nat then pinned t else None) with
  | Some tok => Some tok
  | None => random t
  end.

Definition writeEvent (ev : string) (d : json) : Sse := {| event := ev; data := d |}.

Definition errorEvent (msg : string) : Sse :=
  writeEvent "error" (JObj [("type", JStr "error"); ("message", JStr msg)]).

Definition infoEvent (msg : string) : Sse :=
  writeEvent "info" (JObj [("type", JStr "info"); ("message", JStr msg)]).

Definition doneEvent : Sse := writeEvent "done" (JObj []).

(** The test applied to error messages and to the messages of caught
    exceptions. *)
Definition rateLimited (msg : string) : bool :=
  Js.includes msg "429" || Js.includes msg "Rate limited".

(** A quotient as [JSON.stringify] renders it: a division by zero gives an
    infinity or [NaN], which are rendered [null].  Arithmetic is exact
    where JavaScript rounds to a double. *)
Definition quotient (a b : Q) (k : Q -> Q) : json :=
  if Qeq_bool b 0 then JNull else JNum (k (a / b)%Q).

Definition Qltb (a b : Q) : bool := negb (Qle_bool b a).

(** *** POST /api/imagine/generate *)

Module Generate.

Record Request : Type :=
  { prompt : string;
    aspect_ratio : option string;
    enable_nsfw : option bool;
    count : option Q;
    token_id : option string }.

Record State : Type :=
  { excludedTokenIds : list string;
    retryCount : nat;
    totalCollected : nat;
    written : list Sse }.

Definition write (e : Sse) (st : State) : State :=
  {| excludedTokenIds := excludedTokenIds st; retryCount := retryCount st;
     totalCollected := totalCollected st; written := written st ++ [e] |}.

(** [excludedTokenIds.push(token.id); retryCount++] and the info event
    that follows them *)
Definition rotate (tok : TokenRow) (st : State) : State :=
  write (infoEvent ("Token rate limited, switching to another (attempt "
                      ++ Js.ofNat (S (retryCount st)) ++ "/"
                      ++ Js.ofNat MAX_RETRIES ++ ")")%string)
    {| excludedTokenIds := excludedTokenIds st ++ [id tok];
       retryCount := S (retryCount st);
       totalCollected := totalCollected st; written := written st |}.

Definition collected (st : State) : State :=
  {| excludedTokenIds := excludedTokenIds st; retryCount := retryCount st;
     totalCollected := S (totalCollected st); written := written st |}.

Definition collecting (job_id : option json) (targetCount : Q) (st : State) : Sse :=
  writeEvent "progress"
    (JObj ([("type", JStr "progress")] ++
           (match job_id with Some j => [("job_id", j)] | None => [] end) ++
           [("status", JStr "collecting");
            ("percentage",
              quotient (inject_Z (Z.of_nat (totalCollected st))) targetCount
                       (fun q => q * 100)%Q);
            ("completed_count", jnat (totalCollected st));
            ("target_count", JNum targetCount)])).

(** [update.status === "collecting"] *)
Definition isCollecting (fs : list (string * json)) : bool :=
  match assoc "status" fs with
  | Some (JStr s) => String.eqb s "collecting"
  | _ => false
  end.

(** How the [for await] over one credential's updates ends. *)
Inductive Inner : Type :=
| Exhausted (st : State)     (* the generator has no more updates *)
| Broken (st : State)        (* [break] *)
| Returned (st : State).     (* [await writer.close(); return] *)

(** The state in which a [for await] ends. *)
Definition inner_state (i : Inner) : State :=
  match i with
  | Exhausted st | Broken st | Returned st => st
  end.

Fixpoint forAwait (us : list StreamUpdate) (tok : TokenRow) (targetCount : Q)
    (st : State) : Inner :=
  match us with
  | [] => Exhausted st
  | u :: rest =>
      match u with
      | error msg _ =>
          if rateLimited msg then Broken (rotate tok st)
          else Returned (write (writeEvent "error" (updateJson u)) st)
      | image fs =>
          let st1 := write (writeEvent "image" (updateJson u)) (collected st) in
          forAwait rest tok targetCount
            (write (collecting (assoc "job_id" fs) targetCount st1) st1)
      | progress fs =>
          forAwait rest tok targetCount
            (if isCollecting fs then st
             else write (writeEvent "progress" (updateJson u)) st)
      | done =>
          if negb (Qltb (inject_Z (Z.of_nat (totalCollected st))) targetCount)
          then Returned (write doneEvent st)
          else Broken st
      end
  end.

(** One turn of
    [while (retryCount < MAX_RETRIES && totalCollected < targetCount)]. *)
Definition turn (token_id : option string) (targetCount : Q)
    (t : Turn (Gen StreamUpdate)) (st : State) : Flow State State :=
  match select token_id (retryCount st) t with
  | None =>
      Break (write (errorEvent
                      (if (0 <? List.length (excludedTokenIds st))%nat
                       then ("All tokens rate limited (tried "
                               ++ Js.ofNat (List.length (excludedTokenIds st))
                               ++ " tokens)")%string
                       else "No available tokens. Please import tokens first.")) st)
  | Some tok =>
      match forAwait (yields (upstream t)) tok targetCount st with
      | Returned st1 => Return st1
      | Broken st1 => Continue st1
      | Exhausted st1 =>
          match thrown (upstream t) with
          | Some msg =>
              (* catch (e) *)
              if rateLimited msg then Continue (rotate tok st1)
              else Break (write (errorEvent msg) st1)
          | None => Continue st1
          end
      end
  end.

Definition guard (targetCount : Q) (st : State) : bool :=
  (retryCount st <? MAX_RETRIES)%nat &&
  Qltb (inject_Z (Z.of_nat (totalCollected st))) targetCount.

(** The retry loop; [inl]: the task returned from inside the loop, [inr]:
    the loop was left.  [None]: the script ends while the loop is still
    asking for a credential. *)
Fixpoint loop (token_id : option string) (targetCount : Q)
    (script : list (Turn (Gen StreamUpdate))) (st : State) : option (State + State) :=
  if guard targetCount st then
    match script with
    | [] => None
    | t :: script' =>
        match turn token_id targetCount t st with
        | Continue st' => loop token_id targetCount script' st'
        | Break st' => Some (inr st')
        | Return st' => Some (inl st')
        end
    end
  else Some (inr st).

Definition init : State :=
  {| excludedTokenIds := []; retryCount := 0; totalCollected := 0; written := [] |}.

(** The events written to the response stream until it is closed. *)
Definition generate (body : Request) (script : list (Turn (Gen StreamUpdate)))
    : option (list Sse) :=
  let targetCount := match count body with Some c => c | None => 10%Q end in
  match loop (token_id body) targetCount script init with
  | None => None
  | Some (inl st) => Some (written st)
  | Some (inr st) =>
      Some (written (if (0 <? totalCollected st)%nat then write doneEvent st else st))
  end.

End Generate.

(** *** POST /api/imagine/img2img *)

Module Img2img.
Import ImageEdit.

Record Request : Type :=
  { image_data : option string;
    prompt : option string;
    count : option Q;
    token_id : option string }.

(** [parseDataUrl(dataUrl)], of grok/imageEdit.ts: the MIME type and the
    base64 content. *)
Definition parseDataUrl (dataUrl : string) : option (string * string) :=
  if negb (Js.startsWith dataUrl "data:") then None
  else
    match Js.cut "," dataUrl with
    | None => None
    | Some (header, base64Content) =>
        if negb (Js.includes header ";base64") then None
        else
          let mimeType :=
            Js.orElse (Some (Js.piece0 ";" (Js.sliceFrom 5 header)))
                      "application/octet-stream" in
          Some (mimeType, base64Content)
    end.

(** The answer of the upstream to the upload: the [fetch] rejects, or it
    gives a response whose JSON body parses to [inr raw] or whose
    [json()] rejects with a message. *)
Inductive UploadReply : Type :=
| UploadRejects (msg : string)
| UploadResponse (status : nat) (text : string) (parsed : string + json).

(** [uploadImage(...)]: [inl] is the message of the error thrown. *)
Definition uploadImage `{Runtime} (reply : UploadReply) : string + json :=
  match reply with
  | UploadRejects msg => inl msg
  | UploadResponse status text parsed =>
      if negb (ok status) then
        inl ("Upload failed (" ++ Js.ofNat status ++ "): " ++ Js.slice0 200 text)%string
      else
        match parsed with
        | inl msg => inl msg
        | inr JNull =>
            (* [result.fileMetadataId] on [null], in the wording of V8 *)
            inl "Cannot read properties of null (reading 'fileMetadataId')"
        | inr raw =>
            if negb (truthy (get "fileMetadataId" raw)) && negb (truthy (get "fileUri" raw))
            then inl ("Upload returned empty result: "
                        ++ Js.slice0 500 (JSON_stringify raw))%string
            else inr raw
        end
  end.

(** The message of the [TypeError] that [v.startsWith("http")] throws on a
    value that is not a string (in the wording of V8). *)
Definition startsWithTypeError (v : option json) : string :=
  match v with
  | None => "Cannot read properties of undefined (reading 'startsWith')"
  | Some JNull => "Cannot read properties of null (reading 'startsWith')"
  | Some _ => "uploadResult.fileUri.startsWith is not a function"
  end.

(** What the route posts to the upstream. *)
Inductive Sent : Type :=
| Upload (tok : TokenRow) (fileName fileMimeType content : string)
| Chat (tok : TokenRow) (payload : json).

Record State : Type :=
  { excludedTokenIds : list string;
    retryCount : nat;
    written : list Sse;
    sent : list Sent }.

Definition write (e : Sse) (st : State) : State :=
  {| excludedTokenIds := excludedTokenIds st; retryCount := retryCount st;
     written := written st ++ [e]; sent := sent st |}.

Definition post (r : Sent) (st : State) : State :=
  {| excludedTokenIds := excludedTokenIds st; retryCount := retryCount st;
     written := written st; sent := sent st ++ [r] |}.

(** [excludedTokenIds.push(token.id); retryCount++] and the info event
    that follows them *)
Definition rotate (tok : TokenRow) (st : State) : State :=
  write (infoEvent ("Token rate limited, switching (attempt "
                      ++ Js.ofNat (S (retryCount st)) ++ "/"
                      ++ Js.ofNat MAX_RETRIES ++ ")")%string)
    {| excludedTokenIds := excludedTokenIds st ++ [id tok];
       retryCount := S (retryCount st);
       written := written st; sent := sent st |}.

Definition debugEvent (msg : string) : Sse :=
  writeEvent "debug" (JObj [("type", JStr "debug"); ("message", JStr msg)]).

Definition stageEvent (status msg : string) (percentage : nat) : Sse :=
  writeEvent "progress"
    (JObj [("type", JStr "progress"); ("status", JStr status);
           ("message", JStr msg); ("percentage", jnat percentage)]).

Definition imageEvent `{Runtime} (prompt url : string) (index : nat) : Sse :=
  writeEvent "image"
    (JObj [("type", JStr "image");
           ("url", JStr url);
           ("image_src", JStr ("/api/imagine/proxy?url="
                                 ++ encodeURIComponent (Js.orElse (Some url) ""))%string);
           ("index", jnat index);
           ("width", jnat 0);
           ("height", jnat 0);
           ("prompt", JStr (Js.orElse (Some prompt) "img2img"))]).

(** The progress event that follows an image; [count] is the count of the
    request. *)
Definition collecting (imageCount : nat) (count : Q) : Sse :=
  writeEvent "progress"
    (JObj [("type", JStr "progress");
           ("status", JStr "collecting");
           ("percentage",
             quotient (inject_Z (Z.of_nat imageCount)) (Qmin count 4)
                      (fun q => 30 + q * 70)%Q);
           ("completed_count", jnat imageCount);
           ("target_count", JNum (Qmin count 4))]).

Definition generating `{Runtime} (p : json) : Sse :=
  writeEvent "progress"
    (JObj [("type", JStr "progress");
           ("status", JStr "generating");
           ("percentage",
             match toNumber (orZero (Some p)) with
             | Some q => JNum (30 + q * (4 # 10))%Q
             | None => JNull
             end)]).

(** How the [for await] over the updates of [streamImageEdit] ends. *)
Inductive Inner : Type :=
| Exhausted (st : State)
| Broken (st : State)
| Returned (st : State).

Fixpoint forAwait `{Runtime} (us : list ImageEditUpdate) (tok : TokenRow)
    (prompt : string) (count : Q) (imageCount : nat) (st : State) : Inner :=
  match us with
  | [] => Exhausted st
  | u :: rest =>
      match u with
      | ImageEdit.error msg =>
          if rateLimited msg then Broken (rotate tok st)
          else Returned (write (errorEvent msg) st)
      | ImageEdit.image url index =>
          forAwait rest tok prompt count (S imageCount)
            (write (collecting (S imageCount) count)
               (write (imageEvent prompt url index) st))
      | ImageEdit.progress _ p =>
          forAwait rest tok prompt count imageCount (write (generating p) st)
      | ImageEdit.done => Returned (write doneEvent st)
      | ImageEdit.debug msg =>
          forAwait rest tok prompt count imageCount (write (debugEvent msg) st)
      end
  end.

(** The [catch (e)] of the loop body. *)
Definition caught (tok : TokenRow) (msg : string) (st : State) : Flow State State :=
  if rateLimited msg then Continue (rotate tok st)
  else Break (write (errorEvent msg) st).

(** One turn of [while (retryCount < MAX_RETRIES)]. *)
Definition turn `{Runtime} (token_id : option string) (prompt : string) (count : Q)
    (fileName mimeType base64Content : string)
    (t : Turn (UploadReply * FetchOutcome)) (st : State) : Flow State State :=
  match select token_id (retryCount st) t with
  | None =>
      Break (write (errorEvent
                      (if (0 <? List.length (excludedTokenIds st))%nat
                       then ("All tokens rate limited (tried "
                               ++ Js.ofNat (List.length (excludedTokenIds st))
                               ++ " tokens)")%string
                       else "No available tokens. Please import tokens first.")) st)
  | Some tok =>
      let st := write (stageEvent "uploading" "Uploading image to Grok..." 10) st in
      let st := post (Upload tok fileName mimeType base64Content) st in
      match uploadImage (fst (upstream t)) with
      | inl msg => caught tok msg st
      | inr uploadResult =>
          let fileUri := get "fileUri" uploadResult in
          let st := write (debugEvent ("upload result: id="
                             ++ toText (get "fileMetadataId" uploadResult)
                             ++ ", uri=" ++ toText fileUri)%string) st in
          match fileUri with
          | Some (JStr uri) =>
              let imageUrl :=
                if Js.startsWith uri "http" then uri
                else ("https://assets.grok.com/" ++ Js.stripLeadingSlash uri)%string in
              let st := write (debugEvent ("constructed URL: " ++ imageUrl)%string) st in
              let st := write (stageEvent "generating" "Generating images..." 30) st in
              let '(payload, updates) :=
                streamImageEdit prompt [imageUrl] (Qmin count 4) None None
                                (snd (upstream t)) in
              let st := post (Chat tok payload) st in
              match forAwait (yields updates) tok prompt count 0 st with
              | Returned st1 => Return st1
              | Broken st1 => Continue st1
              | Exhausted st1 =>
                  match thrown updates with
                  | Some msg => caught tok msg st1
                  | None => Continue st1
                  end
              end
          | _ => caught tok (startsWithTypeError fileUri) st
          end
      end
  end.

Fixpoint loop `{Runtime} (token_id : option string) (prompt : string) (count : Q)
    (fileName mimeType base64Content : string)
    (script : list (Turn (UploadReply * FetchOutcome))) (st : State)
    : option State :=
  if (retryCount st <? MAX_RETRIES)%nat then
    match script with
    | [] => None
    | t :: script' =>
        match turn token_id prompt count fileName mimeType base64Content t st with
        | Continue st' =>
            loop token_id prompt count fileName mimeType base64Content script' st'
        | Break st' => Some st'
        | Return st' => Some st'
        end
    end
  else Some st.

Definition init : State :=
  {| excludedTokenIds := []; retryCount := 0; written := []; sent := [] |}.

(** The answer of the route: a JSON error, or the event stream together
    with what was posted upstream while it was produced. *)
Inductive Answer : Type :=
| Rejected (status : nat) (body : json)
| Streamed (events : list Sse) (posted : list Sent).

Definition img2img `{Runtime} (body : Request)
    (script : list (Turn (UploadReply * FetchOutcome))) : option Answer :=
  if negb (Js.truthyStr (image_data body)) then
    Some (Rejected 400 (JObj [("error", JStr "image_data is required")]))
  else
    match parseDataUrl (Js.orElse (image_data body) "") with
    | None =>
        Some (Rejected 400
                (JObj [("error", JStr "Invalid image_data: must be a base64 data URL")]))
    | Some (mimeType, base64Content) =>
        let ext := Js.orElse (Js.piece1 "/" mimeType) "jpeg" in
        let fileName := ("upload." ++ ext)%string in
        let prompt := match prompt body with Some p => p | None => "" end in
        let count := match count body with Some c => c | None => 4%Q end in
        match loop (token_id body) prompt count fileName mimeType base64Content
                   script init with
        | None => None
        | Some st => Some (Streamed (written st) (sent st))
        end
    end.

End Img2img.

(** *** GET /api/imagine/proxy *)

Module Proxy.

(** The answer of the asset host to the proxied [fetch]. *)
Record Upstream : Type :=
  { status : nat; contentType : option string; content : string }.

Inductive Answer : Type :=
| Text (status : nat) (text : string)
| Asset (contentType : string) (content : string).

(** A [fetch] made with the cookies of a credential. *)
Record Fetched : Type := { url : string; credential : TokenRow }.

(** The answer of the route and the fetches it made.  [url] is the query
    parameter, [token] the answer of [getRandomToken(c.env.DB, [])] if it
    is asked, [up] the answer of the asset host if it is asked. *)
Definition proxy (url : option string) (token : option TokenRow) (up : Upstream)
    : Answer * list Fetched :=
  match url with
  | None | Some EmptyString => (Text 400 "Missing url parameter", [])
  | Some u =>
      if negb (Js.startsWith u "https://assets.grok.com/")
      then (Text 400 "Invalid URL", [])
      else
        match token with
        | None => (Text 503 "No tokens available", [])
        | Some tok =>
            let fetched := [{| url := u; credential := tok |}] in
            if negb (ok (status up))
            then (Text (status up) ("Fetch failed: " ++ Js.ofNat (status up))%string,
                  fetched)
            else (Asset (Js.orElse (contentType up) "image/jpeg") (content up), fetched)
        end
  end.

End Proxy.

End Imagine.

(* ================================================================== *)
(** ** The states a retry loop goes through *)


(** One turn of the streaming loop of /v1/messages taken from [s]: the
    loop condition holds and the turn, on some answer [a] of the
    environment, leaves the loop variables as [s']. *)
Definition stream_step (s s' : Messages.Stream.StreamState) : Prop :=
  (Messages.Stream.retryCount s <? Messages.MAX_RETRIES)%nat = true /\
  exists a, Messages.Stream.turn a s = Continue s' \/
            Messages.Stream.turn a s = Break s'.

(** The states of the streaming loop of a call whose message id and model
    are [msgId] and [rawModel]. *)
Definition stream_reachable (msgId rawModel : string)
  : Messages.Stream.StreamState -> Prop :=
  clos_refl_trans_n1 _ stream_step (Messages.Stream.init msgId rawModel).

(** One turn of the loop of /api/imagine/generate. *)
Definition generate_step (token_id : option string) (targetCount : Q)
    (s s' : Imagine.Generate.State) : Prop :=
  Imagine.Generate.guard targetCount s = true /\
  exists t, Imagine.Generate.turn token_id targetCount t s = Continue s' \/
            Imagine.Generate.turn token_id targetCount t s = Break s' \/
            Imagine.Generate.turn token_id targetCount t s = Return s'.

Definition generate_reachable (token_id : option string) (targetCount : Q)
  : Imagine.Generate.State -> Prop :=
  clos_refl_trans_n1 _ (generate_step token_id targetCount) Imagine.Generate.init.

(** What a rotation of /v1/messages is evidence of: an error update that
    the route takes for a rate limit, or an exception that it takes for
    one. *)
Definition rate_limit_seen (chat : Gen Messages.Update) : Prop :=
  (exists u, In u (yields chat) /\ Messages.type u = "error" /\
             Messages.retryableUpdate (Js.orElse (Messages.message u) "") = true) \/
  (exists msg, thrown chat = Some msg /\ Messages.retryableThrow msg = true).

(** The same for /api/imagine/generate. *)
Definition turn_rate_limit_seen (up : Gen Imagine.StreamUpdate) : Prop :=
  (exists msg fs, In (Imagine.error msg fs) (yields up) /\
                  Imagine.rateLimited msg = true) \/
  (exists msg, thrown up = Some msg /\ Imagine.rateLimited msg = true).

(** An attempt of /v1/messages whose credential reports a rate limit at
    once: the first update of [streamChat] is an error that the route
    takes for a rate limit. *)
Definition limited_at_once (a : Messages.Attempt) : Prop :=
  match a with
  | Messages.WithToken _ chat =>
      match yields chat with
      | u :: _ =>
          Messages.type u = "error" /\
          Messages.retryableUpdate (Js.orElse (Messages.message u) "") = true
      | [] => False
      end
  | Messages.NoToken => False
  end.

(** The same for a turn of /api/imagine/generate. *)
Definition turn_limited_at_once (t : Imagine.Turn (Gen Imagine.StreamUpdate)) : Prop :=
  (exists tok, Imagine.random t = Some tok) /\
  match yields (Imagine.upstream t) with
  | Imagine.error msg _ :: _ => Imagine.rateLimited msg = true
  | _ => False
  end.

(** The info events among the events of a route: one is written at each
    rotation. *)
Definition rotations (evs : list Sse) : nat :=
  List.length (filter (fun e => String.eqb (event e) "info") evs).

(* ================================================================== *)
(** ** The failover state machine of /v1/messages *)

(** A functional description of what the two retry loops of /v1/messages
    compute, in the terms of the state machine SelectCredential, Dispatch,
    Consume: the text deltas of the call and the way it ends.  It is not
    taken for granted: [stream_refines] and [plain_refines] prove that the
    loops of the route compute it. *)
Module Orchestrator.
Import Messages.

(** How the consumption of one credential's updates ends. *)
Inductive Ending : Type :=
| Complete                    (* a [done] update *)
| RateLimited (msg : string)  (* an error taken for a rate limit *)
| Fatal (msg : string)        (* any other error *)
| Silent.                     (* the updates end with neither *)

(** The text of an update, if it is a text delta. *)
Definition textOf (u : Update) : list string :=
  if String.eqb (type u) "token" && Js.truthyStr (content u)
  then [Js.orElse (content u) ""] else [].

(** The text deltas of the updates up to the first error or [done], and
    that ending, if there is one. *)
Fixpoint consume (us : list Update) : list string * option Ending :=
  match us with
  | [] => ([], None)
  | u :: rest =>
      if String.eqb (type u) "error" then
        let msg := Js.orElse (message u) "" in
        ([], Some (if retryableUpdate msg then RateLimited msg else Fatal msg))
      else if String.eqb (type u) "done" then (textOf u, Some Complete)
      else let '(ts, e) := consume rest in (textOf u ++ ts, e)
  end.

Definition attempt (chat : Gen Update) : list string * Ending :=
  match consume (yields chat) with
  | (ts, Some e) => (ts, e)
  | (ts, None) =>
      match thrown chat with
      | Some msg => (ts, if retryableThrow msg then RateLimited msg else Fatal msg)
      | None => (ts, Silent)
      end
  end.

(** How a call ends. *)
Inductive Terminal : Type :=
| Success
| FatalUpstream (msg : string)
| PoolExhausted (excluded : nat)       (* no credential; [excluded] were tried *)
| RetriesSpent (lastError : string).   (* [attemptsUsed] reached the ceiling *)

Definition deliver (ts : list string) (r : option (list string * Terminal))
  : option (list string * Terminal) :=
  match r with
  | Some (ts', t) => Some (ts ++ ts', t)
  | None => None
  end.

(** The call, from [attemptsUsed] rotations on.  [None]: the script ends
    before the call does. *)
Fixpoint run (script : list Attempt) (attemptsUsed : nat) (lastError : string)
  : option (list string * Terminal) :=
  if (attemptsUsed <? MAX_RETRIES)%nat then
    match script with
    | [] => None
    | NoToken :: _ => Some ([], PoolExhausted attemptsUsed)
    | WithToken _ chat :: script' =>
        match attempt chat with
        | (ts, Complete) => Some (ts, Success)
        | (ts, Fatal msg) => Some (ts, FatalUpstream msg)
        | (ts, RateLimited msg) => deliver ts (run script' (S attemptsUsed) msg)
        | (ts, Silent) => deliver ts (run script' attemptsUsed lastError)
        end
    end
  else Some ([], RetriesSpent lastError).

Definition totalChars (ts : list string) : nat :=
  fold_right (fun t n => String.length t + n) 0 ts.

(** The silent attempts of a script: those that end with no [done], no
    error and no exception. *)
Definition silent (a : Attempt) : bool :=
  match a with
  | WithToken _ chat =>
      match attempt chat with
      | (_, Silent) => true
      | _ => false
      end
  | NoToken => false
  end.

(** The error that the streaming envelope shows for an ending. *)
Definition marker (t : Terminal) : option string :=
  match t with
  | Success | RetriesSpent _ => None
  | FatalUpstream msg => Some msg
  | PoolExhausted n =>
      Some (if (0 <? n)%nat then "All tokens rate limited" else "No available tokens")
  end.

(** The envelope of the streaming protocol around [ts] and an optional
    error. *)
Definition envelope (msgId rawModel : string) (ts : list string)
    (err : option string) : list Sse :=
  [evtMessageStart msgId rawModel; evtContentBlockStart; evtPing]
  ++ map evtDelta ts
  ++ match err with
     | Some msg => [evtDelta (errorMarker msg)]
     | None => []
     end
  ++ [evtContentBlockStop; evtMessageDelta (ceilQuarter (totalChars ts));
      evtMessageStop].

(** The non-streaming response for an ending. *)
Definition plainResponse (msgId rawModel : string) (ts : list string)
    (t : Terminal) : Response :=
  match t with
  | Success => JsonResponse 200 (Plain.messageBody msgId rawModel (Js.joined ts))
  | FatalUpstream msg => JsonResponse 500 (errorBody "api_error" msg)
  | PoolExhausted n =>
      JsonResponse 529
        (errorBody "overloaded_error"
           (if (0 <? n)%nat
            then ("All tokens rate limited (tried " ++ Js.ofNat n ++ ")")%string
            else "No available tokens"))
  | RetriesSpent lastError =>
      JsonResponse 529
        (errorBody "overloaded_error"
           (Js.orElse (Some lastError) "Failed after retries"))
  end.

Definition succeeded (t : Terminal) : bool :=
  match t with
  | Success => true
  | _ => false
  end.

End Orchestrator.

(** The events of a stream that bear a given name. *)
Definition named (name : string) (evs : list Sse) : list Sse :=
  filter (fun e => String.eqb (event e) name) evs.

(* ================================================================== *)
(** ** A runtime and environments for the examples *)

(** A small JavaScript runtime for the examples: a JSON reader for
    documents made of objects, arrays, strings without escapes,
    non-negative integers, [true], [false] and [null], on which it agrees
    with [JSON.parse]; a writer for the same values; and percent-encoding
    of the code units below 128. *)
Module Demo.
Import Json.

Definition isWs (c : ascii) : bool :=
  let n := nat_of_ascii c in
  (n =? 32)%nat || (n =? 9)%nat || (n =? 10)%nat || (n =? 13)%nat.

Fixpoint skipWs (s : string) : string :=
  match s with
  | String c s' => if isWs c then skipWs s' else s
  | EmptyString => s
  end.

Definition isDigit (c : ascii) : bool :=
  let n := nat_of_ascii c in (48 <=? n)%nat && (n <=? 57)%nat.

(** The digits at the head of [s], read in base ten after [acc]. *)
Fixpoint takeNat (acc : nat) (s : string) : nat * string :=
  match s with
  | String c s' =>
      if isDigit c then takeNat (10 * acc + (nat_of_ascii c - 48)) s' else (acc, s)
  | EmptyString => (acc, s)
  end.

(** The characters up to the closing quote; no escape is accepted. *)
Fixpoint takeString (s : string) : option (string * string) :=
  match s with
  | EmptyString => None
  | String c s' =>
      if Ascii.eqb c "034" then Some (EmptyString, s')
      else if Ascii.eqb c "\" then None
      else match takeString s' with
           | Some (a, r) => Some (String c a, r)
           | None => None
           end
  end.

Fixpoint parseValue (fuel : nat) (s : string) : option (json * string) :=
  match fuel with
  | O => None
  | S fuel' =>
      let s := skipWs s in
      if Js.startsWith s "null" then Some (JNull, Js.sliceFrom 4 s)
      else if Js.startsWith s "true" then Some (JBool true, Js.sliceFrom 4 s)
      else if Js.startsWith s "false" then Some (JBool false, Js.sliceFrom 5 s)
      else
        match s with
        | EmptyString => None
        | String c s' =>
            if Ascii.eqb c "034" then
              match takeString s' with
              | Some (a, r) => Some (JStr a, r)
              | None => None
              end
            else if isDigit c then
              let '(n, r) := takeNat 0 s in Some (jnat n, r)
            else if Ascii.eqb c "[" then
              match skipWs s' with
              | String "]" r => Some (JArr [], r)
              | _ =>
                  match parseItems fuel' s' with
                  | Some (items, r) => Some (JArr items, r)
                  | None => None
                  end
              end
            else if Ascii.eqb c "{" then
              match skipWs s' with
              | String "}" r => Some (JObj [], r)
              | _ =>
                  match parseFields fuel' s' with
                  | Some (fields, r) => Some (JObj fields, r)
                  | None => None
                  end
              end
            else None
        end
  end
with parseItems (fuel : nat) (s : string) : option (list json * string) :=
  match fuel with
  | O => None
  | S fuel' =>
      match parseValue fuel' s with
      | None => None
      | Some (v, r) =>
          match skipWs r with
          | String "]" r' => Some ([v], r')
          | String "," r' =>
              match parseItems fuel' r' with
              | Some (vs, r'') => Some (v :: vs, r'')
              | None => None
              end
          | _ => None
          end
      end
  end
with parseFields (fuel : nat) (s : string) : option (list (string * json) * string) :=
  match fuel with
  | O => None
  | S fuel' =>
      match skipWs s with
      | String "034" s' =>
          match takeString s' with
          | None => None
          | Some (k, r) =>
              match skipWs r with
              | String ":" r' =>
                  match parseValue fuel' r' with
                  | None => None
                  | Some (v, r'') =>
                      match skipWs r'' with
                      | String "}" r3 => Some ([(k, v)], r3)
                      | String "," r3 =>
                          match parseFields fuel' r3 with
                          | Some (fs, r4) => Some ((k, v) :: fs, r4)
                          | None => None
                          end
                      | _ => None
                      end
                  end
              | _ => None
              end
          end
      | _ => None
      end
  end.

Definition parse (s : string) : option json :=
  match parseValue (S (String.length s)) s with
  | Some (v, r) => if String.eqb (skipWs r) "" then Some v else None
  | None => None
  end.

(** The text of a number: integers only. *)
Definition showNumber (q : Q) : string :=
  match Qnum q, Qden q with
  | Zneg p, 1%positive => ("-" ++ Js.ofNat (Pos.to_nat p))%string
  | z, 1%positive => Js.ofNat (Z.to_nat z)
  | _, _ => "NaN"
  end.

Fixpoint stringify (v : json) : string :=
  match v with
  | JNull => "null"
  | JBool true => "true"
  | JBool false => "false"
  | JNum q => showNumber q
  | JStr s => (String "034" s ++ String "034" "")%string
  | JArr items => ("[" ++ String.concat "," (map stringify items) ++ "]")%string
  | JObj fields =>
      ("{" ++ String.concat ","
                (map (fun kv : string * json =>
                        let (k, x) := kv in
                        (String "034" k ++ String "034" ":" ++ stringify x)%string)
                     fields)
           ++ "}")%string
  end.

Definition hexDigit (n : nat) : ascii :=
  if (n <? 10)%nat then ascii_of_nat (48 + n) else ascii_of_nat (55 + n).

Definition unreserved (c : ascii) : bool :=
  let n := nat_of_ascii c in
  ((65 <=? n)%nat && (n <=? 90)%nat) || ((97 <=? n)%nat && (n <=? 122)%nat) ||
  ((48 <=? n)%nat && (n <=? 57)%nat) ||
  existsb (Ascii.eqb c) ["-"; "_"; "."; "!"; "~"; "*"; "'"; "("; ")"]%char.

Fixpoint percentEncode (s : string) : string :=
  match s with
  | EmptyString => EmptyString
  | String c s' =>
      if unreserved c then String c (percentEncode s')
      else String "%" (String (hexDigit (nat_of_ascii c / 16))
                         (String (hexDigit (nat_of_ascii c mod 16)) (percentEncode s')))
  end.

#[export] Instance runtime : Runtime :=
  {| JSON_parse := parse;
     JSON_stringify := stringify;
     encodeURIComponent := percentEncode;
     toText := fun o => match o with
                        | None => "undefined"
                        | Some (JStr s) => s
                        | Some v => stringify v
                        end;
     toNumber := fun v => match v with
                          | JNum q => Some q
                          | _ => None
                          end;
     matchImageUrls := fun _ => [] |}.

(** Six credentials. *)
Definition credential (n : nat) : TokenRow :=
  {| id := ("tok-" ++ Js.ofNat n)%string; sso := "sso"; sso_rw := "sso-rw" |}.

End Demo.

(** A call to /v1/messages succeeds: the request passes validation and
    the failover state machine ends in [Success]. *)
Definition call_succeeds (body : option Messages.AnthropicRequest)
    (script : list Messages.Attempt) : Prop :=
  exists req m ms ts,
    body = Some req /\ Messages.messages req = Some (m :: ms) /\
    Orchestrator.run script 0 "" = Some (ts, Orchestrator.Success).

(* ================================================================== *)
(** ** What the image-edit decoder delivers *)

(** The image updates among the updates of the first revision, as pairs of
    a URL and an index. *)
Definition images_v1 (us : list ImageEditV1.ImageEditUpdate) : list (string * nat) :=
  flat_map (fun u => match u with
                     | ImageEditV1.image url index => [(url, index)]
                     | _ => []
                     end) us.

(** The same for the current revision. *)
Definition images (us : list ImageEdit.ImageEditUpdate) : list (string * nat) :=
  flat_map (fun u => match u with
                     | ImageEdit.image url index => [(url, index)]
                     | _ => []
                     end) us.

(** The updates of the current revision that are not debug updates. *)
Definition undebugged (us : list ImageEdit.ImageEditUpdate)
  : list ImageEdit.ImageEditUpdate :=
  filter (fun u => match u with
                   | ImageEdit.debug _ => false
                   | _ => true
                   end) us.

(** A decoder with another buffer. *)
Definition rebuffer_v1 (b : string) (d : ImageEditV1.Decoder) : ImageEditV1.Decoder :=
  {| ImageEditV1.buffer := b;
     ImageEditV1.collectedUrls := ImageEditV1.collectedUrls d;
     ImageEditV1.yielded := ImageEditV1.yielded d |}.

Definition rebuffer (b : string) (d : ImageEdit.Decoder) : ImageEdit.Decoder :=
  {| ImageEdit.buffer := b;
     ImageEdit.collectedUrls := ImageEdit.collectedUrls d;
     ImageEdit.lineCount := ImageEdit.lineCount d;
     ImageEdit.yielded := ImageEdit.yielded d |}.

(** The invariant of the decode loop: the URLs collected are distinct, and
    the image updates yielded are those URLs, in order, each with its
    rank. *)
Definition v1_inv (d : ImageEditV1.Decoder) : Prop :=
  NoDup (ImageEditV1.collectedUrls d) /\
  map fst (images_v1 (ImageEditV1.yielded d)) = ImageEditV1.collectedUrls d /\
  map snd (images_v1 (ImageEditV1.yielded d)) =
    seq 0 (List.length (ImageEditV1.collectedUrls d)).

Definition decoder_inv (d : ImageEdit.Decoder) : Prop :=
  NoDup (ImageEdit.collectedUrls d) /\
  map fst (images (ImageEdit.yielded d)) = ImageEdit.collectedUrls d /\
  map snd (images (ImageEdit.yielded d)) =
    seq 0 (List.length (ImageEdit.collectedUrls d)).

(** The URLs of the image events of a route. *)
Definition imageUrls (evs : list Sse) : list (option Json.json) :=
  map (fun e => Json.get "url" (data e)) (named "image" evs).

(** The state in which a [for await] of img2img ends. *)
Definition img2img_inner_state (i : Imagine.Img2img.Inner) : Imagine.Img2img.State :=
  match i with
  | Imagine.Img2img.Exhausted st | Imagine.Img2img.Broken st
  | Imagine.Img2img.Returned st => st
  end.

(** The state in which a turn of img2img ends. *)
Definition flow_state {S : Type} (f : Flow S S) : S :=
  match f with
  | Continue s | Break s | Return s => s
  end.

(** The URL of an image update, as the image event of img2img carries
    it. *)
Definition forwarded (p : string * nat) : option Json.json := Some (Json.JStr (fst p)).

(** Environments for the examples. *)
Module Scenario.
Import Json.

Definition LF : string := String "010" EmptyString.

(** A line of the upstream stream whose [modelResponse] lists [urls]. *)
Definition frame (urls : list string) : string :=
  (Demo.stringify
     (JObj [("result",
        JObj [("response",
          JObj [("modelResponse",
            JObj [("generatedImageUrls", JArr (map JStr urls))])])])])
   ++ LF)%string.

Definition asset (n : nat) : string :=
  ("https://assets.grok.com/users/u-1/generated/" ++ Js.ofNat n ++ "/image.jpg")%string.

(** The upload succeeds. *)
Definition uploaded : Imagine.Img2img.UploadReply :=
  Imagine.Img2img.UploadResponse 200 ""
    (inr (JObj [("fileMetadataId", JStr "file-1");
                ("fileUri", JStr "users/u-1/file-1/content")])).

Definition img2imgRequest (count : option Q) : Imagine.Img2img.Request :=
  {| Imagine.Img2img.image_data := Some "data:image/png;base64,iVBORw0KGgo=";
     Imagine.Img2img.prompt := None;
     Imagine.Img2img.count := count;
     Imagine.Img2img.token_id := None |}.

(** A turn of img2img on credential [n]: the upload succeeds and the chat
    call answers 200 with [body]. *)
Definition editTurn (n : nat) (body : Body)
  : Imagine.Turn (Imagine.Img2img.UploadReply * FetchOutcome) :=
  {| Imagine.pinned := None;
     Imagine.random := Some (Demo.credential n);
     Imagine.upstream := (uploaded, FetchResponse 200 "" (Some body)) |}.

(** Two attempts that both deliver the same URL; the first one loses its
    connection after the line, with an error that the route takes for a
    rate limit. *)
Definition repeatedAcrossRetries
  : list (Imagine.Turn (Imagine.Img2img.UploadReply * FetchOutcome)) :=
  [editTurn 1 {| chunks := [frame [asset 1]];
                 readError := Some "429 Too Many Requests" |};
   editTurn 2 {| chunks := [frame [asset 1]]; readError := None |}].

(** One attempt whose stream lists five URLs. *)
Definition fiveImagesTurn
  : Imagine.Turn (Imagine.Img2img.UploadReply * FetchOutcome) :=
  editTurn 1 {| chunks := [frame [asset 1; asset 2; asset 3; asset 4; asset 5]];
                readError := None |}.

Definition fiveImages
  : list (Imagine.Turn (Imagine.Img2img.UploadReply * FetchOutcome)) :=
  [fiveImagesTurn].

(** An update of [streamChat]. *)
Definition chatError (msg : string) : Messages.Update :=
  {| Messages.type := "error"; Messages.content := None; Messages.message := Some msg |}.

Definition chatToken (text : string) : Messages.Update :=
  {| Messages.type := "token"; Messages.content := Some text; Messages.message := None |}.

Definition chatDone : Messages.Update :=
  {| Messages.type := "done"; Messages.content := None; Messages.message := None |}.

(** Six credentials that all report a rate limit at once. *)
Definition allLimited : list Messages.Attempt :=
  map (fun n => Messages.WithToken (Demo.credential n)
                  (MkGen [chatError "HTTP 429: rate limit exceeded"] None))
      (seq 1 6).

(** One credential is rate limited after a first delta, the next one
    completes. *)
Definition failover : list Messages.Attempt :=
  [Messages.WithToken (Demo.credential 1)
     (MkGen [chatToken "Hel"; chatError "HTTP 429"] None);
   Messages.WithToken (Demo.credential 2)
     (MkGen [chatToken "lo, "; chatToken "world"; chatDone] None)].

(** One credential, and a fatal upstream error after a first delta. *)
Definition fatal : list Messages.Attempt :=
  [Messages.WithToken (Demo.credential 1)
     (MkGen [chatToken "Hi"; chatError "HTTP 500: upstream"] None)].

Definition request (streamed : bool) : Messages.AnthropicRequest :=
  {| Messages.model := "claude-sonnet-4";
     Messages.messages := Some [JObj [("role", JStr "user"); ("content", JStr "hello")]];
     Messages.system := None;
     Messages.stream := Some streamed |}.

Definition apiKey : ApiKeyInfo :=
  {| key_id := "key-1"; key := "sk-demo"; name := "demo"; enabled := true;
     rate_limit := 0; daily_usage := 0 |}.


Definition generateRequest (count : option Q) : Imagine.Generate.Request :=
  {| Imagine.Generate.prompt := "a lighthouse";
     Imagine.Generate.aspect_ratio := None;
     Imagine.Generate.enable_nsfw := None;
     Imagine.Generate.count := count;
     Imagine.Generate.token_id := None |}.


(** Credential 1 yields an image and then a rate limit; credential 2
    yields the same image again and completes. *)
Definition generateRepeated : list (Imagine.Turn (Gen Imagine.StreamUpdate)) :=
  [{| Imagine.pinned := None; Imagine.random := Some (Demo.credential 1);
      Imagine.upstream :=
        MkGen [Imagine.image [("url", JStr (asset 1))];
               Imagine.error "Rate limited (429)" []] None |};
   {| Imagine.pinned := None; Imagine.random := Some (Demo.credential 2);
      Imagine.upstream :=
        MkGen [Imagine.image [("url", JStr (asset 1))]; Imagine.done] None |}].

End Scenario.

(** What img2img posts asks for [n] images when it is a chat call. *)
Definition asks_for (n : Q) (r : Imagine.Img2img.Sent) : Prop :=
  match r with
  | Imagine.Img2img.Chat _ payload =>
      Json.get "imageGenerationCount" payload = Some (Json.JNum n)
  | Imagine.Img2img.Upload _ _ _ _ => True
  end.

(** An event of img2img has the target [n] when it is a progress event of
    the collecting stage. *)
Definition targets (n : Q) (e : Sse) : Prop :=
  event e = "progress" ->
  Json.get "status" (data e) = Some (Json.JStr "collecting") ->
  Json.get "target_count" (data e) = Some (Json.JNum n).

(** What the loop of img2img has posted and written asks for, and aims
    at, [Math.min(count, 4)] images. *)
Definition clamped (count : Q) (st : Imagine.Img2img.State) : Prop :=
  Forall (asks_for (Qmin count 4)) (Imagine.Img2img.sent st) /\
  Forall (targets (Qmin count 4)) (Imagine.Img2img.written st).

(** The count of an img2img request, 4 when it has none. *)
Definition requested (body : Imagine.Img2img.Request) : Q :=
  match Imagine.Img2img.count body with
  | Some c => c
  | None => 4%Q
  end.

(** The request with another count. *)
Definition withCount (c : Q) (body : Imagine.Img2img.Request) : Imagine.Img2img.Request :=
  {| Imagine.Img2img.image_data := Imagine.Img2img.image_data body;
     Imagine.Img2img.prompt := Imagine.Img2img.prompt body;
     Imagine.Img2img.count := Some c;
     Imagine.Img2img.token_id := Imagine.Img2img.token_id body |}.

(* ================================================================== *)
(** ** grok/models.ts and routes/v1/models.ts *)

Module Models.
Import Json.

Inductive ModelType : Type := text | image | video.

Record ModelInfo : Type :=
  { id : string;
    grokModel : string;
    modelMode : string;
    displayName : string;
    type : ModelType }.

Definition SUPPORTED_RATIOS : list string := ["1:1"; "2:3"; "3:2"; "16:9"; "9:16"].

Definition RATIO_SUFFIX_MAP : list (string * string) :=
  [("1_1", "1:1"); ("2_3", "2:3"); ("3_2", "3:2"); ("16_9", "16:9"); ("9_16", "9:16")].

Definition MODEL_MODE_AUTO : string := "MODEL_MODE_AUTO".
Definition MODEL_MODE_FAST : string := "MODEL_MODE_FAST".
Definition MODEL_MODE_HEAVY : string := "MODEL_MODE_HEAVY".
Definition MODEL_MODE_GROK_4_MINI_THINKING : string := "MODEL_MODE_GROK_4_MINI_THINKING".
Definition MODEL_MODE_GROK_4_1_THINKING : string := "MODEL_MODE_GROK_4_1_THINKING".
Definition MODEL_MODE_EXPERT : string := "MODEL_MODE_EXPERT".

Definition MODELS : list ModelInfo :=
  [ (* Grok 3 series *)
    {| id := "grok-3"; grokModel := "grok-3"; modelMode := MODEL_MODE_AUTO;
       displayName := "Grok 3"; type := text |};
    {| id := "grok-3-fast"; grokModel := "grok-3"; modelMode := MODEL_MODE_FAST;
       displayName := "Grok 3 Fast"; type := text |};
    (* Grok 4 series *)
    {| id := "grok-4"; grokModel := "grok-4"; modelMode := MODEL_MODE_AUTO;
       displayName := "Grok 4"; type := text |};
    {| id := "grok-4-mini"; grokModel := "grok-4-mini-thinking-tahoe";
       modelMode := MODEL_MODE_GROK_4_MINI_THINKING;
       displayName := "Grok 4 Mini"; type := text |};
    {| id := "grok-4-fast"; grokModel := "grok-4"; modelMode := MODEL_MODE_FAST;
       displayName := "Grok 4 Fast"; type := text |};
    {| id := "grok-4-heavy"; grokModel := "grok-4"; modelMode := MODEL_MODE_HEAVY;
       displayName := "Grok 4 Heavy"; type := text |};
    (* Grok 4.1 series *)
    {| id := "grok-4.1"; grokModel := "grok-4-1-thinking-1129";
       modelMode := MODEL_MODE_AUTO; displayName := "Grok 4.1"; type := text |};
    {| id := "grok-4.1-fast"; grokModel := "grok-4-1-thinking-1129";
       modelMode := MODEL_MODE_FAST; displayName := "Grok 4.1 Fast"; type := text |};
    {| id := "grok-4.1-expert"; grokModel := "grok-4-1-thinking-1129";
       modelMode := MODEL_MODE_EXPERT; displayName := "Grok 4.1 Expert"; type := text |};
    {| id := "grok-4.1-thinking"; grokModel := "grok-4-1-thinking-1129";
       modelMode := MODEL_MODE_GROK_4_1_THINKING;
       displayName := "Grok 4.1 Thinking"; type := text |};
    (* Image models with aspect ratios *)
    {| id := "grok-image"; grokModel := "grok-3"; modelMode := MODEL_MODE_FAST;
       displayName := "Grok Image (1:1)"; type := image |};
    {| id := "grok-image-1_1"; grokModel := "grok-3"; modelMode := MODEL_MODE_FAST;
       displayName := "Grok Image (1:1)"; type := image |};
    {| id := "grok-image-2_3"; grokModel := "grok-3"; modelMode := MODEL_MODE_FAST;
       displayName := "Grok Image (2:3)"; type := image |};
    {| id := "grok-image-3_2"; grokModel := "grok-3"; modelMode := MODEL_MODE_FAST;
       displayName := "Grok Image (3:2)"; type := image |};
    {| id := "grok-image-16_9"; grokModel := "grok-3"; modelMode := MODEL_MODE_FAST;
       displayName := "Grok Image (16:9)"; type := image |};
    {| id := "grok-image-9_16"; grokModel := "grok-3"; modelMode := MODEL_MODE_FAST;
       displayName := "Grok Image (9:16)"; type := image |};
    (* Video models with aspect ratios *)
    {| id := "grok-video"; grokModel := "grok-3"; modelMode := MODEL_MODE_FAST;
       displayName := "Grok Video (16:9)"; type := video |};
    {| id := "grok-video-1_1"; grokModel := "grok-3"; modelMode := MODEL_MODE_FAST;
       displayName := "Grok Video (1:1)"; type := video |};
    {| id := "grok-video-2_3"; grokModel := "grok-3"; modelMode := MODEL_MODE_FAST;
       displayName := "Grok Video (2:3)"; type := video |};
    {| id := "grok-video-3_2"; grokModel := "grok-3"; modelMode := MODEL_MODE_FAST;
       displayName := "Grok Video (3:2)"; type := video |};
    {| id := "grok-video-16_9"; grokModel := "grok-3"; modelMode := MODEL_MODE_FAST;
       displayName := "Grok Video (16:9)"; type := video |};
    {| id := "grok-video-9_16"; grokModel := "grok-3"; modelMode := MODEL_MODE_FAST;
       displayName := "Grok Video (9:16)"; type := video |} ].

(** [getModelInfo(modelId)]: [MODELS.find((m) => m.id === modelId)] *)
Definition getModelInfo (modelId : string) : option ModelInfo :=
  find (fun m => String.eqb (id m) modelId) MODELS.

(** [toGrokModel(modelId)]: the pair of [grokModel] and [modelMode] *)
Definition toGrokModel (modelId : string) : option (string * string) :=
  match getModelInfo modelId with
  | None => None
  | Some model => Some (grokModel model, modelMode model)
  end.

(** [isTextModel(modelId)]: [model?.type === "text"] *)
Definition isTextModel (modelId : string) : bool :=
  match getModelInfo modelId with
  | Some {| type := text |} => true
  | _ => false
  end.

(** [isThinkingModel(modelId)] *)
Definition isThinkingModel (modelId : string) : bool :=
  existsb (String.eqb modelId) ["grok-4-mini"; "grok-4.1-thinking"].

(** [isImageModel(modelId)] *)
Definition isImageModel (modelId : string) : bool :=
  String.eqb modelId "grok-image" || Js.startsWith modelId "grok-image-".

(** [isVideoModel(modelId)] *)
Definition isVideoModel (modelId : string) : bool :=
  String.eqb modelId "grok-video" || Js.startsWith modelId "grok-video-".

(** The property names that an object literal inherits from
    [Object.prototype].  [RATIO_SUFFIX_MAP] is an object literal, so
    [RATIO_SUFFIX_MAP[suffix]] for one of these names is not [undefined]:
    it is a function (or, for [__proto__], the prototype object), which is
    truthy and is no ratio. *)
Definition objectPrototype : list string :=
  ["constructor"; "__defineGetter__"; "__defineSetter__"; "hasOwnProperty";
   "__lookupGetter__"; "__lookupSetter__"; "isPrototypeOf";
   "propertyIsEnumerable"; "toString"; "valueOf"; "__proto__";
   "toLocaleString"].

(** The value of the field [aspectRatio] of a result: a ratio of the map,
    or what the name [inherited] gives on [Object.prototype]. *)
Inductive AspectRatio : Type :=
| ratio (r : string)
| inherited (name : string).

(** [RATIO_SUFFIX_MAP[suffix]]; [None] is [undefined]. *)
Definition ratioOfSuffix (suffix : string) : option AspectRatio :=
  match find (fun kv => String.eqb (fst kv) suffix) RATIO_SUFFIX_MAP with
  | Some kv => Some (ratio (snd kv))
  | None =>
      if existsb (String.eqb suffix) objectPrototype
      then Some (inherited suffix) else None
  end.

Record Parsed : Type := { baseModel : string; aspectRatio : AspectRatio }.

(** [parseModelWithRatio(modelId)].  Every ratio of the map is a non-empty
    string, so [if (ratio)] fails only for [undefined]. *)
Definition parseModelWithRatio (modelId : string) : Parsed :=
  match (if Js.startsWith modelId "grok-image-"
         then ratioOfSuffix (Js.sliceFrom (String.length "grok-image-") modelId)
         else None) with
  | Some r => {| baseModel := "grok-image"; aspectRatio := r |}
  | None =>
      match (if Js.startsWith modelId "grok-video-"
             then ratioOfSuffix (Js.sliceFrom (String.length "grok-video-") modelId)
             else None) with
      | Some r => {| baseModel := "grok-video"; aspectRatio := r |}
      | None =>
          if String.eqb modelId "grok-image"
          then {| baseModel := "grok-image"; aspectRatio := ratio "1:1" |}
          else if String.eqb modelId "grok-video"
          then {| baseModel := "grok-video"; aspectRatio := ratio "16:9" |}
          else {| baseModel := modelId; aspectRatio := ratio "1:1" |}
      end
  end.

(** [requiresInputImage(_modelId)] *)
Definition requiresInputImage (_modelId : string) : bool := false.

(** GET /v1/models: the body of the response. *)
Definition listModels : json :=
  JObj [("object", JStr "list");
        ("data",
          JArr (map (fun m =>
                       JObj [("id", JStr (id m));
                             ("object", JStr "model");
                             ("created", jint 1700000000);
                             ("owned_by", JStr "xai");
                             ("permission", JArr []);
                             ("root", JStr (id m));
                             ("parent", JNull)]) MODELS))].

End Models.

(* ================================================================== *)
(** ** routes/v1/messages.ts: model mapping and format conversion *)

Module Convert.
Import Json.

(** [mapModel(model)].  The tests are made on [model.toLowerCase()]; the
    letters that the patterns are made of are those of the Latin
    alphabet. *)
Definition mapModel (model : string) : string :=
  let lower := Js.toLowerCase model in
  if Js.includes lower "opus" then "grok-4-heavy"
  else if Js.includes lower "haiku" then "grok-4-fast"
  else if Js.includes lower "sonnet" then "grok-4"
  else if Js.startsWith lower "claude" then "grok-4"
  else model.

(** [v === s] for a string literal [s] *)
Definition isStr (v : option json) (s : string) : bool :=
  match v with
  | Some (JStr s') => String.eqb s' s
  | _ => false
  end.

(** A property of an object literal: a property whose value is
    [undefined] is left out, as [JSON.stringify] leaves it out. *)
Definition prop (k : string) (v : option json) : list (string * json) :=
  match v with
  | Some x => [(k, x)]
  | None => []
  end.

(** The text that a template literal gives for a value: a string stands
    for itself. *)
Definition interpolate `{Runtime} (v : option json) : string :=
  match v with
  | Some (JStr s) => s
  | _ => toText v
  end.

Definition textPart (t : json) : json := JObj [("type", JStr "text"); ("text", t)].

Definition imageUrlPart (u : json) : json :=
  JObj [("type", JStr "image_url"); ("image_url", JObj [("url", u)])].

(** [convertContentPart(part)].  The outer [None]: the call throws a
    [TypeError] (a property is read on [null] or [undefined]); the inner
    [None]: it returns [null]. *)
Definition convertContentPart `{Runtime} (part : json) : option (option json) :=
  match part with
  | JNull => None
  | _ =>
      let ty := get "type" part in
      if isStr ty "text"
      then Some (Some (JObj (("type", JStr "text") :: prop "text" (get "text" part))))
      else if isStr ty "image" then
        match get "source" part with
        | None | Some JNull => None
        | Some src =>
            let url := get "url" src in
            if truthy url
            then Some (Some (imageUrlPart (match url with Some u => u | None => JNull end)))
            else if truthy (get "data" src) && truthy (get "media_type" src)
            then Some (Some (imageUrlPart
                   (JStr ("data:" ++ interpolate (get "media_type" src)
                            ++ ";base64," ++ interpolate (get "data" src))%string)))
            else Some None
        end
      else if isStr ty "tool_use"
      then Some (Some (textPart (JStr ("[Tool: " ++ interpolate (get "name" part)
                                         ++ "]")%string)))
      else if isStr ty "tool_result"
      then Some (Some (textPart (JStr "[Tool result]")))
      else Some None
  end.

(** [content.map(convertContentPart).filter((p) => p !== null)] *)
Fixpoint convertParts `{Runtime} (content : list json) : option (list json) :=
  match content with
  | [] => Some []
  | part :: rest =>
      match convertContentPart part with
      | None => None
      | Some p =>
          match convertParts rest with
          | None => None
          | Some ps => Some (match p with Some x => x :: ps | None => ps end)
          end
      end
  end.

(** [convertContent(content)]; [content] is [None] when the message has no
    such property, and the result is [None] when the call throws. *)
Definition convertContent `{Runtime} (content : option json) : option json :=
  match content with
  | Some (JStr s) => Some (JStr s)
  | Some (JArr items) =>
      match convertParts items with
      | None => None
      | Some parts =>
          match parts with
          | [p] =>
              if isStr (get "type" p) "text"
              then Some (if truthy (get "text" p)
                         then match get "text" p with Some t => t | None => JStr "" end
                         else JStr "")
              else Some (JArr parts)
          | _ => Some (JArr parts)
          end
      end
  | _ => None       (* [content.map] is not a function *)
  end.

(** The body of [for (const msg of messages)] *)
Definition convertMessage `{Runtime} (msg : json) : option json :=
  match msg with
  | JNull => None
  | _ =>
      match convertContent (get "content" msg) with
      | None => None
      | Some c => Some (JObj (prop "role" (get "role" msg) ++ [("content", c)]))
      end
  end.

Fixpoint convertEach `{Runtime} (messages : list json) : option (list json) :=
  match messages with
  | [] => Some []
  | msg :: rest =>
      match convertMessage msg with
      | None => None
      | Some m =>
          match convertEach rest with
          | None => None
          | Some ms => Some (m :: ms)
          end
      end
  end.

(** [convertMessages(messages, system)]; [None] when it throws.  [system]
    is the property of the request body, [None] when it has none. *)
Definition convertMessages `{Runtime} (messages : list json) (system : option json)
  : option (list json) :=
  match convertEach messages with
  | None => None
  | Some ms =>
      Some ((match system with
             | Some s => if truthy system
                         then [JObj [("role", JStr "system"); ("content", s)]] else []
             | None => []
             end) ++ ms)
  end.

(** What the handler of POST /v1/messages does with a request: it throws
    (nothing in the handler catches the error), or it answers. *)
Inductive Handled : Type :=
| Threw
| Answered (o : Messages.Outcome).

(** The handler on the parsed body of the request ([None]: the body is
    not JSON), down to the two branches, which [Messages.post] gives.
    The request is read by destructuring; [rawModel.toLowerCase()] in
    [mapModel] and the reads of [convertMessages] come after the check of
    [messages] and before the first event is sent. *)
Definition handle `{Runtime} (body : option json) (apiKeyInfo : option ApiKeyInfo)
    (msgId : string) (script : list Messages.Attempt) : option Handled :=
  match body with
  | None => option_map Answered (Messages.post None apiKeyInfo msgId script)
  | Some JNull => Some Threw
  | Some b =>
      let request (rawModel : string) (items : option (list json)) :=
        {| Messages.model := rawModel;
           Messages.messages := items;
           Messages.system := match get "system" b with
                              | Some (JStr s) => Some s
                              | _ => None
                              end;
           Messages.stream := Some (truthy (get "stream" b)) |} in
      match get "messages" b with
      | Some (JArr (m :: ms)) =>
          match get "model" b with
          | Some (JStr rawModel) =>
              match convertMessages (m :: ms) (get "system" b) with
              | None => Some Threw
              | Some _ =>
                  option_map Answered
                    (Messages.post (Some (request rawModel (Some (m :: ms))))
                                   apiKeyInfo msgId script)
              end
          | _ => Some Threw
          end
      | _ =>
          option_map Answered
            (Messages.post (Some (request "" None)) apiKeyInfo msgId script)
      end
  end.

End Convert.

(** The model ids that a client reads in the body of GET /v1/models. *)
Definition listedIds (body : Json.json) : list string :=
  match Json.get "data" body with
  | Some (Json.JArr items) =>
      flat_map (fun m => match Json.get "id" m with
                         | Some (Json.JStr s) => [s]
                         | _ => []
                         end) items
  | _ => []
  end.

(** A content part on which [convertContentPart] reads a property of
    [null] or [undefined]: the part is [null], or it is an image part
    whose [source] is absent or [null]. *)
Definition brokenPart (part : Json.json) : bool :=
  match part with
  | Json.JNull => true
  | _ =>
      Convert.isStr (Json.get "type" part) "image" &&
      match Json.get "source" part with
      | None | Some Json.JNull => true
      | Some _ => false
      end
  end.

(** A message that [convertMessages] cannot read: it is [null], or its
    content is neither a string nor an array, or the array holds a broken
    part. *)
Definition brokenMessage (msg : Json.json) : bool :=
  match msg with
  | Json.JNull => true
  | _ =>
      match Json.get "content" msg with
      | Some (Json.JStr _) => false
      | Some (Json.JArr items) => existsb brokenPart items
      | _ => true
      end
  end.

(* ================================================================== *)
(** ** repo/api-keys.ts *)

(** Dates of the runtime that the key store and its routes render. *)
Class Dates : Type :=
  { (** [new Date(t).toISOString()] for a time value [t] in range *)
    toISOString : Z -> string;
    (** [new Date(t).toLocaleDateString()] *)
    toLocaleDateString : Z -> string }.

Module ApiKeys.
Import Json.

(** A row of the table [api_keys], with the columns of
    migrations/0002_api_keys.sql ([ApiKeyRow]). *)
Record ApiKeyRow : Type :=
  { id : string;
    key : string;
    name : string;
    enabled : Z;
    rate_limit : Z;
    daily_usage : Z;
    usage_count : Z;
    created_at : Z;
    last_used_at : option Z;
    daily_reset_at : option Z }.

(** Modelled from the spec: the record store of the API keys.  [dbFirst],
    [dbRun] and [dbAll] (../db) are not among the sources; the table is
    the list of its rows in the order of their insertion, and a statement
    does what its SQL text says: [dbFirst] gives the first row selected
    or [null], [dbAll] all the rows selected, and [dbRun] applies an
    update, a deletion or an insertion, and rejects when the insertion
    breaks the primary key on [id] or the uniqueness of [key]. *)
Definition DB : Type := list ApiKeyRow.

(** [UPDATE api_keys SET ... WHERE ...] *)
Definition update (where_ : ApiKeyRow -> bool) (set : ApiKeyRow -> ApiKeyRow)
    (db : DB) : DB :=
  map (fun r => if where_ r then set r else r) db.

(** [rowToApiKeyInfo(row)], with the fields of [ApiKeyInfo] that the
    middleware and the routes read. *)
Definition rowToApiKeyInfo (row : ApiKeyRow) : ApiKeyInfo :=
  Build_ApiKeyInfo (id row) (key row) (name row) (negb (enabled row =? 0)%Z)
                   (rate_limit row) (daily_usage row).

(** What [apiKeyRowToInfo] returns ([ApiKeyDisplayInfo]). *)
Record ApiKeyDisplayInfo : Type :=
  { display_id : string;                    (* [id] *)
    display_key : string;                   (* [key] *)
    key_preview : string;
    display_name : string;                  (* [name] *)
    display_enabled : bool;                 (* [enabled] *)
    display_rate_limit : Z;                 (* [rate_limit] *)
    display_daily_usage : Z;                (* [daily_usage] *)
    display_daily_reset_at : option string; (* [daily_reset_at] *)
    display_usage_count : Z;                (* [usage_count] *)
    display_created_at : string;            (* [created_at] *)
    display_last_used_at : option string    (* [last_used_at] *) }.

(** [s.slice(-n)] for a positive [n] *)
Definition sliceLast (n : nat) (s : string) : string :=
  Js.sliceFrom (String.length s - n) s.

(** The time values of a valid [Date]; [toISOString] throws a
    [RangeError] on the others. *)
Definition validTime (t : Z) : bool :=
  (-8640000000000000 <=? t)%Z && (t <=? 8640000000000000)%Z.

(** [new Date(t).toISOString()]; [None] when it throws. *)
Definition isoDate `{Dates} (t : Z) : option string :=
  if validTime t then Some (toISOString t) else None.

(** [t ? new Date(t).toISOString() : null]; the outer [None] when it
    throws. *)
Definition isoDateOrNull `{Dates} (t : option Z) : option (option string) :=
  match t with
  | None => Some None
  | Some v => if (v =? 0)%Z then Some None else option_map Some (isoDate v)
  end.

(** [apiKeyRowToInfo(row)]; [None] when it throws. *)
Definition apiKeyRowToInfo `{Dates} (row : ApiKeyRow) : option ApiKeyDisplayInfo :=
  let preview :=
    if (12 <? String.length (key row))%nat
    then (Js.slice0 8 (key row) ++ "..." ++ sliceLast 4 (key row))%string
    else key row in
  match isoDateOrNull (daily_reset_at row) with
  | None => None
  | Some reset =>
      match isoDate (created_at row) with
      | None => None
      | Some created =>
          match isoDateOrNull (last_used_at row) with
          | None => None
          | Some used =>
              Some {| display_id := id row;
                      display_key := key row;
                      key_preview := preview;
                      display_name := name row;
                      display_enabled := negb (enabled row =? 0)%Z;
                      display_rate_limit := rate_limit row;
                      display_daily_usage := daily_usage row;
                      display_daily_reset_at := reset;
                      display_usage_count := usage_count row;
                      display_created_at := created;
                      display_last_used_at := used |}
          end
      end
  end.

Definition touch (now : Z) (r : ApiKeyRow) : ApiKeyRow :=
  {| id := id r; key := key r; name := name r; enabled := enabled r;
     rate_limit := rate_limit r; daily_usage := daily_usage r;
     usage_count := usage_count r; created_at := created_at r;
     last_used_at := Some now; daily_reset_at := daily_reset_at r |}.

(** [validateApiKey(db, apiKey)] at the time [now]: the key information,
    or [null], and the table after the call. *)
Definition validateApiKey (db : DB) (apiKey : string) (now : Z)
  : option ApiKeyInfo * DB :=
  match find (fun r => String.eqb (key r) apiKey) db with
  | None => (None, db)
  | Some row =>
      (Some (rowToApiKeyInfo row),
       update (fun r => String.eqb (id r) (id row)) (touch now) db)
  end.

Definition used (r : ApiKeyRow) : ApiKeyRow :=
  {| id := id r; key := key r; name := name r; enabled := enabled r;
     rate_limit := rate_limit r; daily_usage := (daily_usage r + 1)%Z;
     usage_count := (usage_count r + 1)%Z; created_at := created_at r;
     last_used_at := last_used_at r; daily_reset_at := daily_reset_at r |}.

(** [incrementApiKeyUsage(db, apiKeyId)] *)
Definition incrementApiKeyUsage (db : DB) (apiKeyId : string) : DB :=
  update (fun r => String.eqb (id r) apiKeyId) used db.

Definition unused (r : ApiKeyRow) : ApiKeyRow :=
  {| id := id r; key := key r; name := name r; enabled := enabled r;
     rate_limit := rate_limit r; daily_usage := 0%Z;
     usage_count := usage_count r; created_at := created_at r;
     last_used_at := last_used_at r; daily_reset_at := daily_reset_at r |}.

(** [resetDailyUsage(db)] *)
Definition resetDailyUsage (db : DB) : DB := update (fun _ => true) unused db.

(** The alphabet of [generateApiKey]. *)
Definition chars : string :=
  "ABCDEFGHIJKLMNOPQRSTUVWXYZabcdefghijklmnopqrstuvwxyz0123456789".

(** [s.charAt(i)] *)
Definition charAt (s : string) (i : Z) : string :=
  if (i <? 0)%Z then ""
  else match String.get (Z.to_nat i) s with
       | Some c => String c ""
       | None => ""
       end.

(** [generateApiKey()]; [random i] is what the call number [i] of
    [Math.random()] returns.  The product is exact where JavaScript
    rounds it to a double. *)
Definition generateApiKey (random : nat -> Q) : string :=
  fold_left
    (fun key i =>
       (key ++ charAt chars (Qfloor (random i * inject_Z (Z.of_nat (String.length chars)))))%string)
    (seq 0 48) "sk-".

(** [ORDER BY created_at DESC]: the rows with the latest first.  (SQL
    leaves the order of the rows that have the same [created_at] open;
    here they keep the order of the table.) *)
Fixpoint insertDesc (r : ApiKeyRow) (rows : list ApiKeyRow) : list ApiKeyRow :=
  match rows with
  | [] => [r]
  | x :: rest =>
      if (created_at x <? created_at r)%Z then r :: rows
      else x :: insertDesc r rest
  end.

(** [listApiKeys(db)] *)
Definition listApiKeys (db : DB) : list ApiKeyRow :=
  fold_left (fun acc r => insertDesc r acc) db [].

(** [getApiKey(db, id)] *)
Definition getApiKey (db : DB) (id_ : string) : option ApiKeyRow :=
  find (fun r => String.eqb (id r) id_) db.

(** [createApiKey(db, name)]; [id_] and [key_] are what [generateId()]
    and [generateApiKey()] return and [now] is [nowMs()].  The outer
    [None]: the insertion rejects; otherwise the row read back and the
    table. *)
Definition createApiKey `{Dates} (db : DB) (name_ : string) (id_ key_ : string) (now : Z)
  : option (option ApiKeyRow * DB) :=
  let keyName :=
    Js.orElse (Some name_) ("API Key " ++ toLocaleDateString now)%string in
  if existsb (fun r => String.eqb (id r) id_) db
     || existsb (fun r => String.eqb (key r) key_) db
  then None
  else
    let db' :=
      db ++ [{| id := id_; key := key_; name := keyName; enabled := 1;
                rate_limit := 0; daily_usage := 0; usage_count := 0;
                created_at := now; last_used_at := None;
                daily_reset_at := None |}] in
    Some (getApiKey db' id_, db').

(** [deleteApiKey(db, id)] *)
Definition deleteApiKey (db : DB) (id_ : string) : bool * DB :=
  match getApiKey db id_ with
  | None => (false, db)
  | Some _ => (true, filter (fun r => negb (String.eqb (id r) id_)) db)
  end.

Definition switch (flag : Z) (r : ApiKeyRow) : ApiKeyRow :=
  {| id := id r; key := key r; name := name r; enabled := flag;
     rate_limit := rate_limit r; daily_usage := daily_usage r;
     usage_count := usage_count r; created_at := created_at r;
     last_used_at := last_used_at r; daily_reset_at := daily_reset_at r |}.

(** [toggleApiKey(db, id, enabled)] *)
Definition toggleApiKey (db : DB) (id_ : string) (enabled_ : bool) : bool * DB :=
  match getApiKey db id_ with
  | None => (false, db)
  | Some _ =>
      (true, update (fun r => String.eqb (id r) id_)
                    (switch (if enabled_ then 1 else 0)%Z) db)
  end.

(** [getApiKeyStats(db)]: [total] and [enabled] *)
Definition getApiKeyStats (db : DB) : nat * nat :=
  (List.length db, List.length (filter (fun r => (enabled r =? 1)%Z) db)).

End ApiKeys.

(* ================================================================== *)
(** ** routes/api-keys.ts *)

Module ApiKeyRoutes.
Import Json ApiKeys.

(** What a route does: it throws, or it answers with a status and a JSON
    body. *)
Inductive Reply : Type :=
| Throws
| Answers (status : nat) (body : json).

Definition jsonOpt (o : option string) : json :=
  match o with
  | Some s => JStr s
  | None => JNull
  end.

Definition maskedKey (info : ApiKeyDisplayInfo) : json :=
  JObj [("id", JStr (display_id info));
        ("key", JStr (key_preview info));
        ("name", JStr (display_name info));
        ("created_at", JStr (display_created_at info));
        ("last_used_at", jsonOpt (display_last_used_at info));
        ("usage_count", jint (display_usage_count info));
        ("rate_limit", jint (display_rate_limit info));
        ("daily_usage", jint (display_daily_usage info));
        ("daily_reset_at", jsonOpt (display_daily_reset_at info));
        ("enabled", JBool (display_enabled info))].

(** [keys.map((row) => ...)]; [None] when [apiKeyRowToInfo] throws. *)
Fixpoint maskedKeys `{Dates} (rows : list ApiKeyRow) : option (list json) :=
  match rows with
  | [] => Some []
  | row :: rest =>
      match apiKeyRowToInfo row with
      | None => None
      | Some info =>
          match maskedKeys rest with
          | None => None
          | Some ms => Some (maskedKey info :: ms)
          end
      end
  end.

(** GET /api/keys *)
Definition getKeys `{Dates} (db : DB) : Reply :=
  let stats := getApiKeyStats db in
  match maskedKeys (listApiKeys db) with
  | None => Throws
  | Some ks =>
      Answers 200 (JObj [("keys", JArr ks);
                         ("total", jnat (fst stats));
                         ("enabled", jnat (snd stats))])
  end.

(** POST /api/keys, for a body that is not JSON ([None]) or whose [name]
    is a string or absent. *)
Definition postKeys `{Dates} (body : option json) (id_ key_ : string) (now : Z) (db : DB)
  : Reply * DB :=
  match body with
  | Some JNull => (Throws, db)
  | _ =>
      let name_ :=
        match getOpt "name" body with
        | Some (JStr s) => s
        | _ => ""
        end in
      match createApiKey db name_ id_ key_ now with
      | None => (Throws, db)
      | Some (None, db') => (Throws, db')
      | Some (Some keyRow, db') =>
          match apiKeyRowToInfo keyRow with
          | None => (Throws, db')
          | Some keyInfo =>
              (Answers 200
                 (JObj [("success", JBool true);
                        ("key",
                          JObj [("id", JStr (display_id keyInfo));
                                ("key", JStr (display_key keyInfo));
                                ("name", JStr (display_name keyInfo));
                                ("created_at", JStr (display_created_at keyInfo));
                                ("usage_count", jint (display_usage_count keyInfo));
                                ("rate_limit", jint (display_rate_limit keyInfo));
                                ("enabled", JBool (display_enabled keyInfo))])]),
               db')
          end
      end
  end.

Definition notFound : Reply :=
  Answers 404 (JObj [("success", JBool false); ("error", JStr "API key not found")]).

Definition success : Reply := Answers 200 (JObj [("success", JBool true)]).

(** DELETE /api/keys/:id *)
Definition deleteKey (id_ : string) (db : DB) : Reply * DB :=
  let '(deleted, db') := deleteApiKey db id_ in
  if negb deleted then (notFound, db') else (success, db').

(** PATCH /api/keys/:id; [body] is [None] when the body is not JSON. *)
Definition patchKey (id_ : string) (body : option json) (db : DB) : Reply * DB :=
  match getApiKey db id_ with
  | None => (notFound, db)
  | Some _ =>
      match body with
      | Some JNull => (Throws, db)
      | _ =>
          match getOpt "enabled" body with
          | Some (JBool enabled_) =>
              let '(updated, db') := toggleApiKey db id_ enabled_ in
              if negb updated
              then (Answers 500 (JObj [("success", JBool false);
                                       ("error", JStr "Failed to update API key")]),
                    db')
              else (success, db')
          | _ =>
              (Answers 400
                 (JObj [("success", JBool false);
                        ("error", JStr "Invalid request: 'enabled' must be a boolean")]),
               db)
          end
      end
  end.

End ApiKeyRoutes.

(* ================================================================== *)
(** ** middleware/api-auth.ts on the key store *)

(** The first revision of the middleware, which reads the key from the
    [Authorization] header only. *)
Module ApiAuthV1.
Import Json.

Definition apiAuthMiddleware {A : Type} (authorization : option string)
    (validateApiKey : string -> option ApiKeyInfo) (next : ApiKeyInfo -> A)
  : (nat * json) + A :=
  match ApiAuth.extractBearerToken authorization with
  | None =>
      inl (ApiAuth.createErrorResponse 401
             "Missing or invalid Authorization header. Expected format: Bearer <api_key>"
             "authentication_error" "missing_api_key")
  | Some tok =>
      match validateApiKey tok with
      | None =>
          inl (ApiAuth.createErrorResponse 401 "Invalid API key"
                 "authentication_error" "invalid_api_key")
      | Some keyInfo =>
          if negb (enabled keyInfo) then
            inl (ApiAuth.createErrorResponse 403 "API key is disabled"
                   "authentication_error" "api_key_disabled")
          else if ((0 <? rate_limit keyInfo) && (rate_limit keyInfo <=? daily_usage keyInfo))%Z
          then
            inl (ApiAuth.createErrorResponse 429
                   "Rate limit exceeded. Please try again later."
                   "rate_limit_error" "rate_limit_exceeded")
          else inr (next keyInfo)
      end
  end.

End ApiAuthV1.

Module Gateway.
Import Json.

(** [apiAuthMiddleware] with the key store threaded through it:
    [validateApiKey] is run on the table, at the time [now], and [next]
    runs on the table that it leaves. *)
Definition apiAuthMiddleware {A : Type} (x_api_key authorization : option string)
    (now : Z) (next : ApiKeyInfo -> ApiKeys.DB -> A * ApiKeys.DB) (db : ApiKeys.DB)
  : ((nat * json) + A) * ApiKeys.DB :=
  let token :=
    if Js.truthyStr x_api_key then x_api_key
    else ApiAuth.extractBearerToken authorization in
  match token with
  | None =>
      (inl (ApiAuth.createErrorResponse 401
              "Missing or invalid Authorization header. Expected format: Bearer <api_key>"
              "authentication_error" "missing_api_key"), db)
  | Some tok =>
      let '(keyInfo, db1) := ApiKeys.validateApiKey db tok now in
      match keyInfo with
      | None =>
          (inl (ApiAuth.createErrorResponse 401 "Invalid API key"
                  "authentication_error" "invalid_api_key"), db1)
      | Some keyInfo =>
          if negb (enabled keyInfo) then
            (inl (ApiAuth.createErrorResponse 403 "API key is disabled"
                    "authentication_error" "api_key_disabled"), db1)
          else if ((0 <? rate_limit keyInfo) && (rate_limit keyInfo <=? daily_usage keyInfo))%Z
          then
            (inl (ApiAuth.createErrorResponse 429
                    "Rate limit exceeded. Please try again later."
                    "rate_limit_error" "rate_limit_exceeded"), db1)
          else let '(a, db2) := next keyInfo db1 in (inr a, db2)
      end
  end.

(** One request to POST /v1/messages and what the environment answers
    while it is served. *)
Record Request : Type :=
  { x_api_key : option string;
    authorization : option string;
    now : Z;
    body : option Messages.AnthropicRequest;
    msgId : string;
    script : list Messages.Attempt }.

(** The calls of a route to [incrementApiKeyUsage], applied to the
    table. *)
Definition account (out : option Messages.Outcome) (db : ApiKeys.DB) : ApiKeys.DB :=
  match out with
  | Some o => fold_left ApiKeys.incrementApiKeyUsage (Messages.usageCalls o) db
  | None => db
  end.

(** Modelled from the spec: POST /v1/messages behind the middleware.
    index.ts, which mounts [apiAuthMiddleware] in front of the routes
    under /v1, is not among the sources; the route reads the key
    information that the middleware stores in the context.  The answer
    is the error of the middleware or the outcome of the route ([None]:
    the script ends before the call does). *)
Definition messages (r : Request) (db : ApiKeys.DB)
  : ((nat * json) + option Messages.Outcome) * ApiKeys.DB :=
  apiAuthMiddleware (x_api_key r) (authorization r) (now r)
    (fun info db1 =>
       let out := Messages.post (body r) (Some info) (msgId r) (script r) in
       (out, account out db1))
    db.

(** Requests served one after the other. *)
Fixpoint serve (rs : list Request) (db : ApiKeys.DB)
  : list ((nat * json) + option Messages.Outcome) * ApiKeys.DB :=
  match rs with
  | [] => ([], db)
  | r :: rest =>
      let '(a, db1) := messages r db in
      let '(answers, db2) := serve rest db1 in
      (a :: answers, db2)
  end.

End Gateway.

(** The table satisfies the constraints of its schema: [id] is the
    primary key and [key] is unique. *)
Definition constrained (db : ApiKeys.DB) : Prop :=
  NoDup (map ApiKeys.id db) /\ NoDup (map ApiKeys.key db).

(** The answers that are successful calls counted for the key [id_]. *)
Definition counted (id_ : string) (a : (nat * Json.json) + option Messages.Outcome) : bool :=
  match a with
  | inr (Some o) => existsb (String.eqb id_) (Messages.usageCalls o)
  | _ => false
  end.

(** The answers that come from the route, not from the middleware. *)
Definition admitted (a : (nat * Json.json) + option Messages.Outcome) : bool :=
  match a with
  | inr _ => true
  | inl _ => false
  end.

(** An update that keeps the id and the key of a row. *)
Definition keeps (set : ApiKeys.ApiKeyRow -> ApiKeys.ApiKeyRow) : Prop :=
  forall r, ApiKeys.id (set r) = ApiKeys.id r /\ ApiKeys.key (set r) = ApiKeys.key r.

(** The row of the key [k], as [validateApiKey] selects it. *)
Definition rowOfKey (k : string) (db : ApiKeys.DB) : option ApiKeys.ApiKeyRow :=
  find (fun r => String.eqb (ApiKeys.key r) k) db.

(** The flag [enabled] of every row is 0 or 1. *)
Definition flagged (db : ApiKeys.DB) : Prop :=
  forall r, In r db -> ApiKeys.enabled r = 0%Z \/ ApiKeys.enabled r = 1%Z.

(** The rows are listed with the latest first. *)
Fixpoint latestFirst (rows : list ApiKeys.ApiKeyRow) : Prop :=
  match rows with
  | [] => True
  | r :: rest =>
      (forall x, In x rest -> (ApiKeys.created_at x <= ApiKeys.created_at r)%Z) /\
      latestFirst rest
  end.

(** [v === true] *)
Definition isTrue (v : option Json.json) : bool :=
  match v with
  | Some (Json.JBool b) => b
  | _ => false
  end.

(* ================================================================== *)
(** ** routes/imagine.ts: POST /api/imagine/scroll and /api/video/generate *)

Module Scroll.
Import Json Imagine.

(** The variables of the task.  The body of the request only reaches
    [generateImages], which is asked for [max_pages * 6] images on every
    credential. *)
Record State : Type :=
  { excludedTokenIds : list string;
    retryCount : nat;
    written : list Sse }.

Definition write (e : Sse) (st : State) : State :=
  {| excludedTokenIds := excludedTokenIds st; retryCount := retryCount st;
     written := written st ++ [e] |}.

(** [excludedTokenIds.push(token.id); retryCount++] *)
Definition exclude (tok : TokenRow) (st : State) : State :=
  {| excludedTokenIds := excludedTokenIds st ++ [id tok];
     retryCount := S (retryCount st);
     written := written st |}.

(** The exclusion on an error update, with the info event that follows
    it. *)
Definition rotate (tok : TokenRow) (st : State) : State :=
  write (infoEvent ("Token rate limited, switching (attempt "
                      ++ Js.ofNat (S (retryCount st)) ++ "/"
                      ++ Js.ofNat MAX_RETRIES ++ ")")%string)
    (exclude tok st).

(** How the [for await] over one credential's updates ends. *)
Inductive Inner : Type :=
| Exhausted (st : State)     (* the generator has no more updates *)
| Broken (st : State)        (* [break] *)
| Returned (st : State).     (* [await writer.close(); return] *)

Fixpoint forAwait (us : list StreamUpdate) (tok : TokenRow) (st : State) : Inner :=
  match us with
  | [] => Exhausted st
  | u :: rest =>
      match u with
      | error msg _ =>
          if rateLimited msg then Broken (rotate tok st)
          else Returned (write (writeEvent "error" (updateJson u)) st)
      | image _ => forAwait rest tok (write (writeEvent "image" (updateJson u)) st)
      | done => Returned (write doneEvent st)
      | progress _ => forAwait rest tok st
      end
  end.

(** One turn of [while (retryCount < MAX_RETRIES)]. *)
Definition turn (t : Turn (Gen StreamUpdate)) (st : State) : Flow State State :=
  match random t with
  | None =>
      Break (write (errorEvent
                      (if (0 <? List.length (excludedTokenIds st))%nat
                       then ("All tokens rate limited (tried "
                               ++ Js.ofNat (List.length (excludedTokenIds st))
                               ++ " tokens)")%string
                       else "No available tokens.")) st)
  | Some tok =>
      match forAwait (yields (upstream t)) tok st with
      | Returned st1 => Return st1
      | Broken st1 => Continue st1
      | Exhausted st1 =>
          match thrown (upstream t) with
          | Some msg =>
              (* catch (e) *)
              if rateLimited msg then Continue (exclude tok st1)
              else Break (write (errorEvent msg) st1)
          | None => Continue st1
          end
      end
  end.

(** The retry loop; [inl]: the task returned from inside the loop, [inr]:
    the loop was left.  [None]: the script ends while the loop is still
    asking for a credential. *)
Fixpoint loop (script : list (Turn (Gen StreamUpdate))) (st : State)
  : option (State + State) :=
  if (retryCount st <? MAX_RETRIES)%nat then
    match script with
    | [] => None
    | t :: script' =>
        match turn t st with
        | Continue st' => loop script' st'
        | Break st' => Some (inr st')
        | Return st' => Some (inl st')
        end
    end
  else Some (inr st).

Definition init : State :=
  {| excludedTokenIds := []; retryCount := 0; written := [] |}.

(** The events written to the response stream until it is closed. *)
Definition scroll (script : list (Turn (Gen StreamUpdate))) : option (list Sse) :=
  match loop script init with
  | None => None
  | Some (inl st) => Some (written st)
  | Some (inr st) => Some (written (write doneEvent st))
  end.

End Scroll.

Module Video.
Import Json Imagine.

(** Modelled from the spec: the type [VideoUpdate] of the updates of
    [generateVideo] is declared in grok/video.ts, which is not among the
    sources; the stream of a video emits progress and then a completion
    marker with the final asset locator, and the variants are those that
    the route tells apart.  [fields] holds the other properties of the
    update, which the route forwards untouched. *)
Inductive VideoUpdate : Type :=
| error (message : string) (fields : list (string * json))
| complete (fields : list (string * json))
| progress (fields : list (string * json))
| done.

(** The update as [JSON.stringify] renders it when it is forwarded. *)
Definition updateJson (u : VideoUpdate) : json :=
  match u with
  | error msg fs => JObj (("type", JStr "error") :: ("message", JStr msg) :: fs)
  | complete fs => JObj (("type", JStr "complete") :: fs)
  | progress fs => JObj (("type", JStr "progress") :: fs)
  | done => JObj [("type", JStr "done")]
  end.

Record State : Type :=
  { excludedTokenIds : list string;
    retryCount : nat;
    written : list Sse }.

Definition write (e : Sse) (st : State) : State :=
  {| excludedTokenIds := excludedTokenIds st; retryCount := retryCount st;
     written := written st ++ [e] |}.

(** [excludedTokenIds.push(token.id); retryCount++] and the info event
    that follows them *)
Definition rotate (tok : TokenRow) (st : State) : State :=
  write (infoEvent ("Token rate limited, switching to another (attempt "
                      ++ Js.ofNat (S (retryCount st)) ++ "/"
                      ++ Js.ofNat MAX_RETRIES ++ ")")%string)
    {| excludedTokenIds := excludedTokenIds st ++ [id tok];
       retryCount := S (retryCount st);
       written := written st |}.

(** How the [for await] over one credential's updates ends; [completed]
    is the variable of that name. *)
Inductive Inner : Type :=
| Exhausted (completed : bool) (st : State)
| Broken (completed : bool) (st : State)
| Returned (st : State).

Fixpoint forAwait (us : list VideoUpdate) (tok : TokenRow) (completed : bool)
    (st : State) : Inner :=
  match us with
  | [] => Exhausted completed st
  | u :: rest =>
      match u with
      | error msg _ =>
          if rateLimited msg then Broken completed (rotate tok st)
          else Returned (write (writeEvent "error" (updateJson u)) st)
      | complete _ =>
          forAwait rest tok true (write (writeEvent "complete" (updateJson u)) st)
      | progress _ =>
          forAwait rest tok completed (write (writeEvent "progress" (updateJson u)) st)
      | done =>
          if completed then Returned (write doneEvent st)
          else forAwait rest tok completed st
      end
  end.

(** One turn of [while (retryCount < MAX_RETRIES)]. *)
Definition turn (token_id : option string) (t : Turn (Gen VideoUpdate)) (st : State)
  : Flow State State :=
  match select token_id (retryCount st) t with
  | None =>
      Break (write (errorEvent
                      (if (0 <? List.length (excludedTokenIds st))%nat
                       then ("All tokens rate limited (tried "
                               ++ Js.ofNat (List.length (excludedTokenIds st))
                               ++ " tokens)")%string
                       else "No available tokens. Please import tokens first.")) st)
  | Some tok =>
      match forAwait (yields (upstream t)) tok false st with
      | Returned st1 => Return st1
      | Broken completed st1 =>
          if negb completed then Continue st1 else Break st1
      | Exhausted completed st1 =>
          match thrown (upstream t) with
          | Some msg =>
              (* catch (e) *)
              if rateLimited msg then Continue (rotate tok st1)
              else Break (write (errorEvent msg) st1)
          | None => if negb completed then Continue st1 else Break st1
          end
      end
  end.

(** The retry loop; [None]: the script ends while the loop is still
    asking for a credential. *)
Fixpoint loop (token_id : option string) (script : list (Turn (Gen VideoUpdate)))
    (st : State) : option State :=
  if (retryCount st <? MAX_RETRIES)%nat then
    match script with
    | [] => None
    | t :: script' =>
        match turn token_id t st with
        | Continue st' => loop token_id script' st'
        | Break st' => Some st'
        | Return st' => Some st'
        end
    end
  else Some st.

Definition init : State :=
  {| excludedTokenIds := []; retryCount := 0; written := [] |}.

(** The events written to the response stream until it is closed;
    [token_id] is the property of the request body. *)
Definition video (token_id : option string) (script : list (Turn (Gen VideoUpdate)))
  : option (list Sse) :=
  option_map written (loop token_id script init).

End Video.



(* ================================================================== *)
(** ** static/js/modules/img2img.js: the cards of the page *)

Module Page.
Import Json.

(** [a === b] as a [Set] compares its values: strings, numbers, booleans,
    [null] and [undefined] by value; an array or an object is equal only
    to itself, and two values read from two events are never the same
    one. *)
Definition sameValueZero (a b : option json) : bool :=
  match a, b with
  | None, None => true
  | Some JNull, Some JNull => true
  | Some (JBool x), Some (JBool y) => Bool.eqb x y
  | Some (JNum x), Some (JNum y) => Qeq_bool x y
  | Some (JStr x), Some (JStr y) => String.eqb x y
  | _, _ => false
  end.

(** [data.url || data.image_src] *)
Definition keyOf (data : json) : option json :=
  if truthy (get "url" data) then get "url" data else get "image_src" data.

(** [loadedUrls] and the cards of the grid, in the order in which
    [addImageCard] appended them. *)
Record State : Type :=
  { loadedUrls : list (option json);
    cards : list json }.

(** The handler [onData] of [startGeneration]. *)
Definition onData (st : State) (data : json) : State :=
  if Convert.isStr (get "type" data) "image"
     && negb (existsb (sameValueZero (keyOf data)) (loadedUrls st))
  then {| loadedUrls := loadedUrls st ++ [keyOf data];
          cards := cards st ++ [data] |}
  else st.

(** [startGeneration] begins with an empty set and an empty grid. *)
Definition init : State := {| loadedUrls := []; cards := [] |}.

End Page.

(** The updates of the image-edit stream that do not end it. *)
Definition working (u : ImageEdit.ImageEditUpdate) : bool :=
  match u with
  | ImageEdit.done | ImageEdit.error _ => false
  | _ => true
  end.

(** What img2img posts, attempt after attempt: in each attempt the image
    is uploaded as [fileName], [mimeType], [content] with a credential,
    and the chat request, if there is one, follows with the same
    credential. *)
Inductive Attempts (fileName mimeType content : string)
  : list Imagine.Img2img.Sent -> Prop :=
| attempts_none : Attempts fileName mimeType content []
| attempts_upload tok rest :
    Attempts fileName mimeType content rest ->
    Attempts fileName mimeType content
      (Imagine.Img2img.Upload tok fileName mimeType content :: rest)
| attempts_chat tok payload rest :
    Attempts fileName mimeType content rest ->
    Attempts fileName mimeType content
      (Imagine.Img2img.Upload tok fileName mimeType content
       :: Imagine.Img2img.Chat tok payload :: rest).

(* ================================================================== *)
(** ** Environments for the examples of the key store and the routes *)

Module Cases.
Import Json.

(** A clock for the examples: it renders a date by its time value. *)
#[export] Instance dates : Dates :=
  {| toISOString := fun t => ("T+" ++ Js.ofNat (Z.to_nat t) ++ "ms")%string;
     toLocaleDateString := fun t => ("D+" ++ Js.ofNat (Z.to_nat t) ++ "ms")%string |}.

(** The key number [n], created at the time [n], with a daily limit and
    the usage of the day. *)
Definition keyRow (n : nat) (limit usage : Z) : ApiKeys.ApiKeyRow :=
  {| ApiKeys.id := ("key_" ++ Js.ofNat n)%string;
     ApiKeys.key := ("sk-demo" ++ Js.ofNat n ++ "-0123456789abcdef")%string;
     ApiKeys.name := "demo";
     ApiKeys.enabled := 1;
     ApiKeys.rate_limit := limit;
     ApiKeys.daily_usage := usage;
     ApiKeys.usage_count := usage;
     ApiKeys.created_at := Z.of_nat n;
     ApiKeys.last_used_at := None;
     ApiKeys.daily_reset_at := None |}.

(** Key 1 may be used twice a day and was used once; key 2 has no
    limit. *)
Definition store : ApiKeys.DB := [keyRow 1 2 1; keyRow 2 0 0].

(** A call to /v1/messages with the key of [row] in the header
    [x-api-key]. *)
Definition call (row : ApiKeys.ApiKeyRow) : Gateway.Request :=
  {| Gateway.x_api_key := Some (ApiKeys.key row);
     Gateway.authorization := None;
     Gateway.now := 10;
     Gateway.body := Some (Scenario.request false);
     Gateway.msgId := "msg_1";
     Gateway.script := Scenario.failover |}.

(** [Math.random()] returns 0, 1/4, 1/2, 3/4, 0, ... *)
Definition quarters (i : nat) : Q := inject_Z (Z.of_nat (i mod 4)) / 4.

(** A conversation of two messages, the second with a text part. *)
Definition chat : list json :=
  [JObj [("role", JStr "user"); ("content", JStr "hello")];
   JObj [("role", JStr "assistant");
         ("content", JArr [JObj [("type", JStr "text"); ("text", JStr "hi")]])]].

(** An image part that carries its data. *)
Definition pngSource : list (string * json) :=
  [("type", JStr "base64"); ("media_type", JStr "image/png");
   ("data", JStr "iVBORw0KGgo=")].

Definition pngPart : list (string * json) :=
  [("type", JStr "image"); ("source", JObj pngSource)].

(** A credential streams an image and completes. *)
Definition oneImage : Imagine.Turn (Gen Imagine.StreamUpdate) :=
  {| Imagine.pinned := None;
     Imagine.random := Some (Demo.credential 1);
     Imagine.upstream :=
       MkGen [Imagine.image [("url", JStr (Scenario.asset 1))]; Imagine.done] None |}.

(** A credential reports progress, completes a video and ends. *)
Definition oneVideo : Imagine.Turn (Gen Video.VideoUpdate) :=
  {| Imagine.pinned := None;
     Imagine.random := Some (Demo.credential 1);
     Imagine.upstream :=
       MkGen [Video.progress [("progress", jnat 50)];
              Video.complete [("video_url", JStr (Scenario.asset 7))];
              Video.done] None |}.

(** The upload is answered 429. *)
Definition uploadLimited : Imagine.Turn (Imagine.Img2img.UploadReply * FetchOutcome) :=
  {| Imagine.pinned := None;
     Imagine.random := Some (Demo.credential 1);
     Imagine.upstream :=
       (Imagine.Img2img.UploadResponse 429 "Too Many Requests" (inl "Unexpected token"),
        FetchResponse 200 "" None) |}.

End Cases.

(* ================================================================== *)
(** * Properties *)

(** ** The retry counter *)

Section StreamCounter.
Import Messages Messages.Stream.

Lemma stream_forAwait_counter us tok : forall st broke tokenDone st',
  forAwait us tok st = (broke, tokenDone, st') ->
  (retryCount st' = retryCount st /\ excludedTokenIds st' = excludedTokenIds st) \/
  (retryCount st' = S (retryCount st) /\
   excludedTokenIds st' = excludedTokenIds st ++ [id tok] /\
   broke = true /\ tokenDone = false /\ success st' = success st /\
   exists u, In u us /\ type u = "error" /\
             retryableUpdate (Js.orElse (message u) "") = true).
Proof.
  induction us as [|u rest IH]; simpl; intros st broke tokenDone st' E.
  - inversion E; subst; auto.
  - destruct (String.eqb (type u) "error") eqn:Et.
    + apply String.eqb_eq in Et.
      destruct (retryableUpdate (Js.orElse (message u) "")) eqn:Er;
        inversion E; subst; simpl.
      * right; repeat split; eauto.
      * left; auto.
    + destruct (String.eqb (type u) "done").
      * inversion E; subst.
        destruct (String.eqb (type u) "token" && Js.truthyStr (content u));
          simpl; auto.
      * apply IH in E.
        assert (K : forall s0 : StreamState,
                   s0 = (if String.eqb (type u) "token" && Js.truthyStr (content u)
                         then push (evtDelta (Js.orElse (content u) ""))
                                (addChars (String.length (Js.orElse (content u) "")) st)
                         else st) ->
                   retryCount s0 = retryCount st /\
                   excludedTokenIds s0 = excludedTokenIds st /\
                   success s0 = success st).
        { intros s0 ->.
          destruct (String.eqb (type u) "token" && Js.truthyStr (content u));
            simpl; auto. }
        destruct (K _ eq_refl) as (K1 & K2 & K3).
        rewrite K1, K2, K3 in E.
        destruct E as [E | (E1 & E2 & E3 & E4 & E5 & u' & Hin & Hu)];
          [left; assumption | right].
        repeat split; auto. exists u'; auto.
Qed.

End StreamCounter.

Section StreamCounter2.
Import Messages Messages.Stream.

(** A turn of the streaming loop keeps the counter, or adds one to it
    while it excludes the credential of the turn, and then only on a rate
    limit. *)
Lemma stream_turn_counter a st st' :
  turn a st = Continue st' \/ turn a st = Break st' ->
  (retryCount st' = retryCount st /\ excludedTokenIds st' = excludedTokenIds st) \/
  (exists tok chat, a = WithToken tok chat /\
     retryCount st' = S (retryCount st) /\
     excludedTokenIds st' = excludedTokenIds st ++ [id tok] /\
     rate_limit_seen chat).
Proof.
  destruct a as [|tok chat]; simpl.
  - intros [E | E]; inversion E; subst; simpl; auto.
  - destruct (forAwait (yields chat) tok st) as [[broke tokenDone] st1] eqn:F.
    apply stream_forAwait_counter in F.
    intros E.
    destruct broke.
    + (* the [for await] was left by [break] *)
      assert (st' = st1) as ->.
      { destruct (success st1 || tokenDone); destruct E as [E | E];
          inversion E; auto. }
      destruct F as [F | (F1 & F2 & _ & _ & _ & u & Hin & Hu)]; [left; auto|].
      right. exists tok, chat. repeat split; auto. left; eauto.
    + (* the generator ended *)
      destruct F as [(F1 & F2) | (_ & _ & F & _)]; [|discriminate].
      destruct (thrown chat) as [msg|] eqn:T.
      * destruct (retryableThrow msg) eqn:R; destruct E as [E | E];
          inversion E; subst; simpl.
        -- right. exists tok, chat. rewrite F1, F2. repeat split; auto.
           right; eauto.
        -- left; auto.
      * assert (st' = st1) as ->.
        { destruct (success st1 || tokenDone); destruct E as [E | E];
            inversion E; auto. }
        left; auto.
Qed.

Lemma stream_reachable_inv msgId rawModel st :
  stream_reachable msgId rawModel st ->
  retryCount st <= MAX_RETRIES /\
  retryCount st = List.length (excludedTokenIds st).
Proof.
  induction 1 as [|s s' [G [a E]] _ [IH1 IH2]].
  - simpl. unfold MAX_RETRIES. split; [lia | reflexivity].
  - apply Nat.ltb_lt in G.
    destruct (stream_turn_counter _ _ _ E) as [(E1 & E2) | (tok & chat & _ & E1 & E2 & _)];
      rewrite E1, E2; [split; [assumption | assumption]|].
    rewrite length_app; simpl. split; lia.
Qed.

End StreamCounter2.

Section GenerateCounter.
Import Imagine Imagine.Generate.

Lemma generate_forAwait_counter us tok targetCount : forall st,
  let st' := inner_state (forAwait us tok targetCount st) in
  (retryCount st' = retryCount st /\ excludedTokenIds st' = excludedTokenIds st) \/
  (retryCount st' = S (retryCount st) /\
   excludedTokenIds st' = excludedTokenIds st ++ [id tok] /\
   (exists st1, forAwait us tok targetCount st = Broken st1) /\
   exists msg fs, In (error msg fs) us /\ rateLimited msg = true).
Proof.
  induction us as [|u rest IH]; simpl; intros st; auto.
  destruct u as [msg fs|fs|fs|].
  - destruct (rateLimited msg) eqn:R; simpl; [right | left; auto].
    repeat split; eauto.
  - match goal with |- context [forAwait rest tok targetCount ?s] =>
      specialize (IH s); simpl in IH end.
    destruct IH as [IH | (I1 & I2 & I3 & msg & fs' & Hin & Hr)]; [left; auto|].
    right; repeat split; eauto.
  - match goal with |- context [forAwait rest tok targetCount ?s] =>
      specialize (IH s);
      assert (K : retryCount s = retryCount st /\
                  excludedTokenIds s = excludedTokenIds st)
        by (destruct (isCollecting fs); simpl; auto)
    end.
    destruct K as [K1 K2]. rewrite K1, K2 in IH.
    destruct IH as [IH | (I1 & I2 & I3 & msg & fs' & Hin & Hr)]; [left; auto|].
    right; repeat split; eauto.
  - destruct (negb _); simpl; auto.
Qed.

Lemma generate_turn_counter token_id targetCount t st st' :
  turn token_id targetCount t st = Continue st' \/
  turn token_id targetCount t st = Break st' \/
  turn token_id targetCount t st = Return st' ->
  (retryCount st' = retryCount st /\ excludedTokenIds st' = excludedTokenIds st) \/
  (exists tok, select token_id (retryCount st) t = Some tok /\
     retryCount st' = S (retryCount st) /\
     excludedTokenIds st' = excludedTokenIds st ++ [id tok] /\
     turn_rate_limit_seen (upstream t)).
Proof.
  unfold turn.
  destruct (select token_id (retryCount st) t) as [tok|].
  2:{ intros [E | [E | E]]; inversion E; subst; simpl; auto. }
  pose proof (generate_forAwait_counter (yields (upstream t)) tok targetCount st) as F.
  simpl in F.
  destruct (forAwait (yields (upstream t)) tok targetCount st) as [st1|st1|st1] eqn:I;
    simpl in F.
  - (* the generator ended *)
    destruct F as [(F1 & F2) | (_ & _ & [x X] & _)]; [|discriminate].
    destruct (thrown (upstream t)) as [msg|] eqn:T.
    + destruct (rateLimited msg) eqn:R; intros [E | [E | E]];
        inversion E; subst; simpl.
      * right. exists tok. rewrite F1, F2. repeat split; auto. right; eauto.
      * left; auto.
    + intros [E | [E | E]]; inversion E; subst; auto.
  - intros [E | [E | E]]; inversion E; subst.
    destruct F as [F | (F1 & F2 & _ & msg & fs & Hin & Hr)]; [left; auto|].
    right. exists tok. repeat split; auto. left; eauto.
  - intros [E | [E | E]]; inversion E; subst.
    destruct F as [F | (_ & _ & [x X] & _)]; [left; auto | discriminate].
Qed.

Lemma generate_reachable_inv token_id targetCount st :
  generate_reachable token_id targetCount st ->
  retryCount st <= MAX_RETRIES /\
  retryCount st = List.length (excludedTokenIds st).
Proof.
  induction 1 as [|s s' [G [t E]] _ [IH1 IH2]].
  - simpl. unfold MAX_RETRIES. split; [lia | reflexivity].
  - unfold guard in G. apply andb_true_iff in G. destruct G as [G _].
    apply Nat.ltb_lt in G.
    destruct (generate_turn_counter _ _ _ _ _ E)
      as [(E1 & E2) | (tok & _ & E1 & E2 & _)];
      rewrite E1, E2; [split; assumption|].
    rewrite length_app; simpl. split; lia.
Qed.

End GenerateCounter.

Section AllLimited.

Lemma stream_all_limited script : forall st,
  Forall limited_at_once script ->
  Messages.Stream.success st = false ->
  Messages.Stream.retryCount st <= Messages.MAX_RETRIES ->
  Messages.MAX_RETRIES <= Messages.Stream.retryCount st + List.length script ->
  exists st',
    Messages.Stream.loop script st = Some st' /\
    Messages.Stream.retryCount st' = Messages.MAX_RETRIES /\
    List.length (Messages.Stream.excludedTokenIds st') =
      List.length (Messages.Stream.excludedTokenIds st)
      + (Messages.MAX_RETRIES - Messages.Stream.retryCount st) /\
    Messages.Stream.pushed st' = Messages.Stream.pushed st /\
    Messages.Stream.success st' = Messages.Stream.success st.
Proof.
  induction script as [|a script IH]; intros st HF Hs Hle Hlen;
    cbn [Messages.Stream.loop List.length] in *;
    destruct (Messages.Stream.retryCount st <? Messages.MAX_RETRIES)%nat eqn:G;
    try (apply Nat.ltb_ge in G; exists st; repeat split; auto; lia);
    apply Nat.ltb_lt in G; [lia|].
    inversion HF as [|a' l' Ha HF']; subst.
    destruct a as [|tok chat]; simpl in Ha; [contradiction|].
    destruct (yields chat) as [|u rest] eqn:Y; [contradiction|].
    destruct Ha as [Ht Hr].
    cbn [Messages.Stream.turn Messages.Stream.forAwait]. rewrite Y.
    cbn [Messages.Stream.forAwait]. rewrite Ht. cbn [String.eqb Ascii.eqb Bool.eqb].
    rewrite Hr.
    cbn [Messages.Stream.rotate Messages.Stream.success]. rewrite Hs.
    cbn [orb].
    destruct (IH (Messages.Stream.rotate tok st) HF') as (st' & L & R & X & P & Hsucc);
      cbn [Messages.Stream.rotate Messages.Stream.retryCount Messages.Stream.success];
      auto; try lia.
    exists st'. cbn [Messages.Stream.rotate Messages.Stream.retryCount
                     Messages.Stream.excludedTokenIds Messages.Stream.pushed
                     Messages.Stream.success] in *.
    rewrite length_app in X. cbn [List.length] in X.
    repeat split; auto; try lia; congruence.
Qed.

Lemma generate_all_limited token_id targetCount script : forall st,
  Forall turn_limited_at_once script ->
  Imagine.Qltb (inject_Z (Z.of_nat (Imagine.Generate.totalCollected st))) targetCount = true ->
  Imagine.Generate.retryCount st <= Imagine.MAX_RETRIES ->
  Imagine.MAX_RETRIES <= Imagine.Generate.retryCount st + List.length script ->
  exists st',
    Imagine.Generate.loop token_id targetCount script st = Some (inr st') /\
    Imagine.Generate.retryCount st' = Imagine.MAX_RETRIES /\
    Imagine.Generate.totalCollected st' = Imagine.Generate.totalCollected st /\
    List.length (Imagine.Generate.excludedTokenIds st') =
      List.length (Imagine.Generate.excludedTokenIds st)
      + (Imagine.MAX_RETRIES - Imagine.Generate.retryCount st) /\
    rotations (Imagine.Generate.written st') =
      rotations (Imagine.Generate.written st)
      + (Imagine.MAX_RETRIES - Imagine.Generate.retryCount st).
Proof.
  induction script as [|t script IH]; intros st HF HT Hle Hlen;
    cbn [Imagine.Generate.loop List.length] in *;
    unfold Imagine.Generate.guard at 1; rewrite HT, andb_true_r;
    destruct (Imagine.Generate.retryCount st <? Imagine.MAX_RETRIES)%nat eqn:G;
    try (apply Nat.ltb_ge in G; exists st; repeat split; auto; lia);
    apply Nat.ltb_lt in G; [lia|].
    inversion HF as [|t' l' Ht HF']; subst.
    destruct Ht as [[tok0 Hrand] Hy].
    assert (exists tok, Imagine.select token_id (Imagine.Generate.retryCount st) t = Some tok)
      as [tok Hsel].
    { unfold Imagine.select.
      destruct (if Js.truthyStr token_id && (Imagine.Generate.retryCount st =? 0)%nat
                then Imagine.pinned t else None); eauto. }
    unfold Imagine.Generate.turn. rewrite Hsel.
    destruct (yields (Imagine.upstream t)) as [|[msg fs| | |] rest] eqn:Y;
      try contradiction.
    cbn [Imagine.Generate.forAwait]. rewrite Hy.
    destruct (IH (Imagine.Generate.rotate tok st) HF') as (st' & L & R & C & X & W);
      cbn [Imagine.Generate.rotate Imagine.Generate.write Imagine.Generate.retryCount
           Imagine.Generate.totalCollected]; auto; try lia.
    exists st'.
    cbn [Imagine.Generate.rotate Imagine.Generate.write Imagine.Generate.retryCount
         Imagine.Generate.totalCollected Imagine.Generate.excludedTokenIds
         Imagine.Generate.written] in *.
    unfold rotations in *.
    rewrite length_app in X. rewrite filter_app, length_app in W.
    cbn [List.length] in X.
    change (List.length (filter (fun e : Sse => (event e =? "info")%string)
                           [Imagine.infoEvent
                              ("Token rate limited, switching to another (attempt "
                                 ++ Js.ofNat (S (Imagine.Generate.retryCount st)) ++ "/"
                                 ++ Js.ofNat Imagine.MAX_RETRIES ++ ")")%string]))
      with 1 in W.
    repeat split; auto; lia.
Qed.

End AllLimited.

Section LoopsReach.

(** The state in which the streaming loop ends is one of its states. *)
Lemma stream_loop_reachable msgId rawModel script : forall st st',
  Messages.Stream.loop script st = Some st' ->
  stream_reachable msgId rawModel st ->
  stream_reachable msgId rawModel st'.
Proof.
  induction script as [|a script IH]; intros st st';
    cbn [Messages.Stream.loop];
    destruct (Messages.Stream.retryCount st <? Messages.MAX_RETRIES)%nat eqn:G;
    intros E R; try discriminate; try (inversion E; subst; assumption).
  destruct (Messages.Stream.turn a st) as [s1|s1|[]] eqn:T.
  - apply (IH _ _ E). econstructor; [|exact R]. split; eauto.
  - inversion E; subst. econstructor; [|exact R]. split; eauto.
Qed.

(** So is the state in which the loop of generate ends, or returns. *)
Lemma generate_loop_reachable token_id targetCount script : forall st r,
  Imagine.Generate.loop token_id targetCount script st = Some r ->
  generate_reachable token_id targetCount st ->
  generate_reachable token_id targetCount (match r with inl s | inr s => s end).
Proof.
  induction script as [|t script IH]; intros st r;
    cbn [Imagine.Generate.loop];
    destruct (Imagine.Generate.guard targetCount st) eqn:G;
    intros E R; try discriminate; try (inversion E; subst; assumption).
  destruct (Imagine.Generate.turn token_id targetCount t st) as [s1|s1|s1] eqn:T.
  - apply (IH _ _ E). econstructor; [|exact R]. split; eauto.
  - inversion E; subst. econstructor; [|exact R]. split; eauto.
  - inversion E; subst. econstructor; [|exact R]. split; eauto.
Qed.

End LoopsReach.

(** C1. The failover loops rotate credentials at most 5 times in one call.
    In the streaming loop of /v1/messages and in the loop of
    /api/imagine/generate the counter starts at 0; in every state the
    loops go through it is at most [MAX_RETRIES = 5] and equals the number
    of credentials excluded; a turn either keeps it or adds one to it
    while it excludes the credential of the turn, and that only on an error
    update or an exception that the route takes for a rate limit; no turn
    is taken from a state whose counter is 5.  Against a pool in which
    every credential reports a rate limit at once, the loops end with the
    counter at 5, five credentials excluded, and (generate) five rotation
    events written. *)
Theorem retry_ceiling :
  (* the streaming loop of /v1/messages *)
  (forall msgId rawModel,
     Messages.Stream.retryCount (Messages.Stream.init msgId rawModel) = 0 /\
     forall st, stream_reachable msgId rawModel st ->
       Messages.Stream.retryCount st <= 5 /\
       Messages.Stream.retryCount st =
         List.length (Messages.Stream.excludedTokenIds st) /\
       (Messages.Stream.retryCount st = 5 -> forall st', ~ stream_step st st') /\
       (forall a st',
          Messages.Stream.turn a st = Continue st' \/
          Messages.Stream.turn a st = Break st' ->
          Messages.Stream.retryCount st' = Messages.Stream.retryCount st \/
          exists tok chat,
            a = Messages.WithToken tok chat /\
            Messages.Stream.retryCount st' = S (Messages.Stream.retryCount st) /\
            Messages.Stream.excludedTokenIds st' =
              Messages.Stream.excludedTokenIds st ++ [id tok] /\
            rate_limit_seen chat)) /\
  (* the loop of /api/imagine/generate *)
  (forall token_id targetCount,
     Imagine.Generate.retryCount Imagine.Generate.init = 0 /\
     forall st, generate_reachable token_id targetCount st ->
       Imagine.Generate.retryCount st <= 5 /\
       Imagine.Generate.retryCount st =
         List.length (Imagine.Generate.excludedTokenIds st) /\
       (Imagine.Generate.retryCount st = 5 ->
        forall st', ~ generate_step token_id targetCount st st') /\
       (forall t st',
          Imagine.Generate.turn token_id targetCount t st = Continue st' \/
          Imagine.Generate.turn token_id targetCount t st = Break st' \/
          Imagine.Generate.turn token_id targetCount t st = Return st' ->
          Imagine.Generate.retryCount st' = Imagine.Generate.retryCount st \/
          exists tok,
            Imagine.select token_id (Imagine.Generate.retryCount st) t = Some tok /\
            Imagine.Generate.retryCount st' = S (Imagine.Generate.retryCount st) /\
            Imagine.Generate.excludedTokenIds st' =
              Imagine.Generate.excludedTokenIds st ++ [id tok] /\
            turn_rate_limit_seen (Imagine.upstream t))) /\
  (* every credential reports a rate limit at once *)
  (forall msgId rawModel script,
     Forall limited_at_once script -> 5 <= List.length script ->
     exists st,
       Messages.Stream.loop script (Messages.Stream.init msgId rawModel) = Some st /\
       stream_reachable msgId rawModel st /\
       Messages.Stream.retryCount st = 5 /\
       List.length (Messages.Stream.excludedTokenIds st) = 5) /\
  (forall token_id targetCount script,
     (0 < targetCount)%Q ->
     Forall turn_limited_at_once script -> 5 <= List.length script ->
     exists st,
       Imagine.Generate.loop token_id targetCount script Imagine.Generate.init
         = Some (inr st) /\
       generate_reachable token_id targetCount st /\
       Imagine.Generate.retryCount st = 5 /\
       List.length (Imagine.Generate.excludedTokenIds st) = 5 /\
       rotations (Imagine.Generate.written st) = 5).
Proof.
  split; [|split; [|split]].
  - intros msgId rawModel. split; [reflexivity|].
    intros st R.
    destruct (stream_reachable_inv _ _ _ R) as [I1 I2].
    change Messages.MAX_RETRIES with 5 in I1.
    repeat split; auto.
    + intros E st' [G _]. rewrite E in G. discriminate.
    + intros a st' T.
      destruct (stream_turn_counter _ _ _ T) as [[E _] | (tok & chat & H)];
        [left; exact E | right; exists tok, chat; exact H].
  - intros token_id targetCount. split; [reflexivity|].
    intros st R.
    destruct (generate_reachable_inv _ _ _ R) as [I1 I2].
    change Imagine.MAX_RETRIES with 5 in I1.
    repeat split; auto.
    + intros E st' [G _]. unfold Imagine.Generate.guard in G.
      rewrite E in G. discriminate.
    + intros t st' T.
      destruct (generate_turn_counter _ _ _ _ _ T) as [[E _] | (tok & H)];
        [left; exact E | right; exists tok; exact H].
  - intros msgId rawModel script HF Hlen.
    destruct (stream_all_limited script (Messages.Stream.init msgId rawModel) HF)
      as (st & L & R & X & _); try reflexivity;
      try (cbn; unfold Messages.MAX_RETRIES; lia).
    exists st. repeat split; auto.
    apply (stream_loop_reachable _ _ _ _ _ L). constructor.
  - intros token_id targetCount script Hpos HF Hlen.
    destruct (generate_all_limited token_id targetCount script Imagine.Generate.init HF)
      as (st & L & R & _ & X & W);
      try (cbn; unfold Imagine.MAX_RETRIES; lia).
    { unfold Imagine.Qltb. cbn [Imagine.Generate.init Imagine.Generate.totalCollected].
      destruct (Qle_bool targetCount (inject_Z (Z.of_nat 0))) eqn:Q; [|reflexivity].
      apply Qle_bool_iff in Q. exfalso. apply (Qlt_not_le _ _ Hpos Q). }
    exists st. repeat split; auto.
    apply (generate_loop_reachable _ _ _ _ _ L). constructor.
Qed.

(** ** The loops of /v1/messages compute the failover state machine *)

Section StreamRefinement.
Import Messages Messages.Stream Orchestrator.

Lemma totalChars_app ts ts' : totalChars (ts ++ ts') = totalChars ts + totalChars ts'.
Proof. induction ts as [|t ts IH]; simpl; [reflexivity | rewrite IH; lia]. Qed.

(** The fields of the state after the text of one update is delivered. *)
Lemma stream_textOf u st :
  let st1 := if String.eqb (type u) "token" && Js.truthyStr (content u)
             then push (evtDelta (Js.orElse (content u) ""))
                    (addChars (String.length (Js.orElse (content u) "")) st)
             else st in
  pushed st1 = pushed st ++ map evtDelta (textOf u) /\
  charCount st1 = charCount st + totalChars (textOf u) /\
  success st1 = success st /\ retryCount st1 = retryCount st /\
  excludedTokenIds st1 = excludedTokenIds st.
Proof.
  unfold textOf.
  destruct (String.eqb (type u) "token" && Js.truthyStr (content u)); simpl;
    rewrite ?app_nil_r; repeat split; auto; lia.
Qed.

Lemma stream_forAwait_consume us tok : forall st,
  match consume us, forAwait us tok st with
  | (ts, e), (broke, tokenDone, st') =>
      pushed st' = pushed st ++ map evtDelta ts ++
                   match e with
                   | Some (Fatal msg) => [evtDelta (errorMarker msg)]
                   | _ => []
                   end /\
      charCount st' = charCount st + totalChars ts /\
      match e with
      | Some Complete =>
          broke = true /\ tokenDone = true /\ success st' = true /\
          retryCount st' = retryCount st /\
          excludedTokenIds st' = excludedTokenIds st
      | Some (RateLimited _) =>
          broke = true /\ tokenDone = false /\ success st' = success st /\
          retryCount st' = S (retryCount st) /\
          excludedTokenIds st' = excludedTokenIds st ++ [id tok]
      | Some (Fatal _) =>
          broke = true /\ tokenDone = true /\ success st' = success st /\
          retryCount st' = retryCount st /\
          excludedTokenIds st' = excludedTokenIds st
      | Some Silent => False
      | None =>
          broke = false /\ tokenDone = false /\ success st' = success st /\
          retryCount st' = retryCount st /\
          excludedTokenIds st' = excludedTokenIds st
      end
  end.
Proof.
  induction us as [|u rest IH]; intros st; cbn [consume forAwait].
  - simpl. rewrite app_nil_r. repeat split; auto.
  - destruct (String.eqb (type u) "error").
    + destruct (retryableUpdate (Js.orElse (message u) "")); simpl;
        rewrite ?app_nil_r; repeat split; auto.
    + pose proof (stream_textOf u st) as K. cbv zeta in K.
      destruct K as (K1 & K2 & K3 & K4 & K5).
      destruct (String.eqb (type u) "done").
      * simpl. rewrite app_nil_r. repeat split; auto.
      * match goal with |- context [forAwait rest tok ?s] =>
          specialize (IH s); set (s1 := s) in * end.
        destruct (consume rest) as [ts e].
        destruct (forAwait rest tok s1) as [[broke tokenDone] st'].
        destruct IH as (I1 & I2 & I3).
        rewrite I1, I2, K1, K2, totalChars_app, map_app, <- !app_assoc.
        split; [reflexivity|]. split; [lia|].
        destruct e as [[|m|m|]|]; try contradiction;
          destruct I3 as (? & ? & ? & ? & ?); repeat split; congruence.
Qed.

(** The events an ending adds to the stream. *)
Lemma stream_loop_run script : forall st lastError,
  success st = false ->
  retryCount st = List.length (excludedTokenIds st) ->
  match run script (retryCount st) lastError with
  | None => loop script st = None
  | Some (ts, t) =>
      exists st',
        loop script st = Some st' /\
        pushed st' = pushed st ++ map evtDelta ts ++
                     match marker t with
                     | Some msg => [evtDelta (errorMarker msg)]
                     | None => []
                     end /\
        charCount st' = charCount st + totalChars ts /\
        success st' = succeeded t
  end.
Proof.
  induction script as [|a script IH]; intros st lastError Hs Hx;
    cbn [run loop];
    destruct (retryCount st <? MAX_RETRIES)%nat eqn:G.
  - reflexivity.
  - exists st. simpl. rewrite app_nil_r. repeat split; auto.
  - destruct a as [|tok chat].
    + cbn [turn marker]. rewrite <- Hx.
      eexists. split; [reflexivity|]. simpl. repeat split; auto.
    + cbn [turn]. unfold attempt.
      pose proof (stream_forAwait_consume (yields chat) tok st) as F.
      destruct (consume (yields chat)) as [ts e].
      destruct (forAwait (yields chat) tok st) as [[broke tokenDone] st1].
      destruct F as (F1 & F2 & F3).
      destruct e as [[|m|m|]|]; try contradiction.
      * (* done *)
        destruct F3 as (-> & -> & F3 & _). rewrite F3. simpl.
        exists st1. rewrite F1, F2, !app_nil_r. auto.
      * (* rate limit *)
        destruct F3 as (-> & -> & F3 & F4 & F5). rewrite F3, Hs. simpl.
        specialize (IH st1 m). rewrite F4 in IH.
        destruct (run script (S (retryCount st)) m) as [[ts' t]|]; simpl.
        -- destruct IH as (st' & L & P & C & S'); try congruence.
           { rewrite F5, length_app. simpl. lia. }
           exists st'. rewrite L, P, C, F1, F2, totalChars_app, map_app, app_nil_r,
             <- !app_assoc.
           repeat split; auto. lia.
        -- apply IH; try congruence. rewrite F5, length_app. simpl. lia.
      * (* fatal error *)
        destruct F3 as (-> & -> & F3 & _). rewrite orb_true_r. simpl.
        exists st1. rewrite F1, F2. repeat split; auto. congruence.
      * (* the generator ended *)
        destruct F3 as (-> & -> & F3 & F4 & F5).
        destruct (thrown chat) as [msg|].
        -- destruct (retryableThrow msg).
           ++ specialize (IH (rotate tok st1) msg). cbn [rotate retryCount] in IH.
              rewrite F4 in IH.
              destruct (run script (S (retryCount st)) msg) as [[ts' t]|]; simpl.
              ** destruct IH as (st' & L & P & C & S'); simpl; try congruence.
                 { rewrite F5, length_app. simpl. lia. }
                 simpl in P, C.
                 exists st'. rewrite L, P, C, F1, F2, totalChars_app, map_app,
                   app_nil_r, <- !app_assoc.
                 repeat split; auto. lia.
              ** apply IH; simpl; try congruence.
                 rewrite F5, length_app. simpl. lia.
           ++ simpl. eexists. split; [reflexivity|]. simpl.
              rewrite F1, F2, app_nil_r, <- !app_assoc.
              repeat split; auto. congruence.
        -- rewrite F3, Hs. simpl.
           specialize (IH st1 lastError). rewrite F4 in IH.
           destruct (run script (retryCount st) lastError) as [[ts' t]|]; simpl.
           ++ destruct IH as (st' & L & P & C & S'); try congruence.
              exists st'. rewrite L, P, C, F1, F2, totalChars_app, map_app, app_nil_r,
                <- !app_assoc.
              repeat split; auto. lia.
           ++ apply IH; congruence.
  - exists st. simpl. rewrite app_nil_r. repeat split; auto.
Qed.

(** The streaming branch sends the envelope of what the state machine
    delivers, and counts one usage exactly when the call succeeds. *)
Lemma stream_refines msgId rawModel apiKeyInfo script :
  streaming msgId rawModel apiKeyInfo script =
  match run script 0 "" with
  | Some (ts, t) =>
      Some {| response := EventStream (envelope msgId rawModel ts (marker t));
              usageCalls := usageOf (succeeded t) apiKeyInfo |}
  | None => None
  end.
Proof.
  unfold streaming.
  pose proof (stream_loop_run script (init msgId rawModel) "" eq_refl eq_refl) as R.
  cbn [init retryCount] in R.
  destruct (run script 0 "") as [[ts t]|].
  - destruct R as (st' & L & P & C & S'). rewrite L.
    unfold close, envelope. rewrite P, C, S'. cbn [init pushed charCount].
    rewrite <- !app_assoc. reflexivity.
  - rewrite R. reflexivity.
Qed.

End StreamRefinement.

Section PlainRefinement.
Import Messages Messages.Plain Orchestrator.

Lemma string_app_assoc (a b c : string) : ((a ++ b) ++ c = a ++ (b ++ c))%string.
Proof. induction a as [|x a IH]; simpl; [reflexivity | now rewrite IH]. Qed.

Lemma string_app_nil_r (a : string) : (a ++ "" = a)%string.
Proof. induction a as [|x a IH]; simpl; [reflexivity | now rewrite IH]. Qed.

Lemma string_app_length (a b : string) :
  String.length (a ++ b)%string = String.length a + String.length b.
Proof. induction a as [|x a IH]; simpl; [reflexivity | now rewrite IH]. Qed.

Lemma joined_app ts ts' : Js.joined (ts ++ ts') = (Js.joined ts ++ Js.joined ts')%string.
Proof.
  induction ts as [|t ts IH]; simpl; [reflexivity|].
  now rewrite IH, string_app_assoc.
Qed.


Lemma plain_textOf u st :
  let st1 := if String.eqb (type u) "token" && Js.truthyStr (content u)
             then append (Js.orElse (content u) "") st else st in
  fullContent st1 = (fullContent st ++ Js.joined (textOf u))%string /\
  success st1 = success st /\ retryCount st1 = retryCount st /\
  excludedTokenIds st1 = excludedTokenIds st /\ lastError st1 = lastError st.
Proof.
  unfold textOf.
  destruct (String.eqb (type u) "token" && Js.truthyStr (content u)); simpl;
    rewrite ?string_app_nil_r; repeat split; auto.
Qed.

Lemma plain_forAwait_consume us tok : forall st,
  match consume us with
  | (ts, Some Complete) =>
      exists st', forAwait us tok st = Broken st' /\
        fullContent st' = (fullContent st ++ Js.joined ts)%string /\
        success st' = true
  | (ts, Some (RateLimited msg)) =>
      exists st', forAwait us tok st = Broken st' /\
        fullContent st' = (fullContent st ++ Js.joined ts)%string /\
        success st' = success st /\ retryCount st' = S (retryCount st) /\
        excludedTokenIds st' = excludedTokenIds st ++ [id tok] /\
        lastError st' = msg
  | (ts, Some (Fatal msg)) => forAwait us tok st = Returned (apiError msg)
  | (ts, Some Silent) => False
  | (ts, None) =>
      exists st', forAwait us tok st = Exhausted st' /\
        fullContent st' = (fullContent st ++ Js.joined ts)%string /\
        success st' = success st /\ retryCount st' = retryCount st /\
        excludedTokenIds st' = excludedTokenIds st /\
        lastError st' = lastError st
  end.
Proof.
  induction us as [|u rest IH]; intros st; cbn [consume forAwait].
  - exists st. simpl. rewrite string_app_nil_r. repeat split; auto.
  - destruct (String.eqb (type u) "error").
    + destruct (retryableUpdate (Js.orElse (message u) "")); [|reflexivity].
      eexists. split; [reflexivity|]. simpl. rewrite string_app_nil_r.
      repeat split; auto.
    + pose proof (plain_textOf u st) as K. cbv zeta in K.
      destruct K as (K1 & K2 & K3 & K4 & K5).
      destruct (String.eqb (type u) "done").
      * eexists. split; [reflexivity|]. simpl. repeat split; auto.
      * match goal with |- context [forAwait rest tok ?s] =>
          specialize (IH s); set (s1 := s) in * end.
        destruct (consume rest) as [ts [[|m|m|]|]]; try contradiction; try assumption;
          destruct IH as (st' & F & I1 & I2); exists st'; (split; [exact F|]);
          rewrite I1, K1, joined_app, string_app_assoc;
          (split; [reflexivity|]);
          try (destruct I2 as (? & ? & ? & ?)); repeat split; congruence.
Qed.

Lemma plain_loop_run script : forall st,
  success st = false ->
  retryCount st = List.length (excludedTokenIds st) ->
  match run script (retryCount st) (lastError st) with
  | None => loop script st = None
  | Some (ts, Success) =>
      exists st', loop script st = Some (inr st') /\ success st' = true /\
                  fullContent st' = (fullContent st ++ Js.joined ts)%string
  | Some (ts, RetriesSpent lastErr) =>
      exists st', loop script st = Some (inr st') /\ success st' = false /\
                  lastError st' = lastErr
  | Some (ts, t) => loop script st = Some (inl (plainResponse "" "" ts t))
  end.
Proof.
  induction script as [|a script IH]; intros st Hs Hx;
    cbn [run loop];
    destruct (retryCount st <? MAX_RETRIES)%nat eqn:G.
  - reflexivity.
  - exists st. auto.
  - destruct a as [|tok chat].
    + cbn [turn plainResponse]. rewrite <- Hx. reflexivity.
    + cbn [turn]. unfold attempt.
      pose proof (plain_forAwait_consume (yields chat) tok st) as F.
      destruct (consume (yields chat)) as [ts [[|m|m|]|]]; try contradiction.
      * destruct F as (st1 & -> & F1 & F2). rewrite F2.
        exists st1. auto.
      * destruct F as (st1 & -> & F1 & F2 & F3 & F4 & F5). rewrite F2, Hs.
        specialize (IH st1). rewrite F3, F5 in IH.
        assert (X : S (retryCount st) = List.length (excludedTokenIds st1))
          by (rewrite F4, length_app; simpl; lia).
        destruct (run script (S (retryCount st)) m) as [[ts' [|m'|n|le]]|];
          cbn [deliver]; try (apply IH; congruence);
          destruct IH as (st' & L & I1 & I2); try congruence;
          exists st'; rewrite L; repeat split; auto.
        rewrite I2, F1, joined_app, string_app_assoc. reflexivity.
      * rewrite F. reflexivity.
      * destruct F as (st1 & -> & F1 & F2 & F3 & F4 & F5).
        destruct (thrown chat) as [msg|].
        -- destruct (retryableThrow msg); [|reflexivity].
           specialize (IH (rotate tok msg st1)). cbn [rotate retryCount lastError] in IH.
           rewrite F3 in IH.
           assert (X : S (retryCount st) =
                       List.length (excludedTokenIds (rotate tok msg st1)))
             by (cbn [rotate excludedTokenIds]; rewrite F4, length_app; simpl; lia).
           destruct (run script (S (retryCount st)) msg) as [[ts' [|m'|n|le]]|];
             cbn [deliver]; try (apply IH; cbn [rotate success]; congruence);
             destruct IH as (st' & L & I1 & I2); cbn [rotate success]; try congruence;
             exists st'; rewrite L; repeat split; auto.
           rewrite I2. cbn [rotate fullContent].
           rewrite F1, joined_app, string_app_assoc. reflexivity.
        -- rewrite F2, Hs.
           specialize (IH st1). rewrite F3, F5 in IH.
           destruct (run script (retryCount st) (lastError st)) as [[ts' [|m'|n|le]]|];
             cbn [deliver]; try (apply IH; congruence);
             destruct IH as (st' & L & I1 & I2); try congruence;
             exists st'; rewrite L; repeat split; auto.
           rewrite I2, F1, joined_app, string_app_assoc. reflexivity.
  - exists st. auto.
Qed.

(** The non-streaming branch answers with the response of the ending of
    the state machine, and counts one usage exactly when the call
    succeeds. *)
Lemma plain_refines msgId rawModel apiKeyInfo script :
  nonStreaming msgId rawModel apiKeyInfo script =
  match run script 0 "" with
  | Some (ts, t) =>
      Some {| response := plainResponse msgId rawModel ts t;
              usageCalls := usageOf (succeeded t) apiKeyInfo |}
  | None => None
  end.
Proof.
  unfold nonStreaming.
  pose proof (plain_loop_run script init eq_refl eq_refl) as R.
  cbn [init retryCount lastError] in R.
  destruct (run script 0 "") as [[ts [|m|n|le]]|].
  - destruct R as (st' & L & S' & C). rewrite L. unfold finish. rewrite S', C.
    reflexivity.
  - rewrite R. reflexivity.
  - rewrite R. reflexivity.
  - destruct R as (st' & L & S' & C). rewrite L. unfold finish. rewrite S', C.
    reflexivity.
  - rewrite R. reflexivity.
Qed.

End PlainRefinement.



(** ** Calls come to an end *)

Section Termination.
Import Messages Orchestrator.

(** A call ends within a script that holds five attempts more than it
    has silent ones. *)
Lemma run_total script : forall n lastError,
  MAX_RETRIES + List.length (filter silent script) <= n + List.length script ->
  run script n lastError <> None.
Proof.
  induction script as [|a script IH]; intros n lastError H; cbn [run];
    destruct (n <? MAX_RETRIES)%nat eqn:G; try discriminate.
  - apply Nat.ltb_lt in G. cbn [filter List.length] in H. lia.
  - apply Nat.ltb_lt in G.
    destruct a as [|tok chat]; [discriminate|].
    cbn [filter silent List.length] in H.
    destruct (attempt chat) as [ts [|m|m|]]; try discriminate.
    + specialize (IH (S n) m). cbn [List.length] in IH.
      destruct (run script (S n) m) as [[ts' t]|]; [discriminate|].
      exfalso. apply IH; [lia | reflexivity].
    + specialize (IH n lastError). cbn [List.length] in *.
      destruct (run script n lastError) as [[ts' t]|]; [discriminate|].
      exfalso. apply IH; [lia | reflexivity].
Qed.

(** A longer script does not change the end of a call. *)
Lemma run_extend script more : forall n lastError r,
  run script n lastError = Some r -> run (script ++ more) n lastError = Some r.
Proof.
  induction script as [|a script IH]; intros n lastError r; cbn [run app];
    destruct (n <? MAX_RETRIES)%nat eqn:G; try discriminate; auto.
  - destruct more; cbn [run]; rewrite G; auto.
  - destruct a as [|tok chat]; auto.
    destruct (attempt chat) as [ts [|m|m|]]; auto.
    + destruct (run script (S n) m) as [r'|] eqn:E; [|discriminate].
      rewrite (IH _ _ _ E). auto.
    + destruct (run script n lastError) as [r'|] eqn:E; [|discriminate].
      rewrite (IH _ _ _ E). auto.
Qed.

End Termination.

(** ** The streaming envelope *)

Section Envelope.
Import Messages Orchestrator.


Lemma post_plain req apiKeyInfo msgId script m ms :
  messages req = Some (m :: ms) -> stream req <> Some true ->
  post (Some req) apiKeyInfo msgId script =
  Plain.nonStreaming msgId (model req) apiKeyInfo script.
Proof.
  intros Hm Hs. unfold post. rewrite Hm.
  destruct (stream req) as [[|]|]; congruence.
Qed.



End Envelope.


(** ** The non-streaming response *)

Section PlainResponse.
Import Json Messages Orchestrator.

(** C5. A non-streaming request to /v1/messages that passes validation
    gets one JSON response, decided by the way the call ends.  When the
    call ends because the credential store has no candidate, or because
    the retry counter reached its ceiling, the response has status 529
    and the body [{type: "error", error: {type: "overloaded_error",
    message}}], and no usage is counted; the other two endings give
    status 500 with the type [api_error], and status 200 with the message
    body.  The call ends as soon as the script holds five attempts more
    than it has silent ones. *)
Theorem exhaustion_is_overloaded req apiKeyInfo msgId script m ms :
  messages req = Some (m :: ms) ->
  stream req <> Some true ->
  (5 + List.length (filter silent script) <= List.length script ->
   post (Some req) apiKeyInfo msgId script <> None) /\
  forall out,
    post (Some req) apiKeyInfo msgId script = Some out ->
    exists ts t,
      run script 0 "" = Some (ts, t) /\
      match t with
      | PoolExhausted n =>
          response out =
            JsonResponse 529
              (JObj [("type", JStr "error");
                     ("error",
                       JObj [("type", JStr "overloaded_error");
                             ("message",
                               JStr (match n with
                                     | O => "No available tokens"
                                     | S _ => ("All tokens rate limited (tried "
                                                 ++ Js.ofNat n ++ ")")%string
                                     end))])]) /\
          usageCalls out = []
      | RetriesSpent lastError =>
          response out =
            JsonResponse 529
              (JObj [("type", JStr "error");
                     ("error",
                       JObj [("type", JStr "overloaded_error");
                             ("message",
                               JStr (match lastError with
                                     | EmptyString => "Failed after retries"
                                     | _ => lastError
                                     end))])]) /\
          usageCalls out = []
      | FatalUpstream msg =>
          response out =
            JsonResponse 500
              (JObj [("type", JStr "error");
                     ("error", JObj [("type", JStr "api_error");
                                     ("message", JStr msg)])]) /\
          usageCalls out = []
      | Success =>
          response out = JsonResponse 200 (Plain.messageBody msgId (model req) (Js.joined ts))
      end.
Proof.
  intros Hm Hs.
  rewrite (post_plain _ _ _ _ _ _ Hm Hs), plain_refines.
  split.
  - intros H.
    pose proof (run_total script 0 "" H) as T.
    destruct (run script 0 "") as [[ts t]|]; [discriminate | congruence].
  - intros out E.
    destruct (run script 0 "") as [[ts t]|]; [|discriminate].
    inversion E; subst; clear E. exists ts, t. split; [reflexivity|].
    destruct t as [|msg|[|n]|[|c le]]; cbn; auto.
Qed.

End PlainResponse.

(** ** Usage accounting *)

Section Usage.
Import Messages Orchestrator.

Lemma post_usage body apiKeyInfo msgId script out :
  post body apiKeyInfo msgId script = Some out ->
  (call_succeeds body script /\ usageCalls out = usageOf true apiKeyInfo) \/
  (~ call_succeeds body script /\ usageCalls out = []).
Proof.
  unfold post.
  destruct body as [req|].
  2:{ intros E; inversion E; subst. right. split; [|reflexivity].
      intros (req & m & ms & ts & B & _). discriminate. }
  destruct (messages req) as [[|m ms]|] eqn:Hm;
    try (intros E; inversion E; subst; right; split; [|reflexivity];
         intros (req' & m' & ms' & ts & B & M & _); inversion B; subst; congruence).
  assert (K : forall t ts, run script 0 "" = Some (ts, t) ->
              (call_succeeds (Some req) script /\ succeeded t = true) \/
              (~ call_succeeds (Some req) script /\ succeeded t = false)).
  { intros t ts R. destruct t; [left | right | right | right];
      (split; [|reflexivity]);
      try (intros (req' & m' & ms' & ts' & B & M & R'); congruence).
    exists req, m, ms, ts. auto. }
  intros E.
  assert (exists ts t, run script 0 "" = Some (ts, t) /\
                       usageCalls out = usageOf (succeeded t) apiKeyInfo)
    as (ts & t & R & U).
  { destruct (stream req) as [[|]|];
      rewrite ?stream_refines, ?plain_refines in E;
      destruct (run script 0 "") as [[ts t]|]; try discriminate;
      inversion E; subst; eauto. }
  destruct (K _ _ R) as [[C S'] | [C S']]; rewrite S' in U; [left | right]; auto.
Qed.

(** A request that is answered: the call ends within a script that holds
    five attempts more than it has silent ones. *)
Lemma post_total body apiKeyInfo msgId script :
  5 + List.length (filter silent script) <= List.length script ->
  post body apiKeyInfo msgId script <> None.
Proof.
  intros H. unfold post.
  destruct body as [req|]; [|discriminate].
  destruct (messages req) as [[|m ms]|]; try discriminate.
  pose proof (run_total script 0 "" H) as T.
  destruct (stream req) as [[|]|];
    rewrite ?stream_refines, ?plain_refines;
    destruct (run script 0 "") as [[ts t]|]; try discriminate; congruence.
Qed.

(** The answer to a valid request whose call ends with [t]. *)
Lemma post_of_run req apiKeyInfo msgId script m ms ts t :
  messages req = Some (m :: ms) ->
  run script 0 "" = Some (ts, t) ->
  exists out,
    post (Some req) apiKeyInfo msgId script = Some out /\
    usageCalls out = usageOf (succeeded t) apiKeyInfo /\
    response out =
      match stream req with
      | Some true => EventStream (envelope msgId (model req) ts (marker t))
      | _ => plainResponse msgId (model req) ts t
      end.
Proof.
  intros Hm R. unfold post. rewrite Hm.
  destruct (stream req) as [[|]|];
    rewrite ?stream_refines, ?plain_refines, R; eexists; repeat split.
Qed.

(** C6. Usage accounting on /v1/messages, streaming or not: with the key
    information that the authentication middleware stores in the
    context, [incrementApiKeyUsage] is called with the id of that key
    once if the call succeeds and not at all if it does not, so never
    more than once.  The call ends, and is answered, as soon as the
    script holds five attempts more than it has silent ones, also behind
    [apiAuthMiddleware]; a call that succeeds is answered with exactly
    one call for the key, whether the request asks for a stream or not,
    and a call that ends in another way is answered with none.  (The
    route makes the call only if the context holds key information;
    without it no call is made.) *)
Theorem usage_counted_on_success body keyInfo msgId script :
  (5 + List.length (filter silent script) <= List.length script ->
   post body (Some keyInfo) msgId script <> None /\
   forall x_api_key authorization validateApiKey,
     ApiAuth.apiAuthMiddleware x_api_key authorization validateApiKey
       (fun info => post body (Some info) msgId script) <> inr None) /\
  (call_succeeds body script ->
   exists out,
     post body (Some keyInfo) msgId script = Some out /\
     usageCalls out = [key_id keyInfo]) /\
  (forall req m ms ts t,
     body = Some req -> messages req = Some (m :: ms) ->
     run script 0 "" = Some (ts, t) ->
     exists out,
       post body (Some keyInfo) msgId script = Some out /\
       usageCalls out = (if succeeded t then [key_id keyInfo] else [])) /\
  forall out,
    post body (Some keyInfo) msgId script = Some out ->
    (usageCalls out = [key_id keyInfo] <-> call_succeeds body script) /\
    (usageCalls out = [] <-> ~ call_succeeds body script) /\
    List.length (usageCalls out) <= 1 /\
    (forall x_api_key authorization validateApiKey out',
       ApiAuth.apiAuthMiddleware x_api_key authorization validateApiKey
         (fun info => post body (Some info) msgId script) = inr (Some out') ->
       exists info,
         (usageCalls out' = [key_id info] <-> call_succeeds body script) /\
         (usageCalls out' = [] <-> ~ call_succeeds body script)) /\
    (forall out0, post body None msgId script = Some out0 -> usageCalls out0 = []).
Proof.
  split; [|split; [|split]].
  - intros H. split; [apply post_total, H|].
    intros x_api_key authorization validateApiKey M.
    unfold ApiAuth.apiAuthMiddleware in M.
    destruct (if Js.truthyStr x_api_key then x_api_key
              else ApiAuth.extractBearerToken authorization) as [tok|];
      [|discriminate].
    destruct (validateApiKey tok) as [info|]; [|discriminate].
    destruct (negb (enabled info)); [discriminate|].
    destruct ((0 <? rate_limit info)%Z && (rate_limit info <=? daily_usage info)%Z);
      [discriminate|].
    inversion M as [P]. exact (post_total _ _ _ _ H P).
  - intros (req & m & ms & ts & -> & Hm & R).
    destruct (post_of_run req (Some keyInfo) msgId script m ms ts Success Hm R)
      as (out & P & U & _).
    exists out. split; [exact P | exact U].
  - intros req m ms ts t -> Hm R.
    destruct (post_of_run req (Some keyInfo) msgId script m ms ts t Hm R)
      as (out & P & U & _).
    exists out. split; [exact P|]. rewrite U. reflexivity.
  - intros out E.
    assert (K : forall info o, post body (Some info) msgId script = Some o ->
                (usageCalls o = [key_id info] <-> call_succeeds body script) /\
                (usageCalls o = [] <-> ~ call_succeeds body script) /\
                List.length (usageCalls o) <= 1).
    { intros info o P.
      destruct (post_usage _ _ _ _ _ P) as [[C U] | [C U]]; rewrite U; cbn [usageOf].
      - repeat split; auto; try discriminate; try contradiction.
      - repeat split; auto; try discriminate; try contradiction. }
    destruct (K _ _ E) as (K1 & K2 & K3).
    repeat split; try apply K1; try apply K2; auto.
    + intros x_api_key authorization validateApiKey out' M.
      unfold ApiAuth.apiAuthMiddleware in M.
      destruct (if Js.truthyStr x_api_key then x_api_key
                else ApiAuth.extractBearerToken authorization) as [tok|];
        [|discriminate].
      destruct (validateApiKey tok) as [info|]; [|discriminate].
      destruct (negb (enabled info)); [discriminate|].
      destruct ((0 <? rate_limit info)%Z && (rate_limit info <=? daily_usage info)%Z);
        [discriminate|].
      inversion M as [P]. exists info.
      destruct (K _ _ P) as (P1 & P2 & _). split; assumption.
    + intros out0 P.
      destruct (post_usage _ _ _ _ _ P) as [[C U] | [C U]]; rewrite U; reflexivity.
Qed.

End Usage.

(** ** The output-token estimate *)

Section Estimate.
Import Json Messages Orchestrator.




End Estimate.

(** ** An empty credential pool *)

Section EmptyPool.
Import Json.


End EmptyPool.

(** ** Line framing *)

Section Framing.

Lemma splitOn_app sep a : forall b,
  Js.splitOn sep (a ++ b)%string =
  let '(la, ra) := Js.splitOn sep a in
  let '(lb, rb) := Js.splitOn sep (ra ++ b)%string in
  (la ++ lb, rb).
Proof.
  induction a as [|c a IH]; intros b; cbn [Js.splitOn String.append].
  - destruct (Js.splitOn sep b); reflexivity.
  - rewrite IH.
    destruct (Js.splitOn sep a) as [la ra].
    destruct (Ascii.eqb c sep) eqn:E.
    + destruct (Js.splitOn sep (ra ++ b)%string) as [lb rb]. reflexivity.
    + destruct la as [|l la'].
      * cbn [String.append Js.splitOn]. rewrite E.
        destruct (Js.splitOn sep (ra ++ b)%string) as [lb rb].
        destruct lb; reflexivity.
      * destruct (Js.splitOn sep (ra ++ b)%string) as [lb rb]. reflexivity.
Qed.

(** The last piece of a split holds no separator. *)
Lemma splitOn_rest sep s : forall ls r,
  Js.splitOn sep s = (ls, r) -> Js.splitOn sep r = ([], r).
Proof.
  induction s as [|c s IH]; intros ls r; cbn [Js.splitOn].
  - intros E; inversion E; reflexivity.
  - destruct (Js.splitOn sep s) as [ls' r'].
    specialize (IH _ _ eq_refl).
    destruct (Ascii.eqb c sep) eqn:E.
    + intros H; inversion H; subst; assumption.
    + destruct ls' as [|l ls'']; intros H; inversion H; subst; [|assumption].
      cbn [Js.splitOn]. rewrite IH, E. reflexivity.
Qed.

End Framing.

(** ** The decoder of the first revision *)

Section DecoderV1.
Import Json ImageEditV1.
Context `{Runtime}.

Lemma v1_emitNew_rebuffer b urls : forall d,
  emitNew urls (rebuffer_v1 b d) = rebuffer_v1 b (emitNew urls d).
Proof.
  induction urls as [|url rest IH]; intros d; cbn [emitNew]; [reflexivity|].
  cbn [rebuffer_v1 collectedUrls yielded buffer].
  destruct (existsb (String.eqb url) (collectedUrls d)).
  - apply IH.
  - rewrite <- IH. reflexivity.
Qed.

Lemma v1_processLine_rebuffer b line d :
  processLine line (rebuffer_v1 b d) = rebuffer_v1 b (processLine line d).
Proof.
  unfold processLine.
  repeat match goal with
         | |- context [if ?c then _ else _] => destruct c
         | |- context [match ?x with _ => _ end] => destruct x
         end;
    try reflexivity; apply v1_emitNew_rebuffer.
Qed.

Lemma v1_lines_rebuffer b lines : forall d,
  fold_left (fun acc line => processLine line acc) lines (rebuffer_v1 b d) =
  rebuffer_v1 b (fold_left (fun acc line => processLine line acc) lines d).
Proof.
  induction lines as [|l lines IH]; intros d; cbn [fold_left]; [reflexivity|].
  rewrite v1_processLine_rebuffer. apply IH.
Qed.

Lemma v1_feed_eq chunk d :
  feed chunk d =
  rebuffer_v1 (snd (Js.splitLines (buffer d ++ chunk)%string))
    (fold_left (fun acc line => processLine line acc)
       (fst (Js.splitLines (buffer d ++ chunk)%string)) d).
Proof. unfold feed. destruct (Js.splitLines _); reflexivity. Qed.

(** Two chunks, fed one after the other, are one chunk. *)
Lemma v1_feed_feed c1 c2 d : feed c2 (feed c1 d) = feed (c1 ++ c2)%string d.
Proof.
  rewrite !v1_feed_eq. cbn [rebuffer_v1 buffer].
  rewrite <- string_app_assoc. unfold Js.splitLines.
  rewrite (splitOn_app "010" (buffer d ++ c1)%string c2).
  destruct (Js.splitOn "010" (buffer d ++ c1)%string) as [l1 r1]. cbn [fst snd].
  destruct (Js.splitOn "010" (r1 ++ c2)%string) as [l2 r2]. cbn [fst snd].
  rewrite v1_lines_rebuffer, fold_left_app. reflexivity.
Qed.

Lemma v1_decode_concat cs : forall d,
  Js.splitLines (buffer d) = ([], buffer d) ->
  decode cs d = feed (Js.joined cs) d.
Proof.
  induction cs as [|c cs IH]; intros d C; cbn [decode fold_left Js.joined fold_right].
  - rewrite v1_feed_eq, string_app_nil_r, C. destruct d; reflexivity.
  - change (fold_left (fun acc chunk => feed chunk acc) cs (feed c d))
      with (decode cs (feed c d)).
    rewrite IH, v1_feed_feed; [reflexivity|].
    rewrite v1_feed_eq. cbn [rebuffer_v1 buffer].
    destruct (Js.splitLines (buffer d ++ c)%string) as [l r] eqn:E.
    apply (splitOn_rest _ _ _ _ E).
Qed.

Lemma images_v1_app us vs : images_v1 (us ++ vs) = images_v1 us ++ images_v1 vs.
Proof. unfold images_v1. apply flat_map_app. Qed.

Lemma existsb_eqb_false url l :
  existsb (String.eqb url) l = false -> ~ In url l.
Proof.
  intros E Hin.
  assert (existsb (String.eqb url) l = true) as T
    by (apply existsb_exists; exists url; split; [assumption | apply String.eqb_refl]).
  congruence.
Qed.

Lemma NoDup_snoc (x : string) l : NoDup l -> ~ In x l -> NoDup (l ++ [x]).
Proof.
  intros N I. apply NoDup_app; [assumption | constructor; [intros [] | constructor] |].
  intros a Ha [<- | []]. contradiction.
Qed.

Lemma v1_emitNew_inv urls : forall d, v1_inv d -> v1_inv (emitNew urls d).
Proof.
  induction urls as [|url rest IH]; intros d I; cbn [emitNew]; [assumption|].
  destruct (existsb (String.eqb url) (collectedUrls d)) eqn:E; [apply IH, I|].
  apply IH. destruct I as (N & F & S'). unfold v1_inv.
  cbn [collectedUrls yielded].
  rewrite images_v1_app, !map_app, F, S', !length_app, Nat.add_1_r, seq_S.
  cbn. rewrite Nat.sub_0_r.
  repeat split; auto. apply NoDup_snoc; [assumption | apply existsb_eqb_false, E].
Qed.

Lemma v1_processLine_inv line d : v1_inv d -> v1_inv (processLine line d).
Proof.
  intros I. unfold processLine.
  repeat match goal with
         | |- context [if ?c then _ else _] => destruct c
         | |- context [match ?x with _ => _ end] => destruct x
         end;
    try assumption; try (apply v1_emitNew_inv; assumption).
  all: destruct I as (N & F & S'); unfold v1_inv; cbn [yield collectedUrls yielded];
    rewrite images_v1_app; cbn; rewrite app_nil_r; auto.
Qed.

Lemma v1_decode_inv cs : forall d, v1_inv d -> v1_inv (decode cs d).
Proof.
  induction cs as [|c cs IH]; intros d I; cbn [decode fold_left]; [assumption|].
  apply IH. rewrite v1_feed_eq.
  set (lines := fst (Js.splitLines (buffer d ++ c)%string)).
  assert (K : v1_inv (fold_left (fun acc line => processLine line acc) lines d)).
  { clearbody lines. revert d I.
    induction lines as [|l lines IHl]; intros d I; cbn [fold_left]; [assumption|].
    apply IHl, v1_processLine_inv, I. }
  exact K.
Qed.

End DecoderV1.

(** ** The decoder of the current revision *)

Section Decoder.
Import Json ImageEdit.
Context `{Runtime}.

Lemma emitNew_rebuffer b direct urls : forall d,
  emitNew direct urls (rebuffer b d) = rebuffer b (emitNew direct urls d).
Proof.
  induction urls as [|url rest IH]; intros d; cbn [emitNew]; [reflexivity|].
  cbn [rebuffer collectedUrls].
  destruct (existsb (String.eqb url) (collectedUrls d)); [apply IH|].
  rewrite <- IH. destruct direct; reflexivity.
Qed.

Lemma fieldDebug_rebuffer b mr d :
  fieldDebug mr (rebuffer b d) = rebuffer b (fieldDebug mr d).
Proof.
  unfold fieldDebug.
  generalize ["generatedImageUrls"; "imageEditUris"; "fileUris"; "imageUrls"].
  intros ks. revert d.
  induction ks as [|k ks IH]; intros d; cbn [fold_left]; [reflexivity|].
  rewrite <- IH. destruct (get k mr) as [[| | | | |]|]; reflexivity.
Qed.

Lemma processData_rebuffer b data d :
  processData data (rebuffer b d) = rebuffer b (processData data d).
Proof.
  unfold processData. cbn [rebuffer lineCount].
  destruct (lineCount d <=? 3)%nat;
    destruct (getOpt "response" (get "result" data)) as [r|]; try reflexivity;
    destruct (negb (truthy (Some r))); try reflexivity;
    destruct (truthy (get "streamingImageGenerationResponse" r)); try reflexivity;
    (destruct (get "modelResponse" r) as [mr|];
     [destruct (truthy (Some mr));
      [change (yield ?u (rebuffer b ?x)) with (rebuffer b (yield u x));
       rewrite fieldDebug_rebuffer;
       change (yield ?u (rebuffer b ?x)) with (rebuffer b (yield u x));
       destruct (collectImages mr);
       try change (yield ?u (rebuffer b ?x)) with (rebuffer b (yield u x));
       rewrite !emitNew_rebuffer; reflexivity
      | change (yield ?u (rebuffer b ?x)) with (rebuffer b (yield u x));
        rewrite ?emitNew_rebuffer; reflexivity]
     | change (yield ?u (rebuffer b ?x)) with (rebuffer b (yield u x));
       rewrite ?emitNew_rebuffer; reflexivity]).
Qed.

Lemma processLine_rebuffer b line d :
  processLine line (rebuffer b d) = rebuffer b (processLine line d).
Proof.
  unfold processLine. destruct (Js.blank line); [reflexivity|].
  cbn [rebuffer buffer collectedUrls lineCount yielded].
  destruct (JSON_parse line) as [data|].
  - apply (processData_rebuffer b data
             {| buffer := buffer d; collectedUrls := collectedUrls d;
                lineCount := S (lineCount d); yielded := yielded d |}).
  - cbn [lineCount]. destruct (S (lineCount d) <=? 2)%nat; reflexivity.
Qed.

Lemma lines_rebuffer b lines : forall d,
  fold_left (fun acc line => processLine line acc) lines (rebuffer b d) =
  rebuffer b (fold_left (fun acc line => processLine line acc) lines d).
Proof.
  induction lines as [|l lines IH]; intros d; cbn [fold_left]; [reflexivity|].
  rewrite processLine_rebuffer. apply IH.
Qed.

Lemma feed_eq chunk d :
  feed chunk d =
  rebuffer (snd (Js.splitLines (buffer d ++ chunk)%string))
    (fold_left (fun acc line => processLine line acc)
       (fst (Js.splitLines (buffer d ++ chunk)%string)) d).
Proof. unfold feed. destruct (Js.splitLines _); reflexivity. Qed.

(** Two chunks, fed one after the other, are one chunk. *)
Lemma feed_feed c1 c2 d : feed c2 (feed c1 d) = feed (c1 ++ c2)%string d.
Proof.
  rewrite !feed_eq. cbn [rebuffer buffer].
  rewrite <- string_app_assoc. unfold Js.splitLines.
  rewrite (splitOn_app "010" (buffer d ++ c1)%string c2).
  destruct (Js.splitOn "010" (buffer d ++ c1)%string) as [l1 r1]. cbn [fst snd].
  destruct (Js.splitOn "010" (r1 ++ c2)%string) as [l2 r2]. cbn [fst snd].
  rewrite lines_rebuffer, fold_left_app. reflexivity.
Qed.

Lemma decode_concat cs : forall d,
  Js.splitLines (buffer d) = ([], buffer d) ->
  decode cs d = feed (Js.joined cs) d.
Proof.
  induction cs as [|c cs IH]; intros d C; cbn [decode fold_left Js.joined fold_right].
  - rewrite feed_eq, string_app_nil_r, C. destruct d; reflexivity.
  - change (fold_left (fun acc chunk => feed chunk acc) cs (feed c d))
      with (decode cs (feed c d)).
    rewrite IH, feed_feed; [reflexivity|].
    rewrite feed_eq. cbn [rebuffer buffer].
    destruct (Js.splitLines (buffer d ++ c)%string) as [l r] eqn:E.
    apply (splitOn_rest _ _ _ _ E).
Qed.

Lemma images_app us vs : images (us ++ vs) = images us ++ images vs.
Proof. unfold images. apply flat_map_app. Qed.

Lemma undebugged_app us vs : undebugged (us ++ vs) = undebugged us ++ undebugged vs.
Proof. unfold undebugged. apply filter_app. Qed.

(** A debug or progress update leaves the invariant alone. *)
Lemma yield_inv u d :
  images [u] = [] -> decoder_inv d -> decoder_inv (yield u d).
Proof.
  intros E (N & F & S'). unfold decoder_inv. cbn [yield collectedUrls yielded].
  rewrite images_app, E, app_nil_r. auto.
Qed.

Lemma emitNew_inv direct urls : forall d,
  decoder_inv d -> decoder_inv (emitNew direct urls d).
Proof.
  induction urls as [|url rest IH]; intros d I; cbn [emitNew]; [assumption|].
  destruct (existsb (String.eqb url) (collectedUrls d)) eqn:E; [apply IH, I|].
  apply IH. destruct I as (N & F & S'). unfold decoder_inv.
  destruct direct; cbn [yield collect collectedUrls yielded];
    rewrite !images_app, !map_app, F, S', !length_app, Nat.add_1_r, seq_S;
    cbn; rewrite Nat.sub_0_r, ?app_nil_r;
    (repeat split; auto; apply NoDup_snoc; [assumption | apply existsb_eqb_false, E]).
Qed.

Lemma fieldDebug_inv mr d : decoder_inv d -> decoder_inv (fieldDebug mr d).
Proof.
  unfold fieldDebug.
  generalize ["generatedImageUrls"; "imageEditUris"; "fileUris"; "imageUrls"].
  intros ks. revert d.
  induction ks as [|k ks IH]; intros d I; cbn [fold_left]; [assumption|].
  apply IH. destruct (get k mr) as [[| | | | |]|];
    try assumption; (apply yield_inv; [reflexivity | assumption]).
Qed.

Lemma processData_inv data d : decoder_inv d -> decoder_inv (processData data d).
Proof.
  intros I. unfold processData.
  assert (I0 : decoder_inv
                 (if (lineCount d <=? 3)%nat
                  then yield (debug ("line#" ++ Js.ofNat (lineCount d)
                          ++ " resp-keys: ["
                          ++ match getOpt "response" (get "result" data) with
                             | Some r =>
                                 if truthy (getOpt "response" (get "result" data))
                                 then String.concat "," (keys r) else "no-resp"
                             | None => "no-resp"
                             end ++ "]")%string) d
                  else d)).
  { destruct (lineCount d <=? 3)%nat; [apply yield_inv; [reflexivity|]|]; assumption. }
  revert I0. generalize (if (lineCount d <=? 3)%nat
                  then yield (debug ("line#" ++ Js.ofNat (lineCount d)
                          ++ " resp-keys: ["
                          ++ match getOpt "response" (get "result" data) with
                             | Some r =>
                                 if truthy (getOpt "response" (get "result" data))
                                 then String.concat "," (keys r) else "no-resp"
                             | None => "no-resp"
                             end ++ "]")%string) d
                  else d).
  intros d0 I0.
  destruct (getOpt "response" (get "result" data)) as [r|]; [|assumption].
  destruct (negb (truthy (Some r))); [assumption|].
  destruct (truthy (get "streamingImageGenerationResponse" r));
    [apply yield_inv; [reflexivity | assumption]|].
  apply emitNew_inv.
  destruct (get "modelResponse" r) as [mr|]; [|assumption].
  destruct (truthy (Some mr)); [|assumption].
  apply emitNew_inv.
  destruct (collectImages mr);
    repeat (apply yield_inv; [reflexivity|]); apply fieldDebug_inv; assumption.
Qed.

Lemma processLine_inv line d : decoder_inv d -> decoder_inv (processLine line d).
Proof.
  intros I. unfold processLine. destruct (Js.blank line); [assumption|].
  assert (I1 : decoder_inv {| buffer := buffer d; collectedUrls := collectedUrls d;
                              lineCount := S (lineCount d); yielded := yielded d |})
    by exact I.
  destruct (JSON_parse line) as [data|]; [apply processData_inv, I1|].
  destruct (_ <=? 2)%nat; [apply yield_inv; [reflexivity|]|]; exact I1.
Qed.

Lemma decode_inv cs : forall d, decoder_inv d -> decoder_inv (decode cs d).
Proof.
  induction cs as [|c cs IH]; intros d I; cbn [decode fold_left]; [assumption|].
  apply IH. rewrite feed_eq.
  set (lines := fst (Js.splitLines (buffer d ++ c)%string)).
  assert (K : decoder_inv (fold_left (fun acc line => processLine line acc) lines d)).
  { clearbody lines. revert d I.
    induction lines as [|l lines IHl]; intros d I; cbn [fold_left]; [assumption|].
    apply IHl, processLine_inv, I. }
  exact K.
Qed.

End Decoder.

(** ** C8: line framing of the stream decoder *)

(** C8, as amended.  In both revisions of [streamImageEdit] the decoder
    frames its input by lines, whatever the chunks: feeding the chunks one
    by one leaves the decoder as feeding their concatenation at once does,
    so two splits of the same text give the same updates; the lines that
    are processed are the pieces of the whole text that a line feed
    closes, and the piece after the last line feed stays in the buffer,
    unparsed.  A line that [JSON.parse] rejects stops nothing: in the first
    revision it leaves the decoder as it was; in the current revision it
    adds one to the line count, collects no URL, yields no progress, image,
    error or done update, and yields one debug update if it is the first
    or the second non-blank line. *)
Theorem decoder_frames_by_line `{Runtime} :
  (* first revision *)
  (forall cs,
     ImageEditV1.decode cs ImageEditV1.start =
     ImageEditV1.feed (Js.joined cs) ImageEditV1.start) /\
  (forall cs cs',
     Js.joined cs = Js.joined cs' ->
     ImageEditV1.decode cs ImageEditV1.start =
     ImageEditV1.decode cs' ImageEditV1.start) /\
  (forall cs,
     ImageEditV1.buffer (ImageEditV1.decode cs ImageEditV1.start) =
       snd (Js.splitLines (Js.joined cs)) /\
     ImageEditV1.yielded (ImageEditV1.decode cs ImageEditV1.start) =
       ImageEditV1.yielded
         (fold_left (fun acc line => ImageEditV1.processLine line acc)
            (fst (Js.splitLines (Js.joined cs))) ImageEditV1.start)) /\
  (forall line d,
     JSON_parse line = None -> ImageEditV1.processLine line d = d) /\
  (* current revision *)
  (forall before cs,
     ImageEdit.decode cs (ImageEdit.start before) =
     ImageEdit.feed (Js.joined cs) (ImageEdit.start before)) /\
  (forall before cs cs',
     Js.joined cs = Js.joined cs' ->
     ImageEdit.decode cs (ImageEdit.start before) =
     ImageEdit.decode cs' (ImageEdit.start before)) /\
  (forall before cs,
     ImageEdit.buffer (ImageEdit.decode cs (ImageEdit.start before)) =
       snd (Js.splitLines (Js.joined cs)) /\
     ImageEdit.yielded (ImageEdit.decode cs (ImageEdit.start before)) =
       ImageEdit.yielded
         (fold_left (fun acc line => ImageEdit.processLine line acc)
            (fst (Js.splitLines (Js.joined cs))) (ImageEdit.start before))) /\
  (forall line d,
     JSON_parse line = None ->
     ImageEdit.buffer (ImageEdit.processLine line d) = ImageEdit.buffer d /\
     ImageEdit.collectedUrls (ImageEdit.processLine line d) = ImageEdit.collectedUrls d /\
     ImageEdit.lineCount (ImageEdit.processLine line d) =
       (if Js.blank line then ImageEdit.lineCount d else S (ImageEdit.lineCount d)) /\
     undebugged (ImageEdit.yielded (ImageEdit.processLine line d)) =
       undebugged (ImageEdit.yielded d) /\
     ImageEdit.yielded (ImageEdit.processLine line d) =
       ImageEdit.yielded d ++
       (if negb (Js.blank line) && (ImageEdit.lineCount d <? 2)%nat
        then [ImageEdit.debug ("unparseable line#" ++ Js.ofNat (S (ImageEdit.lineCount d))
                                 ++ ": " ++ Js.slice0 200 line)%string]
        else [])).
Proof.
  assert (V1 : forall cs, ImageEditV1.decode cs ImageEditV1.start =
                          ImageEditV1.feed (Js.joined cs) ImageEditV1.start)
    by (intros cs; apply v1_decode_concat; reflexivity).
  assert (V2 : forall before cs,
             ImageEdit.decode cs (ImageEdit.start before) =
             ImageEdit.feed (Js.joined cs) (ImageEdit.start before))
    by (intros before cs; apply decode_concat; reflexivity).
  split; [exact V1|]. split; [|split; [|split; [|split; [exact V2|split; [|split]]]]].
  - intros cs cs' E. rewrite !V1, E. reflexivity.
  - intros cs. rewrite V1, v1_feed_eq. split; reflexivity.
  - intros line d P. unfold ImageEditV1.processLine. rewrite P.
    destruct (Js.blank line); reflexivity.
  - intros before cs cs' E. rewrite !V2, E. reflexivity.
  - intros before cs. rewrite V2, feed_eq. split; reflexivity.
  - intros line d P.
    repeat split; unfold ImageEdit.processLine; rewrite P;
    destruct (Js.blank line); cbn [negb andb];
    rewrite ?app_nil_r; try reflexivity; cbn [ImageEdit.lineCount];
    change (S (ImageEdit.lineCount d) <=? 2)%nat with (ImageEdit.lineCount d <? 2)%nat;
    destruct (ImageEdit.lineCount d <? 2)%nat;
    cbn [ImageEdit.yield ImageEdit.yielded ImageEdit.buffer ImageEdit.collectedUrls
         ImageEdit.lineCount];
    rewrite ?undebugged_app; cbn [undebugged filter]; rewrite ?app_nil_r; reflexivity.
Qed.

(** ** One attempt of img2img *)

Section OneAttempt.
Import Json Imagine Imagine.Img2img.
Context `{Runtime}.

Lemma imageUrls_app a b : imageUrls (a ++ b) = imageUrls a ++ imageUrls b.
Proof. unfold imageUrls, named. now rewrite filter_app, map_app. Qed.

(** The image events that a [for await] writes are those of the first
    image updates that the generator yields. *)
Lemma img2img_forAwait_images us : forall tok prompt count n st,
  exists k,
    imageUrls (written (img2img_inner_state (forAwait us tok prompt count n st))) =
    imageUrls (written st) ++ map forwarded (firstn k (images us)).
Proof.
  induction us as [|u rest IH]; intros tok prompt count n st; cbn [forAwait].
  - exists 0. cbn. now rewrite app_nil_r.
  - destruct u as [i p|url index|msg| |msg].
    + destruct (IH tok prompt count n (write (generating p) st)) as [k E].
      exists k. rewrite E. cbn [write written]. rewrite imageUrls_app.
      cbn. now rewrite app_nil_r.
    + destruct (IH tok prompt count (S n)
                  (write (collecting (S n) count) (write (imageEvent prompt url index) st)))
        as [k E].
      exists (S k). rewrite E. cbn [write written]. rewrite !imageUrls_app.
      cbn. rewrite app_nil_r, <- app_assoc. reflexivity.
    + exists 0.
      destruct (rateLimited msg); cbn [img2img_inner_state rotate write written];
        rewrite imageUrls_app; cbn; now rewrite !app_nil_r.
    + exists 0. cbn [img2img_inner_state write written].
      rewrite imageUrls_app. cbn. now rewrite !app_nil_r.
    + destruct (IH tok prompt count n (write (debugEvent msg) st)) as [k E].
      exists k. rewrite E. cbn [write written]. rewrite imageUrls_app.
      cbn. now rewrite app_nil_r.
Qed.

(** The image updates of one call of [streamImageEdit] have distinct
    URLs, and their indices count from 0. *)
Lemma streamImageEdit_images prompt imageUrls imageCount parentPostId fileMetadataId up :
  let g := snd (ImageEdit.streamImageEdit prompt imageUrls imageCount
                  parentPostId fileMetadataId up) in
  NoDup (map fst (images (yields g))) /\
  map snd (images (yields g)) = seq 0 (List.length (images (yields g))).
Proof.
  cbn zeta. unfold ImageEdit.streamImageEdit. cbn [snd].
  destruct up as [msg|status text body].
  { cbn. split; [constructor | reflexivity]. }
  destruct (negb (ok status)).
  { destruct (status =? 429)%nat; cbn; (split; [constructor | reflexivity]). }
  destruct body as [b|].
  2:{ cbn. split; [constructor | reflexivity]. }
  match goal with |- context [ImageEdit.decode (chunks b) (ImageEdit.start ?i)] =>
    pose proof (decode_inv (chunks b) (ImageEdit.start i)) as I;
    set (d := ImageEdit.decode (chunks b) (ImageEdit.start i)) in *
  end.
  destruct I as (N & F & S').
  { unfold decoder_inv. cbn. repeat split; constructor. }
  assert (L : List.length (images (ImageEdit.yielded d)) =
              List.length (ImageEdit.collectedUrls d))
    by (rewrite <- F, length_map; reflexivity).
  destruct (readError b); [|destruct (_ =? 0)%nat];
    cbn [yields ImageEdit.yield ImageEdit.yielded ImageEdit.collectedUrls];
    rewrite ?images_app; cbn [images flat_map app]; rewrite ?app_nil_r, F, S', L;
    auto.
Qed.

End OneAttempt.

Section OneAttempt2.
Import Json Imagine Imagine.Img2img.
Context `{Runtime}.

Lemma NoDup_forwarded k (l : list (string * nat)) :
  NoDup (map fst l) -> NoDup (map forwarded (firstn k l)).
Proof.
  intros N.
  assert (N1 : NoDup (map fst (firstn k l))).
  { rewrite <- (firstn_skipn k l), map_app in N.
    apply NoDup_app_remove_r in N. exact N. }
  unfold forwarded. rewrite <- (map_map fst (fun u => Some (JStr u))).
  induction N1 as [|x xs Hx _ IH]; cbn [map]; constructor; [|exact IH].
  intros Hin. apply in_map_iff in Hin. destruct Hin as (y & E & Hy).
  inversion E; subst. contradiction.
Qed.

Lemma caught_images tok msg st :
  imageUrls (written (flow_state (caught tok msg st))) = imageUrls (written st).
Proof.
  unfold caught.
  destruct (rateLimited msg); cbn [flow_state rotate write written];
    rewrite imageUrls_app; cbn; now rewrite app_nil_r.
Qed.

(** One turn of the loop adds image events with distinct URLs. *)
Lemma img2img_turn_images token_id prompt count fileName mimeType base64Content t st :
  exists added,
    imageUrls (written (flow_state
      (turn token_id prompt count fileName mimeType base64Content t st))) =
    imageUrls (written st) ++ added /\ NoDup added.
Proof.
  unfold turn.
  destruct (select token_id (retryCount st) t) as [tok|].
  2:{ exists []. cbn [flow_state write written]. rewrite imageUrls_app. cbn.
      split; [reflexivity | constructor]. }
  destruct (uploadImage (fst (upstream t))) as [msg|uploadResult].
  { exists []. rewrite caught_images. cbn [post write written].
    rewrite imageUrls_app. cbn. split; [reflexivity | constructor]. }
  destruct (get "fileUri" uploadResult) as [[| | |uri| |]|] eqn:U;
    try (exists []; rewrite caught_images; cbn [post write written];
         rewrite !imageUrls_app; cbn; rewrite !app_nil_r;
         split; [reflexivity | constructor]).
  match goal with |- context [ImageEdit.streamImageEdit prompt ?us ?c None None ?up] =>
    pose proof (streamImageEdit_images prompt us c None None up) as G;
    destruct (ImageEdit.streamImageEdit prompt us c None None up) as [payload updates]
  end.
  cbn [snd] in G. cbv zeta in G. destruct G as [G _].
  match goal with |- context [forAwait (yields updates) tok prompt count 0 ?s] =>
    destruct (img2img_forAwait_images (yields updates) tok prompt count 0 s) as [k E];
    set (s0 := s) in *
  end.
  assert (W : imageUrls (written s0) = imageUrls (written st)).
  { subst s0. cbn [post write written]. rewrite !imageUrls_app. cbn.
    now rewrite !app_nil_r. }
  rewrite W in E.
  destruct (forAwait (yields updates) tok prompt count 0 s0) as [s1|s1|s1];
    cbn [img2img_inner_state] in E.
  - destruct (thrown updates) as [msg|].
    + exists (map forwarded (firstn k (images (yields updates)))).
      rewrite caught_images. split; [exact E | apply NoDup_forwarded, G].
    + exists (map forwarded (firstn k (images (yields updates)))).
      split; [exact E | apply NoDup_forwarded, G].
  - exists (map forwarded (firstn k (images (yields updates)))).
    split; [exact E | apply NoDup_forwarded, G].
  - exists (map forwarded (firstn k (images (yields updates)))).
    split; [exact E | apply NoDup_forwarded, G].
Qed.

End OneAttempt2.


(** ** C3: no URL twice within one upstream stream *)

Section NoRepeat.
Import Json.
Context `{Runtime}.

Lemma v1_streamImageEdit_images prompt imageUrls imageCount up :
  let g := snd (ImageEditV1.streamImageEdit prompt imageUrls imageCount up) in
  NoDup (map fst (images_v1 (yields g))) /\
  map snd (images_v1 (yields g)) = seq 0 (List.length (images_v1 (yields g))).
Proof.
  cbn zeta. unfold ImageEditV1.streamImageEdit. cbn [snd].
  destruct up as [msg|status text body].
  { cbn. split; [constructor | reflexivity]. }
  destruct (negb (ok status)).
  { destruct (status =? 429)%nat; cbn; (split; [constructor | reflexivity]). }
  destruct body as [b|].
  2:{ cbn. split; [constructor | reflexivity]. }
  pose proof (v1_decode_inv (chunks b) ImageEditV1.start) as I.
  set (d := ImageEditV1.decode (chunks b) ImageEditV1.start) in *.
  destruct I as (N & F & S').
  { unfold v1_inv. cbn. repeat split; constructor. }
  assert (L : List.length (images_v1 (ImageEditV1.yielded d)) =
              List.length (ImageEditV1.collectedUrls d))
    by (rewrite <- F, length_map; reflexivity).
  destruct (readError b); [|destruct (_ =? 0)%nat];
    cbn [yields]; rewrite ?images_v1_app; cbn [images_v1 flat_map app];
    rewrite ?app_nil_r, F, S', L; auto.
Qed.

End NoRepeat.

(** C3, as amended.  Within one upstream stream, that is one call of
    [streamImageEdit] (in both revisions), no URL is emitted twice,
    whatever the upstream sends and however often it repeats a URL: after
    any chunks the URLs collected are distinct, the image updates yielded
    are exactly those URLs, one update each, in the order in which they
    were collected, and the index of each is its rank; so the number of
    image updates is the number of distinct URLs collected.  The img2img
    route forwards them one for one: a call that ends within one attempt
    carries no URL twice.  (The collected set is local to the call of the
    generator: another attempt starts from an empty one.) *)
Theorem no_url_twice_within_a_stream `{Runtime} :
  (* the decode loop *)
  (forall cs,
     let d := ImageEditV1.decode cs ImageEditV1.start in
     NoDup (ImageEditV1.collectedUrls d) /\
     map fst (images_v1 (ImageEditV1.yielded d)) = ImageEditV1.collectedUrls d /\
     map snd (images_v1 (ImageEditV1.yielded d)) =
       seq 0 (List.length (ImageEditV1.collectedUrls d)) /\
     List.length (images_v1 (ImageEditV1.yielded d)) =
       List.length (ImageEditV1.collectedUrls d)) /\
  (forall before cs,
     images before = [] ->
     let d := ImageEdit.decode cs (ImageEdit.start before) in
     NoDup (ImageEdit.collectedUrls d) /\
     map fst (images (ImageEdit.yielded d)) = ImageEdit.collectedUrls d /\
     map snd (images (ImageEdit.yielded d)) =
       seq 0 (List.length (ImageEdit.collectedUrls d)) /\
     List.length (images (ImageEdit.yielded d)) =
       List.length (ImageEdit.collectedUrls d)) /\
  (* the generator *)
  (forall prompt imageUrls imageCount up,
     let g := snd (ImageEditV1.streamImageEdit prompt imageUrls imageCount up) in
     NoDup (map fst (images_v1 (yields g))) /\
     map snd (images_v1 (yields g)) = seq 0 (List.length (images_v1 (yields g)))) /\
  (forall prompt imageUrls imageCount parentPostId fileMetadataId up,
     let g := snd (ImageEdit.streamImageEdit prompt imageUrls imageCount
                     parentPostId fileMetadataId up) in
     NoDup (map fst (images (yields g))) /\
     map snd (images (yields g)) = seq 0 (List.length (images (yields g)))) /\
  (* the route, within one attempt *)
  (forall body t events posted,
     Imagine.Img2img.img2img body [t] = Some (Imagine.Img2img.Streamed events posted) ->
     NoDup (imageUrls events)).
Proof.
  split; [|split; [|split; [|split]]].
  - intros cs d.
    destruct (v1_decode_inv cs ImageEditV1.start) as (N & F & S').
    { unfold v1_inv. cbn. repeat split; constructor. }
    fold d in N, F, S'. repeat split; auto.
    rewrite <- F, length_map. reflexivity.
  - intros before cs B d.
    destruct (decode_inv cs (ImageEdit.start before)) as (N & F & S').
    { unfold decoder_inv. cbn [ImageEdit.start ImageEdit.collectedUrls ImageEdit.yielded].
      rewrite B. repeat split; constructor. }
    fold d in N, F, S'. repeat split; auto.
    rewrite <- F, length_map. reflexivity.
  - intros. apply v1_streamImageEdit_images.
  - intros. apply streamImageEdit_images.
  - intros body t events posted E.
    unfold Imagine.Img2img.img2img in E.
    destruct (negb (Js.truthyStr (Imagine.Img2img.image_data body))); [discriminate|].
    destruct (Imagine.Img2img.parseDataUrl _) as [[mimeType base64Content]|];
      [|discriminate].
    cbn [Imagine.Img2img.loop] in E.
    change (Imagine.Img2img.retryCount Imagine.Img2img.init <? Imagine.MAX_RETRIES)%nat
      with true in E.
    cbv iota in E.
    match type of E with context [Imagine.Img2img.turn ?a ?b ?c ?d ?e ?f t ?s] =>
      destruct (img2img_turn_images a b c d e f t s) as (added & W & N);
      destruct (Imagine.Img2img.turn a b c d e f t s) as [s1|s1|s1]
    end; cbn [flow_state] in W.
    + cbn [Imagine.Img2img.loop] in E.
      destruct (Imagine.Img2img.retryCount s1 <? Imagine.MAX_RETRIES)%nat;
        [discriminate|].
      inversion E; subst. rewrite W. exact N.
    + inversion E; subst. rewrite W. exact N.
    + inversion E; subst. rewrite W. exact N.
Qed.

(** ** C10: the clamp of img2img *)

Section Clamp.
Import Json Imagine Imagine.Img2img.
Context `{Runtime}.

Lemma Qmin_clamp c : Qmin (Qmin c 4) 4 = Qmin c 4.
Proof.
  unfold Qmin, GenericMinMax.gmin.
  destruct (c ?= 4)%Q eqn:E; rewrite ?E; reflexivity.
Qed.

(** The route reads the count only through [Math.min(count, 4)]. *)
Lemma forAwait_clamp us : forall tok prompt count n st,
  forAwait us tok prompt count n st = forAwait us tok prompt (Qmin count 4) n st.
Proof.
  induction us as [|u rest IH]; intros tok prompt count n st; cbn [forAwait];
    [reflexivity|].
  destruct u as [i p|url index|msg| |msg]; try reflexivity; try apply IH.
  - unfold collecting. rewrite Qmin_clamp. apply IH.
Qed.

Lemma turn_clamp token_id prompt count fileName mimeType base64Content t st :
  turn token_id prompt count fileName mimeType base64Content t st =
  turn token_id prompt (Qmin count 4) fileName mimeType base64Content t st.
Proof.
  unfold turn. rewrite Qmin_clamp.
  destruct (select token_id (retryCount st) t); [|reflexivity].
  destruct (uploadImage _); [reflexivity|].
  destruct (get "fileUri" _) as [[| | |uri| |]|]; try reflexivity.
  destruct (ImageEdit.streamImageEdit _ _ _ _ _ _) as [payload updates].
  rewrite forAwait_clamp. reflexivity.
Qed.

Lemma loop_clamp token_id prompt count fileName mimeType base64Content script :
  forall st,
  loop token_id prompt count fileName mimeType base64Content script st =
  loop token_id prompt (Qmin count 4) fileName mimeType base64Content script st.
Proof.
  induction script as [|t script IH]; intros st; cbn [loop]; [reflexivity|].
  rewrite turn_clamp.
  destruct (retryCount st <? MAX_RETRIES)%nat; [|reflexivity].
  destruct (turn _ _ _ _ _ _ _ _); try reflexivity. apply IH.
Qed.

Lemma write_clamped count e st :
  targets (Qmin count 4) e -> clamped count st -> clamped count (write e st).
Proof.
  intros T [A B]. split; [exact A|].
  cbn [write written]. apply Forall_app. split; [exact B | constructor; auto].
Qed.

Lemma post_clamped count r st :
  asks_for (Qmin count 4) r -> clamped count st -> clamped count (post r st).
Proof.
  intros T [A B]. split; [|exact B].
  cbn [post sent]. apply Forall_app. split; [exact A | constructor; auto].
Qed.

(** An event that is no progress event of the collecting stage. *)
Ltac not_collecting :=
  let E := fresh in let S := fresh in
  intros E S; cbn in E, S; discriminate.

Lemma rotate_clamped count tok st : clamped count st -> clamped count (rotate tok st).
Proof.
  intros [A B]. unfold rotate. apply write_clamped; [not_collecting|]. split; assumption.
Qed.

Lemma caught_clamped count tok msg st :
  clamped count st -> clamped count (flow_state (caught tok msg st)).
Proof.
  intros C. unfold caught.
  destruct (rateLimited msg); cbn [flow_state];
    [apply rotate_clamped | apply write_clamped; [not_collecting|]]; assumption.
Qed.

Lemma forAwait_clamped us : forall tok prompt count n st,
  clamped count st ->
  clamped count (img2img_inner_state (forAwait us tok prompt count n st)).
Proof.
  induction us as [|u rest IH]; intros tok prompt count n st C; cbn [forAwait];
    [exact C|].
  destruct u as [i p|url index|msg| |msg].
  - apply IH, write_clamped; [|exact C].
    intros E S. cbn in S. discriminate.
  - apply IH, write_clamped; [|apply write_clamped; [not_collecting | exact C]].
    intros _ _. reflexivity.
  - destruct (rateLimited msg); cbn [img2img_inner_state];
      [apply rotate_clamped | apply write_clamped; [not_collecting|]]; exact C.
  - cbn [img2img_inner_state]. apply write_clamped; [not_collecting | exact C].
  - apply IH, write_clamped; [not_collecting | exact C].
Qed.

Lemma turn_clamped token_id prompt count fileName mimeType base64Content t st :
  clamped count st ->
  clamped count
    (flow_state (turn token_id prompt count fileName mimeType base64Content t st)).
Proof.
  intros C. unfold turn.
  destruct (select token_id (retryCount st) t) as [tok|];
    [|cbn [flow_state]; apply write_clamped; [not_collecting | exact C]].
  assert (C1 : clamped count
            (post (Upload tok fileName mimeType base64Content)
               (write (stageEvent "uploading" "Uploading image to Grok..." 10) st))).
  { apply post_clamped; [exact I|]. apply write_clamped; [|exact C].
    intros E S. cbn in S. discriminate. }
  destruct (uploadImage (fst (upstream t))) as [msg|uploadResult];
    [apply caught_clamped, C1|].
  match goal with |- context [write (debugEvent ?m) ?s] =>
    assert (C2 : clamped count (write (debugEvent m) s))
      by (apply write_clamped; [not_collecting | exact C1])
  end.
  destruct (get "fileUri" uploadResult) as [[| | |uri| |]|];
    try (apply caught_clamped, C2).
  match goal with |- context [ImageEdit.streamImageEdit prompt ?us ?c None None ?up] =>
    assert (P : get "imageGenerationCount"
                  (fst (ImageEdit.streamImageEdit prompt us c None None up))
                = Some (JNum (Qmin count 4))) by reflexivity;
    destruct (ImageEdit.streamImageEdit prompt us c None None up) as [payload updates]
  end.
  cbn [fst] in P.
  match goal with |- context [forAwait (yields updates) tok prompt count 0 ?s] =>
    assert (C3 : clamped count s);
    [| pose proof (forAwait_clamped (yields updates) tok prompt count 0 s C3) as F;
       destruct (forAwait (yields updates) tok prompt count 0 s) as [s1|s1|s1] ]
  end.
  - apply post_clamped; [exact P|].
    apply write_clamped; [intros E S; cbn in S; discriminate|].
    apply write_clamped; [not_collecting | exact C2].
  - cbn [img2img_inner_state] in F.
    destruct (thrown updates); [apply caught_clamped|]; exact F.
  - exact F.
  - exact F.
Qed.

Lemma loop_clamped token_id prompt count fileName mimeType base64Content script :
  forall st st',
  clamped count st ->
  loop token_id prompt count fileName mimeType base64Content script st = Some st' ->
  clamped count st'.
Proof.
  induction script as [|t script IH]; intros st st' C; cbn [loop];
    destruct (retryCount st <? MAX_RETRIES)%nat;
    intros E; try discriminate; try (inversion E; subst; exact C).
  pose proof (turn_clamped token_id prompt count fileName mimeType base64Content t st C)
    as T.
  destruct (turn token_id prompt count fileName mimeType base64Content t st)
    as [s1|s1|s1]; cbn [flow_state] in T.
  - exact (IH _ _ T E).
  - inversion E; subst; exact T.
  - inversion E; subst; exact T.
Qed.

End Clamp.

(** C10, as amended.  The img2img route clamps the count of the request
    and says nothing of it: for a request with count [c] (4 when absent),
    every chat call that the route posts upstream, at every attempt, has
    [imageGenerationCount = min(c, 4)]; every progress event of the
    collecting stage has [target_count = min(c, 4)]; and the answer to the
    request is the answer to the same request with count [min(c, 4)], so
    nothing in the stream tells the two apart.  (The route puts no bound on
    the images of an attempt: it forwards every image update of the
    stream.) *)
Theorem img2img_clamps_the_count `{Runtime} body script :
  Imagine.Img2img.img2img body script =
    Imagine.Img2img.img2img (withCount (Qmin (requested body) 4) body) script /\
  forall events posted,
    Imagine.Img2img.img2img body script =
      Some (Imagine.Img2img.Streamed events posted) ->
    (forall tok payload,
       In (Imagine.Img2img.Chat tok payload) posted ->
       Json.get "imageGenerationCount" payload =
         Some (Json.JNum (Qmin (requested body) 4))) /\
    (forall e,
       In e events -> event e = "progress" ->
       Json.get "status" (data e) = Some (Json.JStr "collecting") ->
       Json.get "target_count" (data e) =
         Some (Json.JNum (Qmin (requested body) 4))).
Proof.
  split.
  - unfold Imagine.Img2img.img2img, withCount, requested.
    cbn [Imagine.Img2img.image_data Imagine.Img2img.prompt Imagine.Img2img.count
         Imagine.Img2img.token_id].
    destruct (negb (Js.truthyStr (Imagine.Img2img.image_data body))); [reflexivity|].
    destruct (Imagine.Img2img.parseDataUrl _) as [[mimeType base64Content]|];
      [|reflexivity].
    rewrite loop_clamp. reflexivity.
  - intros events posted E.
    unfold Imagine.Img2img.img2img in E.
    destruct (negb (Js.truthyStr (Imagine.Img2img.image_data body))); [discriminate|].
    destruct (Imagine.Img2img.parseDataUrl _) as [[mimeType base64Content]|];
      [|discriminate].
    fold (requested body) in E.
    destruct (Imagine.Img2img.loop _ _ _ _ _ _ _ _) as [st|] eqn:L; [|discriminate].
    inversion E; subst; clear E.
    assert (C : clamped (requested body) st).
    { refine (loop_clamped _ _ _ _ _ _ _ _ _ _ L).
      split; constructor. }
    destruct C as [A B]. split.
    + intros tok payload Hin.
      exact (proj1 (Forall_forall _ _) A _ Hin).
    + intros e Hin Ev St.
      exact (proj1 (Forall_forall _ _) B _ Hin Ev St).
Qed.

(** ** C9: the image proxy *)

(** C9. The proxy route fetches nothing that is not under the asset host:
    when the [url] parameter is absent, empty, or does not start with
    [https://assets.grok.com/], the answer has status 400 and no fetch is
    made, whatever the credential store holds; and every fetch that the
    route makes, with the cookies of a credential, is for the URL of the
    request, which starts with that prefix. *)
Theorem proxy_only_fetches_assets url token up :
  (match url with
   | Some u => u = "" \/ Js.startsWith u "https://assets.grok.com/" = false
   | None => True
   end ->
   exists text, Imagine.Proxy.proxy url token up = (Imagine.Proxy.Text 400 text, [])) /\
  (forall f,
     In f (snd (Imagine.Proxy.proxy url token up)) ->
     url = Some (Imagine.Proxy.url f) /\
     Js.startsWith (Imagine.Proxy.url f) "https://assets.grok.com/" = true /\
     token = Some (Imagine.Proxy.credential f)).
Proof.
  unfold Imagine.Proxy.proxy. split.
  - destruct url as [[|c u]|]; intros P; eauto.
    destruct P as [P | P]; [discriminate|]. rewrite P. cbn [negb]. eauto.
  - intros f.
    destruct url as [[|c u]|]; cbn [snd]; try contradiction.
    destruct (Js.startsWith (String c u) "https://assets.grok.com/") eqn:P;
      cbn [negb snd]; try contradiction.
    destruct token as [tok|]; cbn [snd]; try contradiction.
    destruct (negb (ok (Imagine.Proxy.status up))); cbn [snd];
      intros [<- | []]; cbn; auto.
Qed.

(* ================================================================== *)
(** * The properties on concrete calls *)

(** Six credentials, each rate limited at once: the streaming loop stops
    after five rotations, in a state that the loop goes through. *)
Lemma retry_ceiling_witness :
  Forall limited_at_once Scenario.allLimited /\
  5 <= List.length Scenario.allLimited /\
  exists st,
    Messages.Stream.loop Scenario.allLimited
      (Messages.Stream.init "msg_1" "claude-sonnet-4") = Some st /\
    stream_reachable "msg_1" "claude-sonnet-4" st /\
    Messages.Stream.retryCount st = 5 /\
    Messages.Stream.retryCount st <= 5.
Proof.
  assert (F : Forall limited_at_once Scenario.allLimited).
  { unfold Scenario.allLimited. cbn [map seq].
    repeat (constructor; [split; reflexivity|]). constructor. }
  assert (L : 5 <= List.length Scenario.allLimited) by (vm_compute; lia).
  destruct (proj1 (proj2 (proj2 retry_ceiling)) "msg_1" "claude-sonnet-4"
              Scenario.allLimited F L) as (st & E & R & C & _).
  split; [exact F|]. split; [exact L|].
  exists st. repeat split; auto.
  exact (proj1 (proj2 (proj1 retry_ceiling "msg_1" "claude-sonnet-4") st R)).
Defined.




(** Six credentials, each rate limited at once: the non-streaming route
    answers 529 with the overloaded classification. *)
Lemma exhaustion_is_overloaded_witness :
  Messages.messages (Scenario.request false) =
    Some [Json.JObj [("role", Json.JStr "user"); ("content", Json.JStr "hello")]] /\
  Messages.stream (Scenario.request false) <> Some true /\
  exists out,
    Messages.post (Some (Scenario.request false)) (Some Scenario.apiKey) "msg_1"
      Scenario.allLimited = Some out /\
    Messages.response out =
      Messages.JsonResponse 529
        (Messages.errorBody "overloaded_error" "HTTP 429: rate limit exceeded") /\
    Messages.usageCalls out = [].
Proof.
  assert (S : Messages.stream (Scenario.request false) <> Some true)
    by (cbn; discriminate).
  split; [reflexivity|]. split; [exact S|].
  destruct (exhaustion_is_overloaded (Scenario.request false) (Some Scenario.apiKey)
              "msg_1" Scenario.allLimited _ _ eq_refl S) as [_ K].
  destruct (K _ eq_refl) as (ts & t & R & M).
  vm_compute in R. inversion R; subst ts t; clear R.
  eexists. split; [reflexivity|]. exact M.
Defined.

(** A call that fails over once and completes counts one usage, as a
    stream and as a document; a call that ends on a fatal error is
    answered and counts none. *)
Lemma usage_counted_on_success_witness :
  call_succeeds (Some (Scenario.request true)) Scenario.failover /\
  call_succeeds (Some (Scenario.request false)) Scenario.failover /\
  (exists out,
     Messages.post (Some (Scenario.request true)) (Some Scenario.apiKey) "msg_1"
       Scenario.failover = Some out /\
     Messages.usageCalls out = ["key-1"]) /\
  (exists out,
     Messages.post (Some (Scenario.request false)) (Some Scenario.apiKey) "msg_1"
       Scenario.failover = Some out /\
     Messages.usageCalls out = ["key-1"]) /\
  (exists out,
     Messages.post (Some (Scenario.request false)) (Some Scenario.apiKey) "msg_1"
       Scenario.fatal = Some out /\
     Messages.usageCalls out = []).
Proof.
  assert (C : forall streamed,
            call_succeeds (Some (Scenario.request streamed)) Scenario.failover).
  { intros streamed. eexists. eexists. eexists. eexists. repeat split. }
  split; [exact (C true)|]. split; [exact (C false)|].
  split; [|split].
  - exact (proj1 (proj2 (usage_counted_on_success (Some (Scenario.request true))
                           Scenario.apiKey "msg_1" Scenario.failover)) (C true)).
  - exact (proj1 (proj2 (usage_counted_on_success (Some (Scenario.request false))
                           Scenario.apiKey "msg_1" Scenario.failover)) (C false)).
  - exact (proj1 (proj2 (proj2 (usage_counted_on_success
                                  (Some (Scenario.request false))
                                  Scenario.apiKey "msg_1" Scenario.fatal)))
             (Scenario.request false) _ _ ["Hi"]
             (Orchestrator.FatalUpstream "HTTP 500: upstream")
             eq_refl eq_refl eq_refl).
Defined.


(** A line cut in two chunks is decoded as the whole line, and a line that
    is no JSON yields nothing but a debug update. *)
Lemma decoder_frames_by_line_witness :
  let f := Scenario.frame [Scenario.asset 1] in
  Js.joined [Js.slice0 20 f; Js.sliceFrom 20 f] = Js.joined [f] /\
  Demo.parse "garbage" = None /\
  @ImageEdit.decode Demo.runtime [Js.slice0 20 f; Js.sliceFrom 20 f] (ImageEdit.start []) =
  @ImageEdit.decode Demo.runtime [f] (ImageEdit.start []) /\
  undebugged (ImageEdit.yielded
                (@ImageEdit.processLine Demo.runtime "garbage" (ImageEdit.start []))) = [] /\
  @ImageEditV1.processLine Demo.runtime "garbage" ImageEditV1.start = ImageEditV1.start.
Proof.
  intros f.
  assert (J : Js.joined [Js.slice0 20 f; Js.sliceFrom 20 f] = Js.joined [f])
    by (vm_compute; reflexivity).
  assert (P : Demo.parse "garbage" = None) by (vm_compute; reflexivity).
  destruct (@decoder_frames_by_line Demo.runtime) as (_ & _ & _ & A4 & _ & B2 & _ & B4).
  split; [exact J|]. split; [exact P|].
  split; [exact (B2 [] _ _ J)|].
  split; [exact (proj1 (proj2 (proj2 (proj2 (B4 "garbage" (ImageEdit.start []) P))))) |].
  exact (A4 "garbage" ImageEditV1.start P).
Defined.

(** C8, as the claim states it, fails on the current revision: the first
    line of a stream, when it is no JSON, makes the decoder yield a debug
    update, which img2img forwards as a [debug] event. *)
Lemma unparseable_line_yields_a_debug_update :
  Demo.parse "garbage" = None /\
  ImageEdit.yielded (@ImageEdit.processLine Demo.runtime "garbage" (ImageEdit.start [])) =
    [ImageEdit.debug "unparseable line#1: garbage"] /\
  ~ (forall (R : Runtime) line d,
       JSON_parse line = None ->
       ImageEdit.yielded (ImageEdit.processLine line d) = ImageEdit.yielded d).
Proof.
  split; [vm_compute; reflexivity|]. split; [vm_compute; reflexivity|].
  intros K.
  specialize (K Demo.runtime "garbage" (ImageEdit.start []) eq_refl).
  vm_compute in K. discriminate K.
Qed.

(** Within one attempt the five URLs of the stream are forwarded once
    each. *)
Lemma no_url_twice_within_a_stream_witness :
  exists events posted,
    @Imagine.Img2img.img2img Demo.runtime (Scenario.img2imgRequest (Some 10%Q))
      Scenario.fiveImages = Some (Imagine.Img2img.Streamed events posted) /\
    List.length (imageUrls events) = 5 /\
    NoDup (imageUrls events).
Proof.
  eexists. eexists. split; [vm_compute; reflexivity|]. split; [reflexivity|].
  refine (proj2 (proj2 (proj2 (proj2 (@no_url_twice_within_a_stream Demo.runtime))))
            (Scenario.img2imgRequest (Some 10%Q)) Scenario.fiveImagesTurn _ _ _).
  vm_compute. reflexivity.
Defined.

(** C3, as the claim states it, fails across credential retries: the
    first attempt forwards a URL and then loses its stream on an error that
    the route takes for a rate limit; the second attempt, on another
    credential, collects from nothing and forwards the same URL again. *)
Lemma a_url_is_forwarded_again_after_a_retry :
  exists events posted,
    @Imagine.Img2img.img2img Demo.runtime (Scenario.img2imgRequest None)
      Scenario.repeatedAcrossRetries = Some (Imagine.Img2img.Streamed events posted) /\
    imageUrls events =
      [Some (Json.JStr (Scenario.asset 1)); Some (Json.JStr (Scenario.asset 1))] /\
    ~ NoDup (imageUrls events).
Proof.
  eexists. eexists. split; [vm_compute; reflexivity|].
  split; [vm_compute; reflexivity|].
  intros N. vm_compute in N. inversion N as [|x l Hx _]. apply Hx. left. reflexivity.
Qed.

(** The same on /api/imagine/generate, in the scenario of the spec:
    credential 1 yields an image and then a rate limit, credential 2
    yields it again. *)
Example generate_forwards_a_url_twice :
  exists events,
    Imagine.Generate.generate (Scenario.generateRequest (Some 2%Q))
      Scenario.generateRepeated = Some events /\
    imageUrls events =
      [Some (Json.JStr (Scenario.asset 1)); Some (Json.JStr (Scenario.asset 1))].
Proof. eexists. split; vm_compute; reflexivity. Qed.

(** A request for ten images: the chat call asks for four and the progress
    events aim at four. *)
Lemma img2img_clamps_the_count_witness :
  exists events posted tok payload,
    @Imagine.Img2img.img2img Demo.runtime (Scenario.img2imgRequest (Some 10%Q))
      Scenario.fiveImages = Some (Imagine.Img2img.Streamed events posted) /\
    In (Imagine.Img2img.Chat tok payload) posted /\
    Qmin (requested (Scenario.img2imgRequest (Some 10%Q))) 4 = 4%Q /\
    Json.get "imageGenerationCount" payload = Some (Json.JNum 4).
Proof.
  destruct (@img2img_clamps_the_count Demo.runtime (Scenario.img2imgRequest (Some 10%Q))
              Scenario.fiveImages) as [_ K].
  eexists. eexists. eexists. eexists.
  split; [vm_compute; reflexivity|].
  assert (I : forall (a b : Imagine.Img2img.Sent), In b [a; b])
    by (intros a b; right; left; reflexivity).
  split; [apply I|]. split; [reflexivity|].
  refine (proj1 (K _ _ _) _ _ _); [vm_compute; reflexivity | apply I].
Defined.

(** C10, as the claim states it, fails: the route does not keep an attempt
    to four images.  A request for ten images whose one attempt streams
    five URLs is served five image events. *)
Lemma five_images_in_one_attempt :
  exists events posted,
    @Imagine.Img2img.img2img Demo.runtime (Scenario.img2imgRequest (Some 10%Q))
      Scenario.fiveImages = Some (Imagine.Img2img.Streamed events posted) /\
    List.length posted = 2 /\
    List.length (named "image" events) = 5 /\
    ~ List.length (named "image" events) <= 4.
Proof.
  eexists. eexists. split; [vm_compute; reflexivity|].
  split; [reflexivity|]. split; [reflexivity|].
  vm_compute. lia.
Qed.

(** A URL on another host is refused and nothing is fetched. *)
Lemma proxy_only_fetches_assets_witness :
  Js.startsWith "https://example.com/assets.grok.com/a.jpg" "https://assets.grok.com/"
    = false /\
  exists text,
    Imagine.Proxy.proxy (Some "https://example.com/assets.grok.com/a.jpg")
      (Some (Demo.credential 1))
      {| Imagine.Proxy.status := 200; Imagine.Proxy.contentType := None;
         Imagine.Proxy.content := "" |}
    = (Imagine.Proxy.Text 400 text, []).
Proof.
  assert (P : Js.startsWith "https://example.com/assets.grok.com/a.jpg"
                "https://assets.grok.com/" = false) by reflexivity.
  split; [exact P|].
  exact (proj1 (proxy_only_fetches_assets
                  (Some "https://example.com/assets.grok.com/a.jpg")
                  (Some (Demo.credential 1))
                  {| Imagine.Proxy.status := 200; Imagine.Proxy.contentType := None;
                     Imagine.Proxy.content := "" |})
           (or_intror P)).
Defined.

(* ================================================================== *)
(** * Further properties of the gateway *)

(* ================================================================== *)
(** ** Model table *)

Section ModelTable.
Import Json Models.

Lemma prefix_app p s : String.prefix p (p ++ s) = true.
Proof.
  induction p as [|c p IH]; [destruct s; reflexivity|].
  cbn. destruct (ascii_dec c c); [exact IH | congruence].
Qed.

Lemma prefix_split p s : String.prefix p s = true -> exists r, s = (p ++ r)%string.
Proof.
  revert s. induction p as [|c p IH]; intros s H.
  - exists s. reflexivity.
  - destruct s as [|d s]; [discriminate|]. cbn in H.
    destruct (ascii_dec c d) as [<-|]; [|discriminate].
    destruct (IH _ H) as [r ->]. exists r. reflexivity.
Qed.

Lemma sliceFrom_app p s : Js.sliceFrom (String.length p) (p ++ s) = s.
Proof. induction p as [|c p IH]; [destruct s; reflexivity|]. exact IH. Qed.

Lemma find_id_some modelId m l :
  find (fun m => String.eqb (id m) modelId) l = Some m -> In m l /\ id m = modelId.
Proof.
  intros H. apply find_some in H. destruct H as [H1 H2].
  apply String.eqb_eq in H2. auto.
Qed.

End ModelTable.

Section ModelTable2.
Import Json Models.

Ltac each_model H :=
  repeat (destruct H as [<- | H]; [try (vm_compute; intuition congruence) |]);
  try contradiction.

(** X1. Lookup in the model table.  [getModelInfo] answers only with an
    entry of [MODELS] that bears the id asked for; every entry is found
    under its own id (no id is listed twice), and [toGrokModel] then
    gives its model and mode.  The ids that GET /v1/models lists are
    exactly the ids that [toGrokModel] resolves. *)
Theorem listed_models_resolve :
  forall modelId : string,
    (forall m, getModelInfo modelId = Some m -> In m MODELS /\ id m = modelId) /\
    (forall m, In m MODELS ->
               getModelInfo (id m) = Some m /\
               toGrokModel (id m) = Some (grokModel m, modelMode m)) /\
    (In modelId (listedIds listModels) <-> toGrokModel modelId <> None) /\
    NoDup (listedIds listModels).
Proof.
  intros modelId. split; [|split; [|split]].
  - intros m H. apply find_id_some in H. exact H.
  - intros m H. unfold MODELS in H. cbn [In] in H. each_model H.
  - split.
    + intros H. change (listedIds listModels) with (map id MODELS) in H.
      apply in_map_iff in H. destruct H as (m & <- & H).
      unfold MODELS in H. cbn [In] in H. each_model H.
    + intros H. unfold toGrokModel in H.
      destruct (getModelInfo modelId) as [m|] eqn:G; [|congruence].
      apply find_id_some in G. destruct G as [G <-].
      change (listedIds listModels) with (map id MODELS). apply in_map. exact G.
  - change (listedIds listModels) with (map id MODELS).
    vm_compute. repeat constructor; cbn; intuition discriminate.
Qed.

(** X2. The kinds of model.  The three tests are exclusive on every id;
    on an id of the table exactly the test that its [type] names holds;
    and the thinking models are text models. *)
Theorem model_kinds :
  forall modelId : string,
    (isTextModel modelId = true ->
       isImageModel modelId = false /\ isVideoModel modelId = false) /\
    (isImageModel modelId = true -> isVideoModel modelId = false) /\
    (isThinkingModel modelId = true -> isTextModel modelId = true) /\
    (forall m, getModelInfo modelId = Some m ->
       (isTextModel modelId = true <-> type m = text) /\
       (isImageModel modelId = true <-> type m = image) /\
       (isVideoModel modelId = true <-> type m = video)).
Proof.
  intros modelId.
  assert (T : forall m, getModelInfo modelId = Some m ->
             (isTextModel modelId = true <-> type m = text) /\
             (isImageModel modelId = true <-> type m = image) /\
             (isVideoModel modelId = true <-> type m = video)).
  { intros m G. pose proof G as G'. apply find_id_some in G'.
    destruct G' as [I E].
    unfold isTextModel. rewrite G. subst modelId.
    unfold MODELS in I. cbn [In] in I.
    repeat (destruct I as [<- | I];
            [vm_compute; repeat split; intros; congruence |]).
    contradiction. }
  split; [|split; [|split]]; auto.
  - intros H. unfold isTextModel in H.
    destruct (getModelInfo modelId) as [m|] eqn:G; [|discriminate].
    destruct (T m eq_refl) as (_ & Ti & Tv).
    assert (Ty : type m = text) by (destruct m as [? ? ? ? []]; cbn in *; congruence).
    rewrite Ty in Ti, Tv.
    split.
    + destruct (isImageModel modelId); [|reflexivity].
      destruct Ti as [Ti _]. specialize (Ti eq_refl). discriminate.
    + destruct (isVideoModel modelId); [|reflexivity].
      destruct Tv as [Tv _]. specialize (Tv eq_refl). discriminate.
  - intros H. unfold isImageModel in H. apply orb_true_iff in H.
    destruct H as [H | H].
    + apply String.eqb_eq in H. subst. reflexivity.
    + apply prefix_split in H. destruct H as [r ->]. reflexivity.
  - intros H. unfold isThinkingModel in H. cbn [existsb] in H.
    rewrite orb_false_r in H. apply orb_true_iff in H.
    destruct H as [H | H]; apply String.eqb_eq in H; subst; reflexivity.
Qed.

Lemma ratioOfSuffix_cases suffix a :
  ratioOfSuffix suffix = Some a ->
  match a with
  | ratio r => In (suffix, r) RATIO_SUFFIX_MAP /\ In r SUPPORTED_RATIOS
  | inherited n => n = suffix /\ In n objectPrototype
  end.
Proof.
  unfold ratioOfSuffix.
  destruct (find _ RATIO_SUFFIX_MAP) as [kv|] eqn:F.
  - intros E. inversion E; subst. apply find_some in F. destruct F as [I K].
    apply String.eqb_eq in K. destruct kv as [k v]. cbn in K. subst k.
    split; [exact I|].
    unfold RATIO_SUFFIX_MAP in I. cbn [In] in I.
    repeat (destruct I as [I | I]; [inversion I; subst; cbn; tauto|]).
    contradiction.
  - destruct (existsb _ objectPrototype) eqn:X; [|discriminate].
    intros E. inversion E; subst. split; [reflexivity|].
    apply existsb_exists in X. destruct X as (n & I & K).
    apply String.eqb_eq in K. subst. exact I.
Qed.

(** X3. [parseModelWithRatio] on any id.  The base model is [grok-image],
    [grok-video] or the id itself, and in the last case the ratio is 1:1.
    The ratio is one of the five supported ratios, except when the id is
    [grok-image-] or [grok-video-] followed by the name of a property of
    [Object.prototype]: then the field holds what that name inherits.
    For an image or video model of the table the ratio is the one that
    its display name shows. *)
Theorem parseModelWithRatio_ratio :
  forall modelId : string,
    let p := parseModelWithRatio modelId in
    (baseModel p = "grok-image" \/ baseModel p = "grok-video" \/
     p = {| baseModel := modelId; aspectRatio := ratio "1:1" |}) /\
    match aspectRatio p with
    | ratio r => In r SUPPORTED_RATIOS
    | inherited n =>
        In n objectPrototype /\
        (modelId = ("grok-image-" ++ n)%string \/ modelId = ("grok-video-" ++ n)%string)
    end /\
    (forall m, getModelInfo modelId = Some m ->
       match type m with
       | text => p = {| baseModel := modelId; aspectRatio := ratio "1:1" |}
       | image => exists r, p = {| baseModel := "grok-image"; aspectRatio := ratio r |} /\
                            displayName m = ("Grok Image (" ++ r ++ ")")%string
       | video => exists r, p = {| baseModel := "grok-video"; aspectRatio := ratio r |} /\
                            displayName m = ("Grok Video (" ++ r ++ ")")%string
       end).
Proof.
  intros modelId p. split; [|split].
  - subst p. unfold parseModelWithRatio.
    destruct (if Js.startsWith modelId "grok-image-" then _ else _); [cbn; auto|].
    destruct (if Js.startsWith modelId "grok-video-" then _ else _); [cbn; auto|].
    destruct (String.eqb modelId "grok-image"); [cbn; auto|].
    destruct (String.eqb modelId "grok-video"); cbn; auto.
  - subst p. unfold parseModelWithRatio.
    destruct (Js.startsWith modelId "grok-image-") eqn:Pi.
    + apply prefix_split in Pi. destruct Pi as [s ->].
      rewrite sliceFrom_app.
      destruct (ratioOfSuffix s) as [a|] eqn:R.
      * apply ratioOfSuffix_cases in R. cbn [aspectRatio].
        destruct a as [r|n]; [tauto|]. destruct R as [-> R]. auto.
      * change (Js.startsWith ("grok-image-" ++ s) "grok-video-") with false.
        change (String.eqb ("grok-image-" ++ s) "grok-video") with false.
        destruct (String.eqb _ "grok-image"); cbn; tauto.
    + destruct (Js.startsWith modelId "grok-video-") eqn:Pv.
      * apply prefix_split in Pv. destruct Pv as [s ->].
        rewrite sliceFrom_app.
        destruct (ratioOfSuffix s) as [a|] eqn:R.
        -- apply ratioOfSuffix_cases in R. cbn [aspectRatio].
           destruct a as [r|n]; [tauto|]. destruct R as [-> R]. auto.
        -- destruct (String.eqb _ "grok-image"); [cbn; tauto|].
           destruct (String.eqb _ "grok-video"); cbn; tauto.
      * destruct (String.eqb _ "grok-image"); [cbn; tauto|].
        destruct (String.eqb _ "grok-video"); cbn; tauto.
  - intros m G. apply find_id_some in G. destruct G as [I E]. subst p modelId.
    unfold MODELS in I. cbn [In] in I.
    repeat (destruct I as [<- | I];
            [first [ reflexivity
                   | eexists; split; vm_compute; reflexivity ] |]).
    contradiction.
Qed.

End ModelTable2.

(* ================================================================== *)
(** ** Model mapping and format conversion of /v1/messages *)

Section Conversion.
Import Json Convert.
Context `{Runtime}.

(** X4. [mapModel] maps twice as it maps once.  A name that it rewrites
    is rewritten to a text model of the table, which [toGrokModel]
    resolves; and every id of the table passes through unchanged. *)
Theorem mapModel_targets :
  forall model : string,
    mapModel (mapModel model) = mapModel model /\
    (mapModel model = model \/
     (Models.isTextModel (mapModel model) = true /\
      Models.toGrokModel (mapModel model) <> None)) /\
    (forall m, In m Models.MODELS -> mapModel (Models.id m) = Models.id m).
Proof.
  intros model. split; [|split].
  - unfold mapModel at 2 3.
    destruct (Js.includes (Js.toLowerCase model) "opus") eqn:O; [reflexivity|].
    destruct (Js.includes (Js.toLowerCase model) "haiku") eqn:K; [reflexivity|].
    destruct (Js.includes (Js.toLowerCase model) "sonnet") eqn:S; [reflexivity|].
    destruct (Js.startsWith (Js.toLowerCase model) "claude") eqn:C; [reflexivity|].
    unfold mapModel. rewrite O, K, S, C. reflexivity.
  - unfold mapModel.
    destruct (Js.includes (Js.toLowerCase model) "opus");
      [right; split; [reflexivity | discriminate]|].
    destruct (Js.includes (Js.toLowerCase model) "haiku");
      [right; split; [reflexivity | discriminate]|].
    destruct (Js.includes (Js.toLowerCase model) "sonnet");
      [right; split; [reflexivity | discriminate]|].
    destruct (Js.startsWith (Js.toLowerCase model) "claude");
      [right; split; [reflexivity | discriminate]|].
    left. reflexivity.
  - intros m I. unfold Models.MODELS in I. cbn [In] in I.
    repeat (destruct I as [<- | I]; [vm_compute; reflexivity|]).
    contradiction.
Qed.

Lemma convertEach_shape messages ms :
  convertEach messages = Some ms ->
  Forall2 (fun msg m => get "role" m = get "role" msg /\
                        convertContent (get "content" msg) = get "content" m)
          messages ms.
Proof.
  revert ms. induction messages as [|msg rest IH]; intros ms E; cbn in E.
  - inversion E. constructor.
  - destruct (convertMessage msg) as [m|] eqn:M; [|discriminate].
    destruct (convertEach rest) as [ms'|]; [|discriminate].
    inversion E; subst. constructor; [|apply IH; reflexivity].
    unfold convertMessage in M.
    assert (K : match convertContent (get "content" msg) with
                | Some c => Some (JObj (prop "role" (get "role" msg) ++ [("content", c)]))
                | None => None
                end = Some m) by (destruct msg; try discriminate; exact M).
    destruct (convertContent (get "content" msg)) as [c|]; [|discriminate].
    inversion K; subst. unfold prop.
    destruct (get "role" msg) as [r|]; cbn; auto.
Qed.

(** X5. What [convertMessages] keeps.  When it returns, the result is the
    system message, if the request has a truthy [system], followed by one
    message for each message of the request, in order, with the role of
    that message and the conversion of its content.  A content that is a
    single text part converts to the same thing as the text given as a
    plain string. *)
Theorem conversion_keeps_messages :
  forall (messages : list json) (system : option json) (out : list json),
    convertMessages messages system = Some out ->
    (exists ms,
       out = (match system with
              | Some s => if truthy system
                          then [JObj [("role", JStr "system"); ("content", s)]] else []
              | None => []
              end) ++ ms /\
       Forall2 (fun msg m => get "role" m = get "role" msg /\
                             convertContent (get "content" msg) = get "content" m)
               messages ms) /\
    (forall fs t,
       assoc "type" fs = Some (JStr "text") -> assoc "text" fs = Some (JStr t) ->
       convertContent (Some (JArr [JObj fs])) = convertContent (Some (JStr t))).
Proof.
  intros messages system out E. split.
  - unfold convertMessages in E.
    destruct (convertEach messages) as [ms|] eqn:C; [|discriminate].
    inversion E; subst. exists ms. split; [reflexivity|].
    apply convertEach_shape. exact C.
  - intros fs t Ty Tx. cbn. rewrite Ty. cbn. rewrite Tx. cbn.
    destruct t; reflexivity.
Qed.

Lemma cut_app sep a b :
  Js.includes a (String sep "") = false ->
  Js.cut sep (a ++ String sep b) = Some (a, b).
Proof.
  induction a as [|c a IH]; intros N; cbn.
  - rewrite Ascii.eqb_refl. reflexivity.
  - cbn in N. destruct (ascii_dec sep c) as [->|D].
    + destruct a; discriminate.
    + cbn in N. destruct (Ascii.eqb c sep) eqn:E.
      * apply Ascii.eqb_eq in E. congruence.
      * rewrite IH; [reflexivity|]. exact N.
Qed.

Lemma includes_app_r a b sub :
  Js.includes b sub = true -> Js.includes (a ++ b) sub = true.
Proof.
  intros B. induction a as [|c a IH]; [exact B|].
  cbn [String.append Js.includes]. rewrite IH. apply orb_true_r.
Qed.

Lemma includes_app_no a b c :
  Js.includes a (String c "") = false -> Js.includes b (String c "") = false ->
  Js.includes (a ++ b) (String c "") = false.
Proof.
  intros A B. induction a as [|x a IH]; [exact B|].
  cbn [String.append]. cbn in A |- *.
  destruct (ascii_dec c x); [destruct a; discriminate|].
  cbn in A |- *. apply IH. exact A.
Qed.

(** X6. Data URLs, built and parsed.  For an image part with no [url]
    whose [data] and [media_type] are non-empty strings,
    [convertContentPart] builds the URL
    [data:<media_type>;base64,<data>]; if the media type holds neither a
    comma nor a semicolon, [parseDataUrl] accepts that URL and gives the
    media type and the data back. *)
Theorem data_url_round_trip :
  forall (ps fs : list (string * json)) (mt d : string),
    assoc "type" ps = Some (JStr "image") ->
    assoc "source" ps = Some (JObj fs) ->
    truthy (assoc "url" fs) = false ->
    assoc "media_type" fs = Some (JStr mt) -> mt <> "" ->
    assoc "data" fs = Some (JStr d) -> d <> "" ->
    Js.includes mt "," = false -> Js.includes mt ";" = false ->
    convertContentPart (JObj ps)
      = Some (Some (imageUrlPart (JStr ("data:" ++ mt ++ ";base64," ++ d)))) /\
    Imagine.Img2img.parseDataUrl ("data:" ++ mt ++ ";base64," ++ d) = Some (mt, d).
Proof.
  intros ps fs mt d Ty Src U Mt Mne D Dne Nc Ns. split.
  - unfold convertContentPart. cbn [get]. rewrite Ty. cbn [isStr String.eqb].
    change (String.eqb "image" "text") with false.
    change (String.eqb "image" "image") with true. cbv iota.
    rewrite Src. cbn [get]. rewrite U, Mt, D. cbn [truthy interpolate].
    destruct mt; [congruence|]. destruct d; [congruence|]. reflexivity.
  - unfold Imagine.Img2img.parseDataUrl.
    unfold Js.startsWith at 1. rewrite (prefix_app "data:" (mt ++ ";base64," ++ d)).
    cbn [negb].
    replace ("data:" ++ mt ++ ";base64," ++ d)%string
      with (("data:" ++ mt ++ ";base64") ++ String "," d)%string.
    2:{ change (("data:" ++ mt ++ ";base64") ++ String "," d)%string
          with ("data:" ++ ((mt ++ ";base64") ++ String "," d))%string.
        rewrite string_app_assoc. reflexivity. }
    rewrite cut_app.
    2:{ change ("data:" ++ mt ++ ";base64")%string
          with ("data:" ++ (mt ++ ";base64"))%string.
        apply includes_app_no; [reflexivity|].
        apply includes_app_no; [exact Nc | reflexivity]. }
    rewrite includes_app_r; [|apply includes_app_r; reflexivity].
    cbn [negb]. change (Js.sliceFrom 5 ("data:" ++ mt ++ ";base64"))
      with (mt ++ String ";" "base64")%string.
    unfold Js.piece0. rewrite cut_app by exact Ns.
    destruct mt; [congruence|]. reflexivity.
Qed.

End Conversion.

Section Handler.
Import Json Convert.
Context `{Runtime}.

Lemma isStr_text_image ty : isStr ty "text" = true -> isStr ty "image" = false.
Proof.
  destruct ty as [[| | |s| |]|]; cbn; try discriminate.
  intros E. apply String.eqb_eq in E. subst. reflexivity.
Qed.

Lemma convertContentPart_throws part :
  convertContentPart part = None <-> brokenPart part = true.
Proof.
  unfold convertContentPart, brokenPart.
  destruct part; [split; reflexivity|..].
  all: cbv zeta.
  all: match goal with |- context [isStr ?t "text"] => set (ty := t) end.
  all: destruct (isStr ty "text") eqn:T;
    [rewrite (isStr_text_image _ T); cbn [andb]; split; discriminate|].
  all: destruct (isStr ty "image"); cbn [andb];
    [| destruct (isStr ty "tool_use"); [split; discriminate|];
       destruct (isStr ty "tool_result"); split; discriminate].
  all: match goal with |- context [get "source" ?p] => destruct (get "source" p) as [src|] end;
    [|split; reflexivity].
  all: destruct src; try (split; reflexivity).
  all: match goal with |- context [truthy (get "url" ?s)] =>
         destruct (truthy (get "url" s)); [split; discriminate|];
         destruct (truthy (get "data" s) && truthy (get "media_type" s));
         split; discriminate
       end.
Qed.

Lemma convertParts_throws items :
  convertParts items = None <-> existsb brokenPart items = true.
Proof.
  induction items as [|part rest IH]; cbn [convertParts existsb].
  - split; discriminate.
  - destruct (convertContentPart part) as [p|] eqn:P.
    + assert (B : brokenPart part = false).
      { destruct (brokenPart part) eqn:B; [|reflexivity].
        apply convertContentPart_throws in B. congruence. }
      rewrite B. cbn [orb]. rewrite <- IH.
      destruct (convertParts rest); split; congruence.
    + apply convertContentPart_throws in P. rewrite P. split; reflexivity.
Qed.

Lemma convertMessage_throws msg :
  convertMessage msg = None <-> brokenMessage msg = true.
Proof.
  assert (K : forall content : option json,
             convertContent content = None <->
             match content with
             | Some (JStr _) => false
             | Some (JArr items) => existsb brokenPart items
             | _ => true
             end = true).
  { intros [[| | |s|items|]|]; cbn [convertContent]; try (split; reflexivity);
      try (split; discriminate).
    rewrite <- convertParts_throws.
    destruct (convertParts items) as [[|p [|q parts]]|];
      try (split; congruence).
    destruct (isStr (get "type" p) "text"); split; congruence. }
  unfold convertMessage, brokenMessage.
  destruct msg; [split; reflexivity|..].
  all: rewrite <- K.
  all: match goal with |- context [convertContent ?c] => destruct (convertContent c) end;
    split; congruence.
Qed.

Lemma convertEach_throws messages :
  convertEach messages = None <-> existsb brokenMessage messages = true.
Proof.
  induction messages as [|msg rest IH]; cbn [convertEach existsb].
  - split; discriminate.
  - destruct (convertMessage msg) as [m|] eqn:M.
    + assert (B : brokenMessage msg = false).
      { destruct (brokenMessage msg) eqn:B; [|reflexivity].
        apply convertMessage_throws in B. congruence. }
      rewrite B. cbn [orb]. rewrite <- IH.
      destruct (convertEach rest); split; congruence.
    + apply convertMessage_throws in M. rewrite M. split; reflexivity.
Qed.

(** X7. When the handler of POST /v1/messages throws.  The handler
    throws, and so sends neither an error body nor an envelope, exactly
    when the body is [null], or when [messages] is a non-empty array and
    either [model] is not a string or a message cannot be read (it is
    [null], its content is neither a string nor an array, or the array
    holds [null] or an image part without a source).  A body whose
    [messages] is not a non-empty array is answered with the 400 error
    even if [model] is missing; and a request that does not throw is
    answered as [Messages.post] answers. *)
Theorem handler_throws_exactly :
  forall (body : option json) (apiKeyInfo : option ApiKeyInfo) (msgId : string)
         (script : list Messages.Attempt),
    (handle body apiKeyInfo msgId script = Some Threw <->
     body = Some JNull \/
     exists b m ms,
       body = Some b /\ get "messages" b = Some (JArr (m :: ms)) /\
       ((forall s, get "model" b <> Some (JStr s)) \/
        existsb brokenMessage (m :: ms) = true)) /\
    (forall b, body = Some b -> b <> JNull ->
       (forall m ms, get "messages" b <> Some (JArr (m :: ms))) ->
       handle body apiKeyInfo msgId script
         = Some (Answered (Messages.invalidRequest
                   "messages is required and must be a non-empty array"))) /\
    (forall b m ms rawModel,
       body = Some b -> get "messages" b = Some (JArr (m :: ms)) ->
       get "model" b = Some (JStr rawModel) ->
       existsb brokenMessage (m :: ms) = false ->
       exists req,
         Messages.model req = rawModel /\
         Messages.messages req = Some (m :: ms) /\
         Messages.stream req = Some (truthy (get "stream" b)) /\
         handle body apiKeyInfo msgId script
           = option_map Answered (Messages.post (Some req) apiKeyInfo msgId script)).
Proof.
  intros body apiKeyInfo msgId script.
  assert (NT : forall o : option Messages.Outcome, option_map Answered o <> Some Threw).
  { intros [o|]; discriminate. }
  assert (CM : forall ms sys, convertMessages ms sys = None <->
                              existsb brokenMessage ms = true).
  { intros ms sys. unfold convertMessages. rewrite <- convertEach_throws.
    destruct (convertEach ms); split; congruence. }
  split; [|split].
  - split.
    + intros E. destruct body as [b|]; [|cbn in E; discriminate].
      destruct b as [| | | | |fields]; [left; reflexivity|..];
        try (exfalso; cbn in E; discriminate).
      right. cbn [handle get] in E.
      destruct (assoc "messages" fields) as [[| | | |[|m ms]|]|] eqn:M;
        try (exfalso; eapply NT; exact E).
      exists (JObj fields), m, ms. split; [reflexivity|]. split; [exact M|].
      cbn [get].
      destruct (assoc "model" fields) as [[| | |rawModel| |]|];
        try (left; intros s; discriminate).
      right. apply (CM _ (assoc "system" fields)).
      destruct (convertMessages (m :: ms) (assoc "system" fields));
        [exfalso; eapply NT; exact E | reflexivity].
    + intros [-> | (b & m & ms & -> & M & [Mo | Br])]; [reflexivity | |].
      * destruct b as [| | | | |fields]; cbn [get] in M; try discriminate.
        cbn [handle get]. rewrite M. cbn [get] in Mo.
        destruct (assoc "model" fields) as [[| | |s| |]|]; try reflexivity.
        exfalso. apply (Mo s). reflexivity.
      * destruct b as [| | | | |fields]; cbn [get] in M; try discriminate.
        apply (CM _ (assoc "system" fields)) in Br.
        cbn [handle get]. rewrite M.
        destruct (assoc "model" fields) as [[| | |s| |]|]; try reflexivity.
        rewrite Br. reflexivity.
  - intros b -> N M.
    destruct b; try contradiction; cbn [handle];
      try reflexivity.
    destruct (get "messages" (JObj fields)) as [[| | | |[|m ms]|]|] eqn:G;
      try reflexivity.
    exfalso. apply (M m ms). reflexivity.
  - intros b m ms rawModel -> M Mo Br.
    assert (C : convertMessages (m :: ms) (get "system" b) <> None).
    { intros C. apply CM in C. congruence. }
    destruct b; cbn [get] in M; try discriminate.
    cbn [handle]. cbn [get] in Mo, C |- *. rewrite M, Mo.
    destruct (convertMessages (m :: ms) (assoc "system" fields)); [|congruence].
    eexists. split; [|split; [|split; [|reflexivity]]]; reflexivity.
Qed.

End Handler.

(* ================================================================== *)
(** ** The key store *)

Section KeyStore.
Import Json ApiKeys.

Lemma keeps_touch now : keeps (touch now).
Proof. intros r. split; reflexivity. Qed.
Lemma keeps_used : keeps used.
Proof. intros r. split; reflexivity. Qed.
Lemma keeps_unused : keeps unused.
Proof. intros r. split; reflexivity. Qed.
Lemma keeps_switch flag : keeps (switch flag).
Proof. intros r. split; reflexivity. Qed.

Lemma update_ids w set db : keeps set -> map id (update w set db) = map id db.
Proof.
  intros K. unfold update. rewrite map_map. apply map_ext.
  intros r. destruct (w r); [apply K | reflexivity].
Qed.

Lemma update_keys w set db : keeps set -> map key (update w set db) = map key db.
Proof.
  intros K. unfold update. rewrite map_map. apply map_ext.
  intros r. destruct (w r); [apply K | reflexivity].
Qed.

Lemma find_key_update k w set db :
  keeps set ->
  find (fun r => String.eqb (key r) k) (update w set db)
  = option_map (fun r => if w r then set r else r)
      (find (fun r => String.eqb (key r) k) db).
Proof.
  intros K. induction db as [|r db IH]; [reflexivity|].
  cbn [update map find]. fold (update w set db).
  assert (E : key (if w r then set r else r) = key r)
    by (destruct (w r); [apply K | reflexivity]).
  rewrite E. destruct (String.eqb (key r) k); [reflexivity | exact IH].
Qed.

Lemma find_id_update i w set db :
  keeps set ->
  find (fun r => String.eqb (id r) i) (update w set db)
  = option_map (fun r => if w r then set r else r)
      (find (fun r => String.eqb (id r) i) db).
Proof.
  intros K. induction db as [|r db IH]; [reflexivity|].
  cbn [update map find]. fold (update w set db).
  assert (E : id (if w r then set r else r) = id r)
    by (destruct (w r); [apply K | reflexivity]).
  rewrite E. destruct (String.eqb (id r) i); [reflexivity | exact IH].
Qed.

Lemma constrained_update w set db :
  keeps set -> constrained db -> constrained (update w set db).
Proof.
  intros K [A B]. split; [rewrite update_ids | rewrite update_keys]; assumption.
Qed.

(** In a constrained table, the rows of one id are one row. *)
Lemma constrained_id db r r' :
  constrained db -> In r db -> In r' db -> id r = id r' -> r = r'.
Proof.
  intros [A _]. induction db as [|x db IH]; [contradiction|].
  cbn [map] in A. inversion A as [|? ? N A']; subst.
  intros [-> | I] [-> | I'] E; auto.
  - exfalso. apply N. rewrite E. apply in_map. exact I'.
  - exfalso. apply N. rewrite <- E. apply in_map. exact I.
Qed.

Lemma find_key_in k db r :
  find (fun r => String.eqb (key r) k) db = Some r -> In r db /\ key r = k.
Proof.
  intros F. apply find_some in F. destruct F as [I E].
  apply String.eqb_eq in E. auto.
Qed.


Lemma account_row k out db row info body msgId script :
  Messages.post body (Some info) msgId script = out ->
  rowOfKey k db = Some row ->
  exists row',
    rowOfKey k (Gateway.account out db) = Some row' /\
    id row' = id row /\ key row' = key row /\
    rate_limit row' = rate_limit row /\ enabled row' = enabled row /\
    daily_usage row' =
      (daily_usage row + if counted (id row) (inr out) then 1 else 0)%Z /\
    usage_count row' =
      (usage_count row + if counted (id row) (inr out) then 1 else 0)%Z.
Proof.
  intros P F. destruct out as [o|]; cbn [Gateway.account counted].
  2:{ exists row. rewrite !Z.add_0_r. repeat split; auto. }
  assert (U : Messages.usageCalls o = [key_id info] \/ Messages.usageCalls o = []).
  { destruct (post_usage _ _ _ _ _ P) as [[_ U] | [_ U]]; rewrite U; cbn; auto. }
  destruct U as [U | U]; rewrite U; cbn [fold_left existsb].
  - unfold rowOfKey, incrementApiKeyUsage.
    rewrite find_key_update by apply keeps_used.
    unfold rowOfKey in F. rewrite F. cbn [option_map].
    rewrite orb_false_r, (String.eqb_sym (id row)).
    destruct (String.eqb (key_id info) (id row)).
    + exists (used row). repeat split; reflexivity.
    + exists row. rewrite !Z.add_0_r. repeat split; auto.
  - exists row. rewrite !Z.add_0_r. repeat split; auto.
Qed.

Lemma account_constrained out db :
  constrained db -> constrained (Gateway.account out db).
Proof.
  destruct out as [o|]; [|auto]. cbn [Gateway.account].
  generalize (Messages.usageCalls o). intros l. revert db.
  induction l as [|i l IH]; intros db C; [exact C|].
  cbn [fold_left]. apply IH. apply constrained_update; [apply keeps_used | exact C].
Qed.

(** One request: what it does to the row of a key. *)
Lemma messages_row r db a db1 k row :
  Gateway.messages r db = (a, db1) ->
  rowOfKey k db = Some row ->
  (constrained db -> constrained db1) /\
  (constrained db -> counted (id row) a = true ->
     (0 < rate_limit row)%Z -> (daily_usage row < rate_limit row)%Z) /\
  exists row',
    rowOfKey k db1 = Some row' /\
    id row' = id row /\ key row' = key row /\
    rate_limit row' = rate_limit row /\ enabled row' = enabled row /\
    daily_usage row' = (daily_usage row + if counted (id row) a then 1 else 0)%Z /\
    usage_count row' = (usage_count row + if counted (id row) a then 1 else 0)%Z.
Proof.
  intros M F.
  unfold Gateway.messages, Gateway.apiAuthMiddleware in M.
  assert (Stay : forall e, (inl e, db) = (a, db1) ->
            (constrained db -> constrained db1) /\
            (constrained db -> counted (id row) a = true ->
               (0 < rate_limit row)%Z -> (daily_usage row < rate_limit row)%Z) /\
            exists row',
              rowOfKey k db1 = Some row' /\
              id row' = id row /\ key row' = key row /\
              rate_limit row' = rate_limit row /\ enabled row' = enabled row /\
              daily_usage row' = (daily_usage row + if counted (id row) a then 1 else 0)%Z /\
              usage_count row' = (usage_count row + if counted (id row) a then 1 else 0)%Z).
  { intros e E. inversion E; subst. cbn [counted]. split; [auto|]. split; [discriminate|].
    exists row. rewrite !Z.add_0_r. repeat split; auto. }
  destruct (if Js.truthyStr (Gateway.x_api_key r) then Gateway.x_api_key r
            else ApiAuth.extractBearerToken (Gateway.authorization r)) as [tok|];
    [|eapply Stay; exact M].
  unfold validateApiKey in M.
  destruct (find (fun r0 => String.eqb (key r0) tok) db) as [row0|] eqn:F0;
    [|eapply Stay; exact M].
  set (db' := update (fun r0 => String.eqb (id r0) (id row0)) (touch (Gateway.now r)) db) in M.
  assert (C' : constrained db -> constrained db')
    by (apply constrained_update, keeps_touch).
  assert (F' : exists row1, rowOfKey k db' = Some row1 /\
             id row1 = id row /\ key row1 = key row /\
             rate_limit row1 = rate_limit row /\ enabled row1 = enabled row /\
             daily_usage row1 = daily_usage row /\ usage_count row1 = usage_count row).
  { unfold rowOfKey, db'. rewrite find_key_update by apply keeps_touch.
    unfold rowOfKey in F. rewrite F. cbn [option_map].
    destruct (String.eqb (id row) (id row0)); eexists; repeat split; reflexivity. }
  destruct F' as (row1 & F1 & I1 & K1 & R1 & E1 & D1 & U1).
  assert (Stay' : forall e, (inl e, db') = (a, db1) ->
            (constrained db -> constrained db1) /\
            (constrained db -> counted (id row) a = true ->
               (0 < rate_limit row)%Z -> (daily_usage row < rate_limit row)%Z) /\
            exists row',
              rowOfKey k db1 = Some row' /\
              id row' = id row /\ key row' = key row /\
              rate_limit row' = rate_limit row /\ enabled row' = enabled row /\
              daily_usage row' = (daily_usage row + if counted (id row) a then 1 else 0)%Z /\
              usage_count row' = (usage_count row + if counted (id row) a then 1 else 0)%Z).
  { intros e E. inversion E; subst. cbn [counted]. split; [auto|]. split; [discriminate|].
    exists row1. rewrite !Z.add_0_r. repeat split; auto. }
  destruct (negb _); [eapply Stay'; exact M|].
  destruct (andb _ _) eqn:RL; [eapply Stay'; exact M|].
  inversion M; subst a db1. clear M.
  split; [|split].
  - intros C. apply account_constrained. auto.
  - intros C Cn Pos.
    destruct (Messages.post _ _ _ _) as [o|] eqn:P; [|discriminate Cn].
    cbn [counted] in Cn.
    destruct (post_usage _ _ _ _ _ P) as [[_ U] | [_ U]]; rewrite U in Cn;
      cbn in Cn; [|discriminate].
    rewrite orb_false_r in Cn. apply String.eqb_eq in Cn.
    apply find_key_in in F0. apply find_key_in in F.
    assert (row = row0) by (eapply constrained_id; eauto; tauto).
    subst row0. cbn in RL.
    apply andb_false_iff in RL. destruct RL as [RL | RL].
    + apply Z.ltb_ge in RL. lia.
    + apply Z.leb_gt in RL. exact RL.
  - destruct (account_row k _ db' row1 (rowToApiKeyInfo row0) (Gateway.body r)
                (Gateway.msgId r) (Gateway.script r) eq_refl F1)
      as (row' & F2 & I2 & K2 & R2 & E2 & D2 & U2).
    rewrite I1 in D2, U2.
    exists row'. repeat split; congruence.
Qed.

(** X8. The daily quota of a key, for calls to POST /v1/messages that are
    served one after the other on a table that satisfies the constraints
    of its schema.  For the row of any key, [daily_usage] and
    [usage_count] grow by the number of successful calls authenticated by
    that key, and by nothing else; and if the key has a positive
    [rate_limit], that number is at most what was left of the limit when
    the calls began. *)
Theorem quota_is_metered :
  forall (rs : list Gateway.Request) (db db' : DB)
         (answers : list ((nat * json) + option Messages.Outcome))
         (k : string) (row : ApiKeyRow),
    constrained db ->
    Gateway.serve rs db = (answers, db') ->
    rowOfKey k db = Some row ->
    exists row',
      rowOfKey k db' = Some row' /\
      id row' = id row /\ rate_limit row' = rate_limit row /\
      let n := Z.of_nat (List.length (filter (counted (id row)) answers)) in
      daily_usage row' = (daily_usage row + n)%Z /\
      usage_count row' = (usage_count row + n)%Z /\
      ((0 < rate_limit row)%Z ->
       (n <= Z.max 0 (rate_limit row - daily_usage row))%Z).
Proof.
  induction rs as [|r rs IH]; intros db db' answers k row C S F.
  - cbn in S. inversion S; subst. exists row. cbn.
    rewrite !Z.add_0_r. repeat split; auto. lia.
  - cbn [Gateway.serve] in S.
    destruct (Gateway.messages r db) as [a db1] eqn:M.
    destruct (Gateway.serve rs db1) as [answers' db2] eqn:S'.
    inversion S; subst answers db'. clear S.
    destruct (messages_row _ _ _ _ _ _ M F)
      as (C1 & B1 & row1 & F1 & I1 & K1 & R1 & E1 & D1 & U1).
    destruct (IH _ _ _ _ _ (C1 C) S' F1) as (row2 & F2 & I2 & R2 & D2 & U2 & B2).
    exists row2. split; [exact F2|]. split; [congruence|]. split; [congruence|].
    cbn [filter]. rewrite I1 in D2, U2, B2. rewrite R1 in B2.
    destruct (counted (id row) a) eqn:Cn; cbn [List.length].
    + specialize (B1 C eq_refl). cbn zeta in *.
      rewrite Nat2Z.inj_succ. repeat split; try lia.
      all: intros Pos; specialize (B1 Pos); specialize (B2 Pos); lia.
    + cbn zeta in *. rewrite Z.add_0_r in D1, U1.
      repeat split; try lia.
      all: intros Pos; specialize (B2 Pos); lia.
Qed.

End KeyStore.

Section KeyFormat.
Import Json ApiKeys.

Lemma get_some s n : n < String.length s -> exists c, String.get n s = Some c.
Proof.
  revert n. induction s as [|x s IH]; intros n L; cbn in L; [lia|].
  destruct n as [|n]; cbn; [eauto|]. apply IH. lia.
Qed.

Lemma get_in s n c : String.get n s = Some c -> In c (list_ascii_of_string s).
Proof.
  revert n. induction s as [|x s IH]; intros n G; cbn in G; [discriminate|].
  destruct n as [|n]; cbn.
  - inversion G. auto.
  - right. eapply IH. exact G.
Qed.

Lemma list_ascii_app a b :
  list_ascii_of_string (a ++ b) = list_ascii_of_string a ++ list_ascii_of_string b.
Proof. induction a as [|x a IH]; cbn; [reflexivity | now rewrite IH]. Qed.

Lemma charAt_chars (r : Q) :
  (0 <= r)%Q -> (r < 1)%Q ->
  exists c, charAt chars (Qfloor (r * inject_Z (Z.of_nat (String.length chars))))
            = String c "" /\ In c (list_ascii_of_string chars).
Proof.
  intros R0 R1.
  set (z := Qfloor (r * inject_Z (Z.of_nat (String.length chars)))).
  assert (Z0 : (0 <= z)%Z).
  { change 0%Z with (Qfloor (inject_Z 0)). apply Qfloor_resp_le.
    change (inject_Z 0) with (0 * inject_Z (Z.of_nat (String.length chars)))%Q.
    apply Qmult_le_compat_r; [exact R0 | discriminate]. }
  assert (Z1 : (z < Z.of_nat (String.length chars))%Z).
  { rewrite Zlt_Qlt. eapply Qle_lt_trans; [apply Qfloor_le|].
    setoid_replace (inject_Z (Z.of_nat (String.length chars)))
      with (1 * inject_Z (Z.of_nat (String.length chars)))%Q at 2 by ring.
    apply Qmult_lt_compat_r; [reflexivity | exact R1]. }
  unfold charAt. destruct (z <? 0)%Z eqn:N; [apply Z.ltb_lt in N; lia|].
  destruct (get_some chars (Z.to_nat z)) as [c G]; [lia|].
  rewrite G. exists c. split; [reflexivity|]. eapply get_in. exact G.
Qed.

Lemma generate_fold (random : nat -> Q) l acc :
  (forall i, In i l -> (0 <= random i)%Q /\ (random i < 1)%Q) ->
  exists s,
    fold_left
      (fun key i =>
         (key ++ charAt chars
                   (Qfloor (random i * inject_Z (Z.of_nat (String.length chars)))))%string)
      l acc = (acc ++ s)%string /\
    String.length s = List.length l /\
    (forall c, In c (list_ascii_of_string s) -> In c (list_ascii_of_string chars)).
Proof.
  revert acc. induction l as [|i l IH]; intros acc R.
  - exists "". cbn. rewrite string_app_nil_r. repeat split; auto. contradiction.
  - cbn [fold_left].
    destruct (charAt_chars (random i)) as (c & E & I); try apply R; [left; reflexivity ..|].
    rewrite E.
    destruct (IH (acc ++ String c "")%string) as (s & F & L & A).
    { intros j J. apply R. right. exact J. }
    exists (String c s). rewrite F, string_app_assoc.
    split; [reflexivity|]. split; [cbn; f_equal; exact L|].
    intros x [<- | X]; auto.
Qed.

(** X9. The keys that [generateApiKey] makes.  When every draw of
    [Math.random()] is in the interval from 0 (included) to 1 (excluded),
    the key is [sk-] followed by 48 characters, each taken from the 62
    letters and digits; it has 51 characters. *)
Theorem generated_key_format :
  forall random : nat -> Q,
    (forall i, i < 48 -> (0 <= random i)%Q /\ (random i < 1)%Q) ->
    exists s,
      generateApiKey random = ("sk-" ++ s)%string /\
      String.length s = 48 /\
      String.length (generateApiKey random) = 51 /\
      (forall c, In c (list_ascii_of_string s) -> In c (list_ascii_of_string chars)).
Proof.
  intros random R.
  destruct (generate_fold random (seq 0 48) "sk-") as (s & F & L & A).
  { intros i I. apply in_seq in I. apply R. lia. }
  exists s. unfold generateApiKey. rewrite F. rewrite length_seq in L.
  repeat split; auto. cbn. rewrite L. reflexivity.
Qed.

Lemma sliceFrom_length n s : String.length (Js.sliceFrom n s) = String.length s - n.
Proof.
  revert s. induction n as [|n IH]; intros s; cbn; [lia|].
  destruct s as [|c s]; cbn; [reflexivity | apply IH].
Qed.

Lemma slice0_length n s : n <= String.length s -> String.length (Js.slice0 n s) = n.
Proof.
  unfold Js.slice0. revert s. induction n as [|n IH]; intros s L.
  - destruct s; reflexivity.
  - destruct s as [|c s]; cbn in L; [lia|]. cbn. f_equal. apply IH. lia.
Qed.

Lemma preview_length s :
  12 < String.length s ->
  String.length (Js.slice0 8 s ++ "..." ++ sliceLast 4 s) = 15.
Proof.
  intros L. rewrite string_app_length, slice0_length by lia.
  rewrite string_app_length. unfold sliceLast. rewrite sliceFrom_length.
  cbn. lia.
Qed.

End KeyFormat.

(* ================================================================== *)
(** ** The authentication middleware *)

Section Bearer.
Import Json.

Lemma includes_char c x s :
  Js.includes (String x s) (String c "") = Ascii.eqb c x || Js.includes s (String c "").
Proof.
  cbn [Js.includes String.prefix].
  destruct (ascii_dec c x) as [->|N].
  - rewrite Ascii.eqb_refl. destruct s; reflexivity.
  - apply Ascii.eqb_neq in N. rewrite N. reflexivity.
Qed.

Lemma includes_char_nil c : Js.includes "" (String c "") = false.
Proof. reflexivity. Qed.

(** A string without the separator is one piece. *)
Lemma splitOn_none sep s :
  Js.includes s (String sep "") = false <-> Js.splitOn sep s = ([], s).
Proof.
  induction s as [|x s IH].
  - split; reflexivity.
  - rewrite includes_char. cbn [Js.splitOn].
    rewrite (Ascii.eqb_sym sep x).
    destruct (Ascii.eqb x sep); cbn [orb].
    + split; [discriminate|]. destruct (Js.splitOn sep s). discriminate.
    + rewrite IH. destruct (Js.splitOn sep s) as [[|l ls] r].
      * split; intros E; inversion E; subst; reflexivity.
      * split; discriminate.
Qed.

Lemma splitOn_nil sep s r : Js.splitOn sep s = ([], r) -> r = s.
Proof.
  revert r. induction s as [|x s IH]; intros r; cbn [Js.splitOn].
  - intros E. inversion E. reflexivity.
  - destruct (Js.splitOn sep s) as [[|l ls] r'].
    + destruct (Ascii.eqb x sep); [discriminate|].
      intros E. inversion E. f_equal. apply IH. reflexivity.
    + destruct (Ascii.eqb x sep); discriminate.
Qed.

Lemma splitOn_one sep a b :
  Js.includes a (String sep "") = false ->
  Js.includes b (String sep "") = false ->
  Js.splitOn sep (a ++ String sep b) = ([a], b).
Proof.
  intros A B. apply splitOn_none in B.
  induction a as [|x a IH]; cbn [String.append Js.splitOn].
  - rewrite B, Ascii.eqb_refl. reflexivity.
  - rewrite includes_char in A. apply orb_false_iff in A. destruct A as [X A].
    rewrite (IH A), (Ascii.eqb_sym x sep), X. reflexivity.
Qed.

Lemma splitOn_one_inv sep s a b :
  Js.splitOn sep s = ([a], b) ->
  s = (a ++ String sep b)%string /\
  Js.includes a (String sep "") = false /\ Js.includes b (String sep "") = false.
Proof.
  revert a. induction s as [|x s IH]; intros a; cbn [Js.splitOn]; [discriminate|].
  destruct (Js.splitOn sep s) as [ls r] eqn:S.
  destruct (Ascii.eqb x sep) eqn:X.
  - intros E. inversion E; subst. apply Ascii.eqb_eq in X. subst x.
    pose proof (splitOn_nil _ _ _ S) as ->.
    assert (N : Js.includes s (String sep "") = false) by (apply splitOn_none; exact S).
    split; [reflexivity|]. split; [reflexivity | exact N].
  - destruct ls as [|l ls]; [discriminate|].
    intros E. inversion E; subst.
    destruct (IH l eq_refl) as (-> & A & B).
    split; [reflexivity|]. split; [|exact B].
    rewrite includes_char, (Ascii.eqb_sym sep x), X. exact A.
Qed.

Lemma includes_lower_space s :
  Js.includes (Js.toLowerCase s) " " = Js.includes s " ".
Proof.
  induction s as [|x s IH]; [reflexivity|].
  cbn [Js.toLowerCase]. rewrite !includes_char, IH. f_equal.
  unfold Js.lowerChar.
  destruct ((65 <=? nat_of_ascii x)%nat && (nat_of_ascii x <=? 90)%nat) eqn:U;
    [|reflexivity].
  apply andb_true_iff in U. destruct U as [U1 U2].
  apply Nat.leb_le in U1, U2.
  assert (N1 : Ascii.eqb " " x = false).
  { apply Ascii.eqb_neq. intros <-. cbn in U1. lia. }
  rewrite N1. apply Ascii.eqb_neq. intros E.
  apply (f_equal nat_of_ascii) in E. rewrite nat_ascii_embedding in E by lia.
  cbn in E. lia.
Qed.

(** The key that a well-formed [Authorization] header carries. *)
Lemma extractBearerToken_bearer scheme t :
  Js.toLowerCase scheme = "bearer" -> t <> "" -> Js.includes t " " = false ->
  ApiAuth.extractBearerToken (Some (scheme ++ " " ++ t)%string) = Some t.
Proof.
  intros L T N. unfold ApiAuth.extractBearerToken.
  assert (S : Js.includes scheme " " = false).
  { rewrite <- includes_lower_space, L. reflexivity. }
  assert (Tr : Js.truthyStr (Some (scheme ++ " " ++ t)%string) = true).
  { destruct scheme; reflexivity. }
  rewrite Tr. cbn [negb].
  assert (O : Js.orElse (Some (scheme ++ " " ++ t)%string) "" = (scheme ++ " " ++ t)%string).
  { destruct scheme; reflexivity. }
  rewrite O. unfold Js.split.
  change (scheme ++ " " ++ t)%string with (scheme ++ String " " t)%string.
  rewrite (splitOn_one " " scheme t S N). cbn [app].
  rewrite L. cbn [String.eqb negb]. change (String.eqb "bearer" "bearer") with true.
  cbn [negb]. destruct t; [congruence | reflexivity].
Qed.

(** X10. The [Authorization] header that carries a key.
    [extractBearerToken] returns a key exactly for a header made of a
    scheme that reads [bearer] in lower case, one space, and a non-empty
    key without a space; it returns that key. *)
Theorem bearer_token_format :
  forall (authHeader : option string) (t : string),
    ApiAuth.extractBearerToken authHeader = Some t <->
    exists scheme,
      authHeader = Some (scheme ++ " " ++ t)%string /\
      Js.toLowerCase scheme = "bearer" /\ t <> "" /\ Js.includes t " " = false.
Proof.
  intros authHeader t. split.
  - unfold ApiAuth.extractBearerToken.
    destruct authHeader as [[|c h]|]; cbn [Js.truthyStr negb]; try discriminate.
    cbn [Js.orElse]. unfold Js.split.
    destruct (Js.splitOn " " (String c h)) as [ls r] eqn:S.
    destruct ls as [|scheme [|x ls]]; cbn [app]; try discriminate.
    2:{ destruct (ls ++ [r]) eqn:Q; [|discriminate].
        apply app_eq_nil in Q. destruct Q; discriminate. }
    destruct (String.eqb (Js.toLowerCase scheme) "bearer") eqn:B; cbn [negb];
      [|discriminate].
    apply String.eqb_eq in B.
    destruct r as [|y r]; cbn [Js.truthyStr]; [discriminate|].
    intros E. inversion E; subst t.
    apply splitOn_one_inv in S. destruct S as (S & _ & N).
    exists scheme. rewrite S. repeat split; auto. discriminate.
  - intros (scheme & -> & L & T & N). apply extractBearerToken_bearer; assumption.
Qed.

Lemma splitOn_bearer k :
  Js.splitOn " " ("Bearer " ++ k) = ("Bearer" :: fst (Js.splitOn " " k), snd (Js.splitOn " " k)).
Proof.
  cbn [String.append Js.splitOn]. destruct (Js.splitOn " " k) as [ls r]. reflexivity.
Qed.

(** X11. The two revisions of the middleware.  Without an [x-api-key]
    header, or with an empty one, the current revision answers as the
    first one does.  With a key in [x-api-key] it disregards the
    [Authorization] header, and it answers as the first revision does to
    [Bearer <key>] if the key holds no space; a key that holds a space is
    refused by the first revision as a missing key. *)
Theorem x_api_key_is_bearer :
  forall (A : Type) (authorization : option string)
         (validateApiKey : string -> option ApiKeyInfo) (next : ApiKeyInfo -> A),
    ApiAuth.apiAuthMiddleware None authorization validateApiKey next
      = ApiAuthV1.apiAuthMiddleware authorization validateApiKey next /\
    ApiAuth.apiAuthMiddleware (Some "") authorization validateApiKey next
      = ApiAuthV1.apiAuthMiddleware authorization validateApiKey next /\
    (forall k, k <> "" ->
       (forall authorization',
          ApiAuth.apiAuthMiddleware (Some k) authorization validateApiKey next
          = ApiAuth.apiAuthMiddleware (Some k) authorization' validateApiKey next) /\
       (Js.includes k " " = false ->
        ApiAuth.apiAuthMiddleware (Some k) authorization validateApiKey next
          = ApiAuthV1.apiAuthMiddleware (Some ("Bearer " ++ k)%string)
              validateApiKey next) /\
       (Js.includes k " " = true ->
        ApiAuthV1.apiAuthMiddleware (Some ("Bearer " ++ k)%string) validateApiKey next
          = inl (ApiAuth.createErrorResponse 401
                   "Missing or invalid Authorization header. Expected format: Bearer <api_key>"
                   "authentication_error" "missing_api_key"))).
Proof.
  intros A authorization validateApiKey next.
  split; [reflexivity|]. split; [reflexivity|].
  intros k K.
  assert (T : Js.truthyStr (Some k) = true) by (destruct k; [congruence | reflexivity]).
  split; [|split].
  - intros authorization'. unfold ApiAuth.apiAuthMiddleware. rewrite T. reflexivity.
  - intros N. unfold ApiAuth.apiAuthMiddleware, ApiAuthV1.apiAuthMiddleware.
    rewrite T. change ("Bearer " ++ k)%string with ("Bearer" ++ " " ++ k)%string.
    rewrite (extractBearerToken_bearer "Bearer" k eq_refl K N). reflexivity.
  - intros N. unfold ApiAuthV1.apiAuthMiddleware.
    replace (ApiAuth.extractBearerToken (Some ("Bearer " ++ k)%string))
      with (@None string); [reflexivity|].
    unfold ApiAuth.extractBearerToken.
    change (Js.truthyStr (Some ("Bearer " ++ k)%string)) with true.
    cbn [negb]. change (Js.orElse (Some ("Bearer " ++ k)%string) "")
      with ("Bearer " ++ k)%string.
    unfold Js.split. rewrite splitOn_bearer.
    destruct (Js.splitOn " " k) as [[|l ls] r] eqn:S.
    + pose proof (splitOn_nil _ _ _ S) as ->.
      apply splitOn_none in S. congruence.
    + cbn [fst snd app]. destruct (ls ++ [r]) eqn:Q; [|reflexivity].
      apply app_eq_nil in Q. destruct Q; discriminate.
Qed.

End Bearer.

(* ================================================================== *)
(** ** The life of a key *)

Section KeyLife.
Import Json.
Context `{Dates}.

Lemma find_app {T} (f : T -> bool) l1 l2 :
  find f (l1 ++ l2) = match find f l1 with
                      | Some x => Some x
                      | None => find f l2
                      end.
Proof.
  induction l1 as [|x l1 IH]; [reflexivity|].
  cbn. destruct (f x); [reflexivity | exact IH].
Qed.

Lemma existsb_find_none {T} (f : T -> bool) l :
  existsb f l = false -> find f l = None.
Proof.
  induction l as [|x l IH]; [reflexivity|].
  cbn. destruct (f x); [discriminate | exact IH].
Qed.

Lemma existsb_not_in_ids i db :
  existsb (fun r => String.eqb (ApiKeys.id r) i) db = false ->
  ~ In i (map ApiKeys.id db).
Proof.
  intros E I. apply in_map_iff in I. destruct I as (r & <- & I).
  assert (X : existsb (fun r0 => String.eqb (ApiKeys.id r0) (ApiKeys.id r)) db = true).
  { apply existsb_exists. exists r. split; [exact I | apply String.eqb_refl]. }
  congruence.
Qed.

Lemma existsb_not_in_keys k db :
  existsb (fun r => String.eqb (ApiKeys.key r) k) db = false ->
  ~ In k (map ApiKeys.key db).
Proof.
  intros E I. apply in_map_iff in I. destruct I as (r & <- & I).
  assert (X : existsb (fun r0 => String.eqb (ApiKeys.key r0) (ApiKeys.key r)) db = true).
  { apply existsb_exists. exists r. split; [exact I | apply String.eqb_refl]. }
  congruence.
Qed.

Lemma NoDup_snoc_fresh {T} (l : list T) x : NoDup l -> ~ In x l -> NoDup (l ++ [x]).
Proof.
  intros N F. induction l as [|y l IH]; cbn.
  - constructor; [intros []| constructor].
  - inversion N; subst. constructor.
    + intros I. apply in_app_or in I. destruct I as [I | [-> | []]]; [contradiction|].
      apply F. left. reflexivity.
    + apply IH; [assumption|]. intros I. apply F. right. exact I.
Qed.

(** In a constrained table, the rows of one key are one row. *)
Lemma constrained_key db r r' :
  constrained db -> In r db -> In r' db -> ApiKeys.key r = ApiKeys.key r' -> r = r'.
Proof.
  intros [_ A]. induction db as [|x db IH]; [contradiction|].
  cbn [map] in A. inversion A as [|? ? N A']; subst.
  intros [-> | I] [-> | I'] E; auto.
  - exfalso. apply N. rewrite E. apply in_map. exact I'.
  - exfalso. apply N. rewrite <- E. apply in_map. exact I.
Qed.

Lemma rowOfKey_in db r :
  constrained db -> In r db -> rowOfKey (ApiKeys.key r) db = Some r.
Proof.
  intros C I. unfold rowOfKey.
  destruct (find _ db) as [r'|] eqn:F.
  - apply find_key_in in F. destruct F as [I' E]. f_equal.
    eapply constrained_key; eauto.
  - exfalso. eapply find_none in F; [|exact I]. cbn in F.
    rewrite String.eqb_refl in F. discriminate.
Qed.

Lemma getApiKey_in db r :
  constrained db -> In r db -> ApiKeys.getApiKey db (ApiKeys.id r) = Some r.
Proof.
  intros C I. unfold ApiKeys.getApiKey.
  destruct (find _ db) as [r'|] eqn:F.
  - apply find_some in F. destruct F as [I' E]. apply String.eqb_eq in E. f_equal.
    eapply constrained_id; eauto.
  - exfalso. eapply find_none in F; [|exact I]. cbn in F.
    rewrite String.eqb_refl in F. discriminate.
Qed.

Lemma NoDup_map_filter {T U} (f : T -> U) (g : T -> bool) l :
  NoDup (map f l) -> NoDup (map f (filter g l)).
Proof.
  induction l as [|x l IH]; cbn; [auto|].
  intros N. inversion N; subst. destruct (g x); cbn; [constructor|]; auto.
  intros I. apply in_map_iff in I. destruct I as (y & E & I).
  apply filter_In in I. destruct I as [I _].
  match goal with N' : ~ In (f x) _ |- _ => apply N' end.
  rewrite <- E. apply in_map. exact I.
Qed.

Lemma constrained_filter g db : constrained db -> constrained (filter g db).
Proof. intros [A B]. split; apply NoDup_map_filter; assumption. Qed.

(** X12. A key that is created.  When [createApiKey] returns, the row it
    reads back is the new row: it bears the id and the key made for it,
    is enabled, has no rate limit and no usage; the rows that were there
    are as they were; the table still satisfies its constraints; and a
    request that carries the new key in [x-api-key] is passed on to the
    route. *)
Theorem created_key_is_admitted :
  forall (db db' : ApiKeys.DB) (name_ id_ key_ : string) (now : Z)
         (r : option ApiKeys.ApiKeyRow),
    constrained db ->
    ApiKeys.createApiKey db name_ id_ key_ now = Some (r, db') ->
    exists row,
      r = Some row /\
      ApiKeys.id row = id_ /\ ApiKeys.key row = key_ /\
      ApiKeys.enabled row = 1%Z /\ ApiKeys.rate_limit row = 0%Z /\
      ApiKeys.daily_usage row = 0%Z /\ ApiKeys.usage_count row = 0%Z /\
      ApiKeys.getApiKey db' id_ = Some row /\
      rowOfKey key_ db' = Some row /\
      (forall k row0, rowOfKey k db = Some row0 -> rowOfKey k db' = Some row0) /\
      constrained db' /\
      (key_ <> "" ->
       forall (A : Type) (authorization : option string) (now' : Z)
              (next : ApiKeyInfo -> ApiKeys.DB -> A * ApiKeys.DB),
       exists a, fst (Gateway.apiAuthMiddleware (Some key_) authorization now' next db')
                 = inr a).
Proof.
  intros db db' name_ id_ key_ now r C E.
  unfold ApiKeys.createApiKey in E.
  destruct (existsb (fun r0 => String.eqb (ApiKeys.id r0) id_) db) eqn:Xi;
    [discriminate|].
  destruct (existsb (fun r0 => String.eqb (ApiKeys.key r0) key_) db) eqn:Xk;
    [discriminate|].
  cbn [orb] in E.
  match type of E with
  | Some (_, db ++ [?new]) = _ => set (row := new) in *
  end.
  assert (G : ApiKeys.getApiKey (db ++ [row]) id_ = Some row).
  { unfold ApiKeys.getApiKey. rewrite find_app, (existsb_find_none _ _ Xi).
    cbn. rewrite String.eqb_refl. reflexivity. }
  assert (K : rowOfKey key_ (db ++ [row]) = Some row).
  { unfold rowOfKey. rewrite find_app, (existsb_find_none _ _ Xk).
    cbn. rewrite String.eqb_refl. reflexivity. }
  rewrite G in E. inversion E; subst r db'. clear E.
  exists row. repeat split; auto.
  - intros k row0 F. unfold rowOfKey in *. rewrite find_app, F. reflexivity.
  - destruct C as [Ci Ck]. rewrite map_app. cbn.
    apply NoDup_snoc_fresh; [exact Ci | apply existsb_not_in_ids; exact Xi].
  - destruct C as [Ci Ck]. rewrite map_app. cbn.
    apply NoDup_snoc_fresh; [exact Ck | apply existsb_not_in_keys; exact Xk].
  - intros Ne A authorization now' next.
    unfold Gateway.apiAuthMiddleware.
    assert (T : Js.truthyStr (Some key_) = true)
      by (destruct key_; [congruence | reflexivity]).
    rewrite T. unfold ApiKeys.validateApiKey.
    unfold rowOfKey in K. rewrite K. cbn.
    destruct (next _ _) as [a db2]. exists a. reflexivity.
Qed.

(** X13. A key that is revoked.  In a table that satisfies its
    constraints, deleting the row of a key makes the middleware refuse
    the key as invalid, and disabling it makes the middleware refuse it
    as disabled; in both cases the rows of the other keys are as they
    were. *)
Theorem revoked_key_is_refused :
  forall (db : ApiKeys.DB) (k : string) (row : ApiKeys.ApiKeyRow),
    constrained db -> rowOfKey k db = Some row -> k <> "" ->
    let deleted := ApiKeys.deleteApiKey db (ApiKeys.id row) in
    let disabled := ApiKeys.toggleApiKey db (ApiKeys.id row) false in
    fst deleted = true /\ fst disabled = true /\
    (forall (A : Type) (authorization : option string) (now : Z)
            (next : ApiKeyInfo -> ApiKeys.DB -> A * ApiKeys.DB),
       Gateway.apiAuthMiddleware (Some k) authorization now next (snd deleted)
         = (inl (ApiAuth.createErrorResponse 401 "Invalid API key"
                   "authentication_error" "invalid_api_key"), snd deleted) /\
       fst (Gateway.apiAuthMiddleware (Some k) authorization now next (snd disabled))
         = inl (ApiAuth.createErrorResponse 403 "API key is disabled"
                  "authentication_error" "api_key_disabled")) /\
    (forall k', k' <> k ->
       rowOfKey k' (snd deleted) = rowOfKey k' db /\
       rowOfKey k' (snd disabled) = rowOfKey k' db).
Proof.
  intros db k row C F Ne deleted disabled.
  pose proof (find_key_in _ _ _ F) as [I Ek].
  pose proof (getApiKey_in _ _ C I) as G.
  assert (T : Js.truthyStr (Some k) = true) by (destruct k; [congruence | reflexivity]).
  subst deleted disabled. unfold ApiKeys.deleteApiKey, ApiKeys.toggleApiKey.
  rewrite G. cbn [fst snd].
  set (db1 := filter (fun r => negb (String.eqb (ApiKeys.id r) (ApiKeys.id row))) db).
  set (db2 := ApiKeys.update (fun r => String.eqb (ApiKeys.id r) (ApiKeys.id row))
                             (ApiKeys.switch 0) db).
  assert (N1 : rowOfKey k db1 = None).
  { unfold rowOfKey. destruct (find _ db1) as [r'|] eqn:F1; [|reflexivity].
    exfalso. apply find_key_in in F1. destruct F1 as [I1 E1].
    apply filter_In in I1. destruct I1 as [I1 D].
    assert (r' = row) by (eapply constrained_key; eauto; congruence).
    subst r'. rewrite String.eqb_refl in D. discriminate. }
  assert (F2 : rowOfKey k db2 = Some (ApiKeys.switch 0 row)).
  { unfold rowOfKey, db2. rewrite find_key_update by apply keeps_switch.
    unfold rowOfKey in F. rewrite F. cbn. rewrite String.eqb_refl. reflexivity. }
  split; [reflexivity|]. split; [reflexivity|]. split.
  - intros A authorization now next. unfold Gateway.apiAuthMiddleware. rewrite T.
    unfold ApiKeys.validateApiKey. unfold rowOfKey in N1, F2. rewrite N1, F2.
    split; reflexivity.
  - intros k' Nk. split.
    + unfold rowOfKey at 2.
      destruct (find _ db) as [r'|] eqn:F'.
      * apply find_key_in in F'. destruct F' as [I' E'].
        rewrite <- E'. apply rowOfKey_in; [apply constrained_filter; exact C|].
        apply filter_In. split; [exact I'|].
        destruct (String.eqb (ApiKeys.id r') (ApiKeys.id row)) eqn:D; [|reflexivity].
        apply String.eqb_eq in D.
        assert (r' = row) by (eapply constrained_id; eauto). subst r'. congruence.
      * unfold rowOfKey. destruct (find _ db1) as [r'|] eqn:F1; [|reflexivity].
        apply find_key_in in F1. destruct F1 as [I1 E1].
        apply filter_In in I1. destruct I1 as [I1 _].
        eapply find_none in F'; [|exact I1]. cbn in F'.
        rewrite E1, String.eqb_refl in F'. discriminate.
    + unfold rowOfKey, db2. rewrite find_key_update by apply keeps_switch.
      destruct (find _ db) as [r'|] eqn:F'; [|reflexivity].
      cbn [option_map]. apply find_key_in in F'. destruct F' as [I' E'].
      destruct (String.eqb (ApiKeys.id r') (ApiKeys.id row)) eqn:D; [|reflexivity].
      apply String.eqb_eq in D.
      assert (r' = row) by (eapply constrained_id; eauto). subst r'. congruence.
Qed.

(** X14. The daily reset.  [resetDailyUsage] sets the daily usage of
    every row to zero and changes nothing else; after it the middleware
    refuses no key for its rate limit. *)
Theorem reset_reopens_every_key :
  forall db : ApiKeys.DB,
    ApiKeys.resetDailyUsage db = map ApiKeys.unused db /\
    (forall k row, rowOfKey k db = Some row ->
       rowOfKey k (ApiKeys.resetDailyUsage db) = Some (ApiKeys.unused row)) /\
    (forall (A : Type) (x_api_key authorization : option string) (now : Z)
            (next : ApiKeyInfo -> ApiKeys.DB -> A * ApiKeys.DB) e db',
       Gateway.apiAuthMiddleware x_api_key authorization now next
         (ApiKeys.resetDailyUsage db) = (inl e, db') ->
       fst e <> 429).
Proof.
  intros db. split; [reflexivity|]. split.
  - intros k row F. unfold rowOfKey, ApiKeys.resetDailyUsage.
    rewrite find_key_update by apply keeps_unused.
    unfold rowOfKey in F. rewrite F. reflexivity.
  - intros A x_api_key authorization now next e db' M.
    unfold Gateway.apiAuthMiddleware in M.
    destruct (if Js.truthyStr x_api_key then x_api_key
              else ApiAuth.extractBearerToken authorization) as [tok|];
      [|inversion M; cbn; discriminate].
    unfold ApiKeys.validateApiKey, ApiKeys.resetDailyUsage in M.
    rewrite find_key_update in M by apply keeps_unused.
    destruct (find _ db) as [row|]; cbn [option_map] in M;
      [|inversion M; cbn; discriminate].
    cbn in M.
    destruct (negb (negb (ApiKeys.enabled row =? 0)%Z)); [inversion M; cbn; discriminate|].
    replace ((0 <? ApiKeys.rate_limit row)%Z && (ApiKeys.rate_limit row <=? 0)%Z)
      with false in M.
    2:{ destruct (0 <? ApiKeys.rate_limit row)%Z eqn:P; [|reflexivity].
        apply Z.ltb_lt in P. symmetry. apply Z.leb_gt. exact P. }
    destruct (next _ _). discriminate.
Qed.

End KeyLife.

(* ================================================================== *)
(** ** The routes of the key store *)

Section KeyRoutes.
Import Json.
Context `{Dates}.

Lemma getApiKey_update i w set db :
  keeps set ->
  ApiKeys.getApiKey (ApiKeys.update w set db) i
  = option_map (fun r => if w r then set r else r) (ApiKeys.getApiKey db i).
Proof. intros K. apply find_id_update. exact K. Qed.

Lemma getApiKey_filter_other i j db :
  i <> j ->
  ApiKeys.getApiKey (filter (fun r => negb (String.eqb (ApiKeys.id r) j)) db) i
  = ApiKeys.getApiKey db i.
Proof.
  intros N. unfold ApiKeys.getApiKey. induction db as [|r db IH]; [reflexivity|].
  cbn [filter find].
  destruct (String.eqb (ApiKeys.id r) j) eqn:J; cbn [negb].
  - apply String.eqb_eq in J.
    destruct (String.eqb (ApiKeys.id r) i) eqn:I; [|exact IH].
    apply String.eqb_eq in I. congruence.
  - cbn [find]. destruct (String.eqb (ApiKeys.id r) i); [reflexivity | exact IH].
Qed.

Lemma getApiKey_filter_same i db :
  ApiKeys.getApiKey (filter (fun r => negb (String.eqb (ApiKeys.id r) i)) db) i = None.
Proof.
  unfold ApiKeys.getApiKey. induction db as [|r db IH]; [reflexivity|].
  cbn [filter]. destruct (String.eqb (ApiKeys.id r) i) eqn:I; cbn [negb]; [exact IH|].
  cbn [find]. rewrite I. exact IH.
Qed.

(** X15. PATCH and DELETE /api/keys/:id.  PATCH answers 404 exactly when
    no row has the id, and never answers 500: the update that follows
    the lookup finds the row.  When it answers with success the row has
    the flag asked for and the other rows are as they were; otherwise
    the table is unchanged.  DELETE answers 404 exactly when no row has
    the id and success otherwise; after it no row has the id, the other
    rows are as they were, and a second DELETE answers 404. *)
Theorem patch_and_delete_routes :
  forall (id_ : string) (body : option json) (db : ApiKeys.DB),
    (let '(reply, db') := ApiKeyRoutes.patchKey id_ body db in
     (reply = ApiKeyRoutes.notFound <-> ApiKeys.getApiKey db id_ = None) /\
     (forall b, reply <> ApiKeyRoutes.Answers 500 b) /\
     (reply <> ApiKeyRoutes.success -> db' = db) /\
     (reply = ApiKeyRoutes.success ->
      exists flag row,
        getOpt "enabled" body = Some (JBool flag) /\
        ApiKeys.getApiKey db id_ = Some row /\
        ApiKeys.getApiKey db' id_
          = Some (ApiKeys.switch (if flag then 1 else 0)%Z row) /\
        forall i, i <> id_ -> ApiKeys.getApiKey db' i = ApiKeys.getApiKey db i)) /\
    (let '(reply, db') := ApiKeyRoutes.deleteKey id_ db in
     (reply = ApiKeyRoutes.notFound <-> ApiKeys.getApiKey db id_ = None) /\
     (reply = ApiKeyRoutes.notFound \/ reply = ApiKeyRoutes.success) /\
     ApiKeys.getApiKey db' id_ = None /\
     (forall i, i <> id_ -> ApiKeys.getApiKey db' i = ApiKeys.getApiKey db i) /\
     ApiKeyRoutes.deleteKey id_ db' = (ApiKeyRoutes.notFound, db')).
Proof.
  intros id_ body db. split.
  - unfold ApiKeyRoutes.patchKey.
    destruct (ApiKeys.getApiKey db id_) as [row|] eqn:G.
    2:{ repeat split; auto; discriminate. }
    assert (Case : forall reply,
              reply <> ApiKeyRoutes.notFound -> reply <> ApiKeyRoutes.success ->
              (forall b, reply <> ApiKeyRoutes.Answers 500 b) ->
              (reply = ApiKeyRoutes.notFound <-> Some row = None) /\
              (forall b, reply <> ApiKeyRoutes.Answers 500 b) /\
              (reply <> ApiKeyRoutes.success -> db = db) /\
              (reply = ApiKeyRoutes.success ->
               exists flag row0,
                 getOpt "enabled" body = Some (JBool flag) /\
                 Some row = Some row0 /\
                 ApiKeys.getApiKey db id_
                   = Some (ApiKeys.switch (if flag then 1 else 0)%Z row0) /\
                 forall i, i <> id_ -> ApiKeys.getApiKey db i = ApiKeys.getApiKey db i)).
    { intros reply N1 N2 N3. repeat split; auto; try discriminate; try contradiction. }
    assert (Ok : forall flag, getOpt "enabled" body = Some (JBool flag) ->
              let '(reply, db') :=
                (let '(updated, db') := ApiKeys.toggleApiKey db id_ flag in
                 if negb updated
                 then (ApiKeyRoutes.Answers 500
                         (JObj [("success", JBool false);
                                ("error", JStr "Failed to update API key")]), db')
                 else (ApiKeyRoutes.success, db')) in
              (reply = ApiKeyRoutes.notFound <-> Some row = None) /\
              (forall b, reply <> ApiKeyRoutes.Answers 500 b) /\
              (reply <> ApiKeyRoutes.success -> db' = db) /\
              (reply = ApiKeyRoutes.success ->
               exists flag row0,
                 getOpt "enabled" body = Some (JBool flag) /\
                 Some row = Some row0 /\
                 ApiKeys.getApiKey db' id_
                   = Some (ApiKeys.switch (if flag then 1 else 0)%Z row0) /\
                 forall i, i <> id_ -> ApiKeys.getApiKey db' i = ApiKeys.getApiKey db i)).
    { intros flag E. unfold ApiKeys.toggleApiKey. rewrite G. cbn [negb].
      split; [split; discriminate|]. split; [discriminate|].
      split; [intros N; exfalso; apply N; reflexivity|].
      intros _. exists flag, row. split; [exact E|]. split; [reflexivity|].
      split.
      - rewrite getApiKey_update by apply keeps_switch. rewrite G. cbn.
        apply find_some in G. destruct G as [_ G]. rewrite G. reflexivity.
      - intros i Ni. rewrite getApiKey_update by apply keeps_switch.
        destruct (ApiKeys.getApiKey db i) as [r|] eqn:Gi; [|reflexivity].
        cbn. apply find_some in Gi. destruct Gi as [_ Gi].
        apply String.eqb_eq in Gi.
        destruct (String.eqb (ApiKeys.id r) id_) eqn:D; [|reflexivity].
        apply String.eqb_eq in D. congruence. }
    destruct body as [b|].
    + destruct b as [| | | | |fields]; try (apply Case; discriminate).
      destruct (getOpt "enabled" (Some (JObj fields))) as [[|flag| | | |]|] eqn:E;
        try (apply Case; discriminate).
      apply (Ok flag). reflexivity.
    + cbn [getOpt]. apply Case; discriminate.
  - unfold ApiKeyRoutes.deleteKey, ApiKeys.deleteApiKey.
    destruct (ApiKeys.getApiKey db id_) as [row|] eqn:G; cbn [negb].
    + split; [split; discriminate|]. split; [right; reflexivity|].
      split; [apply getApiKey_filter_same|].
      split; [intros i Ni; apply getApiKey_filter_other; exact Ni|].
      rewrite getApiKey_filter_same. reflexivity.
    + split; [split; reflexivity|]. split; [left; reflexivity|].
      split; [exact G|]. split; [reflexivity|]. rewrite G. reflexivity.
Qed.

End KeyRoutes.

Section KeyList.
Import Json.
Context `{Dates}.

Lemma maskedKeys_rows rows ks :
  ApiKeyRoutes.maskedKeys rows = Some ks ->
  Forall2 (fun row k =>
             exists info, ApiKeys.apiKeyRowToInfo row = Some info /\
                          k = ApiKeyRoutes.maskedKey info) rows ks.
Proof.
  revert ks. induction rows as [|row rows IH]; intros ks E; cbn in E.
  - inversion E. constructor.
  - destruct (ApiKeys.apiKeyRowToInfo row) as [info|] eqn:I; [|discriminate].
    destruct (ApiKeyRoutes.maskedKeys rows) as [ms|]; [|discriminate].
    inversion E; subst. constructor; [eauto | apply IH; reflexivity].
Qed.

Lemma apiKeyRowToInfo_fields row info :
  ApiKeys.apiKeyRowToInfo row = Some info ->
  ApiKeys.display_id info = ApiKeys.id row /\
  ApiKeys.display_key info = ApiKeys.key row /\
  ApiKeys.display_enabled info = negb (ApiKeys.enabled row =? 0)%Z /\
  ApiKeys.key_preview info =
    if (12 <? String.length (ApiKeys.key row))%nat
    then (Js.slice0 8 (ApiKeys.key row) ++ "..."
            ++ ApiKeys.sliceLast 4 (ApiKeys.key row))%string
    else ApiKeys.key row.
Proof.
  unfold ApiKeys.apiKeyRowToInfo.
  destruct (ApiKeys.isoDateOrNull _); [|discriminate].
  destruct (ApiKeys.isoDate _); [|discriminate].
  destruct (ApiKeys.isoDateOrNull _); [|discriminate].
  intros E. inversion E; subst. cbn. auto.
Qed.

(** X16. The keys that GET /api/keys shows.  Each row is listed under
    its id with a preview in the place of its key: for a key of more
    than 12 characters, its first 8 characters, three dots and its last
    4 characters, 15 characters in all, so that a key of more than 15
    characters is never shown in full; a key of at most 12 characters is
    shown as it is. *)
Theorem listed_keys_are_masked :
  forall (db : ApiKeys.DB) (body : json),
    ApiKeyRoutes.getKeys db = ApiKeyRoutes.Answers 200 body ->
    exists ks,
      get "keys" body = Some (JArr ks) /\
      Forall2
        (fun row k =>
           get "id" k = Some (JStr (ApiKeys.id row)) /\
           exists p,
             get "key" k = Some (JStr p) /\
             (String.length (ApiKeys.key row) <= 12 -> p = ApiKeys.key row) /\
             (12 < String.length (ApiKeys.key row) ->
              p = (Js.slice0 8 (ApiKeys.key row) ++ "..."
                     ++ ApiKeys.sliceLast 4 (ApiKeys.key row))%string /\
              String.length p = 15) /\
             (15 < String.length (ApiKeys.key row) -> p <> ApiKeys.key row))
        (ApiKeys.listApiKeys db) ks.
Proof.
  intros db body E. unfold ApiKeyRoutes.getKeys in E.
  destruct (ApiKeyRoutes.maskedKeys (ApiKeys.listApiKeys db)) as [ks|] eqn:M;
    [|discriminate].
  inversion E; subst body. exists ks. split; [reflexivity|].
  apply maskedKeys_rows in M.
  eapply Forall2_impl; [|exact M].
  intros row k (info & I & ->).
  apply apiKeyRowToInfo_fields in I. destruct I as (Ei & _ & _ & Ep).
  cbn [ApiKeyRoutes.maskedKey get assoc String.eqb Ascii.eqb Bool.eqb].
  split; [rewrite Ei; reflexivity|].
  exists (ApiKeys.key_preview info). split; [reflexivity|].
  rewrite Ep.
  destruct (12 <? String.length (ApiKeys.key row))%nat eqn:L.
  - apply Nat.ltb_lt in L.
    pose proof (preview_length _ L) as P.
    split; [lia|]. split; [auto|].
    intros L15 Q. rewrite Q in P. lia.
  - apply Nat.ltb_ge in L. split; [reflexivity|]. split; lia.
Qed.

Lemma insertDesc_perm r rows : Permutation (ApiKeys.insertDesc r rows) (r :: rows).
Proof.
  induction rows as [|x rows IH]; cbn; [reflexivity|].
  destruct (ApiKeys.created_at x <? ApiKeys.created_at r)%Z; [reflexivity|].
  rewrite IH. apply perm_swap.
Qed.

Lemma listApiKeys_perm db : Permutation (ApiKeys.listApiKeys db) db.
Proof.
  unfold ApiKeys.listApiKeys.
  assert (G : forall acc, Permutation (fold_left (fun a r => ApiKeys.insertDesc r a) db acc)
                                      (db ++ acc)).
  { induction db as [|r db IH]; intros acc; cbn [fold_left app]; [reflexivity|].
    rewrite IH, insertDesc_perm. symmetry. apply Permutation_middle. }
  rewrite G, app_nil_r. reflexivity.
Qed.

Lemma insertDesc_latest r rows :
  latestFirst rows -> latestFirst (ApiKeys.insertDesc r rows).
Proof.
  induction rows as [|x rows IH]; intros L; cbn [ApiKeys.insertDesc].
  - cbn. split; [intros ? []| exact I].
  - destruct L as [Lx L].
    destruct (ApiKeys.created_at x <? ApiKeys.created_at r)%Z eqn:C.
    + apply Z.ltb_lt in C. cbn [latestFirst]. split; [|split; assumption].
      intros y [<- | Y]; [lia|]. specialize (Lx y Y). lia.
    + apply Z.ltb_ge in C. cbn [latestFirst]. split; [|apply IH; exact L].
      intros y Y.
      apply (Permutation_in _ (insertDesc_perm r rows)) in Y.
      destruct Y as [<- | Y]; [exact C | apply Lx; exact Y].
Qed.

Lemma listApiKeys_latest db : latestFirst (ApiKeys.listApiKeys db).
Proof.
  unfold ApiKeys.listApiKeys.
  assert (G : forall acc, latestFirst acc ->
                latestFirst (fold_left (fun a r => ApiKeys.insertDesc r a) db acc)).
  { induction db as [|r db IH]; intros acc L; cbn [fold_left]; [exact L|].
    apply IH, insertDesc_latest, L. }
  apply G. exact I.
Qed.

Lemma filter_length_perm {T} (f : T -> bool) l l' :
  Permutation l l' -> List.length (filter f l) = List.length (filter f l').
Proof.
  induction 1; cbn; try congruence.
  - destruct (f x); cbn; congruence.
  - destruct (f x), (f y); reflexivity.
Qed.

(** X17. The counts of GET /api/keys.  The rows are listed with the
    latest first, each row once.  [total] is the number of keys listed;
    and in a table where every flag [enabled] is 0 or 1, [enabled] is the
    number of keys listed as enabled. *)
Theorem stats_match_the_list :
  forall (db : ApiKeys.DB) (body : json),
    ApiKeyRoutes.getKeys db = ApiKeyRoutes.Answers 200 body ->
    Permutation (ApiKeys.listApiKeys db) db /\
    latestFirst (ApiKeys.listApiKeys db) /\
    exists ks,
      get "keys" body = Some (JArr ks) /\
      List.length ks = List.length db /\
      get "total" body = Some (jnat (List.length ks)) /\
      (flagged db ->
       get "enabled" body
         = Some (jnat (List.length (filter (fun k => isTrue (get "enabled" k)) ks)))).
Proof.
  intros db body E. split; [apply listApiKeys_perm|]. split; [apply listApiKeys_latest|].
  unfold ApiKeyRoutes.getKeys in E.
  destruct (ApiKeyRoutes.maskedKeys (ApiKeys.listApiKeys db)) as [ks|] eqn:M;
    [|discriminate].
  inversion E; subst body. exists ks. split; [reflexivity|].
  apply maskedKeys_rows in M.
  assert (Len : List.length ks = List.length db).
  { rewrite <- (Permutation_length (listApiKeys_perm db)).
    symmetry. eapply Forall2_length. exact M. }
  split; [exact Len|]. split; [cbn; rewrite Len; reflexivity|].
  intros Fl. cbn [get assoc String.eqb Ascii.eqb Bool.eqb snd ApiKeys.getApiKeyStats].
  do 2 f_equal.
  rewrite <- (filter_length_perm _ _ _ (listApiKeys_perm db)).
  assert (Fl' : forall r, In r (ApiKeys.listApiKeys db) ->
                  ApiKeys.enabled r = 0%Z \/ ApiKeys.enabled r = 1%Z).
  { intros r R. apply Fl. eapply Permutation_in; [apply listApiKeys_perm | exact R]. }
  clear Len Fl E. revert Fl'. induction M as [|row k rows ks' (info & I & ->) M IH];
    intros Fl'; [reflexivity|].
  cbn [filter]. apply apiKeyRowToInfo_fields in I. destruct I as (_ & _ & Ee & _).
  cbn [ApiKeyRoutes.maskedKey get assoc String.eqb Ascii.eqb Bool.eqb isTrue].
  rewrite Ee.
  destruct (Fl' row (or_introl eq_refl)) as [Z0 | Z1].
  - rewrite Z0. cbn. apply IH. intros r R. apply Fl'. right. exact R.
  - rewrite Z1. cbn. f_equal. apply IH. intros r R. apply Fl'. right. exact R.
Qed.

(** X18. What the operations of the key store keep.  On a table where
    ids and keys are unique and every flag [enabled] is 0 or 1, each
    operation of the store leaves such a table. *)
Theorem store_keeps_its_constraints :
  forall db : ApiKeys.DB,
    constrained db -> flagged db ->
    (forall k now, constrained (snd (ApiKeys.validateApiKey db k now)) /\
                   flagged (snd (ApiKeys.validateApiKey db k now))) /\
    (forall i, constrained (ApiKeys.incrementApiKeyUsage db i) /\
               flagged (ApiKeys.incrementApiKeyUsage db i)) /\
    (constrained (ApiKeys.resetDailyUsage db) /\ flagged (ApiKeys.resetDailyUsage db)) /\
    (forall name_ id_ key_ now r db',
       ApiKeys.createApiKey db name_ id_ key_ now = Some (r, db') ->
       constrained db' /\ flagged db') /\
    (forall i, constrained (snd (ApiKeys.deleteApiKey db i)) /\
               flagged (snd (ApiKeys.deleteApiKey db i))) /\
    (forall i flag, constrained (snd (ApiKeys.toggleApiKey db i flag)) /\
                    flagged (snd (ApiKeys.toggleApiKey db i flag))).
Proof.
  intros db C Fl.
  assert (U : forall w set, keeps set ->
                (forall r, ApiKeys.enabled r = 0%Z \/ ApiKeys.enabled r = 1%Z ->
                           ApiKeys.enabled (set r) = 0%Z \/ ApiKeys.enabled (set r) = 1%Z) ->
                constrained (ApiKeys.update w set db) /\
                flagged (ApiKeys.update w set db)).
  { intros w set K E. split; [apply constrained_update; assumption|].
    intros r R. unfold ApiKeys.update in R. apply in_map_iff in R.
    destruct R as (r0 & <- & R0). destruct (w r0); [apply E|]; apply Fl; exact R0. }
  split; [|split; [|split; [|split; [|split]]]].
  - intros k now. unfold ApiKeys.validateApiKey.
    destruct (find _ db); cbn [snd]; [|auto].
    apply U; [apply keeps_touch | auto].
  - intros i. apply U; [apply keeps_used | auto].
  - apply U; [apply keeps_unused | auto].
  - intros name_ id_ key_ now r db' E. unfold ApiKeys.createApiKey in E.
    destruct (existsb (fun r0 => String.eqb (ApiKeys.id r0) id_) db) eqn:Xi;
      [discriminate|].
    destruct (existsb (fun r0 => String.eqb (ApiKeys.key r0) key_) db) eqn:Xk;
      [discriminate|].
    cbn [orb] in E. inversion E; subst db'. destruct C as [Ci Ck]. split; [split|].
    + rewrite map_app. cbn.
      apply NoDup_snoc_fresh; [exact Ci | apply existsb_not_in_ids; exact Xi].
    + rewrite map_app. cbn.
      apply NoDup_snoc_fresh; [exact Ck | apply existsb_not_in_keys; exact Xk].
    + intros x X. apply in_app_or in X. destruct X as [X | [<- | []]]; [auto|].
      right. reflexivity.
  - intros i. unfold ApiKeys.deleteApiKey.
    destruct (ApiKeys.getApiKey db i); cbn [snd]; [|auto].
    split; [apply constrained_filter; exact C|].
    intros r R. apply filter_In in R. apply Fl, R.
  - intros i flag. unfold ApiKeys.toggleApiKey.
    destruct (ApiKeys.getApiKey db i); cbn [snd]; [|auto].
    apply U; [apply keeps_switch|]. intros r _. destruct flag; cbn; auto.
Qed.

End KeyList.

(* ================================================================== *)
(** ** The scroll and video routes *)

Section ScrollVideo.
Import Json Imagine.

Lemma named_app name a b : named name (a ++ b) = named name a ++ named name b.
Proof. unfold named. apply filter_app. Qed.






Lemma video_forAwait_done us tok completed st :
  named "done" (Video.written st) = [] ->
  (completed = true -> named "complete" (Video.written st) <> []) ->
  match Video.forAwait us tok completed st with
  | Video.Exhausted _ st' | Video.Broken _ st' => named "done" (Video.written st') = []
  | Video.Returned st' =>
      named "done" (Video.written st') = [] \/
      exists pre, Video.written st' = pre ++ [doneEvent] /\
                  named "done" pre = [] /\ named "complete" pre <> []
  end.
Proof.
  revert completed st. induction us as [|u us IH]; intros completed st D C;
    cbn [Video.forAwait].
  - exact D.
  - destruct u as [msg fs|fs|fs|].
    + destruct (rateLimited msg).
      * cbn [Scroll.written Scroll.write Scroll.rotate Scroll.exclude Video.written Video.write Video.rotate]. rewrite named_app, D. reflexivity.
      * left. cbn [Scroll.written Scroll.write Scroll.rotate Scroll.exclude Video.written Video.write Video.rotate]. rewrite named_app, D. reflexivity.
    + apply IH.
      * cbn [Scroll.written Scroll.write Scroll.rotate Scroll.exclude Video.written Video.write Video.rotate]. rewrite named_app, D. reflexivity.
      * intros _. cbn [Scroll.written Scroll.write Scroll.rotate Scroll.exclude Video.written Video.write Video.rotate]. rewrite named_app. cbn. intros N.
        apply app_eq_nil in N. destruct N; discriminate.
    + apply IH.
      * cbn [Scroll.written Scroll.write Scroll.rotate Scroll.exclude Video.written Video.write Video.rotate]. rewrite named_app, D. reflexivity.
      * intros Cp. specialize (C Cp). cbn [Scroll.written Scroll.write Scroll.rotate Scroll.exclude Video.written Video.write Video.rotate]. rewrite named_app. cbn.
        rewrite app_nil_r. exact C.
    + destruct completed.
      * right. exists (Video.written st). split; [reflexivity|]. auto.
      * apply IH; [exact D | exact C].
Qed.

Lemma video_loop_done token_id script st :
  named "done" (Video.written st) = [] ->
  match Video.loop token_id script st with
  | None => True
  | Some st' =>
      named "done" (Video.written st') = [] \/
      exists pre, Video.written st' = pre ++ [doneEvent] /\
                  named "done" pre = [] /\ named "complete" pre <> []
  end.
Proof.
  revert st. induction script as [|t script IH]; intros st D; cbn [Video.loop];
    destruct (Video.retryCount st <? MAX_RETRIES)%nat; try (left; exact D); try exact I.
  unfold Video.turn.
  destruct (select token_id (Video.retryCount st) t) as [tok|].
  2:{ left. cbn [Scroll.written Scroll.write Scroll.rotate Scroll.exclude Video.written Video.write Video.rotate]. rewrite named_app, D. reflexivity. }
  pose proof (video_forAwait_done (yields (upstream t)) tok false st D
                ltac:(discriminate)) as F.
  destruct (Video.forAwait (yields (upstream t)) tok false st) as [c st1|c st1|st1].
  - destruct (thrown (upstream t)) as [msg|].
    + destruct (rateLimited msg).
      * apply IH. cbn [Scroll.written Scroll.write Scroll.rotate Scroll.exclude Video.written Video.write Video.rotate]. rewrite named_app, F. reflexivity.
      * left. cbn [Scroll.written Scroll.write Scroll.rotate Scroll.exclude Video.written Video.write Video.rotate]. rewrite named_app, F. reflexivity.
    + destruct c; cbn [negb]; [left; exact F | apply IH; exact F].
  - destruct c; cbn [negb]; [left; exact F | apply IH; exact F].
  - exact F.
Qed.

(** X20. When a video call says [done].  The events of
    POST /api/video/generate hold at most one [done] event; it is the
    last event, and a [complete] event was written before it.  A call
    that never sees a completion ends without a [done]. *)
Theorem video_done_follows_complete :
  forall (token_id : option string) (script : list (Turn (Gen Video.VideoUpdate)))
         (evs : list Sse),
    Video.video token_id script = Some evs ->
    named "done" evs = [] \/
    exists pre, evs = pre ++ [doneEvent] /\
                named "done" pre = [] /\ named "complete" pre <> [].
Proof.
  intros token_id script evs E. unfold Video.video in E.
  pose proof (video_loop_done token_id script Video.init eq_refl) as L.
  destruct (Video.loop token_id script Video.init) as [st|]; [|discriminate].
  inversion E; subst. exact L.
Qed.

End ScrollVideo.

(* ================================================================== *)
(** ** The retry ceiling of the other loops *)

Section OtherLoops.
Import Json Imagine.
Context `{Runtime}.

Lemma rotations_snoc evs e :
  rotations (evs ++ [e]) = rotations evs + (if String.eqb (event e) "info" then 1 else 0).
Proof.
  unfold rotations. rewrite filter_app, length_app. cbn [filter].
  destruct (String.eqb (event e) "info"); reflexivity.
Qed.

(** *** /v1/messages, non-streaming *)

Lemma plain_forAwait_count us tok st :
  List.length (Messages.Plain.excludedTokenIds st) = Messages.Plain.retryCount st ->
  match Messages.Plain.forAwait us tok st with
  | Messages.Plain.Exhausted st' =>
      List.length (Messages.Plain.excludedTokenIds st') = Messages.Plain.retryCount st' /\
      Messages.Plain.retryCount st' = Messages.Plain.retryCount st
  | Messages.Plain.Broken st' =>
      List.length (Messages.Plain.excludedTokenIds st') = Messages.Plain.retryCount st' /\
      Messages.Plain.retryCount st' <= S (Messages.Plain.retryCount st)
  | Messages.Plain.Returned _ => True
  end.
Proof.
  revert st. induction us as [|u us IH]; intros st C; cbn [Messages.Plain.forAwait].
  - auto.
  - destruct (String.eqb (Messages.type u) "error").
    + destruct (Messages.retryableUpdate _); [|exact I].
      cbn. rewrite length_app, C. cbn. lia.
    + match goal with
      | |- context [if ?c then Messages.Plain.append ?t st else st] =>
          set (st1 := if c then Messages.Plain.append t st else st)
      end.
      assert (C1 : List.length (Messages.Plain.excludedTokenIds st1)
                   = Messages.Plain.retryCount st1 /\
                   Messages.Plain.retryCount st1 = Messages.Plain.retryCount st).
      { subst st1. destruct (andb _ _); cbn; auto. }
      destruct C1 as [C1 E1].
      destruct (String.eqb (Messages.type u) "done").
      * cbn. lia.
      * specialize (IH st1 C1). rewrite E1 in IH. exact IH.
Qed.

Lemma plain_loop_count script st :
  List.length (Messages.Plain.excludedTokenIds st) = Messages.Plain.retryCount st ->
  Messages.Plain.retryCount st <= 5 ->
  match Messages.Plain.loop script st with
  | Some (inr st') =>
      List.length (Messages.Plain.excludedTokenIds st') = Messages.Plain.retryCount st' /\
      Messages.Plain.retryCount st' <= 5
  | _ => True
  end.
Proof.
  revert st. induction script as [|a script IH]; intros st C L;
    cbn [Messages.Plain.loop];
    destruct (Messages.Plain.retryCount st <? Messages.MAX_RETRIES)%nat eqn:G;
    auto.
  apply Nat.ltb_lt in G. unfold Messages.MAX_RETRIES in G.
  unfold Messages.Plain.turn. destruct a as [|tok chat]; [exact I|].
  pose proof (plain_forAwait_count (yields chat) tok st C) as F.
  destruct (Messages.Plain.forAwait (yields chat) tok st) as [st1|st1|r]; [| |exact I].
  - destruct F as [C1 L1].
    destruct (thrown chat) as [msg|].
    + destruct (Messages.retryableThrow msg); [|exact I].
      apply IH; cbn; [rewrite length_app, C1; cbn; lia | lia].
    + destruct (Messages.Plain.success st1); [split; [exact C1 | lia]|].
      apply IH; [exact C1 | lia].
  - destruct F as [C1 L1].
    destruct (Messages.Plain.success st1); [split; [exact C1 | lia]|].
    apply IH; [exact C1 | lia].
Qed.

(** *** /api/imagine/img2img *)

Lemma img2img_rotate_count tok st :
  List.length (Img2img.excludedTokenIds st) = Img2img.retryCount st ->
  rotations (Img2img.written st) = Img2img.retryCount st ->
  List.length (Img2img.excludedTokenIds (Img2img.rotate tok st))
    = Img2img.retryCount (Img2img.rotate tok st) /\
  rotations (Img2img.written (Img2img.rotate tok st))
    = Img2img.retryCount (Img2img.rotate tok st) /\
  Img2img.retryCount (Img2img.rotate tok st) = S (Img2img.retryCount st).
Proof.
  intros C R. cbn [Img2img.rotate Img2img.write Img2img.excludedTokenIds
                   Img2img.retryCount Img2img.written].
  rewrite length_app, rotations_snoc, C, R. cbn. repeat split; lia.
Qed.

Lemma img2img_write_count e st :
  String.eqb (event e) "info" = false ->
  Img2img.excludedTokenIds (Img2img.write e st) = Img2img.excludedTokenIds st /\
  Img2img.retryCount (Img2img.write e st) = Img2img.retryCount st /\
  rotations (Img2img.written (Img2img.write e st)) = rotations (Img2img.written st).
Proof.
  intros E. cbn [Img2img.write Img2img.excludedTokenIds Img2img.retryCount Img2img.written].
  rewrite rotations_snoc, E. repeat split; lia.
Qed.

Lemma img2img_caught_count tok msg st :
  List.length (Img2img.excludedTokenIds st) = Img2img.retryCount st ->
  rotations (Img2img.written st) = Img2img.retryCount st ->
  match Img2img.caught tok msg st with
  | Continue st' | Break st' | Return st' =>
      List.length (Img2img.excludedTokenIds st') = Img2img.retryCount st' /\
      rotations (Img2img.written st') = Img2img.retryCount st' /\
      Img2img.retryCount st' <= S (Img2img.retryCount st)
  end.
Proof.
  intros C R. unfold Img2img.caught. destruct (rateLimited msg).
  - destruct (img2img_rotate_count tok st C R) as (A & B & D). repeat split; auto; lia.
  - destruct (img2img_write_count (errorEvent msg) st eq_refl) as (A & B & D).
    rewrite A, B, D. auto.
Qed.

Lemma img2img_forAwait_count us tok prompt count imageCount st n :
  List.length (Img2img.excludedTokenIds st) = n ->
  rotations (Img2img.written st) = n ->
  Img2img.retryCount st = n ->
  match Img2img.forAwait us tok prompt count imageCount st with
  | Img2img.Exhausted st' | Img2img.Returned st' =>
      List.length (Img2img.excludedTokenIds st') = Img2img.retryCount st' /\
      rotations (Img2img.written st') = Img2img.retryCount st' /\
      Img2img.retryCount st' = n
  | Img2img.Broken st' =>
      List.length (Img2img.excludedTokenIds st') = Img2img.retryCount st' /\
      rotations (Img2img.written st') = Img2img.retryCount st' /\
      Img2img.retryCount st' <= S n
  end.
Proof.
  revert imageCount st. induction us as [|u us IH]; intros imageCount st C R E;
    cbn [Img2img.forAwait].
  - repeat split; congruence.
  - destruct u as [ix p|url ix|msg| |msg].
    + apply IH; cbn [Img2img.write Img2img.excludedTokenIds Img2img.retryCount
                     Img2img.written]; auto.
      rewrite rotations_snoc. cbn. lia.
    + apply IH; cbn [Img2img.write Img2img.excludedTokenIds Img2img.retryCount
                     Img2img.written]; auto.
      rewrite !rotations_snoc. cbn. lia.
    + destruct (rateLimited msg).
      * cbn [Img2img.rotate Img2img.write Img2img.excludedTokenIds
             Img2img.retryCount Img2img.written].
        rewrite length_app, rotations_snoc, C, R, E. cbn. repeat split; lia.
      * cbn [Img2img.write Img2img.excludedTokenIds Img2img.retryCount Img2img.written].
        rewrite rotations_snoc. cbn. repeat split; lia.
    + cbn [Img2img.write Img2img.excludedTokenIds Img2img.retryCount Img2img.written].
      rewrite rotations_snoc. cbn. repeat split; lia.
    + apply IH; cbn [Img2img.write Img2img.excludedTokenIds Img2img.retryCount
                     Img2img.written]; auto.
      rewrite rotations_snoc. cbn. lia.
Qed.

Lemma img2img_turn_count token_id prompt count fileName mimeType base64Content t st :
  List.length (Img2img.excludedTokenIds st) = Img2img.retryCount st ->
  rotations (Img2img.written st) = Img2img.retryCount st ->
  match Img2img.turn token_id prompt count fileName mimeType base64Content t st with
  | Continue st' | Break st' | Return st' =>
      List.length (Img2img.excludedTokenIds st') = Img2img.retryCount st' /\
      rotations (Img2img.written st') = Img2img.retryCount st' /\
      Img2img.retryCount st' <= S (Img2img.retryCount st)
  end.
Proof.
  intros C R. unfold Img2img.turn.
  destruct (select token_id (Img2img.retryCount st) t) as [tok|].
  2:{ destruct (img2img_write_count
                  (errorEvent
                     (if (0 <? List.length (Img2img.excludedTokenIds st))%nat
                      then ("All tokens rate limited (tried "
                              ++ Js.ofNat (List.length (Img2img.excludedTokenIds st))
                              ++ " tokens)")%string
                      else "No available tokens. Please import tokens first."))
                  st eq_refl) as (A & B & D).
      rewrite A, B, D. auto. }
  set (st0 := Img2img.post _ (Img2img.write _ st)).
  assert (C0 : List.length (Img2img.excludedTokenIds st0) = Img2img.retryCount st0)
    by exact C.
  assert (R0 : rotations (Img2img.written st0) = Img2img.retryCount st0).
  { subst st0. cbn [Img2img.post Img2img.write Img2img.written Img2img.retryCount].
    rewrite rotations_snoc. cbn. lia. }
  assert (E0 : Img2img.retryCount st0 = Img2img.retryCount st) by reflexivity.
  clearbody st0. rewrite <- E0. clear E0 C R.
  destruct (Img2img.uploadImage (fst (upstream t))) as [msg|uploadResult].
  { apply img2img_caught_count; assumption. }
  match goal with
  | |- context [Img2img.write ?e st0] => set (st1 := Img2img.write e st0)
  end.
  assert (C1 : List.length (Img2img.excludedTokenIds st1) = Img2img.retryCount st1)
    by exact C0.
  assert (R1 : rotations (Img2img.written st1) = Img2img.retryCount st1).
  { subst st1. cbn [Img2img.write Img2img.written Img2img.retryCount].
    rewrite rotations_snoc. cbn. lia. }
  assert (E1 : Img2img.retryCount st1 = Img2img.retryCount st0) by reflexivity.
  clearbody st1. rewrite <- E1. clear E1 C0 R0.
  destruct (get "fileUri" uploadResult) as [[| | |uri| |]|];
    try (apply img2img_caught_count; assumption).
  destruct (ImageEdit.streamImageEdit _ _ _ _ _ _) as [payload updates].
  match goal with
  | |- context [Img2img.forAwait _ _ _ _ _ ?s] => set (st2 := s)
  end.
  assert (C2 : List.length (Img2img.excludedTokenIds st2) = Img2img.retryCount st2)
    by exact C1.
  assert (R2 : rotations (Img2img.written st2) = Img2img.retryCount st2).
  { subst st2. cbn [Img2img.post Img2img.write Img2img.written Img2img.retryCount].
    rewrite !rotations_snoc. cbn. lia. }
  assert (E2 : Img2img.retryCount st2 = Img2img.retryCount st1) by reflexivity.
  clearbody st2. rewrite <- E2. clear E2 C1 R1.
  pose proof (img2img_forAwait_count (yields updates) tok prompt count 0 st2 _
                C2 R2 eq_refl) as F.
  destruct (Img2img.forAwait (yields updates) tok prompt count 0 st2) as [st3|st3|st3].
  - destruct F as (A & B & D).
    destruct (thrown updates) as [msg|].
    + rewrite <- D. apply img2img_caught_count; assumption.
    + repeat split; auto; lia.
  - exact F.
  - destruct F as (A & B & D). repeat split; auto; lia.
Qed.

Lemma img2img_loop_count token_id prompt count fileName mimeType base64Content script st :
  List.length (Img2img.excludedTokenIds st) = Img2img.retryCount st ->
  rotations (Img2img.written st) = Img2img.retryCount st ->
  Img2img.retryCount st <= 5 ->
  match Img2img.loop token_id prompt count fileName mimeType base64Content script st with
  | Some st' =>
      List.length (Img2img.excludedTokenIds st') = Img2img.retryCount st' /\
      rotations (Img2img.written st') = Img2img.retryCount st' /\
      Img2img.retryCount st' <= 5
  | None => True
  end.
Proof.
  revert st. induction script as [|t script IH]; intros st C R L;
    cbn [Img2img.loop];
    destruct (Img2img.retryCount st <? MAX_RETRIES)%nat eqn:G; auto.
  apply Nat.ltb_lt in G. unfold MAX_RETRIES in G.
  pose proof (img2img_turn_count token_id prompt count fileName mimeType
                base64Content t st C R) as T.
  destruct (Img2img.turn token_id prompt count fileName mimeType base64Content t st)
    as [st1|st1|st1]; destruct T as (A & B & D).
  - apply IH; auto; lia.
  - repeat split; auto; lia.
  - repeat split; auto; lia.
Qed.

(** *** /api/imagine/scroll *)

Lemma scroll_forAwait_count us tok st n :
  List.length (Scroll.excludedTokenIds st) = n ->
  rotations (Scroll.written st) <= n ->
  Scroll.retryCount st = n ->
  match Scroll.forAwait us tok st with
  | Scroll.Exhausted st' | Scroll.Returned st' =>
      List.length (Scroll.excludedTokenIds st') = Scroll.retryCount st' /\
      rotations (Scroll.written st') <= Scroll.retryCount st' /\
      Scroll.retryCount st' = n
  | Scroll.Broken st' =>
      List.length (Scroll.excludedTokenIds st') = Scroll.retryCount st' /\
      rotations (Scroll.written st') <= Scroll.retryCount st' /\
      Scroll.retryCount st' <= S n
  end.
Proof.
  revert st. induction us as [|u us IH]; intros st C R E; cbn [Scroll.forAwait].
  - repeat split; lia.
  - destruct u as [msg fs|fs|fs|].
    + destruct (rateLimited msg).
      * cbn [Scroll.rotate Scroll.write Scroll.exclude Scroll.excludedTokenIds
             Scroll.retryCount Scroll.written].
        rewrite length_app, rotations_snoc, C, E. cbn. repeat split; lia.
      * cbn [Scroll.write Scroll.excludedTokenIds Scroll.retryCount Scroll.written].
        rewrite rotations_snoc. cbn. repeat split; lia.
    + apply IH; cbn [Scroll.write Scroll.excludedTokenIds Scroll.retryCount
                     Scroll.written]; auto.
      rewrite rotations_snoc. cbn. lia.
    + apply IH; assumption.
    + cbn [Scroll.write Scroll.excludedTokenIds Scroll.retryCount Scroll.written].
      rewrite rotations_snoc. cbn. repeat split; lia.
Qed.

Lemma scroll_loop_count script st :
  List.length (Scroll.excludedTokenIds st) = Scroll.retryCount st ->
  rotations (Scroll.written st) <= Scroll.retryCount st ->
  Scroll.retryCount st <= 5 ->
  match Scroll.loop script st with
  | Some (inl st') | Some (inr st') =>
      List.length (Scroll.excludedTokenIds st') = Scroll.retryCount st' /\
      rotations (Scroll.written st') <= Scroll.retryCount st' /\
      Scroll.retryCount st' <= 5
  | None => True
  end.
Proof.
  revert st. induction script as [|t script IH]; intros st C R L;
    cbn [Scroll.loop];
    destruct (Scroll.retryCount st <? MAX_RETRIES)%nat eqn:G; auto.
  apply Nat.ltb_lt in G. unfold MAX_RETRIES in G.
  unfold Scroll.turn. destruct (random t) as [tok|].
  2:{ cbn [Scroll.write Scroll.excludedTokenIds Scroll.retryCount Scroll.written].
      rewrite rotations_snoc. cbn. repeat split; lia. }
  pose proof (scroll_forAwait_count (yields (upstream t)) tok st _ C R eq_refl) as F.
  destruct (Scroll.forAwait (yields (upstream t)) tok st) as [st1|st1|st1];
    destruct F as (A & B & D).
  - destruct (thrown (upstream t)) as [msg|].
    + destruct (rateLimited msg).
      * apply IH; cbn [Scroll.exclude Scroll.excludedTokenIds Scroll.retryCount
                       Scroll.written]; [rewrite length_app, A; cbn; lia | lia | lia].
      * cbn [Scroll.write Scroll.excludedTokenIds Scroll.retryCount Scroll.written].
        rewrite rotations_snoc. cbn. repeat split; lia.
    + apply IH; auto; lia.
  - apply IH; auto; lia.
  - repeat split; auto; lia.
Qed.

(** *** /api/video/generate *)

Lemma video_forAwait_count us tok completed st n :
  List.length (Video.excludedTokenIds st) = n ->
  rotations (Video.written st) = n ->
  Video.retryCount st = n ->
  match Video.forAwait us tok completed st with
  | Video.Exhausted _ st' | Video.Returned st' =>
      List.length (Video.excludedTokenIds st') = Video.retryCount st' /\
      rotations (Video.written st') = Video.retryCount st' /\
      Video.retryCount st' = n
  | Video.Broken _ st' =>
      List.length (Video.excludedTokenIds st') = Video.retryCount st' /\
      rotations (Video.written st') = Video.retryCount st' /\
      Video.retryCount st' <= S n
  end.
Proof.
  revert completed st. induction us as [|u us IH]; intros completed st C R E;
    cbn [Video.forAwait].
  - repeat split; congruence.
  - destruct u as [msg fs|fs|fs|].
    + destruct (rateLimited msg).
      * cbn [Video.rotate Video.write Video.excludedTokenIds
             Video.retryCount Video.written].
        rewrite length_app, rotations_snoc, C, R, E. cbn. repeat split; lia.
      * cbn [Video.write Video.excludedTokenIds Video.retryCount Video.written].
        rewrite rotations_snoc. cbn. repeat split; lia.
    + apply IH; cbn [Video.write Video.excludedTokenIds Video.retryCount
                     Video.written]; auto.
      rewrite rotations_snoc. cbn. lia.
    + apply IH; cbn [Video.write Video.excludedTokenIds Video.retryCount
                     Video.written]; auto.
      rewrite rotations_snoc. cbn. lia.
    + destruct completed.
      * cbn [Video.write Video.excludedTokenIds Video.retryCount Video.written].
        rewrite rotations_snoc. cbn. repeat split; lia.
      * apply IH; assumption.
Qed.

Lemma video_loop_count token_id script st :
  List.length (Video.excludedTokenIds st) = Video.retryCount st ->
  rotations (Video.written st) = Video.retryCount st ->
  Video.retryCount st <= 5 ->
  match Video.loop token_id script st with
  | Some st' =>
      List.length (Video.excludedTokenIds st') = Video.retryCount st' /\
      rotations (Video.written st') = Video.retryCount st' /\
      Video.retryCount st' <= 5
  | None => True
  end.
Proof.
  revert st. induction script as [|t script IH]; intros st C R L;
    cbn [Video.loop];
    destruct (Video.retryCount st <? MAX_RETRIES)%nat eqn:G; auto.
  apply Nat.ltb_lt in G. unfold MAX_RETRIES in G.
  unfold Video.turn. destruct (select token_id (Video.retryCount st) t) as [tok|].
  2:{ cbn [Video.write Video.excludedTokenIds Video.retryCount Video.written].
      rewrite rotations_snoc. cbn. repeat split; lia. }
  pose proof (video_forAwait_count (yields (upstream t)) tok false st _ C R eq_refl) as F.
  destruct (Video.forAwait (yields (upstream t)) tok false st) as [c st1|c st1|st1];
    destruct F as (A & B & D).
  - destruct (thrown (upstream t)) as [msg|].
    + destruct (rateLimited msg).
      * apply IH; cbn [Video.rotate Video.write Video.excludedTokenIds Video.retryCount
                       Video.written];
          [rewrite length_app, A; cbn; lia
          | rewrite rotations_snoc, B; cbn; lia | lia].
      * cbn [Video.write Video.excludedTokenIds Video.retryCount Video.written].
        rewrite rotations_snoc. cbn. repeat split; lia.
    + destruct c; cbn [negb]; [repeat split; auto; lia | apply IH; auto; lia].
  - destruct c; cbn [negb]; [repeat split; auto; lia | apply IH; auto; lia].
  - repeat split; auto; lia.
Qed.

(** X21. The retry ceiling of the other loops.  The loops of the
    non-streaming branch of /v1/messages, of img2img, of scroll and of
    video end, when they end, with [retryCount] at most 5 and equal to
    the number of credentials excluded.  A client sees it in the info
    events, one per rotation: at most five in a stream of img2img, of
    scroll or of video (scroll writes none for a rotation made on an
    exception). *)
Theorem retry_ceiling_of_the_other_loops :
  (forall script st,
     Messages.Plain.loop script Messages.Plain.init = Some (inr st) ->
     List.length (Messages.Plain.excludedTokenIds st) = Messages.Plain.retryCount st /\
     Messages.Plain.retryCount st <= 5) /\
  (forall token_id prompt count fileName mimeType base64Content script st,
     Img2img.loop token_id prompt count fileName mimeType base64Content script
       Img2img.init = Some st ->
     List.length (Img2img.excludedTokenIds st) = Img2img.retryCount st /\
     rotations (Img2img.written st) = Img2img.retryCount st /\
     Img2img.retryCount st <= 5) /\
  (forall body script evs posted,
     Img2img.img2img body script = Some (Img2img.Streamed evs posted) ->
     rotations evs <= 5) /\
  (forall script st,
     Scroll.loop script Scroll.init = Some (inl st) \/
     Scroll.loop script Scroll.init = Some (inr st) ->
     List.length (Scroll.excludedTokenIds st) = Scroll.retryCount st /\
     rotations (Scroll.written st) <= Scroll.retryCount st /\
     Scroll.retryCount st <= 5) /\
  (forall script evs, Scroll.scroll script = Some evs -> rotations evs <= 5) /\
  (forall token_id script st,
     Video.loop token_id script Video.init = Some st ->
     List.length (Video.excludedTokenIds st) = Video.retryCount st /\
     rotations (Video.written st) = Video.retryCount st /\
     Video.retryCount st <= 5) /\
  (forall token_id script evs,
     Video.video token_id script = Some evs -> rotations evs <= 5).
Proof.
  split; [|split; [|split; [|split; [|split; [|split]]]]].
  - intros script st E.
    pose proof (plain_loop_count script Messages.Plain.init eq_refl
                  ltac:(cbn; lia)) as P.
    rewrite E in P. exact P.
  - intros token_id prompt count fileName mimeType base64Content script st E.
    pose proof (img2img_loop_count token_id prompt count fileName mimeType
                  base64Content script Img2img.init eq_refl eq_refl
                  ltac:(cbn; lia)) as P.
    rewrite E in P. exact P.
  - intros body script evs posted E. unfold Img2img.img2img in E.
    destruct (negb _); [discriminate|].
    destruct (Img2img.parseDataUrl _) as [[mimeType base64Content]|]; [|discriminate].
    match type of E with
    | match Img2img.loop ?a ?b ?c ?d ?e ?f ?g ?h with _ => _ end = _ =>
        pose proof (img2img_loop_count a b c d e f g h eq_refl eq_refl
                      ltac:(cbn; lia)) as P;
        destruct (Img2img.loop a b c d e f g h) as [st|]; [|discriminate]
    end.
    inversion E; subst. lia.
  - intros script st E.
    pose proof (scroll_loop_count script Scroll.init eq_refl ltac:(cbn; lia)
                  ltac:(cbn; lia)) as P.
    destruct E as [E | E]; rewrite E in P; exact P.
  - intros script evs E. unfold Scroll.scroll in E.
    pose proof (scroll_loop_count script Scroll.init eq_refl ltac:(cbn; lia)
                  ltac:(cbn; lia)) as P.
    destruct (Scroll.loop script Scroll.init) as [[st|st]|]; [| |discriminate];
      inversion E; subst; [lia|].
    cbn [Scroll.write Scroll.written]. rewrite rotations_snoc. cbn. lia.
  - intros token_id script st E.
    pose proof (video_loop_count token_id script Video.init eq_refl eq_refl
                  ltac:(cbn; lia)) as P.
    rewrite E in P. exact P.
  - intros token_id script evs E. unfold Video.video in E.
    pose proof (video_loop_count token_id script Video.init eq_refl eq_refl
                  ltac:(cbn; lia)) as P.
    destruct (Video.loop token_id script Video.init) as [st|]; [|discriminate].
    inversion E; subst. lia.
Qed.

End OtherLoops.

(* ================================================================== *)
(** ** The media extractor *)

Section Extractor.
Import Json.

(** Induction on a JSON value, with the induction hypothesis on the
    members of an array and of an object. *)
Lemma json_members_ind (P : json -> Prop) :
  P JNull -> (forall b, P (JBool b)) -> (forall q, P (JNum q)) ->
  (forall s, P (JStr s)) ->
  (forall items, Forall P items -> P (JArr items)) ->
  (forall fields, Forall (fun kv => P (snd kv)) fields -> P (JObj fields)) ->
  forall v, P v.
Proof.
  intros Hnull Hbool Hnum Hstr Harr Hobj.
  fix IH 1.
  intros [|b|q|s|items|fields];
    [exact Hnull | apply Hbool | apply Hnum | apply Hstr | |].
  - apply Harr. induction items as [|x items IHi]; constructor; [apply IH | exact IHi].
  - apply Hobj. induction fields as [|kv fields IHf]; constructor;
      [apply IH | exact IHf].
Qed.

Lemma uniqueFrom_spec urls : forall seen,
  NoDup (uniqueFrom seen urls) /\
  forall u, In u (uniqueFrom seen urls) -> In u urls /\ ~ In u seen.
Proof.
  induction urls as [|x urls IH]; intros seen; cbn [uniqueFrom].
  - split; [constructor | intros u []].
  - destruct (existsb (String.eqb x) seen) eqn:E.
    + destruct (IH seen) as [N I]. split; [exact N|].
      intros u U. destruct (I u U). split; [right|]; assumption.
    + destruct (IH (seen ++ [x])) as [N I]. split.
      * constructor; [|exact N]. intros X. destruct (I x X) as [_ K].
        apply K. apply in_or_app. right. left. reflexivity.
      * intros u [<- | U].
        -- split; [left; reflexivity|]. intros S.
           assert (existsb (String.eqb x) seen = true).
           { apply existsb_exists. exists x. split; [exact S | apply String.eqb_refl]. }
           congruence.
        -- destruct (I u U) as [A B]. split; [right; exact A|].
           intros S. apply B. apply in_or_app. left. exact S.
Qed.

Lemma itemUrl_http item u :
  In u (ImageEdit.itemUrl item) -> Js.startsWith u "http" = true.
Proof.
  unfold ImageEdit.itemUrl. destruct item as [| | |s| |]; try contradiction.
  destruct (0 <? String.length s)%nat; [|contradiction].
  destruct (Js.startsWith s "http") eqn:P.
  - intros [<- | []]. exact P.
  - destruct (_ || _); [|contradiction]. intros [<- | []]. reflexivity.
Qed.

Lemma collectImages_http obj :
  forall u, In u (ImageEdit.collectImages obj) -> Js.startsWith u "http" = true.
Proof.
  induction obj as [| | | |items IH|fields IH] using json_members_ind;
    try (intros u []).
  - intros u U. cbn [ImageEdit.collectImages] in U.
    apply in_flat_map in U. destruct U as (x & X & U).
    rewrite Forall_forall in IH. exact (IH x X u U).
  - intros u U. cbn [ImageEdit.collectImages] in U.
    unfold unique in U. apply (proj2 (uniqueFrom_spec _ [])) in U.
    destruct U as [U _]. apply in_flat_map in U. destruct U as ([k v] & X & U).
    rewrite Forall_forall in IH. specialize (IH (k, v) X). cbn [snd] in IH.
    destruct v as [| | | |items|fs]; try contradiction.
    + destruct (existsb (String.eqb k) ImageEdit.targetKeys).
      * apply in_flat_map in U. destruct U as (i & _ & U).
        eapply itemUrl_http. exact U.
      * apply IH. exact U.
    + apply IH. exact U.
Qed.

(** X22. What [collectImages] returns.  Every URL collected starts with
    [http]; the URLs collected from an object are distinct, while those
    of an array are the URLs of its members one after the other, with
    their repetitions.  An item that is a relative URI (it starts with a
    slash or with [users/], and not with [http]) is rewritten to a URL
    of the asset host, which the proxy accepts. *)
Theorem collected_urls :
  (forall obj u, In u (ImageEdit.collectImages obj) -> Js.startsWith u "http" = true) /\
  (forall fields, NoDup (ImageEdit.collectImages (JObj fields))) /\
  (forall a b,
     ImageEdit.collectImages (JArr (a ++ b))
     = ImageEdit.collectImages (JArr a) ++ ImageEdit.collectImages (JArr b)) /\
  (forall item,
     Js.startsWith item "http" = false ->
     Js.startsWith item "/" || Js.startsWith item "users/" = true ->
     ImageEdit.itemUrl (JStr item)
       = [("https://assets.grok.com/" ++ Js.stripLeadingSlash item)%string] /\
     forall token up,
       fst (Imagine.Proxy.proxy
              (Some ("https://assets.grok.com/" ++ Js.stripLeadingSlash item)%string)
              (Some token) up)
       <> Imagine.Proxy.Text 400 "Invalid URL").
Proof.
  split; [exact collectImages_http|]. split; [|split].
  - intros fields. cbn [ImageEdit.collectImages]. unfold unique.
    apply (proj1 (uniqueFrom_spec _ [])).
  - intros a b. cbn [ImageEdit.collectImages]. apply flat_map_app.
  - intros item Nh Rel. split.
    + unfold ImageEdit.itemUrl. rewrite Nh, Rel.
      destruct item as [|c item]; [discriminate Rel | reflexivity].
    + intros token up. unfold Imagine.Proxy.proxy.
      change (Js.startsWith ("https://assets.grok.com/" ++ Js.stripLeadingSlash item)
                            "https://assets.grok.com/")
        with (String.prefix "https://assets.grok.com/"
                ("https://assets.grok.com/" ++ Js.stripLeadingSlash item)).
      rewrite prefix_app. cbn [negb].
      destruct (negb (ok (Imagine.Proxy.status up))); cbn; discriminate.
Qed.

End Extractor.

(* ================================================================== *)
(** ** The first revision of the extractor *)

Section ExtractorV1.
Import Json.
Context `{Runtime}.

Lemma assetsUrls_throws assets :
  ImageEditV1.assetsUrls assets = None <-> In JNull assets.
Proof.
  induction assets as [|a assets IH]; cbn [ImageEditV1.assetsUrls In].
  - split; [discriminate | contradiction].
  - destruct (ImageEditV1.assetUrls a) as [us|] eqn:A.
    + destruct (ImageEditV1.assetsUrls assets) as [vs|].
      * split; [discriminate|]. intros [E | E]; [subst a; discriminate A|].
        apply IH in E. discriminate.
      * split; [|reflexivity]. intros _. right. apply IH. reflexivity.
    + split; [|reflexivity]. intros _. left.
      destruct a; try reflexivity; discriminate.
Qed.

(** X23. [extractImageUrls], of the first revision.  It throws exactly
    when [generatedAssets] is an array that holds [null]; the decoder
    then takes the line for invalid JSON and yields nothing for it.
    When it returns, the URLs are distinct. *)
Theorem extractImageUrls_on_a_null_asset :
  forall modelResponse : json,
    (ImageEditV1.extractImageUrls modelResponse = None <->
     exists assets, get "generatedAssets" modelResponse = Some (JArr assets) /\
                    In JNull assets) /\
    (forall urls, ImageEditV1.extractImageUrls modelResponse = Some urls -> NoDup urls) /\
    (forall line data d,
       Js.blank line = false -> JSON_parse line = Some data ->
       getOpt "modelResponse" (getOpt "response" (get "result" data))
         = Some modelResponse ->
       truthy (getOpt "streamingImageGenerationResponse"
                 (getOpt "response" (get "result" data))) = false ->
       ImageEditV1.extractImageUrls modelResponse = None ->
       ImageEditV1.processLine line d = d).
Proof.
  intros modelResponse. split; [|split].
  - unfold ImageEditV1.extractImageUrls.
    destruct (get "generatedAssets" modelResponse) as [[| | | |assets|]|];
      try (split; [discriminate | intros (a & E & _); discriminate]).
    destruct (ImageEditV1.assetsUrls assets) as [us|] eqn:A.
    + split; [discriminate|]. intros (a & E & I). inversion E; subst a.
      apply assetsUrls_throws in I. congruence.
    + split; [|reflexivity]. intros _. exists assets. split; [reflexivity|].
      apply assetsUrls_throws. exact A.
  - intros urls E. unfold ImageEditV1.extractImageUrls in E.
    destruct (match get "generatedAssets" modelResponse with
              | Some (JArr assets) => ImageEditV1.assetsUrls assets
              | _ => Some []
              end); [|discriminate].
    inversion E; subst. unfold unique. apply (proj1 (uniqueFrom_spec _ [])).
  - intros line data d B P M S E. unfold ImageEditV1.processLine.
    rewrite B, P, S.
    destruct (negb (truthy (getOpt "response" (get "result" data)))); [reflexivity|].
    rewrite M. destruct (truthy (Some modelResponse)); [|reflexivity].
    rewrite E. reflexivity.
Qed.

End ExtractorV1.

(* ================================================================== *)
(** ** How the image-edit stream ends *)

Section Terminal.
Import Json ImageEdit.
Context `{Runtime}.

Lemma working_snoc us u :
  forallb working (us ++ [u]) = forallb working us && working u.
Proof. rewrite forallb_app. cbn. rewrite andb_true_r. reflexivity. Qed.

Lemma yield_working u d :
  working u = true -> forallb working (yielded d) = true ->
  forallb working (yielded (yield u d)) = true.
Proof.
  intros U W. cbn [yield yielded]. rewrite working_snoc, W, U. reflexivity.
Qed.

Lemma emitNew_working direct urls : forall d,
  forallb working (yielded d) = true ->
  forallb working (yielded (emitNew direct urls d)) = true.
Proof.
  induction urls as [|url rest IH]; intros d W; cbn [emitNew]; [exact W|].
  destruct (existsb (String.eqb url) (collectedUrls d)); [apply IH, W|].
  apply IH. apply yield_working; [reflexivity|].
  destruct direct; [apply yield_working; [reflexivity|]|]; exact W.
Qed.

Lemma fieldDebug_working mr d :
  forallb working (yielded d) = true ->
  forallb working (yielded (fieldDebug mr d)) = true.
Proof.
  unfold fieldDebug.
  generalize ["generatedImageUrls"; "imageEditUris"; "fileUris"; "imageUrls"].
  intros ks. revert d.
  induction ks as [|k ks IH]; intros d W; cbn [fold_left]; [exact W|].
  apply IH. destruct (get k mr) as [[| | | | |]|];
    try exact W; (apply yield_working; [reflexivity | exact W]).
Qed.

Lemma processData_working data d :
  forallb working (yielded d) = true ->
  forallb working (yielded (processData data d)) = true.
Proof.
  intros W. unfold processData.
  match goal with
  | |- context [if (lineCount d <=? 3)%nat then yield ?u d else d] =>
      assert (W0 : forallb working
                     (yielded (if (lineCount d <=? 3)%nat then yield u d else d)) = true)
        by (destruct (lineCount d <=? 3)%nat;
            [apply yield_working; [reflexivity|]|]; exact W);
      revert W0; generalize (if (lineCount d <=? 3)%nat then yield u d else d)
  end.
  intros d0 W0.
  destruct (getOpt "response" (get "result" data)) as [r|]; [|exact W0].
  destruct (negb (truthy (Some r))); [exact W0|].
  destruct (truthy (get "streamingImageGenerationResponse" r));
    [apply yield_working; [reflexivity | exact W0]|].
  apply emitNew_working.
  destruct (get "modelResponse" r) as [mr|]; [|exact W0].
  destruct (truthy (Some mr)); [|exact W0].
  apply emitNew_working.
  destruct (collectImages mr);
    repeat (apply yield_working; [reflexivity|]); apply fieldDebug_working; exact W0.
Qed.

Lemma processLine_working line d :
  forallb working (yielded d) = true ->
  forallb working (yielded (processLine line d)) = true.
Proof.
  intros W. unfold processLine. destruct (Js.blank line); [exact W|].
  destruct (JSON_parse line) as [data|]; [apply processData_working; exact W|].
  destruct (_ <=? 2)%nat; [apply yield_working; [reflexivity|]|]; exact W.
Qed.

Lemma decode_working cs : forall d,
  forallb working (yielded d) = true ->
  forallb working (yielded (decode cs d)) = true.
Proof.
  induction cs as [|c cs IH]; intros d W; cbn [decode fold_left]; [exact W|].
  apply IH. rewrite feed_eq.
  set (lines := fst (Js.splitLines (buffer d ++ c)%string)).
  assert (K : forallb working
                (yielded (fold_left (fun acc line => processLine line acc) lines d))
              = true).
  { clearbody lines. revert d W.
    induction lines as [|l lines IHl]; intros d W; cbn [fold_left]; [exact W|].
    apply IHl, processLine_working, W. }
  exact K.
Qed.

(** The shape of the updates of [streamImageEdit]. *)
Lemma edit_stream_shape :
  forall (prompt : string) (imageUrls : list string) (imageCount : Q)
         (parentPostId fileMetadataId : option string) (up : FetchOutcome),
    let updates :=
      snd (streamImageEdit prompt imageUrls imageCount parentPostId fileMetadataId up) in
    match thrown updates with
    | Some _ => forallb working (yields updates) = true
    | None =>
        exists pre last,
          yields updates = pre ++ [last] /\
          forallb working pre = true /\
          ((last = done /\ images pre <> []) \/
           (exists msg, last = error msg) /\ images pre = [])
    end.
Proof.
  intros prompt imageUrls imageCount parentPostId fileMetadataId up.
  cbv zeta. unfold streamImageEdit. cbn [snd].
  destruct up as [msg|status text body].
  - cbn [thrown yields]. eexists _, _. split; [reflexivity|].
    split; [reflexivity|]. right. split; [eauto | reflexivity].
  - destruct (negb (ok status)).
    + destruct (status =? 429)%nat; cbn [thrown yields];
        (eexists _, _; split; [reflexivity|]; split; [reflexivity|];
         right; split; [eauto | reflexivity]).
    + destruct body as [b|].
      2:{ cbn [thrown yields]. eexists _, _. split; [reflexivity|].
          split; [reflexivity|]. right. split; [eauto | reflexivity]. }
      match goal with
      | |- context [decode (chunks b) (start ?i)] => set (intro := i)
      end.
      assert (W : forallb working (yielded (decode (chunks b) (start intro))) = true)
        by (apply decode_working; reflexivity).
      assert (Inv : decoder_inv (decode (chunks b) (start intro))).
      { apply decode_inv. unfold decoder_inv. cbn. repeat split; constructor. }
      destruct Inv as (_ & Fst & _).
      set (d := decode (chunks b) (start intro)) in *.
      destruct (readError b) as [msg|]; cbn [thrown yields]; [exact W|].
      cbn [yield collectedUrls yielded lineCount].
      destruct (List.length (collectedUrls d) =? 0)%nat eqn:Z; cbn [thrown yields].
      * eexists _, _. split; [reflexivity|].
        split; [rewrite working_snoc, W; reflexivity|].
        right. split; [eauto|].
        apply Nat.eqb_eq in Z. rewrite images_app. cbn. rewrite app_nil_r.
        rewrite <- Fst, length_map in Z. destruct (images (yielded d)); [reflexivity|].
        discriminate.
      * eexists _, _. split; [reflexivity|].
        split; [rewrite working_snoc, W; reflexivity|].
        left. split; [reflexivity|].
        apply Nat.eqb_neq in Z. rewrite images_app. cbn. rewrite app_nil_r.
        intros E. apply Z. rewrite <- Fst, E. reflexivity.
Qed.

(** X24. How the image-edit stream ends.  If no [read()] rejects, the
    updates of [streamImageEdit] end with exactly one terminal update,
    and hold no other: [done] if an image update came before it, an
    error if none did.  If a [read()] rejects, the generator throws and
    no terminal update was yielded. *)
Theorem edit_stream_ends_once :
  forall (prompt : string) (imageUrls : list string) (imageCount : Q)
         (parentPostId fileMetadataId : option string) (up : FetchOutcome),
    let updates :=
      snd (streamImageEdit prompt imageUrls imageCount parentPostId fileMetadataId up) in
    match thrown updates with
    | Some _ => forallb working (yields updates) = true
    | None =>
        exists pre last,
          yields updates = pre ++ [last] /\
          forallb working pre = true /\
          ((last = done /\ images pre <> []) \/
           (exists msg, last = error msg) /\ images pre = [])
    end.
Proof. exact edit_stream_shape. Qed.

End Terminal.

(* ================================================================== *)
(** ** A 429 from the upstream, in img2img *)

Section Upstream429.
Import Json Imagine.
Context `{Runtime}.

(** X25. A 429 from the upstream never ends an img2img call.  When the
    upload answers with status 429, or when the upload succeeds and the
    chat call answers with status 429, the turn excludes the credential,
    counts one retry, writes no error event and goes on to the next
    turn. *)
Theorem upstream_429_rotates :
  forall (token_id : option string) (prompt : string) (count : Q)
         (fileName mimeType base64Content : string)
         (t : Turn (Img2img.UploadReply * FetchOutcome)) (st : Img2img.State)
         (tok : TokenRow),
    select token_id (Img2img.retryCount st) t = Some tok ->
    (exists text parsed, fst (upstream t) = Img2img.UploadResponse 429 text parsed) \/
    (exists raw uri text body,
       Img2img.uploadImage (fst (upstream t)) = inr raw /\
       get "fileUri" raw = Some (JStr uri) /\
       snd (upstream t) = FetchResponse 429 text body) ->
    exists st',
      Img2img.turn token_id prompt count fileName mimeType base64Content t st
        = Continue st' /\
      Img2img.retryCount st' = S (Img2img.retryCount st) /\
      Img2img.excludedTokenIds st' = Img2img.excludedTokenIds st ++ [id tok] /\
      named "error" (Img2img.written st') = named "error" (Img2img.written st).
Proof.
  intros token_id prompt count fileName mimeType base64Content t st tok S
         [(text & parsed & U) | (raw & uri & text & body & U & F & C)];
    unfold Img2img.turn; rewrite S.
  - rewrite U. cbn [Img2img.uploadImage ok Nat.leb negb andb].
    change (negb (ok 429)) with true. cbv iota.
    unfold Img2img.caught.
    assert (R : rateLimited ("Upload failed (" ++ Js.ofNat 429 ++ "): "
                               ++ Js.slice0 200 text) = true) by reflexivity.
    rewrite R. eexists. split; [reflexivity|].
    cbn [Img2img.rotate Img2img.write Img2img.post Img2img.retryCount
         Img2img.excludedTokenIds Img2img.written].
    split; [reflexivity|]. split; [reflexivity|].
    rewrite !named_app. cbn. rewrite !app_nil_r. reflexivity.
  - rewrite U, F, C.
    unfold ImageEdit.streamImageEdit.
    change (negb (ok 429)) with true. cbv iota.
    change (429 =? 429)%nat with true. cbv iota.
    cbn [yields thrown app Img2img.forAwait].
    assert (R : rateLimited "Rate limited (429)" = true) by reflexivity.
    rewrite R. eexists. split; [reflexivity|].
    cbn [Img2img.rotate Img2img.write Img2img.post Img2img.retryCount
         Img2img.excludedTokenIds Img2img.written].
    split; [reflexivity|]. split; [reflexivity|].
    rewrite !named_app. cbn. rewrite !app_nil_r. reflexivity.
Qed.

End Upstream429.

(* ================================================================== *)
(** ** The cards of the img2img page *)

Section PageCards.
Import Json.

Lemma page_fold datas : forall st,
  (forall i j a b, i < j -> nth_error (Page.cards st) i = Some a ->
                   nth_error (Page.cards st) j = Some b ->
                   Page.sameValueZero (Page.keyOf a) (Page.keyOf b) = false) ->
  Page.loadedUrls st = map Page.keyOf (Page.cards st) ->
  let st' := fold_left Page.onData datas st in
  (forall i j a b, i < j -> nth_error (Page.cards st') i = Some a ->
                   nth_error (Page.cards st') j = Some b ->
                   Page.sameValueZero (Page.keyOf a) (Page.keyOf b) = false) /\
  Page.loadedUrls st' = map Page.keyOf (Page.cards st').
Proof.
  induction datas as [|data datas IH]; intros st D L; cbn [fold_left]; [auto|].
  apply IH.
  - unfold Page.onData.
    destruct (Convert.isStr (get "type" data) "image"); [|exact D].
    destruct (existsb (Page.sameValueZero (Page.keyOf data)) (Page.loadedUrls st))
      eqn:E; [exact D|].
    cbn [andb negb Page.cards]. intros i j a b Lt A B.
    assert (J : j < List.length (Page.cards st ++ [data])).
    { apply nth_error_Some. congruence. }
    rewrite length_app in J. cbn in J.
    rewrite nth_error_app1 in A by lia.
    destruct (Nat.eq_dec j (List.length (Page.cards st))) as [Ej | Nj].
    + rewrite nth_error_app2 in B by lia. subst j. rewrite Nat.sub_diag in B.
      inversion B; subst b.
      assert (K : In (Page.keyOf a) (Page.loadedUrls st)).
      { rewrite L. apply in_map. eapply nth_error_In. exact A. }
      destruct (Page.sameValueZero (Page.keyOf a) (Page.keyOf data)) eqn:Q;
        [|reflexivity].
      assert (X : existsb (Page.sameValueZero (Page.keyOf data)) (Page.loadedUrls st)
                  = true).
      { apply existsb_exists. exists (Page.keyOf a). split; [exact K|].
        revert Q. generalize (Page.keyOf a) (Page.keyOf data).
        intros [[| | | | |]|] [[| | | | |]|]; cbn; try discriminate; auto.
        - intros Q. rewrite Bool.eqb_true_iff in Q. subst. apply Bool.eqb_reflx.
        - intros Q. apply Qeq_bool_iff in Q. apply Qeq_bool_iff. symmetry. exact Q.
        - intros Q. rewrite String.eqb_sym. exact Q. }
      congruence.
    + rewrite nth_error_app1 in B by lia. exact (D i j a b Lt A B).
  - unfold Page.onData.
    destruct (Convert.isStr (get "type" data) "image"); [|exact L].
    destruct (existsb _ _); [exact L|].
    cbn [andb negb Page.cards Page.loadedUrls]. rewrite map_app, L. reflexivity.
Qed.

(** X26. The cards of the img2img page.  Whatever events [onData] is
    handed, the cards of the grid are image events among them and no two
    cards have the same key (the URL of the image, or its proxied source
    when it has none): an image that the stream repeats, as it may after
    a retry, is shown once.  For the image events that the img2img route
    writes for non-empty URLs, the URLs of the cards are distinct. *)
Theorem page_shows_each_image_once :
  forall (datas : list json),
    let grid := Page.cards (fold_left Page.onData datas Page.init) in
    (forall i j a b, i < j -> nth_error grid i = Some a -> nth_error grid j = Some b ->
                     Page.sameValueZero (Page.keyOf a) (Page.keyOf b) = false) /\
    (forall card, In card grid -> In card datas /\ get "type" card = Some (JStr "image")) /\
    (forall (R : Runtime) (prompt : string) (items : list (string * nat)),
       (forall p, In p items -> fst p <> "") ->
       datas = map (fun p => data (Imagine.Img2img.imageEvent prompt (fst p) (snd p)))
                   items ->
       NoDup (map (get "url") grid)).
Proof.
  intros datas grid.
  assert (P1 : forall i j a b, i < j -> nth_error grid i = Some a ->
                 nth_error grid j = Some b ->
                 Page.sameValueZero (Page.keyOf a) (Page.keyOf b) = false).
  { subst grid. apply (page_fold datas Page.init); [|reflexivity].
    intros i j a b _ A. destruct i; discriminate. }
  assert (P2 : forall card, In card grid ->
                 In card datas /\ get "type" card = Some (JStr "image")).
  { clear P1. subst grid.
    assert (G : forall st, forall card,
               In card (Page.cards (fold_left Page.onData datas st)) ->
               In card (Page.cards st) \/
               (In card datas /\ get "type" card = Some (JStr "image"))).
    { induction datas as [|data datas IH]; intros st card C; cbn [fold_left] in C;
        [left; exact C|].
      destruct (IH _ _ C) as [C' | [C' T]]; [|right; split; [right|]; assumption].
      unfold Page.onData in C'.
      destruct (Convert.isStr (get "type" data) "image") eqn:T; [|left; exact C'].
      destruct (existsb _ _); [left; exact C'|].
      cbn [andb negb Page.cards] in C'. apply in_app_or in C'.
      destruct C' as [C' | [<- | []]]; [left; exact C'|].
      right. split; [left; reflexivity|].
      unfold Convert.isStr in T.
      destruct (get "type" data) as [[| | |s| |]|]; try discriminate.
      apply String.eqb_eq in T. subst. reflexivity. }
    intros card C. destruct (G Page.init card C) as [[] | K]. exact K. }
  split; [exact P1|]. split; [exact P2|].
  intros R prompt items Ne E.
  assert (K : forall card, In card grid ->
                exists u, Page.keyOf card = Some (JStr u) /\
                          get "url" card = Some (JStr u)).
  { intros card C. destruct (P2 card C) as [C' _]. rewrite E in C'.
    apply in_map_iff in C'. destruct C' as (p & <- & Ip).
    exists (fst p). specialize (Ne p Ip).
    unfold Page.keyOf. cbn. destruct (fst p); [congruence|]. split; reflexivity. }
  apply NoDup_nth_error. intros i j Li Eq.
  rewrite length_map in Li.
  assert (X : forall i j, i < j -> j < List.length grid ->
                nth_error (map (get "url") grid) i
                = nth_error (map (get "url") grid) j -> False).
  { clear i j Li Eq. intros i j Lt Lj Eq.
    destruct (nth_error grid i) as [a|] eqn:A.
    2:{ apply nth_error_None in A. lia. }
    destruct (nth_error grid j) as [b|] eqn:B.
    2:{ apply nth_error_None in B. lia. }
    rewrite (map_nth_error _ _ _ A), (map_nth_error _ _ _ B) in Eq.
    destruct (K a (nth_error_In _ _ A)) as (ua & Ka & Ua).
    destruct (K b (nth_error_In _ _ B)) as (ub & Kb & Ub).
    pose proof (P1 i j a b Lt A B) as D. rewrite Ka, Kb in D. cbn in D.
    rewrite Ua, Ub in Eq. inversion Eq; subst.
    rewrite String.eqb_refl in D. discriminate. }
  destruct (Nat.lt_trichotomy i j) as [Lt | [Eqij | Gt]]; [|exact Eqij|].
  - exfalso. apply (X i j Lt); [|exact Eq].
    destruct (nth_error (map (get "url") grid) j) eqn:Nj.
    + assert (j < List.length (map (get "url") grid))
        by (apply nth_error_Some; congruence).
      rewrite length_map in *. assumption.
    + exfalso. apply nth_error_None in Eq.
      rewrite length_map in Eq. lia.
  - exfalso. apply (X j i Gt Li). symmetry. exact Eq.
Qed.

End PageCards.

(* ================================================================== *)
(** ** The two branches of /v1/messages *)

Section TwoBranches.
Import Json Messages Orchestrator.


End TwoBranches.

(* ================================================================== *)
(** ** When an image route says [done] *)

Section DoneMeansImages.
Import Json Imagine.
Context `{Runtime}.

Lemma named_snoc_other name evs e :
  String.eqb (event e) name = false -> named name (evs ++ [e]) = named name evs.
Proof.
  intros E. rewrite named_app. unfold named at 2. cbn [filter]. rewrite E.
  apply app_nil_r.
Qed.

Lemma named_snoc_same name evs e :
  String.eqb (event e) name = true -> named name (evs ++ [e]) = named name evs ++ [e].
Proof.
  intros E. rewrite named_app. unfold named at 2. cbn [filter]. rewrite E. reflexivity.
Qed.

(** *** /api/imagine/generate *)

(** What the retry loop of the route keeps: no [done] event yet, and one
    [image] event for each image counted. *)
Lemma generate_forAwait_done us tok targetCount st :
  named "done" (Generate.written st) = [] ->
  List.length (named "image" (Generate.written st)) = Generate.totalCollected st ->
  match Generate.forAwait us tok targetCount st with
  | Generate.Exhausted st' | Generate.Broken st' =>
      named "done" (Generate.written st') = [] /\
      List.length (named "image" (Generate.written st')) = Generate.totalCollected st'
  | Generate.Returned st' =>
      exists pre e, Generate.written st' = pre ++ [e] /\
                    named "done" pre = [] /\
                    List.length (named "image" pre) = Generate.totalCollected st' /\
                    (event e = "error" \/
                     (e = doneEvent /\
                      Qle_bool targetCount
                        (inject_Z (Z.of_nat (Generate.totalCollected st'))) = true))
  end.
Proof.
  revert st. induction us as [|u us IH]; intros st D N; cbn [Generate.forAwait].
  - auto.
  - destruct u as [msg fs|fs|fs|].
    + destruct (rateLimited msg).
      * cbn [Generate.rotate Generate.write Generate.written Generate.totalCollected].
        rewrite !named_snoc_other by reflexivity. auto.
      * eexists _, _. split; [reflexivity|]. cbn [Generate.write Generate.totalCollected].
        repeat split; auto.
    + apply IH;
        cbn [Generate.write Generate.collected Generate.written Generate.totalCollected].
      * rewrite !named_snoc_other by reflexivity. exact D.
      * rewrite named_snoc_other by reflexivity.
        rewrite named_snoc_same by reflexivity. rewrite length_app, N. cbn. lia.
    + apply IH.
      * destruct (Generate.isCollecting fs); [exact D|].
        cbn [Generate.write Generate.written].
        rewrite named_snoc_other by reflexivity. exact D.
      * destruct (Generate.isCollecting fs); [exact N|].
        cbn [Generate.write Generate.written Generate.totalCollected].
        rewrite named_snoc_other by reflexivity. exact N.
    + destruct (negb (Qltb _ targetCount)) eqn:G.
      * eexists _, _. split; [reflexivity|]. cbn [Generate.write Generate.totalCollected].
        split; [exact D|]. split; [exact N|]. right. split; [reflexivity|].
        unfold Qltb in G. rewrite negb_involutive in G. exact G.
      * auto.
Qed.

Lemma generate_guard_positive targetCount a b :
  Qltb (inject_Z (Z.of_nat a)) targetCount = true ->
  Qle_bool targetCount (inject_Z (Z.of_nat b)) = true ->
  0 < b.
Proof.
  unfold Qltb. intros A B. apply negb_true_iff in A.
  destruct b as [|b]; [|lia]. exfalso.
  apply Qle_bool_iff in B.
  assert (C : ~ (targetCount <= inject_Z (Z.of_nat a))%Q).
  { intros C. apply Qle_bool_iff in C. congruence. }
  apply C. eapply Qle_trans; [exact B|].
  unfold Qle, inject_Z. cbn. lia.
Qed.

Lemma generate_loop_done token_id targetCount script st :
  named "done" (Generate.written st) = [] ->
  List.length (named "image" (Generate.written st)) = Generate.totalCollected st ->
  match Generate.loop token_id targetCount script st with
  | None => True
  | Some (inr st') =>
      named "done" (Generate.written st') = [] /\
      List.length (named "image" (Generate.written st')) = Generate.totalCollected st'
  | Some (inl st') =>
      exists pre e, Generate.written st' = pre ++ [e] /\
                    named "done" pre = [] /\
                    List.length (named "image" pre) = Generate.totalCollected st' /\
                    (event e = "error" \/
                     (e = doneEvent /\ 0 < Generate.totalCollected st'))
  end.
Proof.
  revert st. induction script as [|t script IH]; intros st D N;
    cbn [Generate.loop]; destruct (Generate.guard targetCount st) eqn:G; auto.
  unfold Generate.turn.
  destruct (select token_id (Generate.retryCount st) t) as [tok|].
  - pose proof (generate_forAwait_done (yields (upstream t)) tok targetCount st D N) as F.
    destruct (Generate.forAwait (yields (upstream t)) tok targetCount st) as [st1|st1|st1].
    + destruct F as [D1 N1].
      destruct (thrown (upstream t)) as [msg|]; [|apply IH; assumption].
      destruct (rateLimited msg).
      * apply IH;
          cbn [Generate.rotate Generate.write Generate.written Generate.totalCollected];
          rewrite named_snoc_other by reflexivity; assumption.
      * cbn [Generate.write Generate.written Generate.totalCollected].
        rewrite !named_snoc_other by reflexivity. auto.
    + destruct F as [D1 N1]. apply IH; assumption.
    + destruct F as (pre & e & W & D1 & N1 & [E|[E Q]]).
      * exists pre, e. auto.
      * exists pre, e. repeat split; auto. right. split; [exact E|].
        unfold Generate.guard in G. apply andb_true_iff in G. destruct G as [_ G].
        exact (generate_guard_positive _ _ _ G Q).
  - cbn [Generate.write Generate.written Generate.totalCollected].
    rewrite !named_snoc_other by reflexivity. auto.
Qed.

Lemma named_length_pos name (evs : list Sse) :
  0 < List.length (named name evs) -> named name evs <> [].
Proof. destruct (named name evs); cbn; [lia | discriminate]. Qed.

(** X28.  POST /api/imagine/generate: the stream holds at most one [done]
    event, it is the last event, and at least one image event precedes
    it.  A stream that delivered an image and holds no [done] event ends
    with an [error] event. *)
Theorem generate_done_means_images :
  forall body script evs,
    Generate.generate body script = Some evs ->
    (named "done" evs = [] \/
     exists pre, evs = pre ++ [doneEvent] /\ named "done" pre = [] /\
                 named "image" pre <> []) /\
    (named "image" evs <> [] -> named "done" evs = [] ->
     exists pre e, evs = pre ++ [e] /\ event e = "error").
Proof.
  intros body script evs. unfold Generate.generate.
  set (targetCount := match Generate.count body with Some c => c | None => 10%Q end).
  pose proof (generate_loop_done (Generate.token_id body) targetCount script
                Generate.init eq_refl eq_refl) as L.
  destruct (Generate.loop (Generate.token_id body) targetCount script Generate.init)
    as [[st|st]|]; [| |discriminate]; intros E; injection E as <-.
  - destruct L as (pre & e & W & D & N & [Er|[Ed P]]).
    + rewrite W. split.
      * left. rewrite named_snoc_other; [exact D|]. rewrite Er. reflexivity.
      * intros _ _. exists pre, e. auto.
    + rewrite W. subst e. split.
      * right. exists pre. repeat split; auto. apply named_length_pos. lia.
      * intros _ Dn. rewrite named_snoc_same in Dn by reflexivity.
        destruct (named "done" pre); discriminate.
  - destruct L as [D N]. destruct (0 <? Generate.totalCollected st)%nat eqn:P.
    + apply Nat.ltb_lt in P. cbn [Generate.write Generate.written]. split.
      * right. exists (Generate.written st). repeat split; auto.
        apply named_length_pos. lia.
      * intros _ Dn. rewrite named_snoc_same in Dn by reflexivity.
        destruct (named "done" (Generate.written st)); discriminate.
    + apply Nat.ltb_ge in P. split; [left; exact D|].
      intros I _. exfalso. apply I.
      destruct (named "image" (Generate.written st)); [reflexivity|cbn in N; lia].
Qed.

(** *** /api/imagine/img2img *)

Lemma img2img_forAwait_working tok prompt count rest pre : forall n st,
  forallb working pre = true ->
  exists st1,
    Img2img.forAwait (pre ++ rest) tok prompt count n st
      = Img2img.forAwait rest tok prompt count (n + List.length (images pre)) st1 /\
    named "done" (Img2img.written st1) = named "done" (Img2img.written st) /\
    List.length (named "image" (Img2img.written st1))
      = List.length (named "image" (Img2img.written st)) + List.length (images pre).
Proof.
  induction pre as [|u pre IH]; intros n st W.
  - exists st. cbn. rewrite !Nat.add_0_r. auto.
  - cbn [forallb] in W. apply andb_true_iff in W. destruct W as [U W].
    destruct u as [| | | |]; try discriminate U;
      cbn [app Img2img.forAwait];
      match goal with
      | |- context [Img2img.forAwait (pre ++ rest) tok prompt count ?k ?s] =>
          destruct (IH k s W) as (st1 & E & D & N)
      end;
      exists st1; rewrite E;
      cbn [Img2img.write Img2img.written] in D, N;
      repeat (rewrite named_snoc_other in D by reflexivity);
      repeat (rewrite named_snoc_other in N by reflexivity).
    all: try (rewrite named_snoc_same in N by reflexivity; rewrite length_app in N).
    all: unfold images in *; cbn [flat_map app List.length] in *.
    all: repeat split; try reflexivity; try assumption; try (f_equal; lia); try lia.
Qed.

Lemma img2img_forAwait_done tok prompt count us thr payload up n st
    imageUrls imageCount parentPostId fileMetadataId :
  ImageEdit.streamImageEdit prompt imageUrls imageCount parentPostId fileMetadataId up
    = (payload, {| yields := us; thrown := thr |}) ->
  named "done" (Img2img.written st) = [] ->
  match Img2img.forAwait us tok prompt count n st with
  | Img2img.Exhausted st' | Img2img.Broken st' =>
      named "done" (Img2img.written st') = []
  | Img2img.Returned st' =>
      exists pre e, Img2img.written st' = pre ++ [e] /\ named "done" pre = [] /\
                    (event e = "error" \/ (e = doneEvent /\ named "image" pre <> []))
  end.
Proof.
  intros S D.
  pose proof (edit_stream_shape prompt imageUrls imageCount parentPostId
                fileMetadataId up) as Sh.
  cbv zeta in Sh. rewrite S in Sh. cbn [snd thrown yields] in Sh.
  destruct thr as [msg|].
  - destruct (img2img_forAwait_working tok prompt count [] us n st Sh)
      as (st1 & E & D1 & _).
    rewrite app_nil_r in E. rewrite E. cbn [Img2img.forAwait]. congruence.
  - destruct Sh as (pre & last & -> & W & Last).
    destruct (img2img_forAwait_working tok prompt count [last] pre n st W)
      as (st1 & E & D1 & N1).
    rewrite E. rewrite D in D1.
    destruct Last as [[-> I]|[[msg ->] I]]; cbn [Img2img.forAwait].
    + exists (Img2img.written st1), doneEvent. repeat split; auto.
      right. split; [reflexivity|]. apply named_length_pos.
      destruct (images pre); [congruence|]. cbn in N1. lia.
    + destruct (rateLimited msg).
      * cbn [Img2img.rotate Img2img.write Img2img.written].
        rewrite named_snoc_other by reflexivity. exact D1.
      * exists (Img2img.written st1), (errorEvent msg). repeat split; auto.
Qed.

Lemma img2img_caught_done tok msg st :
  named "done" (Img2img.written st) = [] ->
  match Img2img.caught tok msg st with
  | Continue st' | Break st' => named "done" (Img2img.written st') = []
  | Return _ => False
  end.
Proof.
  intros D. unfold Img2img.caught. destruct (rateLimited msg);
    cbn [Img2img.rotate Img2img.write Img2img.written];
    rewrite named_snoc_other by reflexivity; exact D.
Qed.

Lemma img2img_turn_done token_id prompt count fileName mimeType content t st :
  named "done" (Img2img.written st) = [] ->
  match Img2img.turn token_id prompt count fileName mimeType content t st with
  | Continue st' | Break st' => named "done" (Img2img.written st') = []
  | Return st' =>
      exists pre e, Img2img.written st' = pre ++ [e] /\ named "done" pre = [] /\
                    (event e = "error" \/ (e = doneEvent /\ named "image" pre <> []))
  end.
Proof.
  intros D. unfold Img2img.turn.
  destruct (select token_id (Img2img.retryCount st) t) as [tok|].
  2:{ cbn [Img2img.write Img2img.written].
      rewrite named_snoc_other by reflexivity. exact D. }
  match goal with
  | |- context [Img2img.post ?u (Img2img.write ?e st)] =>
      set (st0 := Img2img.post u (Img2img.write e st))
  end.
  assert (D0 : named "done" (Img2img.written st0) = []).
  { subst st0. cbn [Img2img.post Img2img.write Img2img.written].
    rewrite named_snoc_other by reflexivity. exact D. }
  clearbody st0.
  destruct (Img2img.uploadImage (fst (upstream t))) as [msg|uploadResult].
  { pose proof (img2img_caught_done tok msg st0 D0) as C.
    destruct (Img2img.caught tok msg st0); auto; contradiction. }
  match goal with
  | |- context [Img2img.write ?e st0] => set (st1 := Img2img.write e st0)
  end.
  assert (D1 : named "done" (Img2img.written st1) = []).
  { subst st1. cbn [Img2img.write Img2img.written].
    rewrite named_snoc_other by reflexivity. exact D0. }
  clearbody st1.
  assert (Other : forall v,
             match Img2img.caught tok (Img2img.startsWithTypeError v) st1 with
             | Continue st' | Break st' => named "done" (Img2img.written st') = []
             | Return st' =>
                 exists pre e, Img2img.written st' = pre ++ [e] /\ named "done" pre = [] /\
                    (event e = "error" \/ (e = doneEvent /\ named "image" pre <> []))
             end).
  { intros v. pose proof (img2img_caught_done tok (Img2img.startsWithTypeError v) st1 D1) as C.
    destruct (Img2img.caught tok (Img2img.startsWithTypeError v) st1); auto; contradiction. }
  destruct (get "fileUri" uploadResult) as [[| | |uri| |]|]; try apply Other.
  match goal with
  | |- context [ImageEdit.streamImageEdit ?a ?b ?c ?d ?e ?f] =>
      destruct (ImageEdit.streamImageEdit a b c d e f) as [payload [us thr]] eqn:S
  end.
  cbn [yields thrown].
  match goal with
  | |- context [Img2img.forAwait us tok prompt count 0 ?s] => set (st2 := s)
  end.
  assert (D2 : named "done" (Img2img.written st2) = []).
  { subst st2. cbn [Img2img.post Img2img.write Img2img.written].
    rewrite !named_snoc_other by reflexivity. exact D1. }
  clearbody st2.
  pose proof (img2img_forAwait_done tok prompt count us thr payload _ 0 st2 _ _ _ _ S D2) as F.
  cbn [yields thrown].
  destruct (Img2img.forAwait us tok prompt count 0 st2) as [st3|st3|st3]; auto.
  destruct thr as [msg|]; auto.
  pose proof (img2img_caught_done tok msg st3 F) as C.
  destruct (Img2img.caught tok msg st3); auto; contradiction.
Qed.

Lemma img2img_loop_done token_id prompt count fileName mimeType content script :
  forall st,
  named "done" (Img2img.written st) = [] ->
  match Img2img.loop token_id prompt count fileName mimeType content script st with
  | None => True
  | Some st' =>
      named "done" (Img2img.written st') = [] \/
      exists pre, Img2img.written st' = pre ++ [doneEvent] /\ named "done" pre = [] /\
                  named "image" pre <> []
  end.
Proof.
  induction script as [|t script IH]; intros st D; cbn [Img2img.loop];
    destruct (Img2img.retryCount st <? MAX_RETRIES)%nat; auto.
  pose proof (img2img_turn_done token_id prompt count fileName mimeType content t st D) as T.
  destruct (Img2img.turn token_id prompt count fileName mimeType content t st) as [st'|st'|st'].
  - apply IH, T.
  - auto.
  - destruct T as (pre & e & W & Dp & [E|[-> I]]).
    + left. rewrite W, named_snoc_other; [exact Dp|]. rewrite E. reflexivity.
    + right. exists pre. auto.
Qed.

(** X29.  POST /api/imagine/img2img: the stream holds at most one [done]
    event, it is the last event, and at least one image event precedes
    it. *)
Theorem img2img_done_means_images :
  forall body script evs posted,
    Img2img.img2img body script = Some (Img2img.Streamed evs posted) ->
    named "done" evs = [] \/
    exists pre, evs = pre ++ [doneEvent] /\ named "done" pre = [] /\
                named "image" pre <> [].
Proof.
  intros body script evs posted. unfold Img2img.img2img.
  destruct (negb (Js.truthyStr (Img2img.image_data body))); [discriminate|].
  destruct (Img2img.parseDataUrl _) as [[mimeType content]|]; [|discriminate].
  match goal with
  | |- context [Img2img.loop ?a ?b ?c ?d ?e ?f script Img2img.init] =>
      pose proof (img2img_loop_done a b c d e f script Img2img.init eq_refl) as L;
      destruct (Img2img.loop a b c d e f script Img2img.init) as [st|]; [|discriminate]
  end.
  intros E. injection E as <- <-. exact L.
Qed.

End DoneMeansImages.

(* ================================================================== *)
(** ** What img2img posts upstream *)

Section Uploads.
Import Json Imagine.
Context `{Runtime}.

Lemma Attempts_app fileName mimeType content l1 l2 :
  Attempts fileName mimeType content l1 ->
  Attempts fileName mimeType content l2 ->
  Attempts fileName mimeType content (l1 ++ l2).
Proof.
  intros A1 A2. induction A1; cbn [app]; [exact A2 | |]; constructor; assumption.
Qed.

Lemma img2img_forAwait_sent tok prompt count us : forall n st,
  match Img2img.forAwait us tok prompt count n st with
  | Img2img.Exhausted st' | Img2img.Broken st' | Img2img.Returned st' =>
      Img2img.sent st' = Img2img.sent st
  end.
Proof.
  induction us as [|u us IH]; intros n st; cbn [Img2img.forAwait]; [reflexivity|].
  destruct u as [i p|url index|msg| |msg].
  - specialize (IH n (Img2img.write (Img2img.generating p) st)).
    destruct (Img2img.forAwait us tok prompt count n _); exact IH.
  - specialize (IH (S n) (Img2img.write (Img2img.collecting (S n) count)
                            (Img2img.write (Img2img.imageEvent prompt url index) st))).
    destruct (Img2img.forAwait us tok prompt count (S n) _); exact IH.
  - destruct (rateLimited msg); reflexivity.
  - reflexivity.
  - specialize (IH n (Img2img.write (Img2img.debugEvent msg) st)).
    destruct (Img2img.forAwait us tok prompt count n _); exact IH.
Qed.

Lemma img2img_caught_sent tok msg st :
  match Img2img.caught tok msg st with
  | Continue st' | Break st' | Return st' => Img2img.sent st' = Img2img.sent st
  end.
Proof. unfold Img2img.caught. destruct (rateLimited msg); reflexivity. Qed.

Lemma img2img_turn_sent token_id prompt count fileName mimeType content t st :
  Attempts fileName mimeType content (Img2img.sent st) ->
  match Img2img.turn token_id prompt count fileName mimeType content t st with
  | Continue st' | Break st' | Return st' =>
      Attempts fileName mimeType content (Img2img.sent st')
  end.
Proof.
  intros A. unfold Img2img.turn.
  destruct (select token_id (Img2img.retryCount st) t) as [tok|]; [|exact A].
  assert (U : Attempts fileName mimeType content
                (Img2img.sent st ++ [Img2img.Upload tok fileName mimeType content]))
    by (apply Attempts_app; [exact A | apply attempts_upload, attempts_none]).
  assert (C : forall payload,
             Attempts fileName mimeType content
               ((Img2img.sent st ++ [Img2img.Upload tok fileName mimeType content])
                  ++ [Img2img.Chat tok payload])).
  { intros payload. rewrite <- app_assoc. apply Attempts_app; [exact A|].
    cbn [app]. apply attempts_chat, attempts_none. }
  assert (Caught : forall msg st0,
             Attempts fileName mimeType content (Img2img.sent st0) ->
             match Img2img.caught tok msg st0 with
             | Continue st' | Break st' | Return st' =>
                 Attempts fileName mimeType content (Img2img.sent st')
             end).
  { intros msg st0 A0. pose proof (img2img_caught_sent tok msg st0) as S.
    destruct (Img2img.caught tok msg st0); rewrite S; exact A0. }
  destruct (Img2img.uploadImage (fst (upstream t))) as [msg|uploadResult];
    [apply Caught; exact U|].
  destruct (get "fileUri" uploadResult) as [[| | |uri| |]|];
    try (apply Caught; exact U).
  match goal with
  | |- context [ImageEdit.streamImageEdit ?a ?b ?c ?d ?e ?f] =>
      destruct (ImageEdit.streamImageEdit a b c d e f) as [payload updates]
  end.
  match goal with
  | |- context [Img2img.forAwait (yields updates) tok prompt count 0 ?s] =>
      pose proof (img2img_forAwait_sent tok prompt count (yields updates) 0 s) as F;
      destruct (Img2img.forAwait (yields updates) tok prompt count 0 s) as [st1|st1|st1]
  end.
  - destruct (thrown updates) as [msg|].
    + apply Caught. rewrite F. apply C.
    + rewrite F. apply C.
  - rewrite F. apply C.
  - rewrite F. apply C.
Qed.

Lemma img2img_loop_sent token_id prompt count fileName mimeType content script :
  forall st,
  Attempts fileName mimeType content (Img2img.sent st) ->
  match Img2img.loop token_id prompt count fileName mimeType content script st with
  | None => True
  | Some st' => Attempts fileName mimeType content (Img2img.sent st')
  end.
Proof.
  induction script as [|t script IH]; intros st A; cbn [Img2img.loop];
    destruct (Img2img.retryCount st <? MAX_RETRIES)%nat; auto.
  pose proof (img2img_turn_sent token_id prompt count fileName mimeType content t st A) as T.
  destruct (Img2img.turn token_id prompt count fileName mimeType content t st);
    [apply IH| |]; exact T.
Qed.

(** X30.  POST /api/imagine/img2img: what the route posts upstream is a
    sequence of attempts.  Each attempt uploads the decoded image of the
    request again, under the name [upload.<subtype>], and the chat
    request, when the attempt gets that far, is made with the credential
    that uploaded; no chat request goes out without an upload right
    before it. *)
Theorem each_attempt_uploads_afresh :
  forall body script evs posted,
    Img2img.img2img body script = Some (Img2img.Streamed evs posted) ->
    exists mimeType content,
      Img2img.parseDataUrl (Js.orElse (Img2img.image_data body) "")
        = Some (mimeType, content) /\
      Attempts ("upload." ++ Js.orElse (Js.piece1 "/" mimeType) "jpeg")
               mimeType content posted.
Proof.
  intros body script evs posted. unfold Img2img.img2img.
  destruct (negb (Js.truthyStr (Img2img.image_data body))); [discriminate|].
  destruct (Img2img.parseDataUrl _) as [[mimeType content]|]; [|discriminate].
  match goal with
  | |- context [Img2img.loop ?a ?b ?c ?d ?e ?f script Img2img.init] =>
      pose proof (img2img_loop_sent a b c d e f script Img2img.init
                    (attempts_none _ _ _)) as L;
      destruct (Img2img.loop a b c d e f script Img2img.init) as [st|]; [|discriminate]
  end.
  intros E. injection E as <- <-. exists mimeType, content. split; [reflexivity|].
  exact L.
Qed.

End Uploads.

(* ================================================================== *)
(** ** The further properties at work *)

(** X5 on a conversation of two messages and a system prompt: the
    conversion puts the system message first and keeps the roles and
    the converted content of the two messages. *)
Lemma conversion_keeps_messages_witness :
  exists out ms,
    @Convert.convertMessages Demo.runtime Cases.chat (Some (Json.JStr "Be brief."))
      = Some out /\
    out = [Json.JObj [("role", Json.JStr "system"); ("content", Json.JStr "Be brief.")]]
            ++ ms /\
    Forall2 (fun msg m =>
               Json.get "role" m = Json.get "role" msg /\
               @Convert.convertContent Demo.runtime (Json.get "content" msg)
                 = Json.get "content" m)
            Cases.chat ms.
Proof.
  eexists.
  assert (E : @Convert.convertMessages Demo.runtime Cases.chat (Some (Json.JStr "Be brief."))
              = Some _) by (vm_compute; reflexivity).
  destruct (proj1 (@conversion_keeps_messages Demo.runtime Cases.chat
                     (Some (Json.JStr "Be brief.")) _ E))
    as (ms & O & F).
  exists ms. split; [exact E|]. split; [exact O | exact F].
Defined.

(** X6 on a PNG part: the data URL that the conversion writes is read
    back by [parseDataUrl]. *)
Lemma data_url_round_trip_witness :
  Imagine.Img2img.parseDataUrl "data:image/png;base64,iVBORw0KGgo="
    = Some ("image/png", "iVBORw0KGgo=").
Proof.
  refine (proj2 (@data_url_round_trip Demo.runtime Cases.pngPart Cases.pngSource
                   "image/png" "iVBORw0KGgo=" _ _ _ _ _ _ _ _ _));
    try reflexivity; discriminate.
Defined.

(** X8 on three calls with a key that may be used twice a day and was
    used once: one more call is counted, and the others are refused. *)
Lemma quota_is_metered_witness :
  exists row',
    rowOfKey (ApiKeys.key (Cases.keyRow 1 2 1))
      (snd (Gateway.serve [Cases.call (Cases.keyRow 1 2 1);
                           Cases.call (Cases.keyRow 1 2 1);
                           Cases.call (Cases.keyRow 1 2 1)] Cases.store))
      = Some row' /\
    ApiKeys.daily_usage row' = 2%Z.
Proof.
  assert (C : constrained Cases.store).
  { split; repeat constructor; cbn; intuition discriminate. }
  destruct (quota_is_metered
              [Cases.call (Cases.keyRow 1 2 1); Cases.call (Cases.keyRow 1 2 1);
               Cases.call (Cases.keyRow 1 2 1)]
              Cases.store _ _ (ApiKeys.key (Cases.keyRow 1 2 1)) (Cases.keyRow 1 2 1)
              C (surjective_pairing _) eq_refl)
    as (row' & R & _ & _ & U & _).
  exists row'. split; [exact R|].
  rewrite U. vm_compute. reflexivity.
Defined.

(** X9 on a generator that returns 0, 1/4, 1/2, 3/4 in turn. *)
Lemma generated_key_format_witness :
  String.length (ApiKeys.generateApiKey Cases.quarters) = 51.
Proof.
  assert (R : forall i, i < 48 ->
                (0 <= Cases.quarters i)%Q /\ (Cases.quarters i < 1)%Q).
  { intros i _. unfold Cases.quarters.
    pose proof (Nat.mod_upper_bound i 4 ltac:(discriminate)) as B.
    set (m := i mod 4) in *. clearbody m.
    unfold Qle, Qlt, Qdiv, Qmult, Qinv, inject_Z. cbn. lia. }
  destruct (generated_key_format Cases.quarters R) as (s & _ & _ & L & _).
  exact L.
Defined.

(** X12 on the store of the examples: a third key is created, and a call
    that presents it passes the middleware. *)
Lemma created_key_is_admitted_witness :
  exists row db',
    @ApiKeys.createApiKey Cases.dates Cases.store "ci" "key_3" "sk-new" 30
      = Some (Some row, db') /\
    ApiKeys.getApiKey db' "key_3" = Some row /\
    exists a,
      fst (Gateway.apiAuthMiddleware (Some "sk-new") None 31
             (fun info db => (key_id info, db)) db') = inr a.
Proof.
  assert (C : constrained Cases.store).
  { split; repeat constructor; cbn; intuition discriminate. }
  destruct (@created_key_is_admitted Cases.dates Cases.store _ "ci" "key_3" "sk-new" 30%Z _
              C eq_refl)
    as (row & R & _ & _ & _ & _ & _ & _ & G & _ & _ & _ & A).
  injection R as R. subst row.
  eexists. eexists. split; [reflexivity|]. split; [exact G|].
  apply A. discriminate.
Defined.

(** X13 on the first key of the store of the examples: after its
    deletion the key is unknown, and the second key is still there. *)
Lemma revoked_key_is_refused_witness :
  fst (ApiKeys.deleteApiKey Cases.store "key_1") = true /\
  rowOfKey (ApiKeys.key (Cases.keyRow 2 0 0))
    (snd (ApiKeys.deleteApiKey Cases.store "key_1"))
  = rowOfKey (ApiKeys.key (Cases.keyRow 2 0 0)) Cases.store.
Proof.
  assert (C : constrained Cases.store).
  { split; repeat constructor; cbn; intuition discriminate. }
  destruct (revoked_key_is_refused Cases.store (ApiKeys.key (Cases.keyRow 1 2 1))
              (Cases.keyRow 1 2 1) C eq_refl ltac:(discriminate))
    as (D & _ & _ & O).
  split; [exact D|].
  exact (proj1 (O (ApiKeys.key (Cases.keyRow 2 0 0)) ltac:(discriminate))).
Defined.

(** X16 on the store of the examples: the listing answers, and it lists
    as many keys as the store holds rows. *)
Lemma listed_keys_are_masked_witness :
  exists body ks,
    @ApiKeyRoutes.getKeys Cases.dates Cases.store = ApiKeyRoutes.Answers 200 body /\
    Json.get "keys" body = Some (Json.JArr ks) /\
    List.length ks = List.length (ApiKeys.listApiKeys Cases.store).
Proof.
  eexists.
  assert (E : @ApiKeyRoutes.getKeys Cases.dates Cases.store = ApiKeyRoutes.Answers 200 _)
    by (vm_compute; reflexivity).
  destruct (@listed_keys_are_masked Cases.dates Cases.store _ E) as (ks & K & F).
  exists ks. split; [exact E|]. split; [exact K|].
  symmetry. exact (Forall2_length F).
Defined.

(** X17 on the store of the examples: the total of the listing is the
    number of rows. *)
Lemma stats_match_the_list_witness :
  exists body ks,
    @ApiKeyRoutes.getKeys Cases.dates Cases.store = ApiKeyRoutes.Answers 200 body /\
    Json.get "keys" body = Some (Json.JArr ks) /\
    Json.get "total" body = Some (Json.jnat (List.length ks)) /\
    List.length ks = 2.
Proof.
  eexists.
  assert (E : @ApiKeyRoutes.getKeys Cases.dates Cases.store = ApiKeyRoutes.Answers 200 _)
    by (vm_compute; reflexivity).
  destruct (@stats_match_the_list Cases.dates Cases.store _ E)
    as (_ & _ & ks & K & L & T & _).
  exists ks. split; [exact E|]. split; [exact K|]. split; [exact T | exact L].
Defined.

(** X18 on the store of the examples: the table after a reset of the
    daily counters still satisfies its constraints. *)
Lemma store_keeps_its_constraints_witness :
  constrained (ApiKeys.resetDailyUsage Cases.store) /\
  flagged (ApiKeys.resetDailyUsage Cases.store).
Proof.
  assert (C : constrained Cases.store).
  { split; repeat constructor; cbn; intuition discriminate. }
  assert (F : flagged Cases.store).
  { intros r [<-|[<-|[]]]; right; reflexivity. }
  exact (proj1 (proj2 (proj2 (@store_keeps_its_constraints Cases.dates Cases.store C F)))).
Defined.


(** X20 on a credential that completes a video. *)
Lemma video_done_follows_complete_witness :
  exists evs pre,
    Video.video None [Cases.oneVideo] = Some evs /\
    evs = pre ++ [Imagine.doneEvent] /\
    named "complete" pre <> [].
Proof.
  eexists.
  assert (E : Video.video None [Cases.oneVideo] = Some _) by (vm_compute; reflexivity).
  destruct (video_done_follows_complete None [Cases.oneVideo] _ E)
    as [N|(pre & L & _ & C)].
  - discriminate N.
  - exists pre. split; [exact E|]. split; [exact L | exact C].
Defined.

(** X25 on an upload that is answered 429: the turn goes on with the
    next credential. *)
Lemma upstream_429_rotates_witness :
  exists st',
    @Imagine.Img2img.turn Demo.runtime None "a lighthouse" 4%Q "upload.png" "image/png"
      "iVBORw0KGgo=" Cases.uploadLimited Imagine.Img2img.init = Continue st' /\
    Imagine.Img2img.retryCount st' = 1 /\
    Imagine.Img2img.excludedTokenIds st' = [id (Demo.credential 1)].
Proof.
  destruct (@upstream_429_rotates Demo.runtime None "a lighthouse" 4%Q "upload.png"
              "image/png" "iVBORw0KGgo=" Cases.uploadLimited Imagine.Img2img.init
              (Demo.credential 1) eq_refl
              (or_introl (ex_intro _ _ (ex_intro _ _ eq_refl))))
    as (st' & T & R & X & _).
  exists st'. split; [exact T|]. split; [exact R | exact X].
Defined.


(** X28 on a request for one image that the first credential delivers. *)
Lemma generate_done_means_images_witness :
  exists evs pre,
    Imagine.Generate.generate (Scenario.generateRequest (Some 1%Q)) [Cases.oneImage]
      = Some evs /\
    evs = pre ++ [Imagine.doneEvent] /\
    named "image" pre <> [].
Proof.
  eexists.
  assert (E : Imagine.Generate.generate (Scenario.generateRequest (Some 1%Q))
                [Cases.oneImage] = Some _) by (vm_compute; reflexivity).
  destruct (proj1 (generate_done_means_images _ _ _ E)) as [N|(pre & L & _ & I)].
  - discriminate N.
  - exists pre. split; [exact E|]. split; [exact L | exact I].
Defined.

(** X29 on an edit whose stream lists one URL. *)
Lemma img2img_done_means_images_witness :
  exists evs posted pre,
    @Imagine.Img2img.img2img Demo.runtime (Scenario.img2imgRequest (Some 1%Q))
      [Scenario.editTurn 1 {| chunks := [Scenario.frame [Scenario.asset 1]];
                              readError := None |}]
      = Some (Imagine.Img2img.Streamed evs posted) /\
    evs = pre ++ [Imagine.doneEvent] /\
    named "image" pre <> [].
Proof.
  eexists. eexists.
  assert (E : @Imagine.Img2img.img2img Demo.runtime (Scenario.img2imgRequest (Some 1%Q))
                [Scenario.editTurn 1 {| chunks := [Scenario.frame [Scenario.asset 1]];
                                        readError := None |}]
              = Some (Imagine.Img2img.Streamed _ _)) by (vm_compute; reflexivity).
  destruct (@img2img_done_means_images Demo.runtime _ _ _ _ E) as [N|(pre & L & _ & I)].
  - discriminate N.
  - exists pre. split; [exact E|]. split; [exact L | exact I].
Defined.

(** X30 on two attempts, the first of which loses its connection: the
    PNG of the request is uploaded on each credential. *)
Lemma each_attempt_uploads_afresh_witness :
  exists evs posted,
    @Imagine.Img2img.img2img Demo.runtime (Scenario.img2imgRequest None)
      Scenario.repeatedAcrossRetries
      = Some (Imagine.Img2img.Streamed evs posted) /\
    Attempts "upload.png" "image/png" "iVBORw0KGgo=" posted /\
    List.length posted = 4.
Proof.
  eexists. eexists.
  assert (E : @Imagine.Img2img.img2img Demo.runtime (Scenario.img2imgRequest None)
                Scenario.repeatedAcrossRetries
              = Some (Imagine.Img2img.Streamed _ _)) by (vm_compute; reflexivity).
  destruct (@each_attempt_uploads_afresh Demo.runtime _ _ _ _ E)
    as (mimeType & content & P & A).
  split; [exact E|].
  injection P as <- <-. split; [exact A | reflexivity].
Defined.
